(** * Host-side bookkeeping of the OptiX utility layer: a shallow embedding

    The development models the scene graph of [optix_util.cpp] (Scene,
    GeometryInstance, GeometryAccelerationStructure, Transform, Instance,
    InstanceAccelerationStructure), the record packing helper [SizeAlign] of
    [optix_util_private.h], the layout of the hit-group shader binding table
    and the build / compact / update life cycle of acceleration structures.

    Conventions.
    - [uint32_t] values are integers in [Z]; every arithmetic operation of the
      source on that type is followed by an explicit reduction [u32].
    - Objects live in arenas indexed by natural numbers; a C++ pointer is
      such an index, a null pointer is [None].
    - A member function that can throw is a function of the world returning
      the new world and a [result]; the world a throwing call leaves behind is
      the world at the point of the throw.
    - [float] is IEEE binary32, taken from the standard library's
      [SpecFloat] with [prec = 24] and [emax = 128]. *)

From Stdlib Require Import ZArith List Bool String Lia.
From Stdlib Require Import Floats.SpecFloat.
From stdpp Require Import base numbers option list gmap.

Local Open Scope Z_scope.

(* ===================================================================== *)
(** * Machine integers *)
(* ===================================================================== *)

Definition u32_modulus : Z := 2 ^ 32.

(** Reduction of an integer to the range of [uint32_t]. *)
Definition u32 (x : Z) : Z := x mod u32_modulus.

(** Reduction to the range of [unsigned short]. *)
Definition u16 (x : Z) : Z := x mod 2 ^ 16.

(** [size_t] on the 64-bit hosts the library targets. *)
Definition u64 (x : Z) : Z := x mod 2 ^ 64.

Definition u32_add (a b : Z) : Z := u32 (a + b).
Definition u32_sub (a b : Z) : Z := u32 (a - b).
Definition u32_mul (a b : Z) : Z := u32 (a * b).

(** [~x] on a [uint32_t]. *)
Definition u32_not (x : Z) : Z := u32 (Z.lnot x).

(** [static_cast<uint32_t>(v.size())]. *)
Definition size32 {A} (l : list A) : Z := u32 (Z.of_nat (length l)).

(* ===================================================================== *)
(** * Outcomes of calls *)
(* ===================================================================== *)

(** The three ways a call of the library ends other than by returning:
    [throwRuntimeError] (a failed precondition), a failed [OPTIX_CHECK] or
    [CUDADRV_CHECK] (the backend refused), and behaviour the C++ standard
    leaves undefined (a dangling pointer, an index outside a vector). *)
Inductive error : Type :=
| RuntimeError (msg : string)
| BackendError (call : string)
| Undefined (what : string).

Inductive result (A : Type) : Type :=
| Ok (a : A)
| Err (e : error).
Arguments Ok {A} a.
Arguments Err {A} e.

Definition is_validation_error {A} (r : result A) : Prop :=
  exists msg, r = Err (RuntimeError msg).

Definition is_validation_errorb {A} (r : result A) : bool :=
  match r with
  | Err (RuntimeError _) => true
  | _ => false
  end.

Definition is_ok {A} (r : result A) : bool :=
  match r with Ok _ => true | Err _ => false end.

(** Pure computations that may throw. *)
Definition rbind {A B} (r : result A) (k : A -> result B) : result B :=
  match r with
  | Ok a => k a
  | Err e => Err e
  end.

(** [throwRuntimeError(expr, fmt, ...)]: throws when [expr] is false. *)
Definition throwRuntimeError (expr : bool) (fmt : string) : result unit :=
  if expr then Ok tt else Err (RuntimeError fmt).

(** Dereference of a pointer into an arena. *)
Definition deref {A} (arena : gmap nat A) (p : nat) (what : string) : result A :=
  match arena !! p with
  | Some a => Ok a
  | None => Err (Undefined what)
  end.

(** [v[i]] on a [std::vector]: undefined outside the bounds. *)
Definition vec_at {A} (v : list A) (i : Z) (what : string) : result A :=
  if (0 <=? i) && (i <? Z.of_nat (length v))
  then match v !! Z.to_nat i with
       | Some a => Ok a
       | None => Err (Undefined what)
       end
  else Err (Undefined what).

(** [v.resize(n, x)]. *)
Definition vec_resize {A} (v : list A) (n : nat) (x : A) : list A :=
  take n v ++ replicate (n - length v) x.

(* ===================================================================== *)
(** * SizeAlign (optix_util_private.h) *)
(* ===================================================================== *)

Module SizeAlign.

Record t : Type := mk { size : Z; alignment : Z }.

(** [constexpr SizeAlign() : size(0), alignment(1)]. *)
Definition default : t := mk 0 1.

(** [add(sa, &offset)]: the new accumulator and the offset written through
    the pointer. *)
Definition add (self sa : t) : t * Z :=
  let mask := u32_sub (alignment sa) 1 in
  let alignment' := Z.max (alignment self) (alignment sa) in
  let size1 := Z.land (u32_add (size self) mask) (u32_not mask) in
  let offset := size1 in
  (mk (u32_add size1 (size sa)) alignment', offset).

(** [operator+=]: [add(sa, nullptr)]. *)
Definition add_assign (self sa : t) : t := fst (add self sa).

Definition alignUp (self : t) : t :=
  let mask := u32_sub (alignment self) 1 in
  mk (Z.land (u32_add (size self) mask) (u32_not mask)) (alignment self).

(** The free function [max(sa0, sa1)]. *)
Definition max (sa0 sa1 : t) : t :=
  mk (Z.max (size sa0) (size sa1)) (Z.max (alignment sa0) (alignment sa1)).

(** Appending a sequence of items, collecting the offsets [add] returns. *)
Fixpoint add_all (self : t) (items : list t) : t * list Z :=
  match items with
  | [] => (self, [])
  | sa :: rest =>
      let '(self1, off) := add self sa in
      let '(self2, offs) := add_all self1 rest in
      (self2, off :: offs)
  end.

End SizeAlign.


(* ===================================================================== *)
(** * Constants and types of the OptiX SDK and of the public header *)
(* ===================================================================== *)

(** The SDK headers ([optix.h]) are not part of the sources: the constants
    the code takes from them are parameters of the development. *)
Class OptixSDK : Type := {
  OPTIX_SBT_RECORD_HEADER_SIZE : Z;
  OPTIX_SBT_RECORD_ALIGNMENT : Z;
  OPTIX_BUILD_FLAG_ALLOW_UPDATE : Z;
  OPTIX_BUILD_FLAG_ALLOW_COMPACTION : Z;
  OPTIX_BUILD_FLAG_PREFER_FAST_TRACE : Z;
  OPTIX_BUILD_FLAG_PREFER_FAST_BUILD : Z;
  OPTIX_BUILD_FLAG_ALLOW_RANDOM_VERTEX_ACCESS : Z;
  OPTIX_GEOMETRY_FLAG_NONE : Z;
  OPTIX_INDICES_FORMAT_NONE : Z;
  OPTIX_VERTEX_FORMAT_NONE : Z;
  OPTIX_INSTANCE_FLAG_NONE : Z;
  OPTIX_MOTION_FLAG_NONE : Z;
  sizeof_OptixInstance : Z;
  sizeof_OptixStaticTransform : Z;
  sizeof_OptixMatrixMotionTransform : Z;
  sizeof_OptixSRTMotionTransform : Z;
  sizeof_OptixSRTData : Z;
}.

(** What the life-cycle checks need of the build flags: the two flags the
    code tests with [&] are non-zero bit patterns that share no bit with
    each other nor with any other flag [prepareForBuild] may set. *)
Definition build_flags_independent `{OptixSDK} : Prop :=
  let others := [OPTIX_BUILD_FLAG_PREFER_FAST_TRACE;
                 OPTIX_BUILD_FLAG_PREFER_FAST_BUILD;
                 OPTIX_BUILD_FLAG_ALLOW_RANDOM_VERTEX_ACCESS] in
  0 < OPTIX_BUILD_FLAG_ALLOW_UPDATE /\
  0 < OPTIX_BUILD_FLAG_ALLOW_COMPACTION /\
  Z.land OPTIX_BUILD_FLAG_ALLOW_UPDATE OPTIX_BUILD_FLAG_ALLOW_COMPACTION = 0 /\
  Forall (fun f => 0 <= f /\
                   Z.land f OPTIX_BUILD_FLAG_ALLOW_UPDATE = 0 /\
                   Z.land f OPTIX_BUILD_FLAG_ALLOW_COMPACTION = 0) others.

(** IEEE binary32. *)
Definition float : Type := spec_float.
Definition f32_prec : Z := 24.
Definition f32_emax : Z := 128.
Definition fmul : float -> float -> float := SFmul f32_prec f32_emax.
Definition fadd : float -> float -> float := SFadd f32_prec f32_emax.
Definition fsub : float -> float -> float := SFsub f32_prec f32_emax.
Definition fdiv : float -> float -> float := SFdiv f32_prec f32_emax.
Definition fneg : float -> float := SFopp.
(** [x != y] on floats: true also when either side is a NaN. *)
Definition fneb (x y : float) : bool := negb (SFeqb x y).
Definition f0 : float := S754_zero false.
Definition f1 : float := S754_finite false 8388608 (-23).

(** Modelled from the spec: [BufferView] is declared in a header that is not
    part of the sources; section 6 of the design describes it as a (device
    pointer, element stride, element count, validity) tuple. *)
Record BufferView : Type := mkBufferView {
  bv_devicePtr : Z;
  bv_numElements : Z;
  bv_stride : Z;
  bv_isValid : bool;
}.

Definition BufferView_default : BufferView := mkBufferView 0 0 0 false.
Definition sizeInBytes (b : BufferView) : Z := u64 (bv_numElements b * bv_stride b).
Definition getCUdeviceptr (b : BufferView) : Z := bv_devicePtr b.

(** Enumerations of the public header, reconstructed from their uses. *)
Inductive ASTradeoff : Type := Default | PreferFastTrace | PreferFastBuild.
Inductive TransformType : Type := MatrixMotion | SRTMotion | Static | InvalidTransform.
Inductive ChildType : Type := ChildGAS | ChildIAS | ChildTransform | ChildInvalid.
Inductive OptixBuildOperation : Type := OPERATION_UNSET | OPERATION_BUILD | OPERATION_UPDATE.
Inductive OptixTransformFormat : Type := TRANSFORM_FORMAT_NONE | TRANSFORM_FORMAT_MATRIX_FLOAT12.

Global Instance ASTradeoff_eq_dec : EqDecision ASTradeoff.
Proof. solve_decision. Defined.
Global Instance TransformType_eq_dec : EqDecision TransformType.
Proof. solve_decision. Defined.
Global Instance ChildType_eq_dec : EqDecision ChildType.
Proof. solve_decision. Defined.


(** [OptixMotionOptions] of the SDK, whose header is not part of the
    sources: [numKeys] and [flags] are [unsigned short] there ([std::max
    <uint32_t>(m->buildOptions.motionOptions.numKeys, 1u)] in
    [prepareForBuild] names the type the field has not), so what the code
    assigns to them is reduced by [u16]. *)
Record OptixMotionOptions : Type := mkMotionOptions {
  mo_numKeys : Z;
  mo_timeBegin : float;
  mo_timeEnd : float;
  mo_flags : Z;
}.

Definition set_mo_numKeys (v : Z) (x : OptixMotionOptions) : OptixMotionOptions :=
  mkMotionOptions v (mo_timeBegin x) (mo_timeEnd x) (mo_flags x).
Definition set_mo_timeBegin (v : float) (x : OptixMotionOptions) : OptixMotionOptions :=
  mkMotionOptions (mo_numKeys x) v (mo_timeEnd x) (mo_flags x).
Definition set_mo_timeEnd (v : float) (x : OptixMotionOptions) : OptixMotionOptions :=
  mkMotionOptions (mo_numKeys x) (mo_timeBegin x) v (mo_flags x).
Definition set_mo_flags (v : Z) (x : OptixMotionOptions) : OptixMotionOptions :=
  mkMotionOptions (mo_numKeys x) (mo_timeBegin x) (mo_timeEnd x) v.

Record OptixAccelBuildOptions : Type := mkBuildOptions {
  bo_buildFlags : Z;
  bo_operation : OptixBuildOperation;
  bo_motionOptions : OptixMotionOptions;
}.

Definition set_bo_buildFlags (v : Z) (x : OptixAccelBuildOptions) : OptixAccelBuildOptions :=
  mkBuildOptions v (bo_operation x) (bo_motionOptions x).
Definition set_bo_operation (v : OptixBuildOperation) (x : OptixAccelBuildOptions) : OptixAccelBuildOptions :=
  mkBuildOptions (bo_buildFlags x) v (bo_motionOptions x).
Definition set_bo_motionOptions (v : OptixMotionOptions) (x : OptixAccelBuildOptions) : OptixAccelBuildOptions :=
  mkBuildOptions (bo_buildFlags x) (bo_operation x) v.

Record OptixAccelBufferSizes : Type := mkBufferSizes {
  outputSizeInBytes : Z;
  tempSizeInBytes : Z;
  tempUpdateSizeInBytes : Z;
}.

(** The members of [OptixBuildInput] the library writes.  A pointer into
    the arrays a geometry instance owns ([vertexBufferArray],
    [primitiveAabbBufferArray], [buildInputFlags.data()]) is recorded as the
    index of that geometry instance. *)
Record OptixBuildInputTriangleArray : Type := mkTriangleArray {
  tri_vertexBuffers : option nat;
  tri_numVertices : Z;
  tri_vertexFormat : Z;
  tri_vertexStrideInBytes : Z;
  tri_indexBuffer : Z;
  tri_indexStrideInBytes : Z;
  tri_numIndexTriplets : Z;
  tri_indexFormat : Z;
  tri_primitiveIndexOffset : Z;
  tri_numSbtRecords : Z;
  tri_sbtIndexOffsetBuffer : Z;
  tri_sbtIndexOffsetSizeInBytes : Z;
  tri_sbtIndexOffsetStrideInBytes : Z;
  tri_preTransform : Z;
  tri_transformFormat : OptixTransformFormat;
  tri_flags : option nat;
}.

Definition set_tri_vertexBuffers (v : option nat) (x : OptixBuildInputTriangleArray) : OptixBuildInputTriangleArray :=
  mkTriangleArray v (tri_numVertices x) (tri_vertexFormat x) (tri_vertexStrideInBytes
    x) (tri_indexBuffer x) (tri_indexStrideInBytes x) (tri_numIndexTriplets x)
    (tri_indexFormat x) (tri_primitiveIndexOffset x) (tri_numSbtRecords x)
    (tri_sbtIndexOffsetBuffer x) (tri_sbtIndexOffsetSizeInBytes x)
    (tri_sbtIndexOffsetStrideInBytes x) (tri_preTransform x) (tri_transformFormat x)
    (tri_flags x).
Definition set_tri_numVertices (v : Z) (x : OptixBuildInputTriangleArray) : OptixBuildInputTriangleArray :=
  mkTriangleArray (tri_vertexBuffers x) v (tri_vertexFormat x) (tri_vertexStrideInBytes
    x) (tri_indexBuffer x) (tri_indexStrideInBytes x) (tri_numIndexTriplets x)
    (tri_indexFormat x) (tri_primitiveIndexOffset x) (tri_numSbtRecords x)
    (tri_sbtIndexOffsetBuffer x) (tri_sbtIndexOffsetSizeInBytes x)
    (tri_sbtIndexOffsetStrideInBytes x) (tri_preTransform x) (tri_transformFormat x)
    (tri_flags x).
Definition set_tri_vertexFormat (v : Z) (x : OptixBuildInputTriangleArray) : OptixBuildInputTriangleArray :=
  mkTriangleArray (tri_vertexBuffers x) (tri_numVertices x) v (tri_vertexStrideInBytes
    x) (tri_indexBuffer x) (tri_indexStrideInBytes x) (tri_numIndexTriplets x)
    (tri_indexFormat x) (tri_primitiveIndexOffset x) (tri_numSbtRecords x)
    (tri_sbtIndexOffsetBuffer x) (tri_sbtIndexOffsetSizeInBytes x)
    (tri_sbtIndexOffsetStrideInBytes x) (tri_preTransform x) (tri_transformFormat x)
    (tri_flags x).
Definition set_tri_vertexStrideInBytes (v : Z) (x : OptixBuildInputTriangleArray) : OptixBuildInputTriangleArray :=
  mkTriangleArray (tri_vertexBuffers x) (tri_numVertices x) (tri_vertexFormat x) v
    (tri_indexBuffer x) (tri_indexStrideInBytes x) (tri_numIndexTriplets x)
    (tri_indexFormat x) (tri_primitiveIndexOffset x) (tri_numSbtRecords x)
    (tri_sbtIndexOffsetBuffer x) (tri_sbtIndexOffsetSizeInBytes x)
    (tri_sbtIndexOffsetStrideInBytes x) (tri_preTransform x) (tri_transformFormat x)
    (tri_flags x).
Definition set_tri_indexBuffer (v : Z) (x : OptixBuildInputTriangleArray) : OptixBuildInputTriangleArray :=
  mkTriangleArray (tri_vertexBuffers x) (tri_numVertices x) (tri_vertexFormat x)
    (tri_vertexStrideInBytes x) v (tri_indexStrideInBytes x) (tri_numIndexTriplets x)
    (tri_indexFormat x) (tri_primitiveIndexOffset x) (tri_numSbtRecords x)
    (tri_sbtIndexOffsetBuffer x) (tri_sbtIndexOffsetSizeInBytes x)
    (tri_sbtIndexOffsetStrideInBytes x) (tri_preTransform x) (tri_transformFormat x)
    (tri_flags x).
Definition set_tri_indexStrideInBytes (v : Z) (x : OptixBuildInputTriangleArray) : OptixBuildInputTriangleArray :=
  mkTriangleArray (tri_vertexBuffers x) (tri_numVertices x) (tri_vertexFormat x)
    (tri_vertexStrideInBytes x) (tri_indexBuffer x) v (tri_numIndexTriplets x)
    (tri_indexFormat x) (tri_primitiveIndexOffset x) (tri_numSbtRecords x)
    (tri_sbtIndexOffsetBuffer x) (tri_sbtIndexOffsetSizeInBytes x)
    (tri_sbtIndexOffsetStrideInBytes x) (tri_preTransform x) (tri_transformFormat x)
    (tri_flags x).
Definition set_tri_numIndexTriplets (v : Z) (x : OptixBuildInputTriangleArray) : OptixBuildInputTriangleArray :=
  mkTriangleArray (tri_vertexBuffers x) (tri_numVertices x) (tri_vertexFormat x)
    (tri_vertexStrideInBytes x) (tri_indexBuffer x) (tri_indexStrideInBytes x) v
    (tri_indexFormat x) (tri_primitiveIndexOffset x) (tri_numSbtRecords x)
    (tri_sbtIndexOffsetBuffer x) (tri_sbtIndexOffsetSizeInBytes x)
    (tri_sbtIndexOffsetStrideInBytes x) (tri_preTransform x) (tri_transformFormat x)
    (tri_flags x).
Definition set_tri_indexFormat (v : Z) (x : OptixBuildInputTriangleArray) : OptixBuildInputTriangleArray :=
  mkTriangleArray (tri_vertexBuffers x) (tri_numVertices x) (tri_vertexFormat x)
    (tri_vertexStrideInBytes x) (tri_indexBuffer x) (tri_indexStrideInBytes x)
    (tri_numIndexTriplets x) v (tri_primitiveIndexOffset x) (tri_numSbtRecords x)
    (tri_sbtIndexOffsetBuffer x) (tri_sbtIndexOffsetSizeInBytes x)
    (tri_sbtIndexOffsetStrideInBytes x) (tri_preTransform x) (tri_transformFormat x)
    (tri_flags x).
Definition set_tri_primitiveIndexOffset (v : Z) (x : OptixBuildInputTriangleArray) : OptixBuildInputTriangleArray :=
  mkTriangleArray (tri_vertexBuffers x) (tri_numVertices x) (tri_vertexFormat x)
    (tri_vertexStrideInBytes x) (tri_indexBuffer x) (tri_indexStrideInBytes x)
    (tri_numIndexTriplets x) (tri_indexFormat x) v (tri_numSbtRecords x)
    (tri_sbtIndexOffsetBuffer x) (tri_sbtIndexOffsetSizeInBytes x)
    (tri_sbtIndexOffsetStrideInBytes x) (tri_preTransform x) (tri_transformFormat x)
    (tri_flags x).
Definition set_tri_numSbtRecords (v : Z) (x : OptixBuildInputTriangleArray) : OptixBuildInputTriangleArray :=
  mkTriangleArray (tri_vertexBuffers x) (tri_numVertices x) (tri_vertexFormat x)
    (tri_vertexStrideInBytes x) (tri_indexBuffer x) (tri_indexStrideInBytes x)
    (tri_numIndexTriplets x) (tri_indexFormat x) (tri_primitiveIndexOffset x) v
    (tri_sbtIndexOffsetBuffer x) (tri_sbtIndexOffsetSizeInBytes x)
    (tri_sbtIndexOffsetStrideInBytes x) (tri_preTransform x) (tri_transformFormat x)
    (tri_flags x).
Definition set_tri_sbtIndexOffsetBuffer (v : Z) (x : OptixBuildInputTriangleArray) : OptixBuildInputTriangleArray :=
  mkTriangleArray (tri_vertexBuffers x) (tri_numVertices x) (tri_vertexFormat x)
    (tri_vertexStrideInBytes x) (tri_indexBuffer x) (tri_indexStrideInBytes x)
    (tri_numIndexTriplets x) (tri_indexFormat x) (tri_primitiveIndexOffset x)
    (tri_numSbtRecords x) v (tri_sbtIndexOffsetSizeInBytes x)
    (tri_sbtIndexOffsetStrideInBytes x) (tri_preTransform x) (tri_transformFormat x)
    (tri_flags x).
Definition set_tri_sbtIndexOffsetSizeInBytes (v : Z) (x : OptixBuildInputTriangleArray) : OptixBuildInputTriangleArray :=
  mkTriangleArray (tri_vertexBuffers x) (tri_numVertices x) (tri_vertexFormat x)
    (tri_vertexStrideInBytes x) (tri_indexBuffer x) (tri_indexStrideInBytes x)
    (tri_numIndexTriplets x) (tri_indexFormat x) (tri_primitiveIndexOffset x)
    (tri_numSbtRecords x) (tri_sbtIndexOffsetBuffer x) v
    (tri_sbtIndexOffsetStrideInBytes x) (tri_preTransform x) (tri_transformFormat x)
    (tri_flags x).
Definition set_tri_sbtIndexOffsetStrideInBytes (v : Z) (x : OptixBuildInputTriangleArray) : OptixBuildInputTriangleArray :=
  mkTriangleArray (tri_vertexBuffers x) (tri_numVertices x) (tri_vertexFormat x)
    (tri_vertexStrideInBytes x) (tri_indexBuffer x) (tri_indexStrideInBytes x)
    (tri_numIndexTriplets x) (tri_indexFormat x) (tri_primitiveIndexOffset x)
    (tri_numSbtRecords x) (tri_sbtIndexOffsetBuffer x) (tri_sbtIndexOffsetSizeInBytes
    x) v (tri_preTransform x) (tri_transformFormat x) (tri_flags x).
Definition set_tri_preTransform (v : Z) (x : OptixBuildInputTriangleArray) : OptixBuildInputTriangleArray :=
  mkTriangleArray (tri_vertexBuffers x) (tri_numVertices x) (tri_vertexFormat x)
    (tri_vertexStrideInBytes x) (tri_indexBuffer x) (tri_indexStrideInBytes x)
    (tri_numIndexTriplets x) (tri_indexFormat x) (tri_primitiveIndexOffset x)
    (tri_numSbtRecords x) (tri_sbtIndexOffsetBuffer x) (tri_sbtIndexOffsetSizeInBytes
    x) (tri_sbtIndexOffsetStrideInBytes x) v (tri_transformFormat x) (tri_flags x).
Definition set_tri_transformFormat (v : OptixTransformFormat) (x : OptixBuildInputTriangleArray) : OptixBuildInputTriangleArray :=
  mkTriangleArray (tri_vertexBuffers x) (tri_numVertices x) (tri_vertexFormat x)
    (tri_vertexStrideInBytes x) (tri_indexBuffer x) (tri_indexStrideInBytes x)
    (tri_numIndexTriplets x) (tri_indexFormat x) (tri_primitiveIndexOffset x)
    (tri_numSbtRecords x) (tri_sbtIndexOffsetBuffer x) (tri_sbtIndexOffsetSizeInBytes
    x) (tri_sbtIndexOffsetStrideInBytes x) (tri_preTransform x) v (tri_flags x).
Definition set_tri_flags (v : option nat) (x : OptixBuildInputTriangleArray) : OptixBuildInputTriangleArray :=
  mkTriangleArray (tri_vertexBuffers x) (tri_numVertices x) (tri_vertexFormat x)
    (tri_vertexStrideInBytes x) (tri_indexBuffer x) (tri_indexStrideInBytes x)
    (tri_numIndexTriplets x) (tri_indexFormat x) (tri_primitiveIndexOffset x)
    (tri_numSbtRecords x) (tri_sbtIndexOffsetBuffer x) (tri_sbtIndexOffsetSizeInBytes
    x) (tri_sbtIndexOffsetStrideInBytes x) (tri_preTransform x) (tri_transformFormat x)
    v.

Record OptixBuildInputCustomPrimitiveArray : Type := mkCustomPrimitiveArray {
  cpa_aabbBuffers : option nat;
  cpa_numPrimitives : Z;
  cpa_strideInBytes : Z;
  cpa_primitiveIndexOffset : Z;
  cpa_numSbtRecords : Z;
  cpa_sbtIndexOffsetBuffer : Z;
  cpa_sbtIndexOffsetSizeInBytes : Z;
  cpa_sbtIndexOffsetStrideInBytes : Z;
  cpa_flags : option nat;
}.

Definition set_cpa_aabbBuffers (v : option nat) (x : OptixBuildInputCustomPrimitiveArray) : OptixBuildInputCustomPrimitiveArray :=
  mkCustomPrimitiveArray v (cpa_numPrimitives x) (cpa_strideInBytes x)
    (cpa_primitiveIndexOffset x) (cpa_numSbtRecords x) (cpa_sbtIndexOffsetBuffer x)
    (cpa_sbtIndexOffsetSizeInBytes x) (cpa_sbtIndexOffsetStrideInBytes x) (cpa_flags
    x).
Definition set_cpa_numPrimitives (v : Z) (x : OptixBuildInputCustomPrimitiveArray) : OptixBuildInputCustomPrimitiveArray :=
  mkCustomPrimitiveArray (cpa_aabbBuffers x) v (cpa_strideInBytes x)
    (cpa_primitiveIndexOffset x) (cpa_numSbtRecords x) (cpa_sbtIndexOffsetBuffer x)
    (cpa_sbtIndexOffsetSizeInBytes x) (cpa_sbtIndexOffsetStrideInBytes x) (cpa_flags
    x).
Definition set_cpa_strideInBytes (v : Z) (x : OptixBuildInputCustomPrimitiveArray) : OptixBuildInputCustomPrimitiveArray :=
  mkCustomPrimitiveArray (cpa_aabbBuffers x) (cpa_numPrimitives x) v
    (cpa_primitiveIndexOffset x) (cpa_numSbtRecords x) (cpa_sbtIndexOffsetBuffer x)
    (cpa_sbtIndexOffsetSizeInBytes x) (cpa_sbtIndexOffsetStrideInBytes x) (cpa_flags
    x).
Definition set_cpa_primitiveIndexOffset (v : Z) (x : OptixBuildInputCustomPrimitiveArray) : OptixBuildInputCustomPrimitiveArray :=
  mkCustomPrimitiveArray (cpa_aabbBuffers x) (cpa_numPrimitives x) (cpa_strideInBytes
    x) v (cpa_numSbtRecords x) (cpa_sbtIndexOffsetBuffer x)
    (cpa_sbtIndexOffsetSizeInBytes x) (cpa_sbtIndexOffsetStrideInBytes x) (cpa_flags
    x).
Definition set_cpa_numSbtRecords (v : Z) (x : OptixBuildInputCustomPrimitiveArray) : OptixBuildInputCustomPrimitiveArray :=
  mkCustomPrimitiveArray (cpa_aabbBuffers x) (cpa_numPrimitives x) (cpa_strideInBytes
    x) (cpa_primitiveIndexOffset x) v (cpa_sbtIndexOffsetBuffer x)
    (cpa_sbtIndexOffsetSizeInBytes x) (cpa_sbtIndexOffsetStrideInBytes x) (cpa_flags
    x).
Definition set_cpa_sbtIndexOffsetBuffer (v : Z) (x : OptixBuildInputCustomPrimitiveArray) : OptixBuildInputCustomPrimitiveArray :=
  mkCustomPrimitiveArray (cpa_aabbBuffers x) (cpa_numPrimitives x) (cpa_strideInBytes
    x) (cpa_primitiveIndexOffset x) (cpa_numSbtRecords x) v
    (cpa_sbtIndexOffsetSizeInBytes x) (cpa_sbtIndexOffsetStrideInBytes x) (cpa_flags
    x).
Definition set_cpa_sbtIndexOffsetSizeInBytes (v : Z) (x : OptixBuildInputCustomPrimitiveArray) : OptixBuildInputCustomPrimitiveArray :=
  mkCustomPrimitiveArray (cpa_aabbBuffers x) (cpa_numPrimitives x) (cpa_strideInBytes
    x) (cpa_primitiveIndexOffset x) (cpa_numSbtRecords x) (cpa_sbtIndexOffsetBuffer x)
    v (cpa_sbtIndexOffsetStrideInBytes x) (cpa_flags x).
Definition set_cpa_sbtIndexOffsetStrideInBytes (v : Z) (x : OptixBuildInputCustomPrimitiveArray) : OptixBuildInputCustomPrimitiveArray :=
  mkCustomPrimitiveArray (cpa_aabbBuffers x) (cpa_numPrimitives x) (cpa_strideInBytes
    x) (cpa_primitiveIndexOffset x) (cpa_numSbtRecords x) (cpa_sbtIndexOffsetBuffer x)
    (cpa_sbtIndexOffsetSizeInBytes x) v (cpa_flags x).
Definition set_cpa_flags (v : option nat) (x : OptixBuildInputCustomPrimitiveArray) : OptixBuildInputCustomPrimitiveArray :=
  mkCustomPrimitiveArray (cpa_aabbBuffers x) (cpa_numPrimitives x) (cpa_strideInBytes
    x) (cpa_primitiveIndexOffset x) (cpa_numSbtRecords x) (cpa_sbtIndexOffsetBuffer x)
    (cpa_sbtIndexOffsetSizeInBytes x) (cpa_sbtIndexOffsetStrideInBytes x) v.

Record OptixBuildInputInstanceArray : Type := mkInstanceArray {
  ia_instances : Z;
  ia_numInstances : Z;
}.

Definition set_ia_instances (v : Z) (x : OptixBuildInputInstanceArray) : OptixBuildInputInstanceArray :=
  mkInstanceArray v (ia_numInstances x).
Definition set_ia_numInstances (v : Z) (x : OptixBuildInputInstanceArray) : OptixBuildInputInstanceArray :=
  mkInstanceArray (ia_instances x) v.

(** [OptixBuildInput] is a tagged union; [BuildInputZero] is the value of
    [OptixBuildInput{}]. *)
Inductive OptixBuildInput : Type :=
| BuildInputZero
| BuildInputTriangles (a : OptixBuildInputTriangleArray)
| BuildInputCustomPrimitives (a : OptixBuildInputCustomPrimitiveArray)
| BuildInputInstances (a : OptixBuildInputInstanceArray).

Record OptixInstance : Type := mkOptixInstance {
  oi_transform : list float;
  oi_instanceId : Z;
  oi_sbtOffset : Z;
  oi_visibilityMask : Z;
  oi_flags : Z;
  oi_traversableHandle : Z;
}.

Definition set_oi_transform (v : list float) (x : OptixInstance) : OptixInstance :=
  mkOptixInstance v (oi_instanceId x) (oi_sbtOffset x) (oi_visibilityMask x) (oi_flags
    x) (oi_traversableHandle x).
Definition set_oi_instanceId (v : Z) (x : OptixInstance) : OptixInstance :=
  mkOptixInstance (oi_transform x) v (oi_sbtOffset x) (oi_visibilityMask x) (oi_flags
    x) (oi_traversableHandle x).
Definition set_oi_sbtOffset (v : Z) (x : OptixInstance) : OptixInstance :=
  mkOptixInstance (oi_transform x) (oi_instanceId x) v (oi_visibilityMask x) (oi_flags
    x) (oi_traversableHandle x).
Definition set_oi_visibilityMask (v : Z) (x : OptixInstance) : OptixInstance :=
  mkOptixInstance (oi_transform x) (oi_instanceId x) (oi_sbtOffset x) v (oi_flags x)
    (oi_traversableHandle x).
Definition set_oi_flags (v : Z) (x : OptixInstance) : OptixInstance :=
  mkOptixInstance (oi_transform x) (oi_instanceId x) (oi_sbtOffset x)
    (oi_visibilityMask x) v (oi_traversableHandle x).
Definition set_oi_traversableHandle (v : Z) (x : OptixInstance) : OptixInstance :=
  mkOptixInstance (oi_transform x) (oi_instanceId x) (oi_sbtOffset x)
    (oi_visibilityMask x) (oi_flags x) v.

Definition OptixInstance_zero : OptixInstance :=
  mkOptixInstance (replicate 12 f0) 0 0 0 0 0.

Record OptixSRTData : Type := mkSRT {
  srt_sx : float; srt_a : float; srt_b : float; srt_pvx : float;
  srt_sy : float; srt_c : float; srt_pvy : float;
  srt_sz : float; srt_pvz : float;
  srt_qx : float; srt_qy : float; srt_qz : float; srt_qw : float;
  srt_tx : float; srt_ty : float; srt_tz : float;
}.

(** The byte buffer [Transform::Priv::data], seen through the SDK struct it
    is cast to. *)
Inductive TransformData : Type :=
| DataNull
| DataMatrixMotion (child : Z) (motionOptions : OptixMotionOptions)
                   (transform : list (list float))
| DataSRTMotion (child : Z) (motionOptions : OptixMotionOptions)
                (srtData : list OptixSRTData)
| DataStatic (child : Z) (transform invTransform : list float).

(* ===================================================================== *)
(** * The private classes *)
(* ===================================================================== *)

(** Each class is a record with one update function per member. *)

Module Material.
Record t : Type := mk {
  userDataSizeAlign : SizeAlign.t;
  userData : list Z;
  (** [programs]: (pipeline, ray type) to hit group. *)
  programs : gmap (nat * Z) nat;
}.

Definition set_userDataSizeAlign (v : SizeAlign.t) (x : t) : t :=
  mk v (userData x) (programs x).
Definition set_userData (v : list Z) (x : t) : t :=
  mk (userDataSizeAlign x) v (programs x).
Definition set_programs (v : gmap (nat * Z) nat) (x : t) : t :=
  mk (userDataSizeAlign x) (userData x) v.
End Material.

Module GeometryInstance.
Record t : Type := mk {
  scene : nat;
  userDataSizeAlign : SizeAlign.t;
  userData : list Z;
  numMotionSteps : Z;
  vertexBufferArray : list Z;
  vertexBuffers : list BufferView;
  triangleBuffer : BufferView;
  vertexFormat : Z;
  indexFormat : Z;
  primitiveAabbBufferArray : list Z;
  primitiveAabbBuffers : list BufferView;
  primitiveIndexOffset : Z;
  materialIndexOffsetSize : Z;
  materialIndexOffsetBuffer : BufferView;
  (** one entry per SBT record *)
  buildInputFlags : list Z;
  (** [materials[slot][material set]] *)
  materials : list (list (option nat));
  forCustomPrimitives : bool;
}.

Definition set_scene (v : nat) (x : t) : t :=
  mk v (userDataSizeAlign x) (userData x) (numMotionSteps x) (vertexBufferArray x)
    (vertexBuffers x) (triangleBuffer x) (vertexFormat x) (indexFormat x)
    (primitiveAabbBufferArray x) (primitiveAabbBuffers x) (primitiveIndexOffset x)
    (materialIndexOffsetSize x) (materialIndexOffsetBuffer x) (buildInputFlags x)
    (materials x) (forCustomPrimitives x).
Definition set_userDataSizeAlign (v : SizeAlign.t) (x : t) : t :=
  mk (scene x) v (userData x) (numMotionSteps x) (vertexBufferArray x) (vertexBuffers
    x) (triangleBuffer x) (vertexFormat x) (indexFormat x) (primitiveAabbBufferArray
    x) (primitiveAabbBuffers x) (primitiveIndexOffset x) (materialIndexOffsetSize x)
    (materialIndexOffsetBuffer x) (buildInputFlags x) (materials x)
    (forCustomPrimitives x).
Definition set_userData (v : list Z) (x : t) : t :=
  mk (scene x) (userDataSizeAlign x) v (numMotionSteps x) (vertexBufferArray x)
    (vertexBuffers x) (triangleBuffer x) (vertexFormat x) (indexFormat x)
    (primitiveAabbBufferArray x) (primitiveAabbBuffers x) (primitiveIndexOffset x)
    (materialIndexOffsetSize x) (materialIndexOffsetBuffer x) (buildInputFlags x)
    (materials x) (forCustomPrimitives x).
Definition set_numMotionSteps (v : Z) (x : t) : t :=
  mk (scene x) (userDataSizeAlign x) (userData x) v (vertexBufferArray x)
    (vertexBuffers x) (triangleBuffer x) (vertexFormat x) (indexFormat x)
    (primitiveAabbBufferArray x) (primitiveAabbBuffers x) (primitiveIndexOffset x)
    (materialIndexOffsetSize x) (materialIndexOffsetBuffer x) (buildInputFlags x)
    (materials x) (forCustomPrimitives x).
Definition set_vertexBufferArray (v : list Z) (x : t) : t :=
  mk (scene x) (userDataSizeAlign x) (userData x) (numMotionSteps x) v (vertexBuffers
    x) (triangleBuffer x) (vertexFormat x) (indexFormat x) (primitiveAabbBufferArray
    x) (primitiveAabbBuffers x) (primitiveIndexOffset x) (materialIndexOffsetSize x)
    (materialIndexOffsetBuffer x) (buildInputFlags x) (materials x)
    (forCustomPrimitives x).
Definition set_vertexBuffers (v : list BufferView) (x : t) : t :=
  mk (scene x) (userDataSizeAlign x) (userData x) (numMotionSteps x)
    (vertexBufferArray x) v (triangleBuffer x) (vertexFormat x) (indexFormat x)
    (primitiveAabbBufferArray x) (primitiveAabbBuffers x) (primitiveIndexOffset x)
    (materialIndexOffsetSize x) (materialIndexOffsetBuffer x) (buildInputFlags x)
    (materials x) (forCustomPrimitives x).
Definition set_triangleBuffer (v : BufferView) (x : t) : t :=
  mk (scene x) (userDataSizeAlign x) (userData x) (numMotionSteps x)
    (vertexBufferArray x) (vertexBuffers x) v (vertexFormat x) (indexFormat x)
    (primitiveAabbBufferArray x) (primitiveAabbBuffers x) (primitiveIndexOffset x)
    (materialIndexOffsetSize x) (materialIndexOffsetBuffer x) (buildInputFlags x)
    (materials x) (forCustomPrimitives x).
Definition set_vertexFormat (v : Z) (x : t) : t :=
  mk (scene x) (userDataSizeAlign x) (userData x) (numMotionSteps x)
    (vertexBufferArray x) (vertexBuffers x) (triangleBuffer x) v (indexFormat x)
    (primitiveAabbBufferArray x) (primitiveAabbBuffers x) (primitiveIndexOffset x)
    (materialIndexOffsetSize x) (materialIndexOffsetBuffer x) (buildInputFlags x)
    (materials x) (forCustomPrimitives x).
Definition set_indexFormat (v : Z) (x : t) : t :=
  mk (scene x) (userDataSizeAlign x) (userData x) (numMotionSteps x)
    (vertexBufferArray x) (vertexBuffers x) (triangleBuffer x) (vertexFormat x) v
    (primitiveAabbBufferArray x) (primitiveAabbBuffers x) (primitiveIndexOffset x)
    (materialIndexOffsetSize x) (materialIndexOffsetBuffer x) (buildInputFlags x)
    (materials x) (forCustomPrimitives x).
Definition set_primitiveAabbBufferArray (v : list Z) (x : t) : t :=
  mk (scene x) (userDataSizeAlign x) (userData x) (numMotionSteps x)
    (vertexBufferArray x) (vertexBuffers x) (triangleBuffer x) (vertexFormat x)
    (indexFormat x) v (primitiveAabbBuffers x) (primitiveIndexOffset x)
    (materialIndexOffsetSize x) (materialIndexOffsetBuffer x) (buildInputFlags x)
    (materials x) (forCustomPrimitives x).
Definition set_primitiveAabbBuffers (v : list BufferView) (x : t) : t :=
  mk (scene x) (userDataSizeAlign x) (userData x) (numMotionSteps x)
    (vertexBufferArray x) (vertexBuffers x) (triangleBuffer x) (vertexFormat x)
    (indexFormat x) (primitiveAabbBufferArray x) v (primitiveIndexOffset x)
    (materialIndexOffsetSize x) (materialIndexOffsetBuffer x) (buildInputFlags x)
    (materials x) (forCustomPrimitives x).
Definition set_primitiveIndexOffset (v : Z) (x : t) : t :=
  mk (scene x) (userDataSizeAlign x) (userData x) (numMotionSteps x)
    (vertexBufferArray x) (vertexBuffers x) (triangleBuffer x) (vertexFormat x)
    (indexFormat x) (primitiveAabbBufferArray x) (primitiveAabbBuffers x) v
    (materialIndexOffsetSize x) (materialIndexOffsetBuffer x) (buildInputFlags x)
    (materials x) (forCustomPrimitives x).
Definition set_materialIndexOffsetSize (v : Z) (x : t) : t :=
  mk (scene x) (userDataSizeAlign x) (userData x) (numMotionSteps x)
    (vertexBufferArray x) (vertexBuffers x) (triangleBuffer x) (vertexFormat x)
    (indexFormat x) (primitiveAabbBufferArray x) (primitiveAabbBuffers x)
    (primitiveIndexOffset x) v (materialIndexOffsetBuffer x) (buildInputFlags x)
    (materials x) (forCustomPrimitives x).
Definition set_materialIndexOffsetBuffer (v : BufferView) (x : t) : t :=
  mk (scene x) (userDataSizeAlign x) (userData x) (numMotionSteps x)
    (vertexBufferArray x) (vertexBuffers x) (triangleBuffer x) (vertexFormat x)
    (indexFormat x) (primitiveAabbBufferArray x) (primitiveAabbBuffers x)
    (primitiveIndexOffset x) (materialIndexOffsetSize x) v (buildInputFlags x)
    (materials x) (forCustomPrimitives x).
Definition set_buildInputFlags (v : list Z) (x : t) : t :=
  mk (scene x) (userDataSizeAlign x) (userData x) (numMotionSteps x)
    (vertexBufferArray x) (vertexBuffers x) (triangleBuffer x) (vertexFormat x)
    (indexFormat x) (primitiveAabbBufferArray x) (primitiveAabbBuffers x)
    (primitiveIndexOffset x) (materialIndexOffsetSize x) (materialIndexOffsetBuffer
    x) v (materials x) (forCustomPrimitives x).
Definition set_materials (v : list (list (option nat))) (x : t) : t :=
  mk (scene x) (userDataSizeAlign x) (userData x) (numMotionSteps x)
    (vertexBufferArray x) (vertexBuffers x) (triangleBuffer x) (vertexFormat x)
    (indexFormat x) (primitiveAabbBufferArray x) (primitiveAabbBuffers x)
    (primitiveIndexOffset x) (materialIndexOffsetSize x) (materialIndexOffsetBuffer
    x) (buildInputFlags x) v (forCustomPrimitives x).
Definition set_forCustomPrimitives (v : bool) (x : t) : t :=
  mk (scene x) (userDataSizeAlign x) (userData x) (numMotionSteps x)
    (vertexBufferArray x) (vertexBuffers x) (triangleBuffer x) (vertexFormat x)
    (indexFormat x) (primitiveAabbBufferArray x) (primitiveAabbBuffers x)
    (primitiveIndexOffset x) (materialIndexOffsetSize x) (materialIndexOffsetBuffer
    x) (buildInputFlags x) (materials x) v.
End GeometryInstance.

Module GAS.
Record Child : Type := mkChild { geomInst : nat; preTransform : Z }.

Global Instance Child_eq_dec : EqDecision Child.
Proof. solve_decision. Defined.

Record t : Type := mk {
  scene : nat;
  userDataSizeAlign : SizeAlign.t;
  userData : list Z;
  numRayTypesPerMaterialSet : list Z;
  children : list Child;
  buildInputs : list OptixBuildInput;
  buildOptions : OptixAccelBuildOptions;
  memoryRequirement : OptixAccelBufferSizes;
  compactedSize : Z;
  handle : Z;
  compactedHandle : Z;
  accelBuffer : BufferView;
  compactedAccelBuffer : BufferView;
  tradeoff : ASTradeoff;
  forCustomPrimitives : bool;
  allowUpdate : bool;
  allowCompaction : bool;
  allowRandomVertexAccess : bool;
  readyToBuild : bool;
  available : bool;
  readyToCompact : bool;
  compactedAvailable : bool;
}.

Definition set_scene (v : nat) (x : t) : t :=
  mk v (userDataSizeAlign x) (userData x) (numRayTypesPerMaterialSet x) (children x)
    (buildInputs x) (buildOptions x) (memoryRequirement x) (compactedSize x) (handle
    x) (compactedHandle x) (accelBuffer x) (compactedAccelBuffer x) (tradeoff x)
    (forCustomPrimitives x) (allowUpdate x) (allowCompaction x)
    (allowRandomVertexAccess x) (readyToBuild x) (available x) (readyToCompact x)
    (compactedAvailable x).
Definition set_userDataSizeAlign (v : SizeAlign.t) (x : t) : t :=
  mk (scene x) v (userData x) (numRayTypesPerMaterialSet x) (children x) (buildInputs
    x) (buildOptions x) (memoryRequirement x) (compactedSize x) (handle x)
    (compactedHandle x) (accelBuffer x) (compactedAccelBuffer x) (tradeoff x)
    (forCustomPrimitives x) (allowUpdate x) (allowCompaction x)
    (allowRandomVertexAccess x) (readyToBuild x) (available x) (readyToCompact x)
    (compactedAvailable x).
Definition set_userData (v : list Z) (x : t) : t :=
  mk (scene x) (userDataSizeAlign x) v (numRayTypesPerMaterialSet x) (children x)
    (buildInputs x) (buildOptions x) (memoryRequirement x) (compactedSize x) (handle
    x) (compactedHandle x) (accelBuffer x) (compactedAccelBuffer x) (tradeoff x)
    (forCustomPrimitives x) (allowUpdate x) (allowCompaction x)
    (allowRandomVertexAccess x) (readyToBuild x) (available x) (readyToCompact x)
    (compactedAvailable x).
Definition set_numRayTypesPerMaterialSet (v : list Z) (x : t) : t :=
  mk (scene x) (userDataSizeAlign x) (userData x) v (children x) (buildInputs x)
    (buildOptions x) (memoryRequirement x) (compactedSize x) (handle x)
    (compactedHandle x) (accelBuffer x) (compactedAccelBuffer x) (tradeoff x)
    (forCustomPrimitives x) (allowUpdate x) (allowCompaction x)
    (allowRandomVertexAccess x) (readyToBuild x) (available x) (readyToCompact x)
    (compactedAvailable x).
Definition set_children (v : list Child) (x : t) : t :=
  mk (scene x) (userDataSizeAlign x) (userData x) (numRayTypesPerMaterialSet x) v
    (buildInputs x) (buildOptions x) (memoryRequirement x) (compactedSize x) (handle
    x) (compactedHandle x) (accelBuffer x) (compactedAccelBuffer x) (tradeoff x)
    (forCustomPrimitives x) (allowUpdate x) (allowCompaction x)
    (allowRandomVertexAccess x) (readyToBuild x) (available x) (readyToCompact x)
    (compactedAvailable x).
Definition set_buildInputs (v : list OptixBuildInput) (x : t) : t :=
  mk (scene x) (userDataSizeAlign x) (userData x) (numRayTypesPerMaterialSet x)
    (children x) v (buildOptions x) (memoryRequirement x) (compactedSize x) (handle
    x) (compactedHandle x) (accelBuffer x) (compactedAccelBuffer x) (tradeoff x)
    (forCustomPrimitives x) (allowUpdate x) (allowCompaction x)
    (allowRandomVertexAccess x) (readyToBuild x) (available x) (readyToCompact x)
    (compactedAvailable x).
Definition set_buildOptions (v : OptixAccelBuildOptions) (x : t) : t :=
  mk (scene x) (userDataSizeAlign x) (userData x) (numRayTypesPerMaterialSet x)
    (children x) (buildInputs x) v (memoryRequirement x) (compactedSize x) (handle x)
    (compactedHandle x) (accelBuffer x) (compactedAccelBuffer x) (tradeoff x)
    (forCustomPrimitives x) (allowUpdate x) (allowCompaction x)
    (allowRandomVertexAccess x) (readyToBuild x) (available x) (readyToCompact x)
    (compactedAvailable x).
Definition set_memoryRequirement (v : OptixAccelBufferSizes) (x : t) : t :=
  mk (scene x) (userDataSizeAlign x) (userData x) (numRayTypesPerMaterialSet x)
    (children x) (buildInputs x) (buildOptions x) v (compactedSize x) (handle x)
    (compactedHandle x) (accelBuffer x) (compactedAccelBuffer x) (tradeoff x)
    (forCustomPrimitives x) (allowUpdate x) (allowCompaction x)
    (allowRandomVertexAccess x) (readyToBuild x) (available x) (readyToCompact x)
    (compactedAvailable x).
Definition set_compactedSize (v : Z) (x : t) : t :=
  mk (scene x) (userDataSizeAlign x) (userData x) (numRayTypesPerMaterialSet x)
    (children x) (buildInputs x) (buildOptions x) (memoryRequirement x) v (handle x)
    (compactedHandle x) (accelBuffer x) (compactedAccelBuffer x) (tradeoff x)
    (forCustomPrimitives x) (allowUpdate x) (allowCompaction x)
    (allowRandomVertexAccess x) (readyToBuild x) (available x) (readyToCompact x)
    (compactedAvailable x).
Definition set_handle (v : Z) (x : t) : t :=
  mk (scene x) (userDataSizeAlign x) (userData x) (numRayTypesPerMaterialSet x)
    (children x) (buildInputs x) (buildOptions x) (memoryRequirement x)
    (compactedSize x) v (compactedHandle x) (accelBuffer x) (compactedAccelBuffer x)
    (tradeoff x) (forCustomPrimitives x) (allowUpdate x) (allowCompaction x)
    (allowRandomVertexAccess x) (readyToBuild x) (available x) (readyToCompact x)
    (compactedAvailable x).
Definition set_compactedHandle (v : Z) (x : t) : t :=
  mk (scene x) (userDataSizeAlign x) (userData x) (numRayTypesPerMaterialSet x)
    (children x) (buildInputs x) (buildOptions x) (memoryRequirement x)
    (compactedSize x) (handle x) v (accelBuffer x) (compactedAccelBuffer x) (tradeoff
    x) (forCustomPrimitives x) (allowUpdate x) (allowCompaction x)
    (allowRandomVertexAccess x) (readyToBuild x) (available x) (readyToCompact x)
    (compactedAvailable x).
Definition set_accelBuffer (v : BufferView) (x : t) : t :=
  mk (scene x) (userDataSizeAlign x) (userData x) (numRayTypesPerMaterialSet x)
    (children x) (buildInputs x) (buildOptions x) (memoryRequirement x)
    (compactedSize x) (handle x) (compactedHandle x) v (compactedAccelBuffer x)
    (tradeoff x) (forCustomPrimitives x) (allowUpdate x) (allowCompaction x)
    (allowRandomVertexAccess x) (readyToBuild x) (available x) (readyToCompact x)
    (compactedAvailable x).
Definition set_compactedAccelBuffer (v : BufferView) (x : t) : t :=
  mk (scene x) (userDataSizeAlign x) (userData x) (numRayTypesPerMaterialSet x)
    (children x) (buildInputs x) (buildOptions x) (memoryRequirement x)
    (compactedSize x) (handle x) (compactedHandle x) (accelBuffer x) v (tradeoff x)
    (forCustomPrimitives x) (allowUpdate x) (allowCompaction x)
    (allowRandomVertexAccess x) (readyToBuild x) (available x) (readyToCompact x)
    (compactedAvailable x).
Definition set_tradeoff (v : ASTradeoff) (x : t) : t :=
  mk (scene x) (userDataSizeAlign x) (userData x) (numRayTypesPerMaterialSet x)
    (children x) (buildInputs x) (buildOptions x) (memoryRequirement x)
    (compactedSize x) (handle x) (compactedHandle x) (accelBuffer x)
    (compactedAccelBuffer x) v (forCustomPrimitives x) (allowUpdate x)
    (allowCompaction x) (allowRandomVertexAccess x) (readyToBuild x) (available x)
    (readyToCompact x) (compactedAvailable x).
Definition set_forCustomPrimitives (v : bool) (x : t) : t :=
  mk (scene x) (userDataSizeAlign x) (userData x) (numRayTypesPerMaterialSet x)
    (children x) (buildInputs x) (buildOptions x) (memoryRequirement x)
    (compactedSize x) (handle x) (compactedHandle x) (accelBuffer x)
    (compactedAccelBuffer x) (tradeoff x) v (allowUpdate x) (allowCompaction x)
    (allowRandomVertexAccess x) (readyToBuild x) (available x) (readyToCompact x)
    (compactedAvailable x).
Definition set_allowUpdate (v : bool) (x : t) : t :=
  mk (scene x) (userDataSizeAlign x) (userData x) (numRayTypesPerMaterialSet x)
    (children x) (buildInputs x) (buildOptions x) (memoryRequirement x)
    (compactedSize x) (handle x) (compactedHandle x) (accelBuffer x)
    (compactedAccelBuffer x) (tradeoff x) (forCustomPrimitives x) v (allowCompaction
    x) (allowRandomVertexAccess x) (readyToBuild x) (available x) (readyToCompact x)
    (compactedAvailable x).
Definition set_allowCompaction (v : bool) (x : t) : t :=
  mk (scene x) (userDataSizeAlign x) (userData x) (numRayTypesPerMaterialSet x)
    (children x) (buildInputs x) (buildOptions x) (memoryRequirement x)
    (compactedSize x) (handle x) (compactedHandle x) (accelBuffer x)
    (compactedAccelBuffer x) (tradeoff x) (forCustomPrimitives x) (allowUpdate x) v
    (allowRandomVertexAccess x) (readyToBuild x) (available x) (readyToCompact x)
    (compactedAvailable x).
Definition set_allowRandomVertexAccess (v : bool) (x : t) : t :=
  mk (scene x) (userDataSizeAlign x) (userData x) (numRayTypesPerMaterialSet x)
    (children x) (buildInputs x) (buildOptions x) (memoryRequirement x)
    (compactedSize x) (handle x) (compactedHandle x) (accelBuffer x)
    (compactedAccelBuffer x) (tradeoff x) (forCustomPrimitives x) (allowUpdate x)
    (allowCompaction x) v (readyToBuild x) (available x) (readyToCompact x)
    (compactedAvailable x).
Definition set_readyToBuild (v : bool) (x : t) : t :=
  mk (scene x) (userDataSizeAlign x) (userData x) (numRayTypesPerMaterialSet x)
    (children x) (buildInputs x) (buildOptions x) (memoryRequirement x)
    (compactedSize x) (handle x) (compactedHandle x) (accelBuffer x)
    (compactedAccelBuffer x) (tradeoff x) (forCustomPrimitives x) (allowUpdate x)
    (allowCompaction x) (allowRandomVertexAccess x) v (available x) (readyToCompact
    x) (compactedAvailable x).
Definition set_available (v : bool) (x : t) : t :=
  mk (scene x) (userDataSizeAlign x) (userData x) (numRayTypesPerMaterialSet x)
    (children x) (buildInputs x) (buildOptions x) (memoryRequirement x)
    (compactedSize x) (handle x) (compactedHandle x) (accelBuffer x)
    (compactedAccelBuffer x) (tradeoff x) (forCustomPrimitives x) (allowUpdate x)
    (allowCompaction x) (allowRandomVertexAccess x) (readyToBuild x) v
    (readyToCompact x) (compactedAvailable x).
Definition set_readyToCompact (v : bool) (x : t) : t :=
  mk (scene x) (userDataSizeAlign x) (userData x) (numRayTypesPerMaterialSet x)
    (children x) (buildInputs x) (buildOptions x) (memoryRequirement x)
    (compactedSize x) (handle x) (compactedHandle x) (accelBuffer x)
    (compactedAccelBuffer x) (tradeoff x) (forCustomPrimitives x) (allowUpdate x)
    (allowCompaction x) (allowRandomVertexAccess x) (readyToBuild x) (available x) v
    (compactedAvailable x).
Definition set_compactedAvailable (v : bool) (x : t) : t :=
  mk (scene x) (userDataSizeAlign x) (userData x) (numRayTypesPerMaterialSet x)
    (children x) (buildInputs x) (buildOptions x) (memoryRequirement x)
    (compactedSize x) (handle x) (compactedHandle x) (accelBuffer x)
    (compactedAccelBuffer x) (tradeoff x) (forCustomPrimitives x) (allowUpdate x)
    (allowCompaction x) (allowRandomVertexAccess x) (readyToBuild x) (available x)
    (readyToCompact x) v.
End GAS.

Module Transform.
Record t : Type := mk {
  scene : nat;
  (** the union of [childGas], [childIas] and [childXfm] *)
  child : option nat;
  childType : ChildType;
  data : TransformData;
  dataSize : Z;
  type : TransformType;
  options : OptixMotionOptions;
  handle : Z;
  available : bool;
}.

Definition set_scene (v : nat) (x : t) : t :=
  mk v (child x) (childType x) (data x) (dataSize x) (type x) (options x) (handle x)
    (available x).
Definition set_child (v : option nat) (x : t) : t :=
  mk (scene x) v (childType x) (data x) (dataSize x) (type x) (options x) (handle x)
    (available x).
Definition set_childType (v : ChildType) (x : t) : t :=
  mk (scene x) (child x) v (data x) (dataSize x) (type x) (options x) (handle x)
    (available x).
Definition set_data (v : TransformData) (x : t) : t :=
  mk (scene x) (child x) (childType x) v (dataSize x) (type x) (options x) (handle x)
    (available x).
Definition set_dataSize (v : Z) (x : t) : t :=
  mk (scene x) (child x) (childType x) (data x) v (type x) (options x) (handle x)
    (available x).
Definition set_type (v : TransformType) (x : t) : t :=
  mk (scene x) (child x) (childType x) (data x) (dataSize x) v (options x) (handle x)
    (available x).
Definition set_options (v : OptixMotionOptions) (x : t) : t :=
  mk (scene x) (child x) (childType x) (data x) (dataSize x) (type x) v (handle x)
    (available x).
Definition set_handle (v : Z) (x : t) : t :=
  mk (scene x) (child x) (childType x) (data x) (dataSize x) (type x) (options x) v
    (available x).
Definition set_available (v : bool) (x : t) : t :=
  mk (scene x) (child x) (childType x) (data x) (dataSize x) (type x) (options x)
    (handle x) v.
End Transform.

Module Instance.
Record t : Type := mk {
  scene : nat;
  type : ChildType;
  (** the union of [childGas], [childIas] and [childXfm] *)
  child : option nat;
  matSetIndex : Z;
  id : Z;
  visibilityMask : Z;
  flags : Z;
  instTransform : list float;
}.

Definition set_scene (v : nat) (x : t) : t :=
  mk v (type x) (child x) (matSetIndex x) (id x) (visibilityMask x) (flags x)
    (instTransform x).
Definition set_type (v : ChildType) (x : t) : t :=
  mk (scene x) v (child x) (matSetIndex x) (id x) (visibilityMask x) (flags x)
    (instTransform x).
Definition set_child (v : option nat) (x : t) : t :=
  mk (scene x) (type x) v (matSetIndex x) (id x) (visibilityMask x) (flags x)
    (instTransform x).
Definition set_matSetIndex (v : Z) (x : t) : t :=
  mk (scene x) (type x) (child x) v (id x) (visibilityMask x) (flags x)
    (instTransform x).
Definition set_id (v : Z) (x : t) : t :=
  mk (scene x) (type x) (child x) (matSetIndex x) v (visibilityMask x) (flags x)
    (instTransform x).
Definition set_visibilityMask (v : Z) (x : t) : t :=
  mk (scene x) (type x) (child x) (matSetIndex x) (id x) v (flags x) (instTransform
    x).
Definition set_flags (v : Z) (x : t) : t :=
  mk (scene x) (type x) (child x) (matSetIndex x) (id x) (visibilityMask x) v
    (instTransform x).
Definition set_instTransform (v : list float) (x : t) : t :=
  mk (scene x) (type x) (child x) (matSetIndex x) (id x) (visibilityMask x) (flags x)
    v.
End Instance.

Module IAS.
Record t : Type := mk {
  scene : nat;
  children : list nat;
  buildInput : OptixBuildInput;
  instances : list OptixInstance;
  buildOptions : OptixAccelBuildOptions;
  memoryRequirement : OptixAccelBufferSizes;
  compactedSize : Z;
  handle : Z;
  compactedHandle : Z;
  instanceBuffer : BufferView;
  accelBuffer : BufferView;
  compactedAccelBuffer : BufferView;
  tradeoff : ASTradeoff;
  allowUpdate : bool;
  allowCompaction : bool;
  readyToBuild : bool;
  available : bool;
  readyToCompact : bool;
  compactedAvailable : bool;
}.

Definition set_scene (v : nat) (x : t) : t :=
  mk v (children x) (buildInput x) (instances x) (buildOptions x) (memoryRequirement
    x) (compactedSize x) (handle x) (compactedHandle x) (instanceBuffer x)
    (accelBuffer x) (compactedAccelBuffer x) (tradeoff x) (allowUpdate x)
    (allowCompaction x) (readyToBuild x) (available x) (readyToCompact x)
    (compactedAvailable x).
Definition set_children (v : list nat) (x : t) : t :=
  mk (scene x) v (buildInput x) (instances x) (buildOptions x) (memoryRequirement x)
    (compactedSize x) (handle x) (compactedHandle x) (instanceBuffer x) (accelBuffer
    x) (compactedAccelBuffer x) (tradeoff x) (allowUpdate x) (allowCompaction x)
    (readyToBuild x) (available x) (readyToCompact x) (compactedAvailable x).
Definition set_buildInput (v : OptixBuildInput) (x : t) : t :=
  mk (scene x) (children x) v (instances x) (buildOptions x) (memoryRequirement x)
    (compactedSize x) (handle x) (compactedHandle x) (instanceBuffer x) (accelBuffer
    x) (compactedAccelBuffer x) (tradeoff x) (allowUpdate x) (allowCompaction x)
    (readyToBuild x) (available x) (readyToCompact x) (compactedAvailable x).
Definition set_instances (v : list OptixInstance) (x : t) : t :=
  mk (scene x) (children x) (buildInput x) v (buildOptions x) (memoryRequirement x)
    (compactedSize x) (handle x) (compactedHandle x) (instanceBuffer x) (accelBuffer
    x) (compactedAccelBuffer x) (tradeoff x) (allowUpdate x) (allowCompaction x)
    (readyToBuild x) (available x) (readyToCompact x) (compactedAvailable x).
Definition set_buildOptions (v : OptixAccelBuildOptions) (x : t) : t :=
  mk (scene x) (children x) (buildInput x) (instances x) v (memoryRequirement x)
    (compactedSize x) (handle x) (compactedHandle x) (instanceBuffer x) (accelBuffer
    x) (compactedAccelBuffer x) (tradeoff x) (allowUpdate x) (allowCompaction x)
    (readyToBuild x) (available x) (readyToCompact x) (compactedAvailable x).
Definition set_memoryRequirement (v : OptixAccelBufferSizes) (x : t) : t :=
  mk (scene x) (children x) (buildInput x) (instances x) (buildOptions x) v
    (compactedSize x) (handle x) (compactedHandle x) (instanceBuffer x) (accelBuffer
    x) (compactedAccelBuffer x) (tradeoff x) (allowUpdate x) (allowCompaction x)
    (readyToBuild x) (available x) (readyToCompact x) (compactedAvailable x).
Definition set_compactedSize (v : Z) (x : t) : t :=
  mk (scene x) (children x) (buildInput x) (instances x) (buildOptions x)
    (memoryRequirement x) v (handle x) (compactedHandle x) (instanceBuffer x)
    (accelBuffer x) (compactedAccelBuffer x) (tradeoff x) (allowUpdate x)
    (allowCompaction x) (readyToBuild x) (available x) (readyToCompact x)
    (compactedAvailable x).
Definition set_handle (v : Z) (x : t) : t :=
  mk (scene x) (children x) (buildInput x) (instances x) (buildOptions x)
    (memoryRequirement x) (compactedSize x) v (compactedHandle x) (instanceBuffer x)
    (accelBuffer x) (compactedAccelBuffer x) (tradeoff x) (allowUpdate x)
    (allowCompaction x) (readyToBuild x) (available x) (readyToCompact x)
    (compactedAvailable x).
Definition set_compactedHandle (v : Z) (x : t) : t :=
  mk (scene x) (children x) (buildInput x) (instances x) (buildOptions x)
    (memoryRequirement x) (compactedSize x) (handle x) v (instanceBuffer x)
    (accelBuffer x) (compactedAccelBuffer x) (tradeoff x) (allowUpdate x)
    (allowCompaction x) (readyToBuild x) (available x) (readyToCompact x)
    (compactedAvailable x).
Definition set_instanceBuffer (v : BufferView) (x : t) : t :=
  mk (scene x) (children x) (buildInput x) (instances x) (buildOptions x)
    (memoryRequirement x) (compactedSize x) (handle x) (compactedHandle x) v
    (accelBuffer x) (compactedAccelBuffer x) (tradeoff x) (allowUpdate x)
    (allowCompaction x) (readyToBuild x) (available x) (readyToCompact x)
    (compactedAvailable x).
Definition set_accelBuffer (v : BufferView) (x : t) : t :=
  mk (scene x) (children x) (buildInput x) (instances x) (buildOptions x)
    (memoryRequirement x) (compactedSize x) (handle x) (compactedHandle x)
    (instanceBuffer x) v (compactedAccelBuffer x) (tradeoff x) (allowUpdate x)
    (allowCompaction x) (readyToBuild x) (available x) (readyToCompact x)
    (compactedAvailable x).
Definition set_compactedAccelBuffer (v : BufferView) (x : t) : t :=
  mk (scene x) (children x) (buildInput x) (instances x) (buildOptions x)
    (memoryRequirement x) (compactedSize x) (handle x) (compactedHandle x)
    (instanceBuffer x) (accelBuffer x) v (tradeoff x) (allowUpdate x)
    (allowCompaction x) (readyToBuild x) (available x) (readyToCompact x)
    (compactedAvailable x).
Definition set_tradeoff (v : ASTradeoff) (x : t) : t :=
  mk (scene x) (children x) (buildInput x) (instances x) (buildOptions x)
    (memoryRequirement x) (compactedSize x) (handle x) (compactedHandle x)
    (instanceBuffer x) (accelBuffer x) (compactedAccelBuffer x) v (allowUpdate x)
    (allowCompaction x) (readyToBuild x) (available x) (readyToCompact x)
    (compactedAvailable x).
Definition set_allowUpdate (v : bool) (x : t) : t :=
  mk (scene x) (children x) (buildInput x) (instances x) (buildOptions x)
    (memoryRequirement x) (compactedSize x) (handle x) (compactedHandle x)
    (instanceBuffer x) (accelBuffer x) (compactedAccelBuffer x) (tradeoff x) v
    (allowCompaction x) (readyToBuild x) (available x) (readyToCompact x)
    (compactedAvailable x).
Definition set_allowCompaction (v : bool) (x : t) : t :=
  mk (scene x) (children x) (buildInput x) (instances x) (buildOptions x)
    (memoryRequirement x) (compactedSize x) (handle x) (compactedHandle x)
    (instanceBuffer x) (accelBuffer x) (compactedAccelBuffer x) (tradeoff x)
    (allowUpdate x) v (readyToBuild x) (available x) (readyToCompact x)
    (compactedAvailable x).
Definition set_readyToBuild (v : bool) (x : t) : t :=
  mk (scene x) (children x) (buildInput x) (instances x) (buildOptions x)
    (memoryRequirement x) (compactedSize x) (handle x) (compactedHandle x)
    (instanceBuffer x) (accelBuffer x) (compactedAccelBuffer x) (tradeoff x)
    (allowUpdate x) (allowCompaction x) v (available x) (readyToCompact x)
    (compactedAvailable x).
Definition set_available (v : bool) (x : t) : t :=
  mk (scene x) (children x) (buildInput x) (instances x) (buildOptions x)
    (memoryRequirement x) (compactedSize x) (handle x) (compactedHandle x)
    (instanceBuffer x) (accelBuffer x) (compactedAccelBuffer x) (tradeoff x)
    (allowUpdate x) (allowCompaction x) (readyToBuild x) v (readyToCompact x)
    (compactedAvailable x).
Definition set_readyToCompact (v : bool) (x : t) : t :=
  mk (scene x) (children x) (buildInput x) (instances x) (buildOptions x)
    (memoryRequirement x) (compactedSize x) (handle x) (compactedHandle x)
    (instanceBuffer x) (accelBuffer x) (compactedAccelBuffer x) (tradeoff x)
    (allowUpdate x) (allowCompaction x) (readyToBuild x) (available x) v
    (compactedAvailable x).
Definition set_compactedAvailable (v : bool) (x : t) : t :=
  mk (scene x) (children x) (buildInput x) (instances x) (buildOptions x)
    (memoryRequirement x) (compactedSize x) (handle x) (compactedHandle x)
    (instanceBuffer x) (accelBuffer x) (compactedAccelBuffer x) (tradeoff x)
    (allowUpdate x) (allowCompaction x) (readyToBuild x) (available x)
    (readyToCompact x) v.
End IAS.

Module Scene.
Record t : Type := mk {
  (** The [std::unordered_set]s are kept as the sequence their iteration yields. *)
  geomASs : list nat;
  (** (GAS, material set index) to record offset *)
  sbtOffsets : gmap (nat * Z) Z;
  singleRecordSize : Z;
  numSBTRecords : Z;
  transforms : list nat;
  instASs : list nat;
  sbtLayoutIsUpToDate : bool;
}.

Definition set_geomASs (v : list nat) (x : t) : t :=
  mk v (sbtOffsets x) (singleRecordSize x) (numSBTRecords x) (transforms x) (instASs
    x) (sbtLayoutIsUpToDate x).
Definition set_sbtOffsets (v : gmap (nat * Z) Z) (x : t) : t :=
  mk (geomASs x) v (singleRecordSize x) (numSBTRecords x) (transforms x) (instASs x)
    (sbtLayoutIsUpToDate x).
Definition set_singleRecordSize (v : Z) (x : t) : t :=
  mk (geomASs x) (sbtOffsets x) v (numSBTRecords x) (transforms x) (instASs x)
    (sbtLayoutIsUpToDate x).
Definition set_numSBTRecords (v : Z) (x : t) : t :=
  mk (geomASs x) (sbtOffsets x) (singleRecordSize x) v (transforms x) (instASs x)
    (sbtLayoutIsUpToDate x).
Definition set_transforms (v : list nat) (x : t) : t :=
  mk (geomASs x) (sbtOffsets x) (singleRecordSize x) (numSBTRecords x) v (instASs x)
    (sbtLayoutIsUpToDate x).
Definition set_instASs (v : list nat) (x : t) : t :=
  mk (geomASs x) (sbtOffsets x) (singleRecordSize x) (numSBTRecords x) (transforms x)
    v (sbtLayoutIsUpToDate x).
Definition set_sbtLayoutIsUpToDate (v : bool) (x : t) : t :=
  mk (geomASs x) (sbtOffsets x) (singleRecordSize x) (numSBTRecords x) (transforms x)
    (instASs x) v.
End Scene.


(** Everything a context owns. *)
Record World : Type := mkWorld {
  materials : gmap nat Material.t;
  scenes : gmap nat Scene.t;
  geomInsts : gmap nat GeometryInstance.t;
  gass : gmap nat GAS.t;
  transforms : gmap nat Transform.t;
  instances : gmap nat Instance.t;
  iass : gmap nat IAS.t;
}.

Definition set_scenes (f : gmap nat Scene.t -> gmap nat Scene.t) (w : World) : World :=
  mkWorld (materials w) (f (scenes w)) (geomInsts w) (gass w) (transforms w)
          (instances w) (iass w).
Definition set_geomInsts (f : gmap nat GeometryInstance.t -> gmap nat GeometryInstance.t)
    (w : World) : World :=
  mkWorld (materials w) (scenes w) (f (geomInsts w)) (gass w) (transforms w)
          (instances w) (iass w).
Definition set_gass (f : gmap nat GAS.t -> gmap nat GAS.t) (w : World) : World :=
  mkWorld (materials w) (scenes w) (geomInsts w) (f (gass w)) (transforms w)
          (instances w) (iass w).
Definition set_transforms (f : gmap nat Transform.t -> gmap nat Transform.t)
    (w : World) : World :=
  mkWorld (materials w) (scenes w) (geomInsts w) (gass w) (f (transforms w))
          (instances w) (iass w).
Definition set_instances (f : gmap nat Instance.t -> gmap nat Instance.t)
    (w : World) : World :=
  mkWorld (materials w) (scenes w) (geomInsts w) (gass w) (transforms w)
          (f (instances w)) (iass w).
Definition set_iass (f : gmap nat IAS.t -> gmap nat IAS.t) (w : World) : World :=
  mkWorld (materials w) (scenes w) (geomInsts w) (gass w) (transforms w)
          (instances w) (f (iass w)).
Definition set_materials (f : gmap nat Material.t -> gmap nat Material.t)
    (w : World) : World :=
  mkWorld (f (materials w)) (scenes w) (geomInsts w) (gass w) (transforms w)
          (instances w) (iass w).

(* ===================================================================== *)
(** * Calls that read and write the world *)
(* ===================================================================== *)

(** A member function: the world after the call (also when it throws) and
    its outcome. *)
Definition M (A : Type) : Type := World -> World * result A.

Definition ret {A} (a : A) : M A := fun w => (w, Ok a).
Definition bind {A B} (m : M A) (k : A -> M B) : M B :=
  fun w => match m w with
           | (w1, Ok a) => k a w1
           | (w1, Err e) => (w1, Err e)
           end.
Definition lift {A} (r : result A) : M A := fun w => (w, r).
Definition get : M World := fun w => (w, Ok w).
Definition modify (f : World -> World) : M unit := fun w => (f w, Ok tt).

Notation "'let*' x ':=' m 'in' k" := (bind m (fun x => k))
  (at level 10, x pattern, m at level 100, k at level 200, only parsing).
Notation "m1 ;;; m2" := (bind m1 (fun _ => m2))
  (at level 100, right associativity, only parsing).
Notation "'let?' x ':=' r 'in' k" := (rbind r (fun x => k))
  (at level 10, x pattern, r at level 100, k at level 200, only parsing).

(** A range-based [for] over a container, threading the world. *)
Fixpoint for_each {A} (l : list A) (body : A -> M unit) : M unit :=
  match l with
  | [] => ret tt
  | x :: rest => body x ;;; for_each rest body
  end.

(** The same over the results of a pure computation. *)
Fixpoint rfold {A S} (body : S -> A -> result S) (l : list A) (s : S) : result S :=
  match l with
  | [] => Ok s
  | x :: rest => let? s1 := body s x in rfold body rest s1
  end.

(** The indices [0 .. n-1] of a counting loop over [uint32_t]. *)
Definition indices (n : Z) : list Z := seqZ 0 n.


Definition foldM {A S} (body : S -> A -> M S) : list A -> S -> M S :=
  fix go l s :=
    match l with
    | [] => ret s
    | x :: rest => let* s1 := body s x in go rest s1
    end.

Definition getScene (s : nat) : M Scene.t :=
  fun w => (w, deref (scenes w) s "scene").
Definition getGAS (g : nat) : M GAS.t :=
  fun w => (w, deref (gass w) g "geometry acceleration structure").
Definition getIAS (i : nat) : M IAS.t :=
  fun w => (w, deref (iass w) i "instance acceleration structure").
Definition getGeomInst (gi : nat) : M GeometryInstance.t :=
  fun w => (w, deref (geomInsts w) gi "geometry instance").
Definition getTransform (t : nat) : M Transform.t :=
  fun w => (w, deref (transforms w) t "transform").
Definition getInstance (i : nat) : M Instance.t :=
  fun w => (w, deref (instances w) i "instance").
Definition getMaterial (m : nat) : M Material.t :=
  fun w => (w, deref (materials w) m "material").

(** [p->member = ...] through a pointer [p]. *)
Definition updScene (s : nat) (f : Scene.t -> Scene.t) : M unit :=
  let* sc := getScene s in modify (set_scenes (insert s (f sc))).
Definition updGAS (g : nat) (f : GAS.t -> GAS.t) : M unit :=
  let* x := getGAS g in modify (set_gass (insert g (f x))).
Definition updIAS (i : nat) (f : IAS.t -> IAS.t) : M unit :=
  let* x := getIAS i in modify (set_iass (insert i (f x))).
Definition updGeomInst (gi : nat) (f : GeometryInstance.t -> GeometryInstance.t) : M unit :=
  let* x := getGeomInst gi in modify (set_geomInsts (insert gi (f x))).
Definition updTransform (t : nat) (f : Transform.t -> Transform.t) : M unit :=
  let* x := getTransform t in modify (set_transforms (insert t (f x))).
Definition updInstance (i : nat) (f : Instance.t -> Instance.t) : M unit :=
  let* x := getInstance i in modify (set_instances (insert i (f x))).
Definition updMaterial (m : nat) (f : Material.t -> Material.t) : M unit :=
  let* x := getMaterial m in modify (set_materials (insert m (f x))).

Definition throwM (expr : bool) (fmt : string) : M unit :=
  lift (throwRuntimeError expr fmt).

(** [OPTIX_CHECK(call)] and [CUDADRV_CHECK(call)], the answer of the backend
    being given. *)
Definition backend_check {A} (answer : option A) (call : string) : M A :=
  lift (match answer with Some a => Ok a | None => Err (BackendError call) end).

(* ===================================================================== *)
(** * Record sizes and record counts *)
(* ===================================================================== *)

Section Layout.
Context `{OptixSDK}.

(** The material a slot binds for material set [gasMatSetIdx]: the lines
    [calcMaxRecordSizeAlign] and [fillSBTRecords] of a geometry instance
    share. *)
Definition GeometryInstance_slotMaterial (slot : list (option nat))
    (gasMatSetIdx : Z) (fmt : string) : result nat :=
  let? mat0 := vec_at slot 0 "materials[matIdx][0]" in
  let? _ := throwRuntimeError (bool_decide (mat0 <> None)) fmt in
  let matSetIdx :=
    if gasMatSetIdx <? Z.of_nat (length slot) then gasMatSetIdx else 0 in
  let? mat := vec_at slot matSetIdx "materials[matIdx][matSetIdx]" in
  match mat, mat0 with
  | Some m, _ => Ok m
  | None, Some m => Ok m
  | None, None => Err (Undefined "null material")
  end.

Definition header_SizeAlign : SizeAlign.t :=
  SizeAlign.mk (u32 OPTIX_SBT_RECORD_HEADER_SIZE) (u32 OPTIX_SBT_RECORD_ALIGNMENT).

(** [GeometryInstance::Priv::calcMaxRecordSizeAlign]. *)
Definition GeometryInstance_calcMaxRecordSizeAlign (w : World) (gi : nat)
    (gasMatSetIdx : Z) : result SizeAlign.t :=
  let? self := deref (geomInsts w) gi "geometry instance" in
  let? maxRecordSizeAlign :=
    rfold (fun maxRecordSizeAlign slot =>
             let? m := GeometryInstance_slotMaterial slot gasMatSetIdx
               "Default material (== material set 0) is not set for the slot %u." in
             let? mat := deref (materials w) m "material" in
             let recordSizeAlign :=
               SizeAlign.add_assign header_SizeAlign (Material.userDataSizeAlign mat) in
             Ok (SizeAlign.max maxRecordSizeAlign recordSizeAlign))
          (GeometryInstance.materials self) SizeAlign.default in
  Ok (SizeAlign.add_assign maxRecordSizeAlign (GeometryInstance.userDataSizeAlign self)).

(** [GeometryInstance::Priv::getNumSBTRecords]. *)
Definition GeometryInstance_getNumSBTRecords (self : GeometryInstance.t) : Z :=
  size32 (GeometryInstance.buildInputFlags self).

Definition GAS_getNumMaterialSets (self : GAS.t) : Z :=
  size32 (GAS.numRayTypesPerMaterialSet self).

(** [GeometryAccelerationStructure::Priv::calcMaxRecordSizeAlign]. *)
Definition GAS_calcMaxRecordSizeAlign (w : World) (g : nat) (matSetIdx : Z)
    : result SizeAlign.t :=
  let? self := deref (gass w) g "geometry acceleration structure" in
  let? maxRecordSizeAlign :=
    rfold (fun maxRecordSizeAlign child =>
             let? sa := GeometryInstance_calcMaxRecordSizeAlign
                          w (GAS.geomInst child) matSetIdx in
             Ok (SizeAlign.max maxRecordSizeAlign sa))
          (GAS.children self) SizeAlign.default in
  Ok (SizeAlign.add_assign maxRecordSizeAlign (GAS.userDataSizeAlign self)).

(** [GeometryAccelerationStructure::Priv::calcNumSBTRecords]. *)
Definition GAS_calcNumSBTRecords (w : World) (g : nat) (matSetIdx : Z) : result Z :=
  let? self := deref (gass w) g "geometry acceleration structure" in
  let? numSBTRecords :=
    rfold (fun numSBTRecords child =>
             let? gi := deref (geomInsts w) (GAS.geomInst child) "geometry instance" in
             Ok (u32_add numSBTRecords (GeometryInstance_getNumSBTRecords gi)))
          (GAS.children self) 0 in
  let? numRayTypes := vec_at (GAS.numRayTypesPerMaterialSet self) matSetIdx
                             "numRayTypesPerMaterialSet[matSetIdx]" in
  Ok (u32_mul numSBTRecords numRayTypes).

(* =================================================================== *)
(** * Scene: the layout of the hit-group shader binding table *)
(* =================================================================== *)

(** [Scene::Priv::getSBTOffset]. *)
Definition Scene_getSBTOffset (w : World) (s : nat) (gas : nat) (matSetIdx : Z)
    : result Z :=
  let? self := deref (scenes w) s "scene" in
  match Scene.sbtOffsets self !! (gas, matSetIdx) with
  | Some off => Ok off
  | None => Err (RuntimeError "GAS %s: material set index %u is out of bounds.")
  end.

(** The first loop of the layout pass, for one GAS. *)
Definition layout_stride_step (s : nat) (g : nat) : M unit :=
  let* w := get in
  let* gas := getGAS g in
  let numMatSets := GAS_getNumMaterialSets gas in
  let* maxRecordSizeAlign :=
    lift (rfold (fun maxRecordSizeAlign matSetIdx =>
                   let? sa := GAS_calcMaxRecordSizeAlign w g matSetIdx in
                   Ok (SizeAlign.max maxRecordSizeAlign sa))
                (indices numMatSets) SizeAlign.default) in
  let maxRecordSizeAlign := SizeAlign.alignUp maxRecordSizeAlign in
  updScene s (fun sc =>
    Scene.set_singleRecordSize
      (Z.max (Scene.singleRecordSize sc) (SizeAlign.size maxRecordSizeAlign)) sc).

(** The second loop of the layout pass, for one GAS; [sbtOffset] is the
    local variable of that name. *)
Definition layout_offset_step (s : nat) (sbtOffset : Z) (g : nat) : M Z :=
  let* gas := getGAS g in
  let numMatSets := GAS_getNumMaterialSets gas in
  foldM (fun sbtOffset matSetIdx =>
           let* w := get in
           let* gasNumSBTRecords := lift (GAS_calcNumSBTRecords w g matSetIdx) in
           updScene s (fun sc =>
             Scene.set_sbtOffsets (<[(g, matSetIdx) := sbtOffset]> (Scene.sbtOffsets sc)) sc) ;;;
           ret (u32_add sbtOffset gasNumSBTRecords))
        (indices numMatSets) sbtOffset.

Definition Scene_memorySize (sc : Scene.t) : Z :=
  u32_mul (Scene.singleRecordSize sc) (Z.max (Scene.numSBTRecords sc) 1).

(** [Scene::generateShaderBindingTableLayout]; the result is the value
    written to [*memorySize]. *)
Definition Scene_generateShaderBindingTableLayout (s : nat) : M Z :=
  let* m := getScene s in
  if Scene.sbtLayoutIsUpToDate m then ret (Scene_memorySize m)
  else
    updScene s (fun sc =>
      Scene.set_singleRecordSize (u32 OPTIX_SBT_RECORD_HEADER_SIZE)
        (Scene.set_sbtOffsets ∅ sc)) ;;;
    for_each (Scene.geomASs m) (layout_stride_step s) ;;;
    let* sbtOffset := foldM (layout_offset_step s) (Scene.geomASs m) 0 in
    updScene s (fun sc =>
      Scene.set_sbtLayoutIsUpToDate true (Scene.set_numSBTRecords sbtOffset sc)) ;;;
    let* m := getScene s in
    ret (Scene_memorySize m).

(* =================================================================== *)
(** * Filling the hit-group records *)
(* =================================================================== *)

(** What the fill pass does to the outside: writes into the host copy of
    the table (addresses are byte offsets from [hostMem]), calls into the
    backend, and the calls of [GeometryAccelerationStructure::Priv::
    fillSBTRecords] themselves, recorded with the position [records] they
    are handed. *)
Inductive Event : Type :=
| EvFillSBTRecords (gas : nat) (matSetIdx : Z) (records : Z)
| EvPackHeader (programGroup : nat) (record : Z)
| EvMemcpy (dst : Z) (bytes : list Z)
| EvMemcpyHtoD (dst : Z) (size : Z).

(** A [const] member function that writes through pointers: the events it
    caused (also when it throws) and its outcome. *)
Definition W (A : Type) : Type := list Event * result A.

Definition wret {A} (a : A) : W A := ([], Ok a).
Definition wbind {A B} (m : W A) (k : A -> W B) : W B :=
  match m with
  | (l1, Ok a) => let '(l2, r) := k a in (l1 ++ l2, r)
  | (l1, Err e) => (l1, Err e)
  end.
Definition wlift {A} (r : result A) : W A := ([], r).
Definition emit (e : Event) : W unit := ([e], Ok tt).

Notation "'let!' x ':=' m 'in' k" := (wbind m (fun x => k))
  (at level 10, x pattern, m at level 100, k at level 200, only parsing).

Definition wfold {A S} (body : S -> A -> W S) : list A -> S -> W S :=
  fix go l s :=
    match l with
    | [] => wret s
    | x :: rest => let! s1 := body s x in go rest s1
    end.

(** The answers of the backend to the calls of the fill pass. *)
Record FillBackend : Type := {
  packHeader_ok : nat -> Z -> bool;
  memcpyHtoD_ok : bool;
}.

Variable be : FillBackend.

(** [std::memcpy(dst, v.data(), n)] from a vector [v]: reading past its
    end is undefined. *)
Definition memcpy_from (dst : Z) (v : list Z) (n : Z) : W unit :=
  if n <=? Z.of_nat (length v) then emit (EvMemcpy dst (take (Z.to_nat n) v))
  else wlift (Err (Undefined "memcpy past the end of the vector")).

(** [ProgramGroup::Priv::packHeader]. *)
Definition ProgramGroup_packHeader (pg : nat) (record : Z) : W unit :=
  let! _ := emit (EvPackHeader pg record) in
  wlift (if packHeader_ok be pg record then Ok tt
         else Err (BackendError "optixSbtRecordPackHeader")).

(** [Material::Priv::setRecordData]; the result is [*curSizeAlign]. *)
Definition Material_setRecordData (w : World) (m : nat) (pipeline : nat)
    (rayType : Z) (record : Z) : W SizeAlign.t :=
  let! self := wlift (deref (materials w) m "material") in
  match Material.programs self !! (pipeline, rayType) with
  | None => wlift (Err (RuntimeError "No hit group is set to the pipeline %s, ray type %u"))
  | Some hitGroup =>
      let curSizeAlign := header_SizeAlign in
      let! _ := ProgramGroup_packHeader hitGroup record in
      let '(curSizeAlign, offset) :=
        SizeAlign.add curSizeAlign (Material.userDataSizeAlign self) in
      let! _ := memcpy_from (record + offset) (Material.userData self)
                            (SizeAlign.size (Material.userDataSizeAlign self)) in
      wret curSizeAlign
  end.

Definition Scene_getSingleRecordSize (w : World) (s : nat) : result Z :=
  let? sc := deref (scenes w) s "scene" in Ok (Scene.singleRecordSize sc).

(** [GeometryInstance::Priv::fillSBTRecords]. *)
Definition GeometryInstance_fillSBTRecords (w : World) (gi : nat) (pipeline : nat)
    (gasMatSetIdx : Z) (gasUserData : list Z) (gasUserDataSizeAlign : SizeAlign.t)
    (numRayTypes : Z) (records : Z) : W Z :=
  let! self := wlift (deref (geomInsts w) gi "geometry instance") in
  let numMaterials := size32 (GeometryInstance.materials self) in
  let! _ :=
    wfold (fun records matIdx =>
             let! slot := wlift (vec_at (GeometryInstance.materials self) matIdx
                                        "materials[matIdx]") in
             let! mat := wlift (GeometryInstance_slotMaterial slot gasMatSetIdx
               "Default material (== material set 0) is not set for material %u.") in
             wfold (fun records rIdx =>
                      let! curSizeAlign :=
                        Material_setRecordData w mat pipeline rIdx records in
                      let '(curSizeAlign, offset) :=
                        SizeAlign.add curSizeAlign
                          (GeometryInstance.userDataSizeAlign self) in
                      let! _ := memcpy_from (records + offset)
                                  (GeometryInstance.userData self)
                                  (SizeAlign.size
                                     (GeometryInstance.userDataSizeAlign self)) in
                      let '(curSizeAlign, offset) :=
                        SizeAlign.add curSizeAlign gasUserDataSizeAlign in
                      let! _ := memcpy_from (records + offset) gasUserData
                                  (SizeAlign.size gasUserDataSizeAlign) in
                      let! stride := wlift (Scene_getSingleRecordSize
                                              w (GeometryInstance.scene self)) in
                      wret (records + stride))
                   (indices numRayTypes) records)
          (indices numMaterials) records in
  wret (u32_mul numMaterials numRayTypes).

(** [GeometryAccelerationStructure::Priv::fillSBTRecords]. *)
Definition GAS_fillSBTRecords (w : World) (g : nat) (pipeline : nat)
    (matSetIdx : Z) (records : Z) : W Z :=
  let! self := wlift (deref (gass w) g "geometry acceleration structure") in
  let! _ := wlift (throwRuntimeError
                     (matSetIdx <? Z.of_nat (length (GAS.numRayTypesPerMaterialSet self)))
                     "Material set index %u is out of bounds [0, %u).") in
  let! numRayTypes := wlift (vec_at (GAS.numRayTypesPerMaterialSet self) matSetIdx
                                    "numRayTypesPerMaterialSet[matSetIdx]") in
  let! final :=
    wfold (fun '(records, sumRecords) child =>
             let! numRecords :=
               GeometryInstance_fillSBTRecords w (GAS.geomInst child) pipeline matSetIdx
                 (GAS.userData self) (GAS.userDataSizeAlign self) numRayTypes records in
             let! stride := wlift (Scene_getSingleRecordSize w (GAS.scene self)) in
             wret (records + u32_mul numRecords stride, u32_add sumRecords numRecords))
          (GAS.children self) (records, 0) in
  wret (snd final).

(** [Scene::Priv::setupHitGroupSBT]. *)
Definition Scene_setupHitGroupSBT (w : World) (s : nat) (pipeline : nat)
    (sbt : BufferView) : W unit :=
  let! self := wlift (deref (scenes w) s "scene") in
  let! _ := wlift (throwRuntimeError
                     (u32_mul (Scene.singleRecordSize self) (Scene.numSBTRecords self)
                        <=? sizeInBytes sbt)
                     "Hit group shader binding table size is not enough.") in
  let! _ :=
    wfold (fun records g =>
             let! gas := wlift (deref (gass w) g "geometry acceleration structure") in
             let numMatSets := GAS_getNumMaterialSets gas in
             wfold (fun records matSetIdx =>
                      let! _ := emit (EvFillSBTRecords g matSetIdx records) in
                      let! numRecords :=
                        GAS_fillSBTRecords w g pipeline matSetIdx records in
                      wret (records + u32_mul numRecords (Scene.singleRecordSize self)))
                   (indices numMatSets) records)
          (Scene.geomASs self) 0 in
  let! _ := emit (EvMemcpyHtoD (getCUdeviceptr sbt) (sizeInBytes sbt)) in
  wlift (if memcpyHtoD_ok be then Ok tt else Err (BackendError "cuMemcpyHtoDAsync")).

End Layout.


(* ===================================================================== *)
(** * Material and GeometryInstance: the public setters *)
(* ===================================================================== *)

Definition s_maxMaterialUserDataSize : Z := 512.
Definition s_maxGeometryInstanceUserDataSize : Z := 512.
Definition s_maxGASUserDataSize : Z := 512.

(** [std::memcpy(userData.data(), data, size)] after [userData.resize(size)]:
    the caller's buffer [data] has to hold [size] bytes. *)
Definition copy_user_data (data : list Z) (size : Z) : result (list Z) :=
  if Z.of_nat (length data) <? size then Err (Undefined "user data shorter than size")
  else Ok (take (Z.to_nat size) data).

Section Setters.
Context `{OptixSDK}.

(** [Context::createMaterial]; [m] is the address [new] returns. *)
Definition Context_createMaterial (m : nat) : M nat :=
  let* w := get in
  match materials w !! m with
  | Some _ => lift (Err (Undefined "allocator"))
  | None =>
      modify (set_materials
                (insert m (Material.mk SizeAlign.default (replicate 4 0) ∅))) ;;;
      ret m
  end.

(** [Material::setHitGroup]; [hitGroupPipeline] is
    [extract(hitGroup)->getPipeline()]. *)
Definition Material_setHitGroup (m : nat) (rayType : Z) (hitGroup : nat)
    (hitGroupPipeline : option nat) : M unit :=
  match hitGroupPipeline with
  | None => throwM false "Invalid pipeline %p."
  | Some pipeline =>
      updMaterial m (fun x =>
        Material.set_programs (<[(pipeline, rayType) := hitGroup]> (Material.programs x)) x)
  end.

Definition Material_setUserData (m : nat) (data : list Z) (size alignment : Z) : M unit :=
  throwM (size <=? s_maxMaterialUserDataSize)
         "Maximum user data size for Material is %u bytes." ;;;
  throwM ((0 <? alignment) && (alignment <=? OPTIX_SBT_RECORD_ALIGNMENT))
         "Valid alignment range is [1, %u]." ;;;
  let* bytes := lift (copy_user_data data size) in
  updMaterial m (fun x =>
    Material.set_userData bytes
      (Material.set_userDataSizeAlign (SizeAlign.mk size alignment) x)).

(** [Scene::createGeometryInstance]: the constructor of
    [GeometryInstance::Priv], one motion step. *)
Definition Scene_createGeometryInstance (s : nat) (forCustomPrimitives : bool)
    (gi : nat) : M nat :=
  let* w := get in
  match geomInsts w !! gi with
  | Some _ => lift (Err (Undefined "allocator"))
  | None =>
      modify (set_geomInsts (insert gi
        (GeometryInstance.mk s SizeAlign.default (replicate 4 0) 1
           [0] [BufferView_default] BufferView_default
           OPTIX_VERTEX_FORMAT_NONE OPTIX_INDICES_FORMAT_NONE
           [0] [BufferView_default] 0 0 BufferView_default [] []
           forCustomPrimitives))) ;;;
      ret gi
  end.

Definition GeometryInstance_setNumMotionSteps (gi : nat) (n : Z) : M unit :=
  let n := Z.max n 1 in
  let* self := getGeomInst gi in
  (if GeometryInstance.forCustomPrimitives self then
     updGeomInst gi (fun x =>
       GeometryInstance.set_primitiveAabbBuffers (replicate (Z.to_nat n) BufferView_default)
         (GeometryInstance.set_primitiveAabbBufferArray (replicate (Z.to_nat n) 0) x))
   else
     updGeomInst gi (fun x =>
       GeometryInstance.set_vertexBuffers (replicate (Z.to_nat n) BufferView_default)
         (GeometryInstance.set_vertexBufferArray (replicate (Z.to_nat n) 0) x))) ;;;
  updGeomInst gi (GeometryInstance.set_numMotionSteps n).

Definition GeometryInstance_setVertexFormat (gi : nat) (format : Z) : M unit :=
  updGeomInst gi (GeometryInstance.set_vertexFormat format).

Definition GeometryInstance_setVertexBuffer (gi : nat) (vertexBuffer : BufferView)
    (motionStep : Z) : M unit :=
  let* self := getGeomInst gi in
  throwM (negb (GeometryInstance.forCustomPrimitives self))
         "This geometry instance was created for custom primitives." ;;;
  throwM (motionStep <? GeometryInstance.numMotionSteps self)
         "motionStep %u is out of bounds [0, %u)." ;;;
  let* _ := lift (vec_at (GeometryInstance.vertexBuffers self) motionStep
                         "vertexBuffers[motionStep]") in
  updGeomInst gi (fun x =>
    GeometryInstance.set_vertexBuffers
      (<[Z.to_nat motionStep := vertexBuffer]> (GeometryInstance.vertexBuffers x)) x).

Definition GeometryInstance_setTriangleBuffer (gi : nat) (triangleBuffer : BufferView)
    (format : Z) : M unit :=
  let* self := getGeomInst gi in
  throwM (negb (GeometryInstance.forCustomPrimitives self))
         "This geometry instance was created for custom primitives." ;;;
  updGeomInst gi (fun x =>
    GeometryInstance.set_indexFormat format
      (GeometryInstance.set_triangleBuffer triangleBuffer x)).

Definition GeometryInstance_setCustomPrimitiveAABBBuffer (gi : nat)
    (primitiveAABBBuffer : BufferView) (motionStep : Z) : M unit :=
  let* self := getGeomInst gi in
  throwM (GeometryInstance.forCustomPrimitives self)
         "This geometry instance was created for triangles." ;;;
  throwM (motionStep <? GeometryInstance.numMotionSteps self)
         "motionStep %u is out of bounds [0, %u)." ;;;
  let* _ := lift (vec_at (GeometryInstance.primitiveAabbBuffers self) motionStep
                         "primitiveAabbBuffers[motionStep]") in
  updGeomInst gi (fun x =>
    GeometryInstance.set_primitiveAabbBuffers
      (<[Z.to_nat motionStep := primitiveAABBBuffer]>
         (GeometryInstance.primitiveAabbBuffers x)) x).

Definition GeometryInstance_setPrimitiveIndexOffset (gi : nat) (offset : Z) : M unit :=
  updGeomInst gi (GeometryInstance.set_primitiveIndexOffset offset).

Definition GeometryInstance_setNumMaterials (gi : nat) (numMaterials : Z)
    (matIndexOffsetBuffer : BufferView) (indexOffsetSize : Z) : M unit :=
  throwM (0 <? numMaterials) "Invalid number of materials %u." ;;;
  throwM (negb (eqb (numMaterials =? 1) (bv_isValid matIndexOffsetBuffer)))
         "Material index offset buffer must be provided when multiple materials are used." ;;;
  throwM ((1 <=? indexOffsetSize) && (indexOffsetSize <=? 4))
         "Invalid index offset size." ;;;
  (if bv_isValid matIndexOffsetBuffer then
     throwM (indexOffsetSize <=? bv_stride matIndexOffsetBuffer)
            "Buffer's stride is smaller than the given index offset size."
   else ret tt) ;;;
  updGeomInst gi (fun x =>
    GeometryInstance.set_buildInputFlags
      (vec_resize (GeometryInstance.buildInputFlags x) (Z.to_nat numMaterials)
                  OPTIX_GEOMETRY_FLAG_NONE) x) ;;;
  updGeomInst gi (GeometryInstance.set_materialIndexOffsetBuffer matIndexOffsetBuffer) ;;;
  updGeomInst gi (GeometryInstance.set_materialIndexOffsetSize indexOffsetSize) ;;;
  (** Slots that survive keep their bindings; the new ones hold the single
      entry [nullptr] for material set 0. *)
  updGeomInst gi (fun x =>
    GeometryInstance.set_materials
      (vec_resize (GeometryInstance.materials x) (Z.to_nat numMaterials) [None]) x).

Definition GeometryInstance_setGeometryFlags (gi : nat) (matIdx : Z) (flags : Z) : M unit :=
  let* self := getGeomInst gi in
  throwM (matIdx <? Z.of_nat (length (GeometryInstance.materials self)))
         "Out of material bounds [0, %u)." ;;;
  let* _ := lift (vec_at (GeometryInstance.buildInputFlags self) matIdx
                         "buildInputFlags[matIdx]") in
  updGeomInst gi (fun x =>
    GeometryInstance.set_buildInputFlags
      (<[Z.to_nat matIdx := flags]> (GeometryInstance.buildInputFlags x)) x).

Definition GeometryInstance_setMaterial (gi : nat) (matSetIdx matIdx : Z)
    (mat : option nat) : M unit :=
  let* self := getGeomInst gi in
  throwM (matIdx <? Z.of_nat (length (GeometryInstance.materials self)))
         "Out of material bounds [0, %u)." ;;;
  let* slot := lift (vec_at (GeometryInstance.materials self) matIdx
                            "materials[matIdx]") in
  let prevNumMatSets := size32 slot in
  let slot :=
    if prevNumMatSets <=? matSetIdx
    then vec_resize slot (Z.to_nat (u32_add matSetIdx 1)) None
    else slot in
  let* _ := lift (vec_at slot matSetIdx "materials[matIdx][matSetIdx]") in
  let slot := <[Z.to_nat matSetIdx := mat]> slot in
  updGeomInst gi (fun x =>
    GeometryInstance.set_materials
      (<[Z.to_nat matIdx := slot]> (GeometryInstance.materials x)) x).

Definition GeometryInstance_setUserData (gi : nat) (data : list Z)
    (size alignment : Z) : M unit :=
  throwM (size <=? s_maxGeometryInstanceUserDataSize)
         "Maximum user data size for Material is %u bytes." ;;;
  throwM ((0 <? alignment) && (alignment <=? OPTIX_SBT_RECORD_ALIGNMENT))
         "Valid alignment range is [1, %u]." ;;;
  let* bytes := lift (copy_user_data data size) in
  updGeomInst gi (fun x =>
    GeometryInstance.set_userData bytes
      (GeometryInstance.set_userDataSizeAlign (SizeAlign.mk size alignment) x)).

Definition GeometryInstance_getNumMotionSteps (self : GeometryInstance.t) : Z :=
  GeometryInstance.numMotionSteps self.

(* =================================================================== *)
(** * Build inputs of a geometry instance *)
(* =================================================================== *)

(** [input] of [fillBuildInput] and [updateBuildInput] points into the
    vector [buildInputs] of a GAS: it is that GAS and an index. *)
Definition loadBuildInput (g : nat) (idx : nat) : M OptixBuildInput :=
  let* gas := getGAS g in
  lift (vec_at (GAS.buildInputs gas) (Z.of_nat idx) "buildInputs[childIdx]").

Definition storeBuildInput (g : nat) (idx : nat) (v : OptixBuildInput) : M unit :=
  let* _ := loadBuildInput g idx in
  updGAS g (fun x => GAS.set_buildInputs (<[idx := v]> (GAS.buildInputs x)) x).

Definition zero_TriangleArray : OptixBuildInputTriangleArray :=
  mkTriangleArray None 0 0 0 0 0 0 0 0 0 0 0 0 0 TRANSFORM_FORMAT_NONE None.
Definition zero_CustomPrimitiveArray : OptixBuildInputCustomPrimitiveArray :=
  mkCustomPrimitiveArray None 0 0 0 0 0 0 0 None.

(** The loop over the motion steps of a custom-primitive instance, shared
    by [fillBuildInput] and [updateBuildInput]. *)
Definition aabb_motion_steps (gi : nat) (stride numElements : Z) : M unit :=
  let* self := getGeomInst gi in
  for_each (indices (GeometryInstance.numMotionSteps self)) (fun i =>
    let* self := getGeomInst gi in
    let* buf := lift (vec_at (GeometryInstance.primitiveAabbBuffers self) i
                             "primitiveAabbBuffers[i]") in
    let* _ := lift (vec_at (GeometryInstance.primitiveAabbBufferArray self) i
                           "primitiveAabbBufferArray[i]") in
    updGeomInst gi (fun x =>
      GeometryInstance.set_primitiveAabbBufferArray
        (<[Z.to_nat i := getCUdeviceptr buf]>
           (GeometryInstance.primitiveAabbBufferArray x)) x) ;;;
    throwM (bv_isValid buf) "AABB buffer for motion step %u is not set." ;;;
    throwM (bv_numElements buf =? numElements)
           "Num elements for motion step %u doesn't match that of 0." ;;;
    throwM (bv_stride buf =? stride)
           "Stride for motion step %u doesn't match that of 0.").

(** The same loop for a triangle instance. *)
Definition vertex_motion_steps (gi : nat) (vertexStride numVertices : Z) : M unit :=
  let* self := getGeomInst gi in
  for_each (indices (GeometryInstance.numMotionSteps self)) (fun i =>
    let* self := getGeomInst gi in
    let* buf := lift (vec_at (GeometryInstance.vertexBuffers self) i
                             "vertexBuffers[i]") in
    let* _ := lift (vec_at (GeometryInstance.vertexBufferArray self) i
                           "vertexBufferArray[i]") in
    updGeomInst gi (fun x =>
      GeometryInstance.set_vertexBufferArray
        (<[Z.to_nat i := getCUdeviceptr buf]>
           (GeometryInstance.vertexBufferArray x)) x) ;;;
    throwM (bv_isValid buf) "Vertex buffer for motion step %u is not set." ;;;
    throwM (bv_numElements buf =? numVertices)
           "Num elements for motion step %u doesn't match that of 0." ;;;
    throwM (bv_stride buf =? vertexStride)
           "Vertex stride for motion step %u doesn't match that of 0.").

(** [GeometryInstance::Priv::fillBuildInput]. *)
Definition GeometryInstance_fillBuildInput (gi : nat) (g : nat) (idx : nat)
    (preTransform : Z) : M unit :=
  storeBuildInput g idx BuildInputZero ;;;
  let* self := getGeomInst gi in
  if GeometryInstance.forCustomPrimitives self then
    storeBuildInput g idx (BuildInputCustomPrimitives zero_CustomPrimitiveArray) ;;;
    let* buf0 := lift (vec_at (GeometryInstance.primitiveAabbBuffers self) 0
                              "primitiveAabbBuffers[0]") in
    let stride := bv_stride buf0 in
    let numElements := u32 (bv_numElements buf0) in
    aabb_motion_steps gi stride numElements ;;;
    let numSbtRecords := size32 (GeometryInstance.buildInputFlags self) in
    let multi := 1 <? numSbtRecords in
    storeBuildInput g idx (BuildInputCustomPrimitives
      (mkCustomPrimitiveArray (Some gi) numElements stride
         (GeometryInstance.primitiveIndexOffset self) numSbtRecords
         (if multi then getCUdeviceptr (GeometryInstance.materialIndexOffsetBuffer self) else 0)
         (if multi then GeometryInstance.materialIndexOffsetSize self else 0)
         (if multi then bv_stride (GeometryInstance.materialIndexOffsetBuffer self) else 0)
         (Some gi)))
  else
    throwM (eqb (negb (GeometryInstance.indexFormat self =? OPTIX_INDICES_FORMAT_NONE))
                (bv_isValid (GeometryInstance.triangleBuffer self)))
           "Triangle buffer must be provided if using a index format other than None, otherwise must not be provided." ;;;
    storeBuildInput g idx (BuildInputTriangles zero_TriangleArray) ;;;
    let* buf0 := lift (vec_at (GeometryInstance.vertexBuffers self) 0
                              "vertexBuffers[0]") in
    let vertexStride := bv_stride buf0 in
    let numVertices := u32 (bv_numElements buf0) in
    vertex_motion_steps gi vertexStride numVertices ;;;
    let indexed := negb (GeometryInstance.indexFormat self =? OPTIX_INDICES_FORMAT_NONE) in
    let tb := GeometryInstance.triangleBuffer self in
    let numSbtRecords := size32 (GeometryInstance.buildInputFlags self) in
    let multi := 1 <? numSbtRecords in
    storeBuildInput g idx (BuildInputTriangles
      (mkTriangleArray (Some gi) numVertices (GeometryInstance.vertexFormat self)
         vertexStride
         (if indexed then getCUdeviceptr tb else 0)
         (if indexed then bv_stride tb else 0)
         (if indexed then u32 (bv_numElements tb) else 0)
         (GeometryInstance.indexFormat self)
         (GeometryInstance.primitiveIndexOffset self)
         numSbtRecords
         (if multi then getCUdeviceptr (GeometryInstance.materialIndexOffsetBuffer self) else 0)
         (if multi then GeometryInstance.materialIndexOffsetSize self else 0)
         (if multi then bv_stride (GeometryInstance.materialIndexOffsetBuffer self) else 0)
         preTransform
         (if preTransform =? 0 then TRANSFORM_FORMAT_NONE
          else TRANSFORM_FORMAT_MATRIX_FLOAT12)
         (Some gi))).

(** [GeometryInstance::Priv::updateBuildInput]. *)
Definition GeometryInstance_updateBuildInput (gi : nat) (g : nat) (idx : nat)
    (preTransform : Z) : M unit :=
  let* self := getGeomInst gi in
  let* input := loadBuildInput g idx in
  if GeometryInstance.forCustomPrimitives self then
    match input with
    | BuildInputCustomPrimitives customPrimArray =>
        let* buf0 := lift (vec_at (GeometryInstance.primitiveAabbBuffers self) 0
                                  "primitiveAabbBuffers[0]") in
        aabb_motion_steps gi (bv_stride buf0) (u32 (bv_numElements buf0)) ;;;
        let a := set_cpa_aabbBuffers (Some gi) customPrimArray in
        let a :=
          if 1 <? cpa_numSbtRecords a
          then set_cpa_sbtIndexOffsetBuffer
                 (getCUdeviceptr (GeometryInstance.materialIndexOffsetBuffer self)) a
          else a in
        storeBuildInput g idx (BuildInputCustomPrimitives a)
    | _ => lift (Err (Undefined "inactive member of the build input union"))
    end
  else
    match input with
    | BuildInputTriangles triArray =>
        let* buf0 := lift (vec_at (GeometryInstance.vertexBuffers self) 0
                                  "vertexBuffers[0]") in
        vertex_motion_steps gi (bv_stride buf0) (u32 (bv_numElements buf0)) ;;;
        let a := set_tri_vertexBuffers (Some gi) triArray in
        let a :=
          if negb (GeometryInstance.indexFormat self =? OPTIX_INDICES_FORMAT_NONE)
          then set_tri_indexBuffer (getCUdeviceptr (GeometryInstance.triangleBuffer self)) a
          else a in
        let a :=
          if 1 <? tri_numSbtRecords a
          then set_tri_sbtIndexOffsetBuffer
                 (getCUdeviceptr (GeometryInstance.materialIndexOffsetBuffer self)) a
          else a in
        let a := set_tri_preTransform preTransform a in
        let a := set_tri_transformFormat
                   (if preTransform =? 0 then TRANSFORM_FORMAT_NONE
                    else TRANSFORM_FORMAT_MATRIX_FLOAT12) a in
        storeBuildInput g idx (BuildInputTriangles a)
    | _ => lift (Err (Undefined "inactive member of the build input union"))
    end.

End Setters.


(* ===================================================================== *)
(** * Dirty marking *)
(* ===================================================================== *)

(** [InstanceAccelerationStructure::Priv::markDirty]. *)
Definition IAS_Priv_markDirty (i : nat) : M unit :=
  updIAS i (IAS.set_readyToBuild false) ;;;
  updIAS i (IAS.set_available false) ;;;
  updIAS i (IAS.set_readyToCompact false) ;;;
  updIAS i (IAS.set_compactedAvailable false).

(** [Scene::Priv::markSBTLayoutDirty]. *)
Definition Scene_markSBTLayoutDirty (s : nat) : M unit :=
  updScene s (Scene.set_sbtLayoutIsUpToDate false) ;;;
  let* sc := getScene s in
  for_each (Scene.instASs sc) IAS_Priv_markDirty.

(** [GeometryAccelerationStructure::Priv::markDirty]. *)
Definition GAS_Priv_markDirty (g : nat) : M unit :=
  updGAS g (GAS.set_readyToBuild false) ;;;
  updGAS g (GAS.set_available false) ;;;
  updGAS g (GAS.set_readyToCompact false) ;;;
  updGAS g (GAS.set_compactedAvailable false) ;;;
  let* self := getGAS g in
  Scene_markSBTLayoutDirty (GAS.scene self).

(** [Transform::Priv::markDirty]. *)
Definition Transform_Priv_markDirty (t : nat) : M unit :=
  updTransform t (Transform.set_available false).

(** The [std::unordered_set]s of a scene.  [insert] puts a new element at a
    place of the iteration order the hash decides, here [pos]; [erase]
    keeps the order of the remaining elements. *)
Definition unordered_insert (pos : nat) (x : nat) (l : list nat) : list nat :=
  if bool_decide (x ∈ l) then l else take pos l ++ x :: drop pos l.
Definition unordered_erase (x : nat) (l : list nat) : list nat :=
  filter (fun y => y <> x) l.

Definition Scene_addGAS (s : nat) (pos : nat) (g : nat) : M unit :=
  updScene s (fun sc => Scene.set_geomASs (unordered_insert pos g (Scene.geomASs sc)) sc).
Definition Scene_removeGAS (s : nat) (g : nat) : M unit :=
  updScene s (fun sc => Scene.set_geomASs (unordered_erase g (Scene.geomASs sc)) sc).
Definition Scene_addTransform (s : nat) (pos : nat) (t : nat) : M unit :=
  updScene s (fun sc => Scene.set_transforms (unordered_insert pos t (Scene.transforms sc)) sc).
Definition Scene_removeTransform (s : nat) (t : nat) : M unit :=
  updScene s (fun sc => Scene.set_transforms (unordered_erase t (Scene.transforms sc)) sc).
Definition Scene_addIAS (s : nat) (pos : nat) (i : nat) : M unit :=
  updScene s (fun sc => Scene.set_instASs (unordered_insert pos i (Scene.instASs sc)) sc).
Definition Scene_removeIAS (s : nat) (i : nat) : M unit :=
  updScene s (fun sc => Scene.set_instASs (unordered_erase i (Scene.instASs sc)) sc).

(* ===================================================================== *)
(** * GeometryAccelerationStructure *)
(* ===================================================================== *)

(** What the constructors leave uninitialised ([buildOptions],
    [memoryRequirement], [compactedSize]) holds whatever the allocation
    held: these values are arguments of the constructor here. *)
Record Indeterminate : Type := {
  ind_buildOptions : OptixAccelBuildOptions;
  ind_memoryRequirement : OptixAccelBufferSizes;
  ind_compactedSize : Z;
}.

Section GASOps.
Context `{OptixSDK}.

(** [Context::createScene]. *)
Definition Context_createScene (s : nat) : M nat :=
  let* w := get in
  match scenes w !! s with
  | Some _ => lift (Err (Undefined "allocator"))
  | None =>
      modify (set_scenes (insert s
        (Scene.mk [] ∅ (u32 OPTIX_SBT_RECORD_HEADER_SIZE) 0 [] [] false))) ;;;
      ret s
  end.

(** [Scene::createGeometryAccelerationStructure]: the constructor of
    [GeometryAccelerationStructure::Priv]. *)
Definition Scene_createGeometryAccelerationStructure (s : nat)
    (forCustomPrimitives : bool) (g : nat) (pos : nat) (ind : Indeterminate) : M nat :=
  let* w := get in
  match gass w !! g with
  | Some _ => lift (Err (Undefined "allocator"))
  | None =>
      modify (set_gass (insert g
        (GAS.mk s SizeAlign.default (replicate 4 0) [] [] []
           (ind_buildOptions ind) (ind_memoryRequirement ind) (ind_compactedSize ind)
           0 0 BufferView_default BufferView_default Default
           forCustomPrimitives false false false false false false false))) ;;;
      Scene_addGAS s pos g ;;;
      ret g
  end.

(** [GeometryAccelerationStructure::destroy]: the destructor, then the
    release of the object. *)
Definition GAS_destroy (g : nat) : M unit :=
  let* self := getGAS g in
  Scene_removeGAS (GAS.scene self) g ;;;
  modify (set_gass (delete g)).

Definition GAS_setConfiguration (g : nat) (tradeoff : ASTradeoff)
    (allowUpdate allowCompaction allowRandomVertexAccess : bool) : M unit :=
  let* m := getGAS g in
  throwM (negb (GAS.forCustomPrimitives m && allowRandomVertexAccess))
         "Random vertex access is the feature only for triangle GAS." ;;;
  let changed :=
    bool_decide (GAS.tradeoff m <> tradeoff)
    || negb (eqb (GAS.allowUpdate m) allowUpdate)
    || negb (eqb (GAS.allowCompaction m) allowCompaction)
    || negb (eqb (GAS.allowRandomVertexAccess m) allowRandomVertexAccess) in
  updGAS g (GAS.set_tradeoff tradeoff) ;;;
  updGAS g (GAS.set_allowUpdate allowUpdate) ;;;
  updGAS g (GAS.set_allowCompaction allowCompaction) ;;;
  updGAS g (GAS.set_allowRandomVertexAccess allowRandomVertexAccess) ;;;
  if changed then GAS_Priv_markDirty g else ret tt.

Definition GAS_setMotionOptions (g : nat) (numKeys : Z) (timeBegin timeEnd : float)
    (flags : Z) : M unit :=
  updGAS g (fun x =>
    GAS.set_buildOptions
      (set_bo_motionOptions
         (mkMotionOptions (u16 numKeys) timeBegin timeEnd (u16 flags))
         (GAS.buildOptions x)) x) ;;;
  GAS_Priv_markDirty g.

(** [addChild]; [geomInst] is [extract(geomInst)], possibly null. *)
Definition GAS_addChild (g : nat) (geomInst : option nat) (preTransform : Z) : M unit :=
  let* m := getGAS g in
  match geomInst with
  | None => throwM false "Invalid geometry instance %p."
  | Some gi =>
      let* _geomInst := getGeomInst gi in
      throwM (bool_decide (GeometryInstance.scene _geomInst = GAS.scene m))
             "Scene mismatch for the given geometry instance %s." ;;;
      throwM (eqb (GeometryInstance.forCustomPrimitives _geomInst)
                  (GAS.forCustomPrimitives m))
             "This GAS was created for %s." ;;;
      let child := GAS.mkChild gi preTransform in
      throwM (bool_decide (child ∉ GAS.children m))
             "Geometry instance %s with transform %p has been already added." ;;;
      updGAS g (fun x => GAS.set_children (GAS.children x ++ [child]) x) ;;;
      GAS_Priv_markDirty g
  end.

(** [children.erase(idx)] for the first element equal to [child]. *)
Fixpoint erase_first (child : GAS.Child) (l : list GAS.Child) : list GAS.Child :=
  match l with
  | [] => []
  | c :: rest => if bool_decide (c = child) then rest else c :: erase_first child rest
  end.

Definition GAS_removeChild (g : nat) (geomInst : option nat) (preTransform : Z) : M unit :=
  let* m := getGAS g in
  match geomInst with
  | None => throwM false "Invalid geometry instance %p."
  | Some gi =>
      let* _geomInst := getGeomInst gi in
      throwM (bool_decide (GeometryInstance.scene _geomInst = GAS.scene m))
             "Scene mismatch for the given geometry instance %s." ;;;
      let child := GAS.mkChild gi preTransform in
      throwM (bool_decide (child ∈ GAS.children m))
             "Geometry instance %s with transform %p has not been added." ;;;
      updGAS g (fun x => GAS.set_children (erase_first child (GAS.children x)) x) ;;;
      GAS_Priv_markDirty g
  end.

Definition GAS_markDirty (g : nat) : M unit := GAS_Priv_markDirty g.

Definition GAS_setNumMaterialSets (g : nat) (numMatSets : Z) : M unit :=
  updGAS g (fun x =>
    GAS.set_numRayTypesPerMaterialSet
      (vec_resize (GAS.numRayTypesPerMaterialSet x) (Z.to_nat numMatSets) 0) x) ;;;
  let* m := getGAS g in
  Scene_markSBTLayoutDirty (GAS.scene m).

Definition GAS_setNumRayTypes (g : nat) (matSetIdx numRayTypes : Z) : M unit :=
  let* m := getGAS g in
  throwM (matSetIdx <? Z.of_nat (length (GAS.numRayTypesPerMaterialSet m)))
         "Material set index %u is out of bounds [0, %u)." ;;;
  updGAS g (fun x =>
    GAS.set_numRayTypesPerMaterialSet
      (<[Z.to_nat matSetIdx := numRayTypes]> (GAS.numRayTypesPerMaterialSet x)) x) ;;;
  Scene_markSBTLayoutDirty (GAS.scene m).

(** The value [prepareForBuild] gives [buildOptions.buildFlags]. *)
Definition tradeoff_flags (t : ASTradeoff) : Z :=
  match t with
  | PreferFastTrace => Z.lor 0 OPTIX_BUILD_FLAG_PREFER_FAST_TRACE
  | PreferFastBuild => Z.lor 0 OPTIX_BUILD_FLAG_PREFER_FAST_BUILD
  | Default => 0
  end.

Definition GAS_buildFlags (m : GAS.t) : Z :=
  Z.lor (tradeoff_flags (GAS.tradeoff m))
    (Z.lor (Z.lor (if GAS.allowUpdate m then OPTIX_BUILD_FLAG_ALLOW_UPDATE else 0)
                  (if GAS.allowCompaction m then OPTIX_BUILD_FLAG_ALLOW_COMPACTION else 0))
           (if GAS.allowRandomVertexAccess m
            then OPTIX_BUILD_FLAG_ALLOW_RANDOM_VERTEX_ACCESS else 0)).

(** A range-based [for] that also counts: [childIdx++]. *)
Definition for_each_indexed {A} (l : list A) (body : nat -> A -> M unit) : M unit :=
  for_each (zip (seq 0 (length l)) l) (fun p => body (fst p) (snd p)).

(** What the backend answers to a call that is handed the build options
    and the build inputs of a GAS: nothing when the call fails. *)
Definition GASBackend (A : Type) : Type :=
  OptixAccelBuildOptions -> list OptixBuildInput -> option A.

(** [prepareForBuild]; [usage] is what [optixAccelComputeMemoryUsage]
    answers for the build options and inputs it is handed.  The result is
    [*memoryRequirement]. *)
Definition GAS_prepareForBuild (g : nat) (usage : GASBackend OptixAccelBufferSizes)
    : M OptixAccelBufferSizes :=
  updGAS g (fun x =>
    GAS.set_buildInputs
      (vec_resize (GAS.buildInputs x) (length (GAS.children x)) BuildInputZero) x) ;;;
  let* m := getGAS g in
  let numMotionSteps := Z.max (mo_numKeys (bo_motionOptions (GAS.buildOptions m))) 1 in
  for_each_indexed (GAS.children m) (fun childIdx child =>
    GeometryInstance_fillBuildInput (GAS.geomInst child) g childIdx
                                    (GAS.preTransform child) ;;;
    let* gi := getGeomInst (GAS.geomInst child) in
    let childNumMotionSteps := GeometryInstance_getNumMotionSteps gi in
    throwM (childNumMotionSteps =? numMotionSteps)
           "This GAS has %u motion steps but the GeometryInstance %s has the number %u.") ;;;
  updGAS g (fun x => GAS.set_buildOptions
                       (set_bo_operation OPERATION_BUILD (GAS.buildOptions x)) x) ;;;
  updGAS g (fun x => GAS.set_buildOptions
                       (set_bo_buildFlags (GAS_buildFlags x) (GAS.buildOptions x)) x) ;;;
  let* m := getGAS g in
  let* sizes := backend_check (usage (GAS.buildOptions m) (GAS.buildInputs m))
                              "optixAccelComputeMemoryUsage" in
  updGAS g (GAS.set_memoryRequirement sizes) ;;;
  updGAS g (GAS.set_readyToBuild true) ;;;
  ret sizes.

Definition compactionEnabled (o : OptixAccelBuildOptions) : bool :=
  negb (Z.land (bo_buildFlags o) OPTIX_BUILD_FLAG_ALLOW_COMPACTION =? 0).
Definition updateEnabled (o : OptixAccelBuildOptions) : bool :=
  negb (Z.land (bo_buildFlags o) OPTIX_BUILD_FLAG_ALLOW_UPDATE =? 0).

(** [rebuild]; [built] is the handle [optixAccelBuild] writes for the
    build options and inputs it is handed, if it succeeds, [recorded]
    whether [cuEventRecord] succeeds. *)
Definition GAS_rebuild (g : nat) (accelBuffer scratchBuffer : BufferView)
    (built : GASBackend Z) (recorded : bool) : M Z :=
  let* m := getGAS g in
  throwM (GAS.readyToBuild m) "You need to call prepareForBuild() before rebuild." ;;;
  throwM (outputSizeInBytes (GAS.memoryRequirement m) <=? sizeInBytes accelBuffer)
         "Size of the given buffer is not enough." ;;;
  throwM (tempSizeInBytes (GAS.memoryRequirement m) <=? sizeInBytes scratchBuffer)
         "Size of the given scratch buffer is not enough." ;;;
  for_each_indexed (GAS.children m) (fun childIdx child =>
    GeometryInstance_updateBuildInput (GAS.geomInst child) g childIdx
                                      (GAS.preTransform child)) ;;;
  updGAS g (fun x => GAS.set_buildOptions
                       (set_bo_operation OPERATION_BUILD (GAS.buildOptions x)) x) ;;;
  let* m := getGAS g in
  let* h := backend_check (built (GAS.buildOptions m) (GAS.buildInputs m))
                          "optixAccelBuild" in
  updGAS g (GAS.set_handle h) ;;;
  backend_check (if recorded then Some tt else None) "cuEventRecord" ;;;
  updGAS g (GAS.set_accelBuffer accelBuffer) ;;;
  updGAS g (GAS.set_available true) ;;;
  updGAS g (GAS.set_readyToCompact false) ;;;
  updGAS g (GAS.set_compactedHandle 0) ;;;
  updGAS g (GAS.set_compactedAvailable false) ;;;
  ret h.

(** [prepareForCompact]; [synchronized] and [readback] are the outcomes of
    [cuEventSynchronize] and of the copy of the compacted size.  The result
    is the value written to [*compactedAccelBufferSize], if any. *)
Definition GAS_prepareForCompact (g : nat) (synchronized : bool) (readback : option Z)
    : M (option Z) :=
  let* m := getGAS g in
  throwM (compactionEnabled (GAS.buildOptions m)) "This AS does not allow compaction." ;;;
  throwM (GAS.available m) "Uncompacted AS has not been built yet." ;;;
  if GAS.compactedAvailable m then ret None
  else
    backend_check (if synchronized then Some tt else None) "cuEventSynchronize" ;;;
    let* size := backend_check readback "cuMemcpyDtoH" in
    updGAS g (GAS.set_compactedSize size) ;;;
    updGAS g (GAS.set_readyToCompact true) ;;;
    ret (Some size).

Definition GAS_compact (g : nat) (compactedAccelBuffer : BufferView)
    (compacted : option Z) (recorded : bool) : M Z :=
  let* m := getGAS g in
  throwM (compactionEnabled (GAS.buildOptions m)) "This AS does not allow compaction." ;;;
  throwM (GAS.readyToCompact m) "You need to call prepareForCompact() before compaction." ;;;
  throwM (GAS.available m) "Uncompacted AS has not been built yet." ;;;
  throwM (GAS.compactedSize m <=? sizeInBytes compactedAccelBuffer)
         "Size of the given buffer is not enough." ;;;
  let* h := backend_check compacted "optixAccelCompact" in
  updGAS g (GAS.set_compactedHandle h) ;;;
  backend_check (if recorded then Some tt else None) "cuEventRecord" ;;;
  updGAS g (GAS.set_compactedAccelBuffer compactedAccelBuffer) ;;;
  updGAS g (GAS.set_compactedAvailable true) ;;;
  ret h.

Definition GAS_removeUncompacted (g : nat) (synchronized : bool) : M unit :=
  let* m := getGAS g in
  if negb (GAS.compactedAvailable m) || negb (compactionEnabled (GAS.buildOptions m))
  then ret tt
  else
    backend_check (if synchronized then Some tt else None) "cuEventSynchronize" ;;;
    updGAS g (GAS.set_handle 0) ;;;
    updGAS g (GAS.set_available false).

(** [update]; [optixuAssert] is compiled out of release builds. *)
Definition GAS_update (g : nat) (scratchBuffer : BufferView) (built : GASBackend Z)
    : M unit :=
  let* m := getGAS g in
  throwM (updateEnabled (GAS.buildOptions m)) "This AS does not allow update." ;;;
  throwM (GAS.available m || GAS.compactedAvailable m) "AS has not been built yet." ;;;
  throwM (tempUpdateSizeInBytes (GAS.memoryRequirement m) <=? sizeInBytes scratchBuffer)
         "Size of the given scratch buffer is not enough." ;;;
  for_each_indexed (GAS.children m) (fun childIdx child =>
    GeometryInstance_updateBuildInput (GAS.geomInst child) g childIdx
                                      (GAS.preTransform child)) ;;;
  updGAS g (fun x => GAS.set_buildOptions
                       (set_bo_operation OPERATION_UPDATE (GAS.buildOptions x)) x) ;;;
  let* m := getGAS g in
  let* _ := backend_check (built (GAS.buildOptions m) (GAS.buildInputs m))
                          "optixAccelBuild" in
  ret tt.

Definition GAS_setUserData (g : nat) (data : list Z) (size alignment : Z) : M unit :=
  throwM (size <=? s_maxGASUserDataSize)
         "Maximum user data size for Material is %u bytes." ;;;
  throwM ((0 <? alignment) && (alignment <=? OPTIX_SBT_RECORD_ALIGNMENT))
         "Valid alignment range is [1, %u]." ;;;
  let* bytes := lift (copy_user_data data size) in
  updGAS g (fun x =>
    GAS.set_userData bytes (GAS.set_userDataSizeAlign (SizeAlign.mk size alignment) x)).

(** [GeometryAccelerationStructure::Priv::isReady] and [getHandle]
    (optix_util_private.h). *)
Definition GAS_isReady (m : GAS.t) : bool :=
  GAS.available m || GAS.compactedAvailable m.

Definition GAS_getHandle (m : GAS.t) : result Z :=
  let? _ := throwRuntimeError (GAS_isReady m) "Traversable handle is not ready." in
  if GAS.compactedAvailable m then Ok (GAS.compactedHandle m)
  else if GAS.available m then Ok (GAS.handle m)
  else Ok 0.

End GASOps.


(* ===================================================================== *)
(** * Transform *)
(* ===================================================================== *)

Definition zero_MotionOptions : OptixMotionOptions := mkMotionOptions 0 f0 f0 0.

(** [matrix[i]] for the caller's array of twelve floats. *)
Definition mat_at (matrix : list float) (i : nat) : float := nth i matrix f0.

Section TransformOps.
Context `{OptixSDK}.

(** [Scene::createTransform]: the constructor of [Transform::Priv]. *)
Definition Scene_createTransform (s : nat) (t : nat) (pos : nat) : M nat :=
  let* w := get in
  match transforms w !! t with
  | Some _ => lift (Err (Undefined "allocator"))
  | None =>
      modify (set_transforms (insert t
        (Transform.mk s None ChildInvalid DataNull 0 InvalidTransform
           (mkMotionOptions 2 f0 f0 (u16 OPTIX_MOTION_FLAG_NONE)) 0 false))) ;;;
      Scene_addTransform s pos t ;;;
      ret t
  end.

(** The twelve floats [setConfiguration] writes for every key and for the
    static transform. *)
Definition initial_key : list float :=
  [f1; f0; f0; f0;  f1; f0; f0; f0;  f1; f0; f0; f0].

Definition initial_SRT : OptixSRTData :=
  mkSRT f1 f0 f0 f0  f1 f0 f0  f1 f0  f0 f0 f0 f1  f0 f0 f0.

(** What [std::memset(m->data, 0, m->dataSize)] leaves of a key. *)
Definition zero_key : list float := replicate 12 f0.

(** The [data] of a matrix motion transform is
    [sizeof(OptixMatrixMotionTransform) + (numKeys - 2) * 12 * sizeof(float)]
    bytes, the struct ending with two keys and [(numKeys - 2) * 12] being a
    product of [uint32_t]: the floats after the two keys of the struct,
    and the keys [data] has room for. *)
Definition MatrixMotion_extraFloats (numKeys : Z) : Z :=
  u32_mul (u32_sub numKeys 2) 12.

Definition MatrixMotion_keysHeld (numKeys : Z) : Z :=
  2 + MatrixMotion_extraFloats numKeys / 12.

(** The loop [for (uint32_t i = 0; i < numKeys; ++i)] writes the key [i]
    at [motionData + 12 * i], a product of [uint32_t] too: the keys below
    357913942 ([12 * 357913941 = 2^32 - 4]) lie one after the other, the
    later ones are written over them, four floats further (with the same
    floats, the twelve floats of a key being three times the same four).
    The writes stay inside [data] when the keys that lie one after the
    other do. *)
Definition MatrixMotion_keysWritten (numKeys : Z) : Z :=
  Z.min numKeys 357913942.

Definition MatrixMotion_keys_fit (numKeys : Z) : bool :=
  12 * MatrixMotion_keysWritten numKeys <=? 24 + MatrixMotion_extraFloats numKeys.

(** [Transform::setConfiguration]; the result is [*transformSize].
    [options.numKeys] is an [unsigned short]; [data] holds the keys the
    allocation of [dataSize] bytes has room for, zeroed by [std::memset]
    before the loop writes them. *)
Definition Transform_setConfiguration (t : nat) (type : TransformType) (numKeys : Z)
    : M Z :=
  updTransform t (Transform.set_type type) ;;;
  let numKeys := Z.max numKeys 2 in
  (match type with
   | MatrixMotion =>
       updTransform t (Transform.set_dataSize
         (u64 (sizeof_OptixMatrixMotionTransform + MatrixMotion_extraFloats numKeys * 4))) ;;;
       updTransform t (fun x =>
         Transform.set_options (set_mo_numKeys (u16 numKeys) (Transform.options x)) x) ;;;
       updTransform t (Transform.set_data
         (DataMatrixMotion 0 zero_MotionOptions
            (replicate (Z.to_nat (MatrixMotion_keysHeld numKeys)) zero_key))) ;;;
       lift (if MatrixMotion_keys_fit numKeys then Ok tt
             else Err (Undefined "dataPerKey past the end of data")) ;;;
       updTransform t (Transform.set_data
         (DataMatrixMotion 0 zero_MotionOptions
            (replicate (Z.to_nat (MatrixMotion_keysWritten numKeys)) initial_key
             ++ replicate (Z.to_nat (MatrixMotion_keysHeld numKeys
                                     - MatrixMotion_keysWritten numKeys)) zero_key)))
   | SRTMotion =>
       updTransform t (Transform.set_dataSize
         (u64 (sizeof_OptixSRTMotionTransform + u32_sub numKeys 2 * sizeof_OptixSRTData))) ;;;
       updTransform t (fun x =>
         Transform.set_options (set_mo_numKeys (u16 numKeys) (Transform.options x)) x) ;;;
       updTransform t (Transform.set_data
         (DataSRTMotion 0 zero_MotionOptions
            (replicate (Z.to_nat numKeys) initial_SRT)))
   | Static =>
       updTransform t (Transform.set_dataSize sizeof_OptixStaticTransform) ;;;
       updTransform t (Transform.set_data (DataStatic 0 initial_key initial_key))
   | InvalidTransform => ret tt
   end) ;;;
  let* m := getTransform t in
  Transform_Priv_markDirty t ;;;
  ret (Transform.dataSize m).

Definition Transform_setMotionOptions (t : nat) (timeBegin timeEnd : float) (flags : Z)
    : M unit :=
  updTransform t (fun x =>
    Transform.set_options
      (set_mo_flags (u16 flags)
         (set_mo_timeEnd timeEnd (set_mo_timeBegin timeBegin (Transform.options x)))) x) ;;;
  Transform_Priv_markDirty t.

(** The determinant of the upper-left 3x3 block, in the order the source
    evaluates it. *)
Definition det3 (matrix : list float) : float :=
  let m := mat_at matrix in
  fsub (fsub (fsub (fadd (fadd (fmul (fmul (m 0%nat) (m 5%nat)) (m 10%nat))
                               (fmul (fmul (m 1%nat) (m 6%nat)) (m 8%nat)))
                         (fmul (fmul (m 2%nat) (m 4%nat)) (m 9%nat)))
                   (fmul (fmul (m 2%nat) (m 5%nat)) (m 8%nat)))
             (fmul (fmul (m 1%nat) (m 4%nat)) (m 10%nat)))
       (fmul (fmul (m 0%nat) (m 6%nat)) (m 9%nat)).

(** [invMat] of [setStaticTransform]. *)
Definition invMat (invDet : float) (matrix : list float) : list float :=
  let m := mat_at matrix in
  let cof a b c d := fmul invDet (fsub (fmul (m a) (m b)) (fmul (m c) (m d))) in
  [ cof 5 10 6 9;  cof 2 9 1 10;  cof 1 6 2 5;  fneg (m 3);
    cof 6 8 4 10;  cof 0 10 2 8;  cof 2 4 0 6;  fneg (m 7);
    cof 4 9 5 8;   cof 1 8 0 9;   cof 0 5 1 4;  fneg (m 11) ]%nat.

(** [Transform::setStaticTransform]. *)
Definition Transform_setStaticTransform (t : nat) (matrix : list float) : M unit :=
  let* m := getTransform t in
  throwM (bool_decide (Transform.type m = Static))
         "This transform has been configured as static transform." ;;;
  let* _ := lift (if bool_decide (length matrix = 12%nat) then Ok tt
                  else Err (Undefined "matrix[12]")) in
  let invDet := fdiv f1 (det3 matrix) in
  throwM (fneb invDet f0) "Given matrix is not invertible." ;;;
  match Transform.data m with
  | DataStatic child _ _ =>
      updTransform t (Transform.set_data (DataStatic child matrix (invMat invDet matrix))) ;;;
      Transform_Priv_markDirty t
  | _ => lift (Err (Undefined "data is not an OptixStaticTransform"))
  end.

(** The three overloads of [Transform::setChild]. *)
Definition Transform_setChild (t : nat) (childType : ChildType) (child : option nat)
    : M unit :=
  updTransform t (Transform.set_childType childType) ;;;
  updTransform t (Transform.set_child child) ;;;
  Transform_Priv_markDirty t.

Definition Transform_markDirty (t : nat) : M unit := Transform_Priv_markDirty t.

Definition Transform_isReady (m : Transform.t) : bool := Transform.available m.

Definition Transform_getHandle (m : Transform.t) : result Z :=
  let? _ := throwRuntimeError (Transform_isReady m) "Traversable handle is not ready." in
  Ok (Transform.handle m).

(** [InstanceAccelerationStructure::Priv::isReady] and [getHandle]
    (optix_util_private.h); [optixAssert_ShouldNotBeCalled] is compiled out
    of release builds. *)
Definition IAS_isReady (m : IAS.t) : bool :=
  IAS.available m || IAS.compactedAvailable m.

Definition IAS_getHandle (m : IAS.t) : result Z :=
  let? _ := throwRuntimeError (IAS_isReady m) "Traversable handle is not ready." in
  if IAS.compactedAvailable m then Ok (IAS.compactedHandle m)
  else if IAS.available m then Ok (IAS.handle m)
  else Ok 0.

(** The child pointer of a transform or of an instance, which is null or
    dangling when the arena has no object there. *)
Definition child_ptr (child : option nat) : result nat :=
  match child with
  | Some c => Ok c
  | None => Err (Undefined "null child")
  end.

(** [getHandle()] of the child of a transform or an instance. *)
Definition child_getHandle (w : World) (type : ChildType) (child : option nat)
    : result Z :=
  match type with
  | ChildGAS =>
      let? c := child_ptr child in
      let? x := deref (gass w) c "childGas" in GAS_getHandle x
  | ChildIAS =>
      let? c := child_ptr child in
      let? x := deref (iass w) c "childIas" in IAS_getHandle x
  | ChildTransform =>
      let? c := child_ptr child in
      let? x := deref (transforms w) c "childXfm" in Transform_getHandle x
  | ChildInvalid => Ok 0
  end.

(** [Transform::rebuild]; [copied] and [converted] are the outcomes of the
    copy to the device and of [optixConvertPointerToTraversableHandle]. *)
Definition Transform_rebuild (t : nat) (trDeviceMem : BufferView) (copied : bool)
    (converted : option Z) : M Z :=
  let* m := getTransform t in
  throwM (bool_decide (Transform.type m <> InvalidTransform)) "Transform type is invalid." ;;;
  throwM (Transform.dataSize m <=? sizeInBytes trDeviceMem)
         "Size of the given buffer is not enough." ;;;
  throwM (bool_decide (Transform.childType m <> ChildInvalid)) "Child is invalid." ;;;
  let* w := get in
  let* childHandle := lift (child_getHandle w (Transform.childType m) (Transform.child m)) in
  (match Transform.type m, Transform.data m with
   | MatrixMotion, DataMatrixMotion _ _ keys =>
       updTransform t (Transform.set_data
                         (DataMatrixMotion childHandle (Transform.options m) keys))
   | SRTMotion, DataSRTMotion _ _ keys =>
       updTransform t (Transform.set_data
                         (DataSRTMotion childHandle (Transform.options m) keys))
   | Static, DataStatic _ tr inv =>
       updTransform t (Transform.set_data (DataStatic childHandle tr inv))
   | _, _ => lift (Err (Undefined "data does not match the transform type"))
   end) ;;;
  backend_check (if copied then Some tt else None) "cuMemcpyHtoDAsync" ;;;
  let* h := backend_check converted "optixConvertPointerToTraversableHandle" in
  updTransform t (Transform.set_handle h) ;;;
  updTransform t (Transform.set_available true) ;;;
  ret h.

(** [Transform::Priv::getDescendantGAS].  The recursion follows child
    pointers; [fuel] bounds its depth, and a chain that does not end within
    it is the unbounded recursion of the source. *)
Fixpoint Transform_getDescendantGAS (fuel : nat) (w : World) (t : nat)
    : result (option nat) :=
  match fuel with
  | O => Err (Undefined "unbounded recursion")
  | S fuel =>
      let? m := deref (transforms w) t "transform" in
      match Transform.childType m with
      | ChildGAS => Ok (Transform.child m)
      | ChildIAS => Ok None
      | ChildTransform =>
          let? c := child_ptr (Transform.child m) in
          Transform_getDescendantGAS fuel w c
      | ChildInvalid => Ok None
      end
  end.

(* =================================================================== *)
(** * Instance *)
(* =================================================================== *)

Definition identity12 : list float :=
  [f1; f0; f0; f0;  f0; f1; f0; f0;  f0; f0; f1; f0].

(** [Scene::createInstance]: the constructor of [Instance::Priv]. *)
Definition Scene_createInstance (s : nat) (i : nat) : M nat :=
  let* w := get in
  match instances w !! i with
  | Some _ => lift (Err (Undefined "allocator"))
  | None =>
      modify (set_instances (insert i
        (Instance.mk s ChildInvalid None 4294967295 0 255 OPTIX_INSTANCE_FLAG_NONE
                     identity12))) ;;;
      ret i
  end.

(** The three overloads of [Instance::setChild]; the one for an IAS passes
    [matSetIdx = 0]. *)
Definition Instance_setChild (i : nat) (type : ChildType) (child : option nat)
    (matSetIdx : Z) : M unit :=
  updInstance i (Instance.set_type type) ;;;
  updInstance i (Instance.set_child child) ;;;
  updInstance i (Instance.set_matSetIndex matSetIdx).

Definition Instance_setTransform (i : nat) (transform : list float) : M unit :=
  let* _ := lift (if bool_decide (length transform = 12%nat) then Ok tt
                  else Err (Undefined "transform[12]")) in
  updInstance i (Instance.set_instTransform transform).

(** [Instance::setID]; [maxInstanceID] is the limit the device context
    reports. *)
Definition Instance_setID (i : nat) (value : Z) (maxInstanceID : Z) : M unit :=
  throwM (value <=? maxInstanceID) "Max instance ID value is 0x%08x." ;;;
  updInstance i (Instance.set_id value).

Definition Instance_setVisibilityMask (i : nat) (mask : Z) (numVisibilityMaskBits : Z)
    : M unit :=
  throwM (Z.shiftr mask numVisibilityMaskBits =? 0)
         "Number of visibility mask bits is %u." ;;;
  updInstance i (Instance.set_visibilityMask mask).

Definition Instance_setFlags (i : nat) (flags : Z) : M unit :=
  updInstance i (Instance.set_flags flags).

Definition Instance_setMaterialSetIndex (i : nat) (matSetIdx : Z) : M unit :=
  updInstance i (Instance.set_matSetIndex matSetIdx).

(** [instance] of [fillInstance] and [updateInstance] points into the
    vector [instances] of an IAS. *)
Definition loadInstance (a : nat) (idx : nat) : M OptixInstance :=
  let* ias := getIAS a in
  lift (vec_at (IAS.instances ias) (Z.of_nat idx) "instances[childIdx]").

Definition updOptixInstance (a : nat) (idx : nat) (f : OptixInstance -> OptixInstance)
    : M unit :=
  let* x := loadInstance a idx in
  updIAS a (fun ias => IAS.set_instances (<[idx := f x]> (IAS.instances ias)) ias).

(** The branches on the child type that [fillInstance] and
    [updateInstance] share; [withHandle] tells whether the traversable
    handle is written, which only [fillInstance] does. *)
Definition Instance_resolveChild (self : Instance.t) (a : nat) (idx : nat)
    (withHandle : bool) : M unit :=
  let* w := get in
  let fuel := S (size (transforms w)) in
  match Instance.type self with
  | ChildGAS =>
      let* c := lift (child_ptr (Instance.child self)) in
      let* childGas := getGAS c in
      throwM (GAS_isReady childGas) "GAS %s is not ready." ;;;
      (if withHandle then
         let* h := lift (GAS_getHandle childGas) in
         updOptixInstance a idx (set_oi_traversableHandle h)
       else ret tt) ;;;
      let* off := lift (Scene_getSBTOffset w (Instance.scene self) c
                                           (Instance.matSetIndex self)) in
      updOptixInstance a idx (set_oi_sbtOffset off)
  | ChildIAS =>
      let* c := lift (child_ptr (Instance.child self)) in
      let* childIas := getIAS c in
      throwM (IAS_isReady childIas) "IAS %s is not ready." ;;;
      (if withHandle then
         let* h := lift (IAS_getHandle childIas) in
         updOptixInstance a idx (set_oi_traversableHandle h)
       else ret tt) ;;;
      updOptixInstance a idx (set_oi_sbtOffset 0)
  | ChildTransform =>
      let* c := lift (child_ptr (Instance.child self)) in
      let* childXfm := getTransform c in
      throwM (Transform_isReady childXfm) "Transform %s is not ready." ;;;
      (if withHandle then
         let* h := lift (Transform_getHandle childXfm) in
         updOptixInstance a idx (set_oi_traversableHandle h)
       else ret tt) ;;;
      let* desGas := lift (Transform_getDescendantGAS fuel w c) in
      match desGas with
      | Some dg =>
          let* off := lift (Scene_getSBTOffset w (Instance.scene self) dg
                                               (Instance.matSetIndex self)) in
          updOptixInstance a idx (set_oi_sbtOffset off)
      | None => updOptixInstance a idx (set_oi_sbtOffset 0)
      end
  | ChildInvalid => ret tt
  end.

(** [Instance::Priv::fillInstance]. *)
Definition Instance_fillInstance (i : nat) (a : nat) (idx : nat) : M unit :=
  let* self := getInstance i in
  updOptixInstance a idx (fun _ => OptixInstance_zero) ;;;
  updOptixInstance a idx (set_oi_transform (Instance.instTransform self)) ;;;
  updOptixInstance a idx (set_oi_instanceId (Instance.id self)) ;;;
  Instance_resolveChild self a idx true ;;;
  updOptixInstance a idx (set_oi_visibilityMask (Instance.visibilityMask self)) ;;;
  updOptixInstance a idx (set_oi_flags (Instance.flags self)).

(** [Instance::Priv::updateInstance]. *)
Definition Instance_updateInstance (i : nat) (a : nat) (idx : nat) : M unit :=
  let* self := getInstance i in
  updOptixInstance a idx (set_oi_transform (Instance.instTransform self)) ;;;
  updOptixInstance a idx (set_oi_instanceId (Instance.id self)) ;;;
  Instance_resolveChild self a idx false ;;;
  updOptixInstance a idx (set_oi_visibilityMask (Instance.visibilityMask self)) ;;;
  updOptixInstance a idx (set_oi_flags (Instance.flags self)).

(* =================================================================== *)
(** * InstanceAccelerationStructure *)
(* =================================================================== *)

(** [Scene::createInstanceAccelerationStructure]: the constructor of
    [InstanceAccelerationStructure::Priv]. *)
Definition Scene_createInstanceAccelerationStructure (s : nat) (a : nat) (pos : nat)
    (ind : Indeterminate) (buildInput : OptixBuildInput) : M nat :=
  let* w := get in
  match iass w !! a with
  | Some _ => lift (Err (Undefined "allocator"))
  | None =>
      modify (set_iass (insert a
        (IAS.mk s [] buildInput []
           (ind_buildOptions ind) (ind_memoryRequirement ind) (ind_compactedSize ind)
           0 0 BufferView_default BufferView_default BufferView_default Default
           false false false false false false))) ;;;
      Scene_addIAS s pos a ;;;
      ret a
  end.

Definition IAS_destroy (a : nat) : M unit :=
  let* self := getIAS a in
  Scene_removeIAS (IAS.scene self) a ;;;
  modify (set_iass (delete a)).

Definition IAS_setConfiguration (a : nat) (tradeoff : ASTradeoff)
    (allowUpdate allowCompaction : bool) : M unit :=
  let* m := getIAS a in
  let changed :=
    bool_decide (IAS.tradeoff m <> tradeoff)
    || negb (eqb (IAS.allowUpdate m) allowUpdate)
    || negb (eqb (IAS.allowCompaction m) allowCompaction) in
  updIAS a (IAS.set_tradeoff tradeoff) ;;;
  updIAS a (IAS.set_allowUpdate allowUpdate) ;;;
  updIAS a (IAS.set_allowCompaction allowCompaction) ;;;
  if changed then IAS_Priv_markDirty a else ret tt.

Definition IAS_setMotionOptions (a : nat) (numKeys : Z) (timeBegin timeEnd : float)
    (flags : Z) : M unit :=
  updIAS a (fun x =>
    IAS.set_buildOptions
      (set_bo_motionOptions
         (mkMotionOptions (u16 numKeys) timeBegin timeEnd (u16 flags))
         (IAS.buildOptions x)) x) ;;;
  IAS_Priv_markDirty a.

Definition IAS_addChild (a : nat) (instance : option nat) : M unit :=
  let* m := getIAS a in
  match instance with
  | None => throwM false "Invalid instance %p."
  | Some i =>
      let* _inst := getInstance i in
      throwM (bool_decide (Instance.scene _inst = IAS.scene m))
             "Scene mismatch for the given instance %s." ;;;
      throwM (bool_decide (i ∉ IAS.children m)) "Instance %s has been already added." ;;;
      updIAS a (fun x => IAS.set_children (IAS.children x ++ [i]) x) ;;;
      IAS_Priv_markDirty a
  end.

Fixpoint erase_first_nat (i : nat) (l : list nat) : list nat :=
  match l with
  | [] => []
  | c :: rest => if bool_decide (c = i) then rest else c :: erase_first_nat i rest
  end.

Definition IAS_removeChild (a : nat) (instance : option nat) : M unit :=
  let* m := getIAS a in
  match instance with
  | None => throwM false "Invalid instance %p."
  | Some i =>
      let* _inst := getInstance i in
      throwM (bool_decide (Instance.scene _inst = IAS.scene m))
             "Scene mismatch for the given instance %s." ;;;
      throwM (bool_decide (i ∈ IAS.children m)) "Instance %s has not been added." ;;;
      updIAS a (fun x => IAS.set_children (erase_first_nat i (IAS.children x)) x) ;;;
      IAS_Priv_markDirty a
  end.

Definition IAS_markDirty (a : nat) : M unit := IAS_Priv_markDirty a.

Definition IAS_buildFlags (m : IAS.t) : Z :=
  Z.lor (tradeoff_flags (IAS.tradeoff m))
    (Z.lor (if IAS.allowUpdate m then OPTIX_BUILD_FLAG_ALLOW_UPDATE else 0)
           (if IAS.allowCompaction m then OPTIX_BUILD_FLAG_ALLOW_COMPACTION else 0)).

Definition Scene_sbtLayoutGenerationDone (sc : Scene.t) : bool :=
  Scene.sbtLayoutIsUpToDate sc.

(** What the backend answers to a call that is handed the build options,
    the build input and the instance records of an IAS. *)
Definition IASBackend (A : Type) : Type :=
  OptixAccelBuildOptions -> OptixBuildInput -> list OptixInstance -> option A.

(** [prepareForBuild]; the result is the pair of [*memoryRequirement] and
    [*numInstances].  The locals [transformExists] and [motionASExists] of
    the source are never read. *)
Definition IAS_prepareForBuild (a : nat) (usage : IASBackend OptixAccelBufferSizes)
    : M (OptixAccelBufferSizes * Z) :=
  let* m := getIAS a in
  let* sc := getScene (IAS.scene m) in
  throwM (Scene_sbtLayoutGenerationDone sc)
         "Shader binding table layout generation has not been done." ;;;
  updIAS a (fun x =>
    IAS.set_instances
      (vec_resize (IAS.instances x) (length (IAS.children x)) OptixInstance_zero) x) ;;;
  for_each_indexed (IAS.children m) (fun childIdx child =>
    Instance_fillInstance child a childIdx) ;;;
  updIAS a (IAS.set_buildInput
              (BuildInputInstances (mkInstanceArray 0 (size32 (IAS.children m))))) ;;;
  updIAS a (fun x => IAS.set_buildOptions
                       (set_bo_operation OPERATION_BUILD (IAS.buildOptions x)) x) ;;;
  updIAS a (fun x => IAS.set_buildOptions
                       (set_bo_buildFlags (IAS_buildFlags x) (IAS.buildOptions x)) x) ;;;
  let* m := getIAS a in
  let* sizes := backend_check
                  (usage (IAS.buildOptions m) (IAS.buildInput m) (IAS.instances m))
                  "optixAccelComputeMemoryUsage" in
  updIAS a (IAS.set_memoryRequirement sizes) ;;;
  let* m := getIAS a in
  updIAS a (IAS.set_readyToBuild true) ;;;
  ret (sizes, size32 (IAS.instances m)).

(** [buildInput.instanceArray.instances = ...]. *)
Definition set_instanceArray_instances (p : Z) (b : OptixBuildInput)
    : result OptixBuildInput :=
  match b with
  | BuildInputInstances ia => Ok (BuildInputInstances (set_ia_instances p ia))
  | _ => Err (Undefined "inactive member of the build input union")
  end.

Definition IAS_rebuild (a : nat) (instanceBuffer accelBuffer scratchBuffer : BufferView)
    (copied : bool) (built : IASBackend Z) (recorded : bool) : M Z :=
  let* m := getIAS a in
  throwM (IAS.readyToBuild m) "You need to call prepareForBuild() before rebuild." ;;;
  throwM (outputSizeInBytes (IAS.memoryRequirement m) <=? sizeInBytes accelBuffer)
         "Size of the given buffer is not enough." ;;;
  throwM (tempSizeInBytes (IAS.memoryRequirement m) <=? sizeInBytes scratchBuffer)
         "Size of the given scratch buffer is not enough." ;;;
  throwM (u64 (Z.of_nat (length (IAS.instances m)) * sizeof_OptixInstance)
            <=? sizeInBytes instanceBuffer)
         "Size of the given instance buffer is not enough." ;;;
  for_each_indexed (IAS.children m) (fun childIdx child =>
    Instance_updateInstance child a childIdx) ;;;
  backend_check (if copied then Some tt else None) "cuMemcpyHtoDAsync" ;;;
  let* m1 := getIAS a in
  let* bi := lift (set_instanceArray_instances (getCUdeviceptr instanceBuffer)
                                               (IAS.buildInput m1)) in
  updIAS a (IAS.set_buildInput bi) ;;;
  updIAS a (fun x => IAS.set_buildOptions
                       (set_bo_operation OPERATION_BUILD (IAS.buildOptions x)) x) ;;;
  let* m2 := getIAS a in
  let* h := backend_check
              (built (IAS.buildOptions m2) (IAS.buildInput m2) (IAS.instances m2))
              "optixAccelBuild" in
  updIAS a (IAS.set_handle h) ;;;
  backend_check (if recorded then Some tt else None) "cuEventRecord" ;;;
  updIAS a (IAS.set_instanceBuffer instanceBuffer) ;;;
  updIAS a (IAS.set_accelBuffer accelBuffer) ;;;
  updIAS a (IAS.set_available true) ;;;
  updIAS a (IAS.set_readyToCompact false) ;;;
  updIAS a (IAS.set_compactedHandle 0) ;;;
  updIAS a (IAS.set_compactedAvailable false) ;;;
  ret h.

Definition IAS_prepareForCompact (a : nat) (synchronized : bool) (readback : option Z)
    : M (option Z) :=
  let* m := getIAS a in
  throwM (compactionEnabled (IAS.buildOptions m)) "This AS does not allow compaction." ;;;
  throwM (IAS.available m) "Uncompacted AS has not been built yet." ;;;
  if IAS.compactedAvailable m then ret None
  else
    backend_check (if synchronized then Some tt else None) "cuEventSynchronize" ;;;
    let* size := backend_check readback "cuMemcpyDtoH" in
    updIAS a (IAS.set_compactedSize size) ;;;
    updIAS a (IAS.set_readyToCompact true) ;;;
    ret (Some size).

Definition IAS_compact (a : nat) (compactedAccelBuffer : BufferView)
    (compacted : option Z) (recorded : bool) : M Z :=
  let* m := getIAS a in
  throwM (compactionEnabled (IAS.buildOptions m)) "This AS does not allow compaction." ;;;
  throwM (IAS.readyToCompact m) "You need to call prepareForCompact() before compaction." ;;;
  throwM (IAS.available m) "Uncompacted AS has not been built yet." ;;;
  throwM (IAS.compactedSize m <=? sizeInBytes compactedAccelBuffer)
         "Size of the given buffer is not enough." ;;;
  let* h := backend_check compacted "optixAccelCompact" in
  updIAS a (IAS.set_compactedHandle h) ;;;
  backend_check (if recorded then Some tt else None) "cuEventRecord" ;;;
  updIAS a (IAS.set_compactedAccelBuffer compactedAccelBuffer) ;;;
  updIAS a (IAS.set_compactedAvailable true) ;;;
  ret h.

Definition IAS_removeUncompacted (a : nat) (synchronized : bool) : M unit :=
  let* m := getIAS a in
  if negb (IAS.compactedAvailable m) || negb (compactionEnabled (IAS.buildOptions m))
  then ret tt
  else
    backend_check (if synchronized then Some tt else None) "cuEventSynchronize" ;;;
    updIAS a (IAS.set_handle 0) ;;;
    updIAS a (IAS.set_available false).

Definition IAS_update (a : nat) (scratchBuffer : BufferView) (copied : bool)
    (built : IASBackend Z) : M unit :=
  let* m := getIAS a in
  throwM (updateEnabled (IAS.buildOptions m)) "This AS does not allow update." ;;;
  throwM (IAS.available m || IAS.compactedAvailable m) "AS has not been built yet." ;;;
  throwM (tempUpdateSizeInBytes (IAS.memoryRequirement m) <=? sizeInBytes scratchBuffer)
         "Size of the given scratch buffer is not enough." ;;;
  for_each_indexed (IAS.children m) (fun childIdx child =>
    Instance_updateInstance child a childIdx) ;;;
  backend_check (if copied then Some tt else None) "cuMemcpyHtoDAsync" ;;;
  updIAS a (fun x => IAS.set_buildOptions
                       (set_bo_operation OPERATION_UPDATE (IAS.buildOptions x)) x) ;;;
  let* m2 := getIAS a in
  let* _ := backend_check
              (built (IAS.buildOptions m2) (IAS.buildInput m2) (IAS.instances m2))
              "optixAccelBuild" in
  ret tt.

End TransformOps.


(* ===================================================================== *)
(** * A concrete SDK and concrete worlds *)
(* ===================================================================== *)

(** The values of the OptiX 7 headers; the examples below are run with
    them. *)
Definition optix7 : OptixSDK := {|
  OPTIX_SBT_RECORD_HEADER_SIZE := 32;
  OPTIX_SBT_RECORD_ALIGNMENT := 16;
  OPTIX_BUILD_FLAG_ALLOW_UPDATE := 1;
  OPTIX_BUILD_FLAG_ALLOW_COMPACTION := 2;
  OPTIX_BUILD_FLAG_PREFER_FAST_TRACE := 4;
  OPTIX_BUILD_FLAG_PREFER_FAST_BUILD := 8;
  OPTIX_BUILD_FLAG_ALLOW_RANDOM_VERTEX_ACCESS := 16;
  OPTIX_GEOMETRY_FLAG_NONE := 0;
  OPTIX_INDICES_FORMAT_NONE := 0;
  OPTIX_VERTEX_FORMAT_NONE := 0;
  OPTIX_INSTANCE_FLAG_NONE := 0;
  OPTIX_MOTION_FLAG_NONE := 0;
  sizeof_OptixInstance := 80;
  sizeof_OptixStaticTransform := 112;
  sizeof_OptixMatrixMotionTransform := 128;
  sizeof_OptixSRTMotionTransform := 160;
  sizeof_OptixSRTData := 64;
|}.

Definition empty_world : World := mkWorld ∅ ∅ ∅ ∅ ∅ ∅ ∅.

(** Runs a call and keeps the world. *)
Definition exec {A} (m : M A) (w : World) : World := fst (m w).
(** Runs a call and keeps the outcome. *)
Definition outcome {A} (m : M A) (w : World) : result A := snd (m w).

(** The largest alignment among the items of a sequence ([1] for none, the
    alignment of a fresh [SizeAlign]). *)
Definition max_alignment (items : list SizeAlign.t) : Z :=
  foldr Z.max 1 (map SizeAlign.alignment items).

(** A power of two that fits a [uint32_t]. *)
Definition pow2_u32 (a : Z) : Prop := exists k, 0 <= k < 32 /\ a = 2 ^ k.

Definition sumZ (l : list Z) : Z := foldr Z.add 0 l.

(** The two vectors [setNumMaterials] resizes together have one length. *)
Definition GeometryInstance_wf (gi : GeometryInstance.t) : Prop :=
  length (GeometryInstance.buildInputFlags gi) = length (GeometryInstance.materials gi).

Definition valid_buffer (ptr numElements stride : Z) : BufferView :=
  mkBufferView ptr numElements stride true.

Definition zero_indeterminate : Indeterminate :=
  {| ind_buildOptions := mkBuildOptions 0 OPERATION_UNSET zero_MotionOptions;
     ind_memoryRequirement := mkBufferSizes 0 0 0;
     ind_compactedSize := 0 |}.

(** The scene of the example of section 8: one GAS with two material sets,
    of one and two ray types, and one geometry instance with three
    materials.  The three slots bind one material, which has a hit group for
    the ray types 0 and 1 of pipeline 0. *)
Definition example_calls : M unit :=
  let sdk := optix7 in
  Context_createScene 0%nat ;;;
  Context_createMaterial 0%nat ;;;
  Material_setHitGroup 0%nat 0 7%nat (Some 0%nat) ;;;
  Material_setHitGroup 0%nat 1 8%nat (Some 0%nat) ;;;
  Material_setUserData 0%nat [1; 2; 3; 4; 5; 6; 7; 8] 8 8 ;;;
  Scene_createGeometryAccelerationStructure 0%nat false 0%nat 0%nat zero_indeterminate ;;;
  Scene_createGeometryInstance 0%nat false 0%nat ;;;
  GeometryInstance_setNumMaterials 0%nat 3 (valid_buffer 4096 100 4) 4 ;;;
  GeometryInstance_setMaterial 0%nat 0 0 (Some 0%nat) ;;;
  GeometryInstance_setMaterial 0%nat 0 1 (Some 0%nat) ;;;
  GeometryInstance_setMaterial 0%nat 0 2 (Some 0%nat) ;;;
  GAS_addChild 0%nat (Some 0%nat) 0 ;;;
  GAS_setNumMaterialSets 0%nat 2 ;;;
  GAS_setNumRayTypes 0%nat 0 1 ;;;
  GAS_setNumRayTypes 0%nat 1 2.

Definition example_world : World := exec example_calls empty_world.

(* ===================================================================== *)
(** * The layout, stated without loops *)
(* ===================================================================== *)

Definition from_ok {A} (d : A) (r : result A) : A :=
  match r with Ok a => a | Err _ => d end.

(** The component-wise maximum of a sequence of [SizeAlign]s, [(0, 1)] for
    the empty one. *)
Definition SizeAlign_max_list (l : list SizeAlign.t) : SizeAlign.t :=
  SizeAlign.mk (foldr Z.max 0 (map SizeAlign.size l))
               (foldr Z.max 1 (map SizeAlign.alignment l)).

(** [gas->getNumMaterialSets()] for a pointer of the scene's set. *)
Definition numMatSets_of (w : World) (g : nat) : Z :=
  match gass w !! g with
  | Some gas => GAS_getNumMaterialSets gas
  | None => 0
  end.

(** The (GAS, material set index) pairs in the order of the two nested
    loops: the GAS in the iteration order of [geomASs], the indices of each
    ascending. *)
Definition layout_pairs (w : World) (sc : Scene.t) : list (nat * Z) :=
  flat_map (fun g => map (fun m => (g, m)) (indices (numMatSets_of w g)))
           (Scene.geomASs sc).

Section LayoutSpec.
Context `{OptixSDK}.

Definition record_sizeAlign (w : World) (p : nat * Z) : SizeAlign.t :=
  from_ok SizeAlign.default (GAS_calcMaxRecordSizeAlign w (fst p) (snd p)).

Definition record_count (w : World) (p : nat * Z) : Z :=
  from_ok 0 (GAS_calcNumSBTRecords w (fst p) (snd p)).

(** The maximum per-record [SizeAlign] of a GAS over its material sets,
    aligned up to its own alignment: the size that results. *)
Definition gas_record_size (w : World) (g : nat) : Z :=
  SizeAlign.size
    (SizeAlign.alignUp
       (SizeAlign_max_list
          (map (fun m => record_sizeAlign w (g, m))
               (indices (numMatSets_of w g))))).

(** The global stride: the maximum over the GAS, and not less than the
    record header. *)
Definition layout_stride (w : World) (sc : Scene.t) : Z :=
  foldr Z.max (u32 OPTIX_SBT_RECORD_HEADER_SIZE)
        (map (gas_record_size w) (Scene.geomASs sc)).

(** The number of records of a sequence of pairs. *)
Definition records_of (w : World) (ps : list (nat * Z)) : Z :=
  sumZ (map (record_count w) ps).

(** The size and count computations of the layout pass all return. *)
Definition layout_inputs_ok (w : World) (sc : Scene.t) : Prop :=
  (forall g, g ∈ Scene.geomASs sc -> is_Some (gass w !! g)) /\
  (forall p, p ∈ layout_pairs w sc ->
     is_ok (GAS_calcMaxRecordSizeAlign w (fst p) (snd p)) = true /\
     is_ok (GAS_calcNumSBTRecords w (fst p) (snd p)) = true).

(** The cached layout of scene [s] is up to date: the flag is set, and
    computing the layout afresh from the present scene graph leaves the
    offset map, the stride and the record count as they are cached. *)
Definition layoutUpToDate (w : World) (s : nat) : Prop :=
  exists sc memorySize,
    scenes w !! s = Some sc /\
    Scene.sbtLayoutIsUpToDate sc = true /\
    Scene_generateShaderBindingTableLayout s
      (set_scenes (insert s (Scene.set_sbtLayoutIsUpToDate false sc)) w)
    = (w, Ok memorySize).

(** The calls of [GeometryAccelerationStructure::Priv::fillSBTRecords] in
    a log, with the position each was handed. *)
Definition fill_calls (log : list Event) : list (nat * Z * Z) :=
  omap (fun e => match e with
                 | EvFillSBTRecords g m records => Some (g, m, records)
                 | _ => None
                 end) log.

End LayoutSpec.

(** The example scene once its layout has been generated. *)
Definition example_laid_out : World :=
  exec (@Scene_generateShaderBindingTableLayout optix7 0%nat) example_world.

Section LayoutCheck.
Context `{OptixSDK}.

(** [layout_inputs_ok], as a test. *)
Definition layout_inputs_okb (w : World) (sc : Scene.t) : bool :=
  forallb (fun g => bool_decide (is_Some (gass w !! g))) (Scene.geomASs sc)
  && forallb (fun p => is_ok (GAS_calcMaxRecordSizeAlign w (fst p) (snd p))
                       && is_ok (GAS_calcNumSBTRecords w (fst p) (snd p)))
             (layout_pairs w sc).

(** The geometry instances below the GAS of a scene keep the two vectors
    of [setNumMaterials] at one length. *)
Definition children_wf (w : World) (sc : Scene.t) : Prop :=
  forall g gas child gi,
    g ∈ Scene.geomASs sc -> gass w !! g = Some gas ->
    child ∈ GAS.children gas -> geomInsts w !! GAS.geomInst child = Some gi ->
    GeometryInstance_wf gi.

(** The calls the fill pass is to make from position [records] on, for a
    sequence of pairs: each block starts where the one before it ends. *)
Fixpoint expected_calls (w : World) (stride : Z) (records : Z) (ps : list (nat * Z))
    : list (nat * Z * Z) :=
  match ps with
  | [] => []
  | p :: rest =>
      (fst p, snd p, records)
      :: expected_calls w stride (records + u32_mul (record_count w p) stride) rest
  end.

End LayoutCheck.

(** The scene record of the example, before and after the layout pass. *)
Definition example_scene : Scene.t :=
  match scenes example_world !! 0%nat with
  | Some sc => sc
  | None => Scene.mk [] ∅ 0 0 [] [] false
  end.

Definition example_scene_laid_out : Scene.t :=
  match scenes example_laid_out !! 0%nat with
  | Some sc => sc
  | None => Scene.mk [] ∅ 0 0 [] [] false
  end.

(** The example scene after its layout has been generated and its geometry
    instance has then been given a fourth material: no call on a geometry
    instance marks the layout dirty. *)
Definition regrown_calls : M unit :=
  let sdk := optix7 in
  GeometryInstance_setNumMaterials 0%nat 4 (valid_buffer 4096 100 4) 4 ;;;
  GeometryInstance_setMaterial 0%nat 0 3 (Some 0%nat).

Definition regrown_world : World := exec regrown_calls example_laid_out.

(** A backend that accepts every call of the fill pass. *)
Definition willing_backend : FillBackend :=
  {| packHeader_ok := fun _ _ => true; memcpyHtoD_ok := true |}.

(* ===================================================================== *)
(** * Worlds for the life cycle and the transforms *)
(* ===================================================================== *)

Definition example_sizes : OptixAccelBufferSizes := mkBufferSizes 1024 256 128.

(** A scene with a GAS of one material set and an IAS, both built: the
    calls a client makes, with a backend that accepts them. *)
Definition lifecycle_calls : M unit :=
  let sdk := optix7 in
  Context_createScene 0%nat ;;;
  Scene_createGeometryAccelerationStructure 0%nat false 0%nat 0%nat zero_indeterminate ;;;
  GAS_setConfiguration 0%nat Default true true false ;;;
  GAS_setNumMaterialSets 0%nat 1 ;;;
  Scene_createInstanceAccelerationStructure 0%nat 0%nat 0%nat zero_indeterminate
                                            BuildInputZero ;;;
  Scene_generateShaderBindingTableLayout 0%nat ;;;
  GAS_prepareForBuild 0%nat (fun _ _ => Some example_sizes) ;;;
  GAS_rebuild 0%nat (valid_buffer 4096 1024 1) (valid_buffer 8192 256 1)
              (fun _ _ => Some 1001) true ;;;
  IAS_prepareForBuild 0%nat (fun _ _ _ => Some example_sizes) ;;;
  IAS_rebuild 0%nat (valid_buffer 12288 0 80) (valid_buffer 16384 1024 1)
              (valid_buffer 20480 256 1) true (fun _ _ _ => Some 2002) true ;;;
  ret tt.

Definition built_world : World := exec lifecycle_calls empty_world.

(** The built scene after its GAS has been compacted: the uncompacted
    structure is still there. *)
Definition compacted_world : World :=
  exec (@GAS_prepareForCompact optix7 0%nat true (Some 512) ;;;
        @GAS_compact optix7 0%nat (valid_buffer 24576 512 1) (Some 1002) true)
       built_world.

(** The four flags [markDirty] clears. *)
Definition dirty_ias (x : IAS.t) : IAS.t :=
  IAS.set_compactedAvailable false
    (IAS.set_readyToCompact false (IAS.set_available false (IAS.set_readyToBuild false x))).

Definition dirty_gas (x : GAS.t) : GAS.t :=
  GAS.set_compactedAvailable false
    (GAS.set_readyToCompact false (GAS.set_available false (GAS.set_readyToBuild false x))).

(** The IAS arena after [markDirty] on each IAS of a list. *)
Definition mark_dirty_all (l : list nat) (m : gmap nat IAS.t) : gmap nat IAS.t :=
  foldl (fun m i => match m !! i with
                    | Some x => <[i := dirty_ias x]> m
                    | None => m
                    end) m l.

(** A scene with one transform configured as static. *)
Definition static_transform_calls : M Z :=
  let sdk := optix7 in
  Context_createScene 0%nat ;;;
  Scene_createTransform 0%nat 0%nat 0%nat ;;;
  Transform_setConfiguration 0%nat Static 0.

Definition static_world : World := exec static_transform_calls empty_world.

Definition zeros12 : list float := replicate 12 f0.

(** A backend that answers [optixAccelBuild] with the number of vertices
    of the first build input it is handed. *)
Definition numVertices_seen : GASBackend Z :=
  fun _ inputs =>
    match inputs with
    | BuildInputTriangles a :: _ => Some (tri_numVertices a)
    | _ => None
    end.

(** The example scene with a buffer of 300 vertices bound and the GAS,
    of one motion key, prepared for its build; the client then asks the
    geometry instance for two motion steps, with buffers of 600 vertices,
    while the GAS still has one. *)
Definition restaged_calls : M unit :=
  let sdk := optix7 in
  example_calls ;;;
  GAS_setMotionOptions 0%nat 1 f0 f0 0 ;;;
  GeometryInstance_setVertexBuffer 0%nat (valid_buffer 32768 300 12) 0 ;;;
  GAS_prepareForBuild 0%nat (fun _ _ => Some example_sizes) ;;;
  GeometryInstance_setNumMotionSteps 0%nat 2 ;;;
  GeometryInstance_setVertexBuffer 0%nat (valid_buffer 65536 600 12) 0 ;;;
  GeometryInstance_setVertexBuffer 0%nat (valid_buffer 73728 600 12) 1.

Definition restaged_world : World := exec restaged_calls empty_world.


(* ===================================================================== *)
(** * The loops of the layout pass without the world *)
(* ===================================================================== *)

(** The world with scene [s] replaced. *)
Definition put_scene (s : nat) (sc : Scene.t) (w : World) : World :=
  set_scenes (insert s sc) w.

(** A run of a call on the world [put_scene s sc w] agrees with a pure
    computation [pure]: when [pure] returns [b], the run returns [val b] and
    leaves scene [post b]; when [pure] throws, so does the run, and only the
    scene has changed. *)
Definition agrees {A B} (run : World * result A) (s : nat) (w : World)
    (pure : result B) (post : B -> Scene.t) (val : B -> A) : Prop :=
  match pure with
  | Ok b => run = (put_scene s (post b) w, Ok (val b))
  | Err e => exists sc', run = (put_scene s sc' w, Err e)
  end.

Section PureLoops.
Context `{OptixSDK}.

(** The body of the first loop: the aligned maximum record size of one
    GAS. *)
Definition gas_stride_pure (w : World) (g : nat) : result Z :=
  let? gas := deref (gass w) g "geometry acceleration structure" in
  let? sa := rfold (fun maxRecordSizeAlign matSetIdx =>
                      let? sa := GAS_calcMaxRecordSizeAlign w g matSetIdx in
                      Ok (SizeAlign.max maxRecordSizeAlign sa))
                   (indices (GAS_getNumMaterialSets gas)) SizeAlign.default in
  Ok (SizeAlign.size (SizeAlign.alignUp sa)).

Definition stride_pure (w : World) (l : list nat) (r0 : Z) : result Z :=
  rfold (fun r g => let? x := gas_stride_pure w g in Ok (Z.max r x)) l r0.

(** The body of the second loop for one pair: the state is the cursor and
    the offset map. *)
Definition offsets_step (w : World) (st : Z * gmap (nat * Z) Z) (p : nat * Z)
    : result (Z * gmap (nat * Z) Z) :=
  let? n := GAS_calcNumSBTRecords w (fst p) (snd p) in
  Ok (u32_add (fst st) n, <[p := fst st]> (snd st)).

Definition offsets_gas_pure (w : World) (st : Z * gmap (nat * Z) Z) (g : nat)
    : result (Z * gmap (nat * Z) Z) :=
  let? gas := deref (gass w) g "geometry acceleration structure" in
  rfold (fun st m => offsets_step w st (g, m))
        (indices (GAS_getNumMaterialSets gas)) st.

Definition offsets_pure (w : World) (l : list nat) (st : Z * gmap (nat * Z) Z)
    : result (Z * gmap (nat * Z) Z) :=
  rfold (offsets_gas_pure w) l st.

(** The scene a successful layout pass leaves. *)
Definition laid_out (sc : Scene.t) (stride : Z) (st : Z * gmap (nat * Z) Z) : Scene.t :=
  Scene.mk (Scene.geomASs sc) (snd st) stride (fst st)
           (Scene.transforms sc) (Scene.instASs sc) true.

(** The layout pass on a dirty scene, in terms of the two pure loops. *)
Definition generate_outcome (s : nat) (w : World) (sc : Scene.t)
    (run : World * result Z) : Prop :=
  match stride_pure w (Scene.geomASs sc) (u32 OPTIX_SBT_RECORD_HEADER_SIZE) with
  | Ok r =>
      match offsets_pure w (Scene.geomASs sc) (0, ∅) with
      | Ok st => run = (put_scene s (laid_out sc r st) w,
                        Ok (Scene_memorySize (laid_out sc r st)))
      | Err e => exists sc', run = (put_scene s sc' w, Err e)
      end
  | Err e => exists sc', run = (put_scene s sc' w, Err e)
  end.

End PureLoops.

(** A computation of the fill pass that makes no call of
    [GeometryAccelerationStructure::Priv::fillSBTRecords]. *)
Definition quiet {A} (m : W A) : Prop := fill_calls (fst m) = [].

Section FlatFill.
Context `{OptixSDK}.
Variable be : FillBackend.

(** The body of the two nested loops of [setupHitGroupSBT], for one
    pair. *)
Definition fill_step (w : World) (pipeline : nat) (stride : Z) (records : Z)
    (p : nat * Z) : W Z :=
  wbind (emit (EvFillSBTRecords (fst p) (snd p) records)) (fun _ =>
  wbind (GAS_fillSBTRecords be w (fst p) pipeline (snd p) records) (fun numRecords =>
  wret (records + u32_mul numRecords stride))).

End FlatFill.

(* ===================================================================== *)
(** * Shapes of calls *)
(* ===================================================================== *)

(** A call that leaves the world as it found it whenever it throws a
    validation error. *)
Definition unchanged_on_validation_error {A} (m : M A) : Prop :=
  forall w w' msg, m w = (w', Err (RuntimeError msg)) -> w' = w.

(** A call that never writes. *)
Definition reads_only {A} (m : M A) : Prop := forall w, fst (m w) = w.

(** A call that never throws a validation error. *)
Definition never_validation_error {A} (m : M A) : Prop :=
  forall w msg, snd (m w) <> Err (RuntimeError msg).

Definition is_dirty_ias (x : IAS.t) : Prop :=
  IAS.readyToBuild x = false /\ IAS.available x = false /\
  IAS.readyToCompact x = false /\ IAS.compactedAvailable x = false.

(* ===================================================================== *)
(** * The public mutating operations, as calls *)
(* ===================================================================== *)

(** One constructor for each public operation of the scene subsystem that
    writes, with the arguments of the call and the answers of the backend
    to it. *)
Inductive Call : Type :=
| Call_createScene (s : nat)
| Call_createMaterial (m : nat)
| Call_Material_setHitGroup (m : nat) (rayType : Z) (hitGroup : nat)
    (hitGroupPipeline : option nat)
| Call_Material_setUserData (m : nat) (data : list Z) (size alignment : Z)
| Call_createGeometryInstance (s : nat) (forCustomPrimitives : bool) (gi : nat)
| Call_GeometryInstance_setNumMotionSteps (gi : nat) (n : Z)
| Call_GeometryInstance_setVertexFormat (gi : nat) (format : Z)
| Call_GeometryInstance_setVertexBuffer (gi : nat) (vertexBuffer : BufferView)
    (motionStep : Z)
| Call_GeometryInstance_setTriangleBuffer (gi : nat) (triangleBuffer : BufferView)
    (format : Z)
| Call_GeometryInstance_setCustomPrimitiveAABBBuffer (gi : nat)
    (primitiveAABBBuffer : BufferView) (motionStep : Z)
| Call_GeometryInstance_setPrimitiveIndexOffset (gi : nat) (offset : Z)
| Call_GeometryInstance_setNumMaterials (gi : nat) (numMaterials : Z)
    (matIndexOffsetBuffer : BufferView) (indexOffsetSize : Z)
| Call_GeometryInstance_setGeometryFlags (gi : nat) (matIdx flags : Z)
| Call_GeometryInstance_setMaterial (gi : nat) (matSetIdx matIdx : Z) (mat : option nat)
| Call_GeometryInstance_setUserData (gi : nat) (data : list Z) (size alignment : Z)
| Call_generateShaderBindingTableLayout (s : nat)
| Call_createGeometryAccelerationStructure (s : nat) (forCustomPrimitives : bool)
    (g : nat) (pos : nat) (ind : Indeterminate)
| Call_GAS_destroy (g : nat)
| Call_GAS_setConfiguration (g : nat) (tradeoff : ASTradeoff)
    (allowUpdate allowCompaction allowRandomVertexAccess : bool)
| Call_GAS_setMotionOptions (g : nat) (numKeys : Z) (timeBegin timeEnd : float) (flags : Z)
| Call_GAS_addChild (g : nat) (geomInst : option nat) (preTransform : Z)
| Call_GAS_removeChild (g : nat) (geomInst : option nat) (preTransform : Z)
| Call_GAS_markDirty (g : nat)
| Call_GAS_setNumMaterialSets (g : nat) (numMatSets : Z)
| Call_GAS_setNumRayTypes (g : nat) (matSetIdx numRayTypes : Z)
| Call_GAS_prepareForBuild (g : nat) (usage : GASBackend OptixAccelBufferSizes)
| Call_GAS_rebuild (g : nat) (accelBuffer scratchBuffer : BufferView)
    (built : GASBackend Z) (recorded : bool)
| Call_GAS_prepareForCompact (g : nat) (synchronized : bool) (readback : option Z)
| Call_GAS_compact (g : nat) (compactedAccelBuffer : BufferView) (compacted : option Z)
    (recorded : bool)
| Call_GAS_removeUncompacted (g : nat) (synchronized : bool)
| Call_GAS_update (g : nat) (scratchBuffer : BufferView) (built : GASBackend Z)
| Call_GAS_setUserData (g : nat) (data : list Z) (size alignment : Z)
| Call_createTransform (s : nat) (t : nat) (pos : nat)
| Call_Transform_setConfiguration (t : nat) (type : TransformType) (numKeys : Z)
| Call_Transform_setMotionOptions (t : nat) (timeBegin timeEnd : float) (flags : Z)
| Call_Transform_setStaticTransform (t : nat) (matrix : list float)
| Call_Transform_setChild (t : nat) (childType : ChildType) (child : option nat)
| Call_Transform_markDirty (t : nat)
| Call_Transform_rebuild (t : nat) (trDeviceMem : BufferView) (copied : bool)
    (converted : option Z)
| Call_createInstance (s : nat) (i : nat)
| Call_Instance_setChild (i : nat) (type : ChildType) (child : option nat) (matSetIdx : Z)
| Call_Instance_setTransform (i : nat) (transform : list float)
| Call_Instance_setID (i : nat) (value maxInstanceID : Z)
| Call_Instance_setVisibilityMask (i : nat) (mask numVisibilityMaskBits : Z)
| Call_Instance_setFlags (i : nat) (flags : Z)
| Call_Instance_setMaterialSetIndex (i : nat) (matSetIdx : Z)
| Call_createInstanceAccelerationStructure (s : nat) (a : nat) (pos : nat)
    (ind : Indeterminate) (buildInput : OptixBuildInput)
| Call_IAS_destroy (a : nat)
| Call_IAS_setConfiguration (a : nat) (tradeoff : ASTradeoff)
    (allowUpdate allowCompaction : bool)
| Call_IAS_setMotionOptions (a : nat) (numKeys : Z) (timeBegin timeEnd : float) (flags : Z)
| Call_IAS_addChild (a : nat) (instance : option nat)
| Call_IAS_removeChild (a : nat) (instance : option nat)
| Call_IAS_markDirty (a : nat)
| Call_IAS_prepareForBuild (a : nat) (usage : IASBackend OptixAccelBufferSizes)
| Call_IAS_rebuild (a : nat) (instanceBuffer accelBuffer scratchBuffer : BufferView)
    (copied : bool) (built : IASBackend Z) (recorded : bool)
| Call_IAS_prepareForCompact (a : nat) (synchronized : bool) (readback : option Z)
| Call_IAS_compact (a : nat) (compactedAccelBuffer : BufferView) (compacted : option Z)
    (recorded : bool)
| Call_IAS_removeUncompacted (a : nat) (synchronized : bool)
| Call_IAS_update (a : nat) (scratchBuffer : BufferView) (copied : bool)
    (built : IASBackend Z).

(** A call whose result the client drops. *)
Definition void {A} (m : M A) : M unit := let* _ := m in ret tt.

Section Calls.
Context `{OptixSDK}.

Definition run (c : Call) : M unit :=
  match c with
  | Call_createScene s => void (Context_createScene s)
  | Call_createMaterial m => void (Context_createMaterial m)
  | Call_Material_setHitGroup m rayType hitGroup pipeline =>
      Material_setHitGroup m rayType hitGroup pipeline
  | Call_Material_setUserData m data size alignment =>
      Material_setUserData m data size alignment
  | Call_createGeometryInstance s forCustom gi =>
      void (Scene_createGeometryInstance s forCustom gi)
  | Call_GeometryInstance_setNumMotionSteps gi n => GeometryInstance_setNumMotionSteps gi n
  | Call_GeometryInstance_setVertexFormat gi format =>
      GeometryInstance_setVertexFormat gi format
  | Call_GeometryInstance_setVertexBuffer gi buf motionStep =>
      GeometryInstance_setVertexBuffer gi buf motionStep
  | Call_GeometryInstance_setTriangleBuffer gi buf format =>
      GeometryInstance_setTriangleBuffer gi buf format
  | Call_GeometryInstance_setCustomPrimitiveAABBBuffer gi buf motionStep =>
      GeometryInstance_setCustomPrimitiveAABBBuffer gi buf motionStep
  | Call_GeometryInstance_setPrimitiveIndexOffset gi offset =>
      GeometryInstance_setPrimitiveIndexOffset gi offset
  | Call_GeometryInstance_setNumMaterials gi n buf size =>
      GeometryInstance_setNumMaterials gi n buf size
  | Call_GeometryInstance_setGeometryFlags gi matIdx flags =>
      GeometryInstance_setGeometryFlags gi matIdx flags
  | Call_GeometryInstance_setMaterial gi matSetIdx matIdx mat =>
      GeometryInstance_setMaterial gi matSetIdx matIdx mat
  | Call_GeometryInstance_setUserData gi data size alignment =>
      GeometryInstance_setUserData gi data size alignment
  | Call_generateShaderBindingTableLayout s =>
      void (Scene_generateShaderBindingTableLayout s)
  | Call_createGeometryAccelerationStructure s forCustom g pos ind =>
      void (Scene_createGeometryAccelerationStructure s forCustom g pos ind)
  | Call_GAS_destroy g => GAS_destroy g
  | Call_GAS_setConfiguration g tradeoff u c r => GAS_setConfiguration g tradeoff u c r
  | Call_GAS_setMotionOptions g numKeys b e flags => GAS_setMotionOptions g numKeys b e flags
  | Call_GAS_addChild g gi preTransform => GAS_addChild g gi preTransform
  | Call_GAS_removeChild g gi preTransform => GAS_removeChild g gi preTransform
  | Call_GAS_markDirty g => GAS_markDirty g
  | Call_GAS_setNumMaterialSets g n => GAS_setNumMaterialSets g n
  | Call_GAS_setNumRayTypes g matSetIdx n => GAS_setNumRayTypes g matSetIdx n
  | Call_GAS_prepareForBuild g usage => void (GAS_prepareForBuild g usage)
  | Call_GAS_rebuild g accel scratch built recorded =>
      void (GAS_rebuild g accel scratch built recorded)
  | Call_GAS_prepareForCompact g synchronized readback =>
      void (GAS_prepareForCompact g synchronized readback)
  | Call_GAS_compact g buf compacted recorded => void (GAS_compact g buf compacted recorded)
  | Call_GAS_removeUncompacted g synchronized => GAS_removeUncompacted g synchronized
  | Call_GAS_update g scratch built => GAS_update g scratch built
  | Call_GAS_setUserData g data size alignment => GAS_setUserData g data size alignment
  | Call_createTransform s t pos => void (Scene_createTransform s t pos)
  | Call_Transform_setConfiguration t type numKeys =>
      void (Transform_setConfiguration t type numKeys)
  | Call_Transform_setMotionOptions t b e flags => Transform_setMotionOptions t b e flags
  | Call_Transform_setStaticTransform t matrix => Transform_setStaticTransform t matrix
  | Call_Transform_setChild t childType child => Transform_setChild t childType child
  | Call_Transform_markDirty t => Transform_markDirty t
  | Call_Transform_rebuild t mem copied converted =>
      void (Transform_rebuild t mem copied converted)
  | Call_createInstance s i => void (Scene_createInstance s i)
  | Call_Instance_setChild i type child matSetIdx => Instance_setChild i type child matSetIdx
  | Call_Instance_setTransform i transform => Instance_setTransform i transform
  | Call_Instance_setID i value maxInstanceID => Instance_setID i value maxInstanceID
  | Call_Instance_setVisibilityMask i mask bits => Instance_setVisibilityMask i mask bits
  | Call_Instance_setFlags i flags => Instance_setFlags i flags
  | Call_Instance_setMaterialSetIndex i matSetIdx => Instance_setMaterialSetIndex i matSetIdx
  | Call_createInstanceAccelerationStructure s a pos ind buildInput =>
      void (Scene_createInstanceAccelerationStructure s a pos ind buildInput)
  | Call_IAS_destroy a => IAS_destroy a
  | Call_IAS_setConfiguration a tradeoff u c => IAS_setConfiguration a tradeoff u c
  | Call_IAS_setMotionOptions a numKeys b e flags => IAS_setMotionOptions a numKeys b e flags
  | Call_IAS_addChild a instance => IAS_addChild a instance
  | Call_IAS_removeChild a instance => IAS_removeChild a instance
  | Call_IAS_markDirty a => IAS_markDirty a
  | Call_IAS_prepareForBuild a usage => void (IAS_prepareForBuild a usage)
  | Call_IAS_rebuild a inst accel scratch copied built recorded =>
      void (IAS_rebuild a inst accel scratch copied built recorded)
  | Call_IAS_prepareForCompact a synchronized readback =>
      void (IAS_prepareForCompact a synchronized readback)
  | Call_IAS_compact a buf compacted recorded => void (IAS_compact a buf compacted recorded)
  | Call_IAS_removeUncompacted a synchronized => IAS_removeUncompacted a synchronized
  | Call_IAS_update a scratch copied built => IAS_update a scratch copied built
  end.

(** The operations whose validation errors all come before their first
    write.  The others run a loop over the children that writes build
    inputs, instance records or layout entries and validates each child
    as it goes. *)
Definition validates_before_writing (c : Call) : bool :=
  match c with
  | Call_generateShaderBindingTableLayout _
  | Call_GAS_prepareForBuild _ _
  | Call_GAS_rebuild _ _ _ _ _
  | Call_GAS_update _ _ _
  | Call_IAS_prepareForBuild _ _
  | Call_IAS_rebuild _ _ _ _ _ _ _
  | Call_IAS_update _ _ _ _ => false
  | _ => true
  end.

(** The checks the other operations make on entry, before their loop: the
    conjunction of the conditions they hand to [throwRuntimeError] there.
    It holds of a call that has no such check or whose object is not in
    the world. *)
Definition passes_entry_checks (w : World) (c : Call) : bool :=
  match c with
  | Call_GAS_rebuild g accelBuffer scratchBuffer _ _ =>
      match gass w !! g with
      | Some m =>
          GAS.readyToBuild m
          && (outputSizeInBytes (GAS.memoryRequirement m) <=? sizeInBytes accelBuffer)
          && (tempSizeInBytes (GAS.memoryRequirement m) <=? sizeInBytes scratchBuffer)
      | None => true
      end
  | Call_GAS_update g scratchBuffer _ =>
      match gass w !! g with
      | Some m =>
          updateEnabled (GAS.buildOptions m)
          && (GAS.available m || GAS.compactedAvailable m)
          && (tempUpdateSizeInBytes (GAS.memoryRequirement m)
                <=? sizeInBytes scratchBuffer)
      | None => true
      end
  | Call_IAS_prepareForBuild a _ =>
      match iass w !! a with
      | Some m =>
          match scenes w !! IAS.scene m with
          | Some sc => Scene_sbtLayoutGenerationDone sc
          | None => true
          end
      | None => true
      end
  | Call_IAS_rebuild a instanceBuffer accelBuffer scratchBuffer _ _ _ =>
      match iass w !! a with
      | Some m =>
          IAS.readyToBuild m
          && (outputSizeInBytes (IAS.memoryRequirement m) <=? sizeInBytes accelBuffer)
          && (tempSizeInBytes (IAS.memoryRequirement m) <=? sizeInBytes scratchBuffer)
          && (u64 (Z.of_nat (length (IAS.instances m)) * sizeof_OptixInstance)
                <=? sizeInBytes instanceBuffer)
      | None => true
      end
  | Call_IAS_update a scratchBuffer _ _ =>
      match iass w !! a with
      | Some m =>
          updateEnabled (IAS.buildOptions m)
          && (IAS.available m || IAS.compactedAvailable m)
          && (tempUpdateSizeInBytes (IAS.memoryRequirement m)
                <=? sizeInBytes scratchBuffer)
      | None => true
      end
  | _ => true
  end.

(** A client that catches what a call throws and goes on: the world after
    a sequence of calls. *)
Definition run_all (calls : list Call) (w : World) : World :=
  foldl (fun w c => fst (run c w)) w calls.

(** The worlds a client can reach from the empty one. *)
Definition reachable (w : World) : Prop := exists calls, w = run_all calls empty_world.

(** Whether [prepareForCompact] has succeeded on the GAS [g] since its
    last successful [rebuild] (or since its creation): [before] is the
    answer for the calls made before [c], [ok] tells whether [c]
    succeeded. *)
Definition GAS_prepared_step (g : nat) (before : bool) (c : Call) (ok : bool) : bool :=
  match c with
  | Call_createGeometryAccelerationStructure _ _ g' _ _
  | Call_GAS_rebuild g' _ _ _ _ =>
      if ok && bool_decide (g' = g) then false else before
  | Call_GAS_prepareForCompact g' _ _ =>
      if ok && bool_decide (g' = g) then true else before
  | _ => before
  end.

Definition IAS_prepared_step (a : nat) (before : bool) (c : Call) (ok : bool) : bool :=
  match c with
  | Call_createInstanceAccelerationStructure _ a' _ _ _
  | Call_IAS_rebuild a' _ _ _ _ _ _ =>
      if ok && bool_decide (a' = a) then false else before
  | Call_IAS_prepareForCompact a' _ _ =>
      if ok && bool_decide (a' = a) then true else before
  | _ => before
  end.

(** The world after a sequence of calls, together with the answers to
    "has [prepareForCompact] succeeded in the current build cycle" for
    the GAS [g] and the IAS [a]. *)
Definition History : Type := (World * bool * bool)%type.

Definition history_step (g a : nat) (h : History) (c : Call) : History :=
  let '(w, pg, pa) := h in
  let r := run c w in
  (fst r, GAS_prepared_step g pg c (is_ok (snd r)),
          IAS_prepared_step a pa c (is_ok (snd r))).

Definition history (g a : nat) (calls : list Call) (w : World) : History :=
  foldl (history_step g a) (w, false, false) calls.

End Calls.

(* ===================================================================== *)
(** * The life cycle of an acceleration structure *)
(* ===================================================================== *)

(** A triple for a call: from a world of [P], the call ends in a world of
    [Q] when it returns and in a world of [E] when it throws. *)
Definition hoare {A} (P : World -> Prop) (m : M A) (Q : A -> World -> Prop)
    (E : World -> Prop) : Prop :=
  forall w, P w ->
    match m w with
    | (w', Ok a) => Q a w'
    | (w', Err _) => E w'
    end.

(** A call that keeps a property of the world, whether it returns or
    throws. *)
Definition preserves {A} (P : World -> Prop) (m : M A) : Prop :=
  forall w, P w -> P (fst (m w)).

(** A property of every GAS and of every IAS of the world. *)
Definition Wsat (PG : nat -> GAS.t -> Prop) (PI : nat -> IAS.t -> Prop) (w : World)
    : Prop :=
  (forall g x, gass w !! g = Some x -> PG g x) /\
  (forall a x, iass w !! a = Some x -> PI a x).

(** A property of every scene of the world. *)
Definition Ssat (PS : nat -> Scene.t -> Prop) (w : World) : Prop :=
  forall s sc, scenes w !! s = Some sc -> PS s sc.

(** What the layout pass caches in a scene. *)
Definition layout_cache (sc : Scene.t) : gmap (nat * Z) Z * Z * Z :=
  (Scene.sbtOffsets sc, Scene.singleRecordSize sc, Scene.numSBTRecords sc).

(** The scene [s], as long as its layout is flagged up to date, caches
    [cache]. *)
Definition caches (s : nat) (cache : gmap (nat * Z) Z * Z * Z) : World -> Prop :=
  Ssat (fun s' sc => s' = s -> Scene.sbtLayoutIsUpToDate sc = true ->
                     layout_cache sc = cache).

(** The answer for the object a history follows, [true] for the others. *)
Definition tracked (o : nat) (prepared : bool) (o' : nat) : bool :=
  if bool_decide (o' = o) then prepared else true.

Section Lifecycle.
Context `{OptixSDK}.

(** The build flags [prepareForBuild] stored tell the configuration. *)
Definition flags_agree (o : OptixAccelBuildOptions) (allowUpdate allowCompaction : bool)
    : Prop :=
  updateEnabled o = allowUpdate /\ compactionEnabled o = allowCompaction.

Definition GAS_configured (x : GAS.t) : Prop :=
  flags_agree (GAS.buildOptions x) (GAS.allowUpdate x) (GAS.allowCompaction x).

Definition IAS_configured (x : IAS.t) : Prop :=
  flags_agree (IAS.buildOptions x) (IAS.allowUpdate x) (IAS.allowCompaction x).

(** What holds of a GAS between calls: once it is prepared for a build or
    built, its build flags tell its configuration; and it is ready to
    compact only if [prepareForCompact] has succeeded in the current build
    cycle ([prepared]). *)
Definition GAS_ok (prepared : bool) (x : GAS.t) : Prop :=
  (GAS.readyToBuild x || GAS.available x || GAS.compactedAvailable x = true ->
   GAS_configured x) /\
  (GAS.readyToCompact x = true -> prepared = true).

Definition IAS_ok (prepared : bool) (x : IAS.t) : Prop :=
  (IAS.readyToBuild x || IAS.available x || IAS.compactedAvailable x = true ->
   IAS_configured x) /\
  (IAS.readyToCompact x = true -> prepared = true).

(** The invariant, with what is known in the middle of a call: [sg] and
    [sa] tell the objects whose build flags are known to tell their
    configuration. *)
Definition Inv (pg sg pa sa : nat -> bool) : World -> Prop :=
  Wsat (fun g x => GAS_ok (pg g) x /\ (sg g = true -> GAS_configured x))
       (fun a x => IAS_ok (pa a) x /\ (sa a = true -> IAS_configured x)).

Definition nobody : nat -> bool := fun _ => false.
Definition only (o : nat) : nat -> bool := fun o' => bool_decide (o' = o).

(** The calls that are neither a creation, nor [setConfiguration],
    [prepareForBuild], [rebuild], [prepareForCompact] or [compact] of an
    acceleration structure. *)
Definition plain_call (c : Call) : bool :=
  match c with
  | Call_createGeometryAccelerationStructure _ _ _ _ _
  | Call_GAS_setConfiguration _ _ _ _ _
  | Call_GAS_prepareForBuild _ _
  | Call_GAS_rebuild _ _ _ _ _
  | Call_GAS_prepareForCompact _ _ _
  | Call_GAS_compact _ _ _ _
  | Call_createInstanceAccelerationStructure _ _ _ _ _
  | Call_IAS_setConfiguration _ _ _ _
  | Call_IAS_prepareForBuild _ _
  | Call_IAS_rebuild _ _ _ _ _ _ _
  | Call_IAS_prepareForCompact _ _ _
  | Call_IAS_compact _ _ _ _ => false
  | _ => true
  end.

Definition lifecycle_invariant (g a : nat) (h : History) : Prop :=
  let '(w, pg, pa) := h in
  Inv (tracked g pg) nobody (tracked a pa) nobody w.

End Lifecycle.

(** The calls of [lifecycle_calls], as a client's script: a GAS configured
    for update and compaction and an IAS with the default configuration,
    both built. *)
Definition lifecycle_script : list Call :=
  [ Call_createScene 0%nat;
    Call_createGeometryAccelerationStructure 0%nat false 0%nat 0%nat zero_indeterminate;
    Call_GAS_setConfiguration 0%nat Default true true false;
    Call_GAS_setNumMaterialSets 0%nat 1;
    Call_createInstanceAccelerationStructure 0%nat 0%nat 0%nat zero_indeterminate
                                             BuildInputZero;
    Call_generateShaderBindingTableLayout 0%nat;
    Call_GAS_prepareForBuild 0%nat (fun _ _ => Some example_sizes);
    Call_GAS_rebuild 0%nat (valid_buffer 4096 1024 1) (valid_buffer 8192 256 1)
                     (fun _ _ => Some 1001) true;
    Call_IAS_prepareForBuild 0%nat (fun _ _ _ => Some example_sizes);
    Call_IAS_rebuild 0%nat (valid_buffer 12288 0 80) (valid_buffer 16384 1024 1)
                     (valid_buffer 20480 256 1) true (fun _ _ _ => Some 2002) true ].

(* ===================================================================== *)
(** * What the loops over the children leave alone *)
(* ===================================================================== *)

(** The GAS [x] is [m] but for the values of its build inputs, the only
    member the loops of [rebuild] and [update] write. *)
Definition GAS_but_buildInputs (m x : GAS.t) : Prop :=
  GAS.set_buildInputs (GAS.buildInputs m) x = m /\
  length (GAS.buildInputs x) = length (GAS.buildInputs m).

(** The IAS [x] is [m] but for the values of its instance records. *)
Definition IAS_but_instances (m x : IAS.t) : Prop :=
  IAS.set_instances (IAS.instances m) x = m /\
  length (IAS.instances x) = length (IAS.instances m).

(** The GAS [g] of the world is [m] but for its build inputs. *)
Definition GAS_kept (g : nat) (m : GAS.t) : World -> Prop :=
  Wsat (fun g' x => g' = g -> GAS_but_buildInputs m x) (fun _ _ => True).

Definition IAS_kept (a : nat) (m : IAS.t) : World -> Prop :=
  Wsat (fun _ _ => True) (fun a' x => a' = a -> IAS_but_instances m x).

(** The world after [GeometryAccelerationStructure::Priv::markDirty] on the
    GAS [g], which is [x], of the scene [sc]. *)
Definition GAS_marked_dirty (g : nat) (x : GAS.t) (sc : Scene.t) (w : World) : World :=
  set_iass (fun m => mark_dirty_all (Scene.instASs sc) m)
    (set_scenes (insert (GAS.scene x) (Scene.set_sbtLayoutIsUpToDate false sc))
       (set_gass (insert g (dirty_gas x)) w)).

(* ===================================================================== *)
(** * More worlds *)
(* ===================================================================== *)

(** The example scene with a buffer of 300 vertices bound to its geometry
    instance and its GAS, of one motion key and configured for update and
    compaction, prepared for the build. *)
Definition staged_calls : M unit :=
  let sdk := optix7 in
  example_calls ;;;
  GAS_setConfiguration 0%nat Default true true false ;;;
  GAS_setMotionOptions 0%nat 1 f0 f0 0 ;;;
  GeometryInstance_setVertexBuffer 0%nat (valid_buffer 32768 300 12) 0 ;;;
  GAS_prepareForBuild 0%nat (fun _ _ => Some example_sizes) ;;;
  ret tt.

Definition staged_world : World := exec staged_calls empty_world.

(** The same once the GAS is built, and once it is ready to compact. *)
Definition staged_built_world : World :=
  exec (@GAS_rebuild optix7 0%nat (valid_buffer 4096 1024 1) (valid_buffer 8192 256 1)
          numVertices_seen true) staged_world.

Definition staged_ready_to_compact_world : World :=
  exec (@GAS_prepareForCompact optix7 0%nat true (Some 512)) staged_built_world.

(** The built example scene with its layout generated, an instance of the
    GAS with material set 1, and an IAS holding that instance, prepared for
    its build. *)
Definition instanced_calls : M unit :=
  let sdk := optix7 in
  Scene_generateShaderBindingTableLayout 0%nat ;;;
  Scene_createInstance 0%nat 0%nat ;;;
  Instance_setChild 0%nat ChildGAS (Some 0%nat) 1 ;;;
  Scene_createInstanceAccelerationStructure 0%nat 0%nat 0%nat zero_indeterminate
                                            BuildInputZero ;;;
  IAS_addChild 0%nat (Some 0%nat) ;;;
  IAS_prepareForBuild 0%nat (fun _ _ _ => Some example_sizes) ;;;
  ret tt.

Definition instanced_world : World := exec instanced_calls staged_built_world.

(* ===================================================================== *)
(** * Transform: the motion keys *)
(* ===================================================================== *)

(** A parameter [const float a[n]]: the callee reads [n] floats. *)
Definition float_array (a : list float) (n : nat) (what : string) : result unit :=
  if bool_decide (length a = n) then Ok tt else Err (Undefined what).

(** [Transform::setMatrixMotionKey].  The keys are what [data] holds from
    [offsetof(OptixMatrixMotionTransform, transform)] on, twelve floats
    each; [std::copy_n] to a key past the last one writes past the
    allocation. *)
Definition Transform_setMatrixMotionKey (t : nat) (keyIdx : Z) (matrix : list float)
    : M unit :=
  let* m := getTransform t in
  throwM (bool_decide (Transform.type m = MatrixMotion))
         "This transform has been configured as matrix motion transform." ;;;
  throwM (keyIdx <=? mo_numKeys (Transform.options m))
         "Number of motion keys was set to %u" ;;;
  let* _ := lift (float_array matrix 12 "matrix[12]") in
  match Transform.data m with
  | DataMatrixMotion child motionOptions keys =>
      let* _ := lift (vec_at keys keyIdx "dataPerKey") in
      updTransform t (Transform.set_data
        (DataMatrixMotion child motionOptions (<[Z.to_nat keyIdx := matrix]> keys))) ;;;
      Transform_Priv_markDirty t
  | _ => lift (Err (Undefined "data is not an OptixMatrixMotionTransform"))
  end.

(** The key [setSRTMotionKey] writes: the scale, no shear, no pivot, the
    orientation and the translation. *)
Definition SRT_key (scale orientation translation : list float) : OptixSRTData :=
  mkSRT (mat_at scale 0) f0 f0 f0
        (mat_at scale 1) f0 f0
        (mat_at scale 2) f0
        (mat_at orientation 0) (mat_at orientation 1) (mat_at orientation 2)
        (mat_at orientation 3)
        (mat_at translation 0) (mat_at translation 1) (mat_at translation 2).

(** [Transform::setSRTMotionKey]. *)
Definition Transform_setSRTMotionKey (t : nat) (keyIdx : Z)
    (scale orientation translation : list float) : M unit :=
  let* m := getTransform t in
  throwM (bool_decide (Transform.type m = SRTMotion))
         "This transform has been configured as SRT motion transform." ;;;
  throwM (keyIdx <=? mo_numKeys (Transform.options m))
         "Number of motion keys was set to %u" ;;;
  match Transform.data m with
  | DataSRTMotion child motionOptions keys =>
      let* _ := lift (vec_at keys keyIdx "dataPerKey") in
      let* _ := lift (float_array scale 3 "scale[3]") in
      let* _ := lift (float_array orientation 4 "orientation[4]") in
      let* _ := lift (float_array translation 3 "translation[3]") in
      updTransform t (Transform.set_data
        (DataSRTMotion child motionOptions
           (<[Z.to_nat keyIdx := SRT_key scale orientation translation]> keys))) ;;;
      Transform_Priv_markDirty t
  | _ => lift (Err (Undefined "data is not an OptixSRTMotionTransform"))
  end.

(** A scene with one transform. *)
Definition one_transform_world : World :=
  exec (@Context_createScene optix7 0%nat ;;; @Scene_createTransform optix7 0%nat 0%nat 0%nat)
       empty_world.

(** The child handle and the motion options a transform's [data] holds;
    a static transform has no motion options. *)
Definition TransformData_child (d : TransformData) : option Z :=
  match d with
  | DataNull => None
  | DataMatrixMotion child _ _ | DataSRTMotion child _ _ | DataStatic child _ _ => Some child
  end.

Definition TransformData_motionOptions (d : TransformData) : option OptixMotionOptions :=
  match d with
  | DataMatrixMotion _ o _ | DataSRTMotion _ o _ => Some o
  | DataNull | DataStatic _ _ _ => None
  end.

(** The keys and matrices of a transform's [data], which [rebuild] leaves
    alone. *)
Definition TransformData_payload (d : TransformData) : TransformData :=
  match d with
  | DataNull => DataNull
  | DataMatrixMotion _ _ keys => DataMatrixMotion 0 zero_MotionOptions keys
  | DataSRTMotion _ _ keys => DataSRTMotion 0 zero_MotionOptions keys
  | DataStatic _ tr inv => DataStatic 0 tr inv
  end.

(** The built example scene with a static transform above its GAS. *)
Definition transform_calls : M unit :=
  let sdk := optix7 in
  Scene_createTransform 0%nat 0%nat 0%nat ;;;
  Transform_setConfiguration 0%nat Static 0 ;;;
  Transform_setChild 0%nat ChildGAS (Some 0%nat).

Definition transform_world : World := exec transform_calls staged_built_world.

(* ===================================================================== *)
(** * Every public operation that writes *)
(* ===================================================================== *)

(** [Material::destroy], [Scene::destroy], [GeometryInstance::destroy] and
    [Instance::destroy]: the destructor has nothing to unregister. *)
Definition Material_destroy (m : nat) : M unit :=
  let* _ := getMaterial m in
  modify (set_materials (delete m)).

Definition Scene_destroy (s : nat) : M unit :=
  let* _ := getScene s in
  modify (set_scenes (delete s)).

Definition GeometryInstance_destroy (gi : nat) : M unit :=
  let* _ := getGeomInst gi in
  modify (set_geomInsts (delete gi)).

Definition Instance_destroy (i : nat) : M unit :=
  let* _ := getInstance i in
  modify (set_instances (delete i)).

(** [Transform::destroy]: the destructor takes the transform out of its
    scene. *)
Definition Transform_destroy (t : nat) : M unit :=
  let* self := getTransform t in
  Scene_removeTransform (Transform.scene self) t ;;;
  modify (set_transforms (delete t)).

(** The calls of [Call] and the operations above. *)
Inductive Op : Type :=
| Op_call (c : Call)
| Op_Material_destroy (m : nat)
| Op_Scene_destroy (s : nat)
| Op_GeometryInstance_destroy (gi : nat)
| Op_Instance_destroy (i : nat)
| Op_Transform_destroy (t : nat)
| Op_Transform_setMatrixMotionKey (t : nat) (keyIdx : Z) (matrix : list float)
| Op_Transform_setSRTMotionKey (t : nat) (keyIdx : Z)
    (scale orientation translation : list float).

Section Ops.
Context `{OptixSDK}.

Definition run_op (o : Op) : M unit :=
  match o with
  | Op_call c => run c
  | Op_Material_destroy m => Material_destroy m
  | Op_Scene_destroy s => Scene_destroy s
  | Op_GeometryInstance_destroy gi => GeometryInstance_destroy gi
  | Op_Instance_destroy i => Instance_destroy i
  | Op_Transform_destroy t => Transform_destroy t
  | Op_Transform_setMatrixMotionKey t keyIdx matrix =>
      Transform_setMatrixMotionKey t keyIdx matrix
  | Op_Transform_setSRTMotionKey t keyIdx scale orientation translation =>
      Transform_setSRTMotionKey t keyIdx scale orientation translation
  end.

(** The operations that validate before they write: those of
    [validates_before_writing], the destructors and the setters of the
    motion keys. *)
Definition Op_validates_before_writing (o : Op) : bool :=
  match o with
  | Op_call c => validates_before_writing c
  | _ => true
  end.

(** A client that catches what an operation throws and goes on. *)
Definition run_ops (ops : list Op) (w : World) : World :=
  foldl (fun w o => fst (run_op o w)) w ops.

(** The worlds a client can be in: those the operations lead to from the
    empty one. *)
Definition attainable (w : World) : Prop := exists ops, w = run_ops ops empty_world.

End Ops.

(* ===================================================================== *)
(** * What holds of the objects of every attainable world *)
(* ===================================================================== *)

(** A property of every geometry instance, transform and material of the
    world. *)
Definition Gsat (P : nat -> GeometryInstance.t -> Prop) (w : World) : Prop :=
  forall gi x, geomInsts w !! gi = Some x -> P gi x.

Definition Tsat (P : nat -> Transform.t -> Prop) (w : World) : Prop :=
  forall t x, transforms w !! t = Some x -> P t x.

Definition Msat (P : nat -> Material.t -> Prop) (w : World) : Prop :=
  forall m x, materials w !! m = Some x -> P m x.

(** The user data an object stores covers the size its [SizeAlign] tells:
    [std::memcpy(..., userData.data(), userDataSizeAlign.size)] reads what
    is there. *)
Definition userData_covers (sa : SizeAlign.t) (userData : list Z) : Prop :=
  SizeAlign.size sa <= Z.of_nat (length userData).

(** A geometry instance has one geometry flag for each material slot, and
    every slot has an entry for material set 0. *)
Definition GeometryInstance_slots_ok (x : GeometryInstance.t) : Prop :=
  length (GeometryInstance.buildInputFlags x) = length (GeometryInstance.materials x) /\
  Forall (fun slot => slot <> []) (GeometryInstance.materials x).

(** The data of a transform is of the SDK struct of its type.  A motion
    transform was configured for some number [n] of keys, two at least:
    its options tell [n] reduced to [unsigned short], and its data holds
    the keys the allocation has room for ([n] of them for an SRT motion
    transform, and for a matrix motion transform while [(n - 2) * 12] fits
    a [uint32_t]), a matrix key being twelve floats. *)
Definition Transform_data_ok (x : Transform.t) : Prop :=
  match Transform.type x with
  | MatrixMotion =>
      exists child o keys n,
        Transform.data x = DataMatrixMotion child o keys /\
        2 <= n /\
        mo_numKeys (Transform.options x) = u16 n /\
        Z.of_nat (length keys) = MatrixMotion_keysHeld n /\
        Forall (fun key => length key = 12%nat) keys
  | SRTMotion =>
      exists child o keys,
        Transform.data x = DataSRTMotion child o keys /\
        2 <= Z.of_nat (length keys) /\
        mo_numKeys (Transform.options x) = u16 (Z.of_nat (length keys))
  | Static =>
      exists child tr inv,
        Transform.data x = DataStatic child tr inv /\
        length tr = 12%nat /\ length inv = 12%nat
  | InvalidTransform => True
  end.

(** A GAS has no child twice and, once prepared for a build, one build
    input for each child. *)
Definition GAS_children_ok (x : GAS.t) : Prop :=
  NoDup (GAS.children x) /\
  (GAS.readyToBuild x = true -> length (GAS.buildInputs x) = length (GAS.children x)).

Definition IAS_children_ok (x : IAS.t) : Prop :=
  NoDup (IAS.children x) /\
  (IAS.readyToBuild x = true -> length (IAS.instances x) = length (IAS.children x)).

(** A registry of the scene [s] holds no pointer twice, and every pointer
    it holds is to a live object of that scene. *)
Definition registry_ok {X} (arena : gmap nat X) (scene_of : X -> nat) (s : nat)
    (l : list nat) : Prop :=
  NoDup l /\ forall p, p ∈ l -> exists x, arena !! p = Some x /\ scene_of x = s.

Definition registries_ok (w : World) : Prop :=
  forall s sc, scenes w !! s = Some sc ->
    registry_ok (gass w) GAS.scene s (Scene.geomASs sc) /\
    registry_ok (transforms w) Transform.scene s (Scene.transforms sc) /\
    registry_ok (iass w) IAS.scene s (Scene.instASs sc).

(** A call that leaves a part of the world as it is, whether it returns or
    throws. *)
Definition keeps {A B} (proj : World -> B) (m : M A) : Prop :=
  forall w, proj (fst (m w)) = proj w.

Definition GeometryInstance_ok (x : GeometryInstance.t) : Prop :=
  GeometryInstance_slots_ok x /\
  userData_covers (GeometryInstance.userDataSizeAlign x) (GeometryInstance.userData x).

Definition Material_ok (x : Material.t) : Prop :=
  userData_covers (Material.userDataSizeAlign x) (Material.userData x).

Definition GAS_ok' (x : GAS.t) : Prop :=
  GAS_children_ok x /\ userData_covers (GAS.userDataSizeAlign x) (GAS.userData x).

(** A client's session: a scene with a material, a geometry instance of
    three material slots in a GAS, built, a matrix motion transform of
    three keys above the GAS, and an IAS holding an instance of the GAS. *)
Definition session_ops : list Op :=
  [ Op_call (Call_createScene 0%nat);
    Op_call (Call_createMaterial 0%nat);
    Op_call (Call_Material_setUserData 0%nat [1; 2; 3; 4; 5; 6; 7; 8] 8 8);
    Op_call (Call_createGeometryAccelerationStructure 0%nat false 0%nat 0%nat
                                                      zero_indeterminate);
    Op_call (Call_createGeometryInstance 0%nat false 0%nat);
    Op_call (Call_GeometryInstance_setNumMaterials 0%nat 3 (valid_buffer 4096 100 4) 4);
    Op_call (Call_GeometryInstance_setMaterial 0%nat 0 0 (Some 0%nat));
    Op_call (Call_GeometryInstance_setMaterial 0%nat 0 1 (Some 0%nat));
    Op_call (Call_GeometryInstance_setMaterial 0%nat 0 2 (Some 0%nat));
    Op_call (Call_GeometryInstance_setMaterial 0%nat 1 1 (Some 0%nat));
    Op_call (Call_GeometryInstance_setUserData 0%nat [9; 9; 9; 9; 9; 9] 6 2);
    Op_call (Call_GeometryInstance_setVertexBuffer 0%nat (valid_buffer 32768 300 12) 0);
    Op_call (Call_GAS_addChild 0%nat (Some 0%nat) 0);
    Op_call (Call_GAS_addChild 0%nat (Some 0%nat) 4096);
    Op_call (Call_GAS_setNumMaterialSets 0%nat 2);
    Op_call (Call_GAS_setNumRayTypes 0%nat 0 1);
    Op_call (Call_GAS_setNumRayTypes 0%nat 1 2);
    Op_call (Call_GAS_setMotionOptions 0%nat 1 f0 f0 0);
    Op_call (Call_GAS_setUserData 0%nat [7; 7; 7] 3 1);
    Op_call (Call_GAS_prepareForBuild 0%nat (fun _ _ => Some example_sizes));
    Op_call (Call_GAS_rebuild 0%nat (valid_buffer 4096 1024 1) (valid_buffer 8192 256 1)
                              (fun _ _ => Some 1001) true);
    Op_call (Call_createTransform 0%nat 0%nat 0%nat);
    Op_call (Call_Transform_setConfiguration 0%nat MatrixMotion 3);
    Op_Transform_setMatrixMotionKey 0%nat 1 identity12;
    Op_call (Call_Transform_setChild 0%nat ChildGAS (Some 0%nat));
    Op_call (Call_generateShaderBindingTableLayout 0%nat);
    Op_call (Call_createInstance 0%nat 0%nat);
    Op_call (Call_Instance_setChild 0%nat ChildGAS (Some 0%nat) 1);
    Op_call (Call_createInstanceAccelerationStructure 0%nat 0%nat 0%nat zero_indeterminate
                                                      BuildInputZero);
    Op_call (Call_IAS_addChild 0%nat (Some 0%nat));
    Op_call (Call_IAS_prepareForBuild 0%nat (fun _ _ _ => Some example_sizes));
    Op_call (Call_IAS_rebuild 0%nat (valid_buffer 12288 1 80) (valid_buffer 16384 1024 1)
                              (valid_buffer 20480 256 1) true (fun _ _ _ => Some 2002) true) ].

Definition session_world : World := @run_ops optix7 session_ops empty_world.

(** The outcomes of the operations of a session. *)
Definition outcomes `{OptixSDK} (ops : list Op) (w : World) : list bool :=
  snd (foldl (fun '(w, acc) o => let r := run_op o w in (fst r, acc ++ [is_ok (snd r)]))
             (w, []) ops).

(* ===================================================================== *)
(** * Denoiser: image sizes and tiles *)
(* ===================================================================== *)

(** [int32_t]: the conversion of an integer to it, and the additions and
    subtractions of the source on it, whose overflow is undefined. *)
Definition s32_min : Z := - 2 ^ 31.
Definition s32_max : Z := 2 ^ 31 - 1.
Definition s32 (x : Z) : Z := (x + 2 ^ 31) mod 2 ^ 32 - 2 ^ 31.

Definition s32_checked (x : Z) : result Z :=
  if (s32_min <=? x) && (x <=? s32_max) then Ok x
  else Err (Undefined "signed integer overflow").
Definition s32_add (a b : Z) : result Z := s32_checked (a + b).
Definition s32_sub (a b : Z) : result Z := s32_checked (a - b).
Definition s32_mul (a b : Z) : result Z := s32_checked (a * b).

(** [OptixDenoiserSizes], what [optixDenoiserComputeMemoryResources]
    answers. *)
Record OptixDenoiserSizes : Type := mkDenoiserSizes {
  stateSizeInBytes : Z;
  withOverlapScratchSizeInBytes : Z;
  withoutOverlapScratchSizeInBytes : Z;
  overlapWindowSizeInPixels : Z;
}.

(** [_DenoisingTask] (optix_util_private.h). *)
Record DenoisingTask : Type := mkDenoisingTask {
  inputOffsetX : Z;
  inputOffsetY : Z;
  outputOffsetX : Z;
  outputOffsetY : Z;
  outputWidth : Z;
  outputHeight : Z;
}.

(** The members of [Denoiser::Priv] that [setModel], [prepare] and
    [getTasks] read and write. *)
Module Denoiser.
Record t : Type := mk {
  imageWidth : Z;
  imageHeight : Z;
  tileWidth : Z;
  tileHeight : Z;
  overlapWidth : Z;
  maxInputWidth : Z;
  maxInputHeight : Z;
  stateSize : Z;
  scratchSize : Z;
  scratchSizeForComputeIntensity : Z;
  modelSet : bool;
  useTiling : bool;
  imageSizeSet : bool;
  imageLayersSet : bool;
  stateIsReady : bool;
}.

Definition set_imageWidth (v : Z) (x : t) : t :=
  mk v (imageHeight x) (tileWidth x) (tileHeight x) (overlapWidth x) (maxInputWidth x)
    (maxInputHeight x) (stateSize x) (scratchSize x) (scratchSizeForComputeIntensity
    x) (modelSet x) (useTiling x) (imageSizeSet x) (imageLayersSet x) (stateIsReady
    x).
Definition set_imageHeight (v : Z) (x : t) : t :=
  mk (imageWidth x) v (tileWidth x) (tileHeight x) (overlapWidth x) (maxInputWidth x)
    (maxInputHeight x) (stateSize x) (scratchSize x) (scratchSizeForComputeIntensity
    x) (modelSet x) (useTiling x) (imageSizeSet x) (imageLayersSet x) (stateIsReady
    x).
Definition set_tileWidth (v : Z) (x : t) : t :=
  mk (imageWidth x) (imageHeight x) v (tileHeight x) (overlapWidth x) (maxInputWidth
    x) (maxInputHeight x) (stateSize x) (scratchSize x)
    (scratchSizeForComputeIntensity x) (modelSet x) (useTiling x) (imageSizeSet x)
    (imageLayersSet x) (stateIsReady x).
Definition set_tileHeight (v : Z) (x : t) : t :=
  mk (imageWidth x) (imageHeight x) (tileWidth x) v (overlapWidth x) (maxInputWidth x)
    (maxInputHeight x) (stateSize x) (scratchSize x) (scratchSizeForComputeIntensity
    x) (modelSet x) (useTiling x) (imageSizeSet x) (imageLayersSet x) (stateIsReady
    x).
Definition set_overlapWidth (v : Z) (x : t) : t :=
  mk (imageWidth x) (imageHeight x) (tileWidth x) (tileHeight x) v (maxInputWidth x)
    (maxInputHeight x) (stateSize x) (scratchSize x) (scratchSizeForComputeIntensity
    x) (modelSet x) (useTiling x) (imageSizeSet x) (imageLayersSet x) (stateIsReady
    x).
Definition set_maxInputWidth (v : Z) (x : t) : t :=
  mk (imageWidth x) (imageHeight x) (tileWidth x) (tileHeight x) (overlapWidth x) v
    (maxInputHeight x) (stateSize x) (scratchSize x) (scratchSizeForComputeIntensity
    x) (modelSet x) (useTiling x) (imageSizeSet x) (imageLayersSet x) (stateIsReady
    x).
Definition set_maxInputHeight (v : Z) (x : t) : t :=
  mk (imageWidth x) (imageHeight x) (tileWidth x) (tileHeight x) (overlapWidth x)
    (maxInputWidth x) v (stateSize x) (scratchSize x) (scratchSizeForComputeIntensity
    x) (modelSet x) (useTiling x) (imageSizeSet x) (imageLayersSet x) (stateIsReady
    x).
Definition set_stateSize (v : Z) (x : t) : t :=
  mk (imageWidth x) (imageHeight x) (tileWidth x) (tileHeight x) (overlapWidth x)
    (maxInputWidth x) (maxInputHeight x) v (scratchSize x)
    (scratchSizeForComputeIntensity x) (modelSet x) (useTiling x) (imageSizeSet x)
    (imageLayersSet x) (stateIsReady x).
Definition set_scratchSize (v : Z) (x : t) : t :=
  mk (imageWidth x) (imageHeight x) (tileWidth x) (tileHeight x) (overlapWidth x)
    (maxInputWidth x) (maxInputHeight x) (stateSize x) v
    (scratchSizeForComputeIntensity x) (modelSet x) (useTiling x) (imageSizeSet x)
    (imageLayersSet x) (stateIsReady x).
Definition set_scratchSizeForComputeIntensity (v : Z) (x : t) : t :=
  mk (imageWidth x) (imageHeight x) (tileWidth x) (tileHeight x) (overlapWidth x)
    (maxInputWidth x) (maxInputHeight x) (stateSize x) (scratchSize x) v (modelSet x)
    (useTiling x) (imageSizeSet x) (imageLayersSet x) (stateIsReady x).
Definition set_modelSet (v : bool) (x : t) : t :=
  mk (imageWidth x) (imageHeight x) (tileWidth x) (tileHeight x) (overlapWidth x)
    (maxInputWidth x) (maxInputHeight x) (stateSize x) (scratchSize x)
    (scratchSizeForComputeIntensity x) v (useTiling x) (imageSizeSet x)
    (imageLayersSet x) (stateIsReady x).
Definition set_useTiling (v : bool) (x : t) : t :=
  mk (imageWidth x) (imageHeight x) (tileWidth x) (tileHeight x) (overlapWidth x)
    (maxInputWidth x) (maxInputHeight x) (stateSize x) (scratchSize x)
    (scratchSizeForComputeIntensity x) (modelSet x) v (imageSizeSet x) (imageLayersSet
    x) (stateIsReady x).
Definition set_imageSizeSet (v : bool) (x : t) : t :=
  mk (imageWidth x) (imageHeight x) (tileWidth x) (tileHeight x) (overlapWidth x)
    (maxInputWidth x) (maxInputHeight x) (stateSize x) (scratchSize x)
    (scratchSizeForComputeIntensity x) (modelSet x) (useTiling x) v (imageLayersSet x)
    (stateIsReady x).
Definition set_imageLayersSet (v : bool) (x : t) : t :=
  mk (imageWidth x) (imageHeight x) (tileWidth x) (tileHeight x) (overlapWidth x)
    (maxInputWidth x) (maxInputHeight x) (stateSize x) (scratchSize x)
    (scratchSizeForComputeIntensity x) (modelSet x) (useTiling x) (imageSizeSet x) v
    (stateIsReady x).
Definition set_stateIsReady (v : bool) (x : t) : t :=
  mk (imageWidth x) (imageHeight x) (tileWidth x) (tileHeight x) (overlapWidth x)
    (maxInputWidth x) (maxInputHeight x) (stateSize x) (scratchSize x)
    (scratchSizeForComputeIntensity x) (modelSet x) (useTiling x) (imageSizeSet x)
    (imageLayersSet x) v.

(** What the constructor leaves. *)
Definition fresh : t :=
  mk 0 0 0 0 0 0 0 0 0 0 false false false false false.
End Denoiser.

(** A member function of the denoiser: the object after the call (also when
    it throws) and the outcome; [None] is a call whose loops do not come to
    an end within the steps it is given. *)
Definition DM (A : Type) : Type := Denoiser.t -> option (Denoiser.t * result A).

Definition dret {A} (a : A) : DM A := fun d => Some (d, Ok a).
Definition dbind {A B} (m : DM A) (k : A -> DM B) : DM B :=
  fun d => match m d with
           | Some (d1, Ok a) => k a d1
           | Some (d1, Err e) => Some (d1, Err e)
           | None => None
           end.
Definition dlift {A} (r : result A) : DM A := fun d => Some (d, r).
Definition dloop {A} (o : option (result A)) : DM A :=
  fun d => match o with Some r => Some (d, r) | None => None end.
Definition dget : DM Denoiser.t := fun d => Some (d, Ok d).
Definition dmodify (f : Denoiser.t -> Denoiser.t) : DM unit := fun d => Some (f d, Ok tt).
Definition dthrow (expr : bool) (fmt : string) : DM unit := dlift (throwRuntimeError expr fmt).
Definition dcheck {A} (answer : option A) (call : string) : DM A :=
  dlift (match answer with Some a => Ok a | None => Err (BackendError call) end).

(** The four loops of [prepare] and [getTasks] have one shape:
    [for (int32_t off = 0; off < static_cast<int32_t>(extent);)] with a size
    that starts from the tile size, grows by the overlap where [off == 0],
    is clamped to the image in [getTasks] ([clamp]) and is added to [off]
    after the body.  [body] is handed the offset and the size. *)
Section TileLoop.
Context {S : Type}.
Variables (clamp : bool) (extent tile overlap : Z).
Variable body : Z -> Z -> S -> option (result S).

Definition tile_size (off : Z) : result Z :=
  let size := s32 tile in
  let? size := if off =? 0 then s32_add size overlap else Ok size in
  if clamp then
    let? sum := s32_add off size in
    if sum >? s32 extent then Ok (s32 (u32_sub extent off)) else Ok size
  else Ok size.

Fixpoint tile_loop (fuel : nat) (off : Z) (s : S) : option (result S) :=
  match fuel with
  | O => None
  | Datatypes.S fuel =>
      if off <? s32 extent then
        match tile_size off with
        | Err e => Some (Err e)
        | Ok size =>
            match body off size s with
            | None => None
            | Some (Err e) => Some (Err e)
            | Some (Ok s1) =>
                match s32_add off size with
                | Err e => Some (Err e)
                | Ok off1 => tile_loop fuel off1 s1
                end
            end
        end
      else Some (Ok s)
  end.
End TileLoop.

(** [Denoiser::setModel]; [isUserModel] is [kind == OPTIX_DENOISER_MODEL_KIND_USER],
    [isAOV] is [kind == OPTIX_DENOISER_MODEL_KIND_AOV], [hasData] is
    [data != nullptr], [set] the outcome of [optixDenoiserSetModel]. *)
Definition Denoiser_setModel (isUserModel isAOV hasData : bool) (set : bool) : DM unit :=
  dbind (dthrow (negb (eqb (negb isUserModel) hasData))
     "When a user model is used, data must be provided, otherwise data must be null.")
  (fun _ =>
  dbind (dthrow (negb isAOV) "OPTIX_DENOISER_MODEL_KIND_AOV is currently not supported.")
  (fun _ =>
  dbind (dcheck (if set then Some tt else None) "optixDenoiserSetModel") (fun _ =>
  dbind (dmodify (Denoiser.set_stateIsReady false)) (fun _ =>
  dbind (dmodify (Denoiser.set_imageSizeSet false)) (fun _ =>
  dmodify (Denoiser.set_modelSet true)))))).

(** What [prepare] writes to its out parameters. *)
Record PrepareResult : Type := mkPrepareResult {
  stateBufferSize : Z;
  scratchBufferSize : Z;
  scratchBufferSizeForComputeIntensity : Z;
  numTasks : Z;
}.

(** The counting loops of [prepare]: [++*numTasks] for each tile. *)
Definition prepare_count (fuel : nat) (imageWidth imageHeight tileWidth tileHeight
    overlapWidth : Z) : option (result Z) :=
  tile_loop false imageHeight tileHeight overlapWidth
    (fun _ _ numTasks =>
       tile_loop false imageWidth tileWidth overlapWidth
         (fun _ _ numTasks => Some (Ok (u32_add numTasks 1)))
         fuel 0 numTasks)
    fuel 0 0.

(** [Denoiser::prepare]; [sizes] is what
    [optixDenoiserComputeMemoryResources] answers for the tile size it is
    handed. *)
Definition Denoiser_prepare (fuel : nat) (imageWidth imageHeight tileWidth tileHeight : Z)
    (sizes : Z -> Z -> option OptixDenoiserSizes) : DM PrepareResult :=
  dbind dget (fun m =>
  dbind (dthrow (Denoiser.modelSet m) "Model has not been set.") (fun _ =>
  dbind (dthrow ((tileWidth <=? imageWidth) && (tileHeight <=? imageHeight))
     "Tile width/height must be equal to or smaller than the image size.") (fun _ =>
  let tileWidth := if tileWidth =? 0 then imageWidth else tileWidth in
  let tileHeight := if tileHeight =? 0 then imageHeight else tileHeight in
  dbind (dmodify (Denoiser.set_useTiling
                    ((tileWidth <? imageWidth) || (tileHeight <? imageHeight)))) (fun _ =>
  dbind (dmodify (Denoiser.set_imageWidth imageWidth)) (fun _ =>
  dbind (dmodify (Denoiser.set_imageHeight imageHeight)) (fun _ =>
  dbind (dmodify (Denoiser.set_tileWidth tileWidth)) (fun _ =>
  dbind (dmodify (Denoiser.set_tileHeight tileHeight)) (fun _ =>
  dbind (dcheck (sizes tileWidth tileHeight) "optixDenoiserComputeMemoryResources")
  (fun sizes =>
  dbind (dmodify (Denoiser.set_stateSize (stateSizeInBytes sizes))) (fun _ =>
  dbind dget (fun m =>
  dbind (dmodify (Denoiser.set_scratchSize
                    (if Denoiser.useTiling m then withOverlapScratchSizeInBytes sizes
                     else withoutOverlapScratchSizeInBytes sizes))) (fun _ =>
  dbind (dmodify (Denoiser.set_scratchSizeForComputeIntensity
                    (u64 (4 * u32_add 2 (u32_mul imageWidth imageHeight))))) (fun _ =>
  dbind (dmodify (Denoiser.set_overlapWidth (s32 (overlapWindowSizeInPixels sizes))))
  (fun _ =>
  dbind dget (fun m =>
  dbind (dlift (s32_mul 2 (Denoiser.overlapWidth m))) (fun twice =>
  dbind (dmodify (Denoiser.set_maxInputWidth
                    (Z.min (u32_add tileWidth twice) imageWidth))) (fun _ =>
  dbind (dmodify (Denoiser.set_maxInputHeight
                    (Z.min (u32_add tileHeight twice) imageHeight))) (fun _ =>
  dbind dget (fun m =>
  dbind (dloop (prepare_count fuel imageWidth imageHeight tileWidth tileHeight
                              (Denoiser.overlapWidth m))) (fun n =>
  dbind (dmodify (Denoiser.set_stateIsReady false)) (fun _ =>
  dbind (dmodify (Denoiser.set_imageSizeSet true)) (fun _ =>
  dret (mkPrepareResult (Denoiser.stateSize m) (Denoiser.scratchSize m)
                        (Denoiser.scratchSizeForComputeIntensity m) n))))))))))))))))))))))).

(** [inputOffset] of [getTasks] for a row or a column:
    [std::max(outputOffset - overlapWidth, 0)], moved back where the input
    window would leave the image; the comparison and the subtraction are on
    [uint32_t]. *)
Definition input_offset (extent maxInput overlapWidth outputOffset : Z) : result Z :=
  let? d := s32_sub outputOffset overlapWidth in
  let inputOffset := Z.max d 0 in
  if u32_add inputOffset maxInput >? extent
  then Ok (s32 (u32_sub extent maxInput))
  else Ok inputOffset.

(** [tasks[taskIdx++] = task]: the caller's array holds [capacity] tasks. *)
Definition push_task (capacity : Z) (task : DenoisingTask) (st : Z * list DenoisingTask)
    : result (Z * list DenoisingTask) :=
  let '(taskIdx, tasks) := st in
  if taskIdx <? capacity then Ok (u32_add taskIdx 1, tasks ++ [task])
  else Err (Undefined "tasks[taskIdx]").

(** The loops of [getTasks]. *)
Definition getTasks_loops (fuel : nat) (m : Denoiser.t) (capacity : Z)
    : option (result (Z * list DenoisingTask)) :=
  tile_loop true (Denoiser.imageHeight m) (Denoiser.tileHeight m) (Denoiser.overlapWidth m)
    (fun outputOffsetY outputHeight st =>
       match input_offset (Denoiser.imageHeight m) (Denoiser.maxInputHeight m)
                          (Denoiser.overlapWidth m) outputOffsetY with
       | Err e => Some (Err e)
       | Ok inputOffsetY =>
           tile_loop true (Denoiser.imageWidth m) (Denoiser.tileWidth m)
             (Denoiser.overlapWidth m)
             (fun outputOffsetX outputWidth st =>
                match input_offset (Denoiser.imageWidth m) (Denoiser.maxInputWidth m)
                                   (Denoiser.overlapWidth m) outputOffsetX with
                | Err e => Some (Err e)
                | Ok inputOffsetX =>
                    Some (push_task capacity
                            (mkDenoisingTask inputOffsetX inputOffsetY
                                             outputOffsetX outputOffsetY
                                             outputWidth outputHeight) st)
                end)
             fuel 0 st
       end)
    fuel 0 (0, []).

(** [Denoiser::getTasks]; the result is what the call has written to
    [tasks]. *)
Definition Denoiser_getTasks (fuel : nat) (capacity : Z) : DM (list DenoisingTask) :=
  dbind dget (fun m =>
  dbind (dthrow (Denoiser.imageSizeSet m) "Call prepare() before this function.") (fun _ =>
  dbind (dloop (getTasks_loops fuel m capacity)) (fun st =>
  dret (snd st)))).

(* ===================================================================== *)
(** * The tiles, stated without the loops *)
(* ===================================================================== *)

(** The offsets and sizes of the tiles of one axis, from [off] on. *)
Fixpoint segments (n : nat) (clamp : bool) (extent tile overlap off : Z) : list (Z * Z) :=
  match n with
  | O => []
  | S n =>
      if off <? extent then
        let size := if off =? 0 then tile + overlap else tile in
        let size := if clamp && (off + size >? extent) then extent - off else size in
        (off, size) :: segments n clamp extent tile overlap (off + size)
      else []
  end.

Definition tiles_of (clamp : bool) (extent tile overlap : Z) : list (Z * Z) :=
  segments (Z.to_nat extent) clamp extent tile overlap 0.

(** The body of a loop run on a list of tiles. *)
Fixpoint run_tiles {S} (body : Z -> Z -> S -> option (result S)) (l : list (Z * Z)) (s : S)
    : option (result S) :=
  match l with
  | [] => Some (Ok s)
  | (off, size) :: rest =>
      match body off size s with
      | None => None
      | Some (Err e) => Some (Err e)
      | Some (Ok s1) => run_tiles body rest s1
      end
  end.

(** Segments that follow one another from [from] to [to], none empty. *)
Fixpoint chain (l : list (Z * Z)) (from to : Z) : Prop :=
  match l with
  | [] => from = to
  | (off, size) :: rest => off = from /\ 0 < size /\ chain rest (from + size) to
  end.

(** What [prepare] and [getTasks] need of one axis: an extent and a tile
    size that are [uint32_t] values [prepare] accepts, the tile size being
    the one [prepare] stores, and an overlap, so small that no [int32_t] sum
    of the loops overflows. *)
Definition axis_ok (extent tile overlap : Z) : Prop :=
  0 <= overlap /\ 0 <= tile <= extent /\ (0 < extent -> 0 < tile) /\
  extent + tile + 2 * overlap <= s32_max.

(** The tile size [prepare] stores for the one it is given. *)
Definition stored_tile (extent tile : Z) : Z := if tile =? 0 then extent else tile.

(** The size of the tile at [off], when nothing overflows. *)
Definition tile_size_of (clamp : bool) (extent tile overlap off : Z) : Z :=
  let size := if off =? 0 then tile + overlap else tile in
  if clamp && (off + size >? extent) then extent - off else size.

(** [x] lies in a segment. *)
Definition in_segment (x : Z) (seg : Z * Z) : bool :=
  (fst seg <=? x) && (x <? fst seg + snd seg).

(** The pixel [(x, y)] lies in the output rectangle of a task. *)
Definition in_output (x y : Z) (t : DenoisingTask) : bool :=
  (outputOffsetX t <=? x) && (x <? outputOffsetX t + outputWidth t) &&
  (outputOffsetY t <=? y) && (y <? outputOffsetY t + outputHeight t).

(** The input offset [getTasks] computes for an output offset, when nothing
    overflows. *)
Definition input_offset_of (extent maxInput overlap outputOffset : Z) : Z :=
  let inputOffset := Z.max (outputOffset - overlap) 0 in
  if inputOffset + maxInput >? extent then extent - maxInput else inputOffset.

(** The tasks of an image, row by row. *)
Definition tasks_of (W H tw th o : Z) : list DenoisingTask :=
  let maxW := Z.min (tw + 2 * o) W in
  let maxH := Z.min (th + 2 * o) H in
  flat_map (fun row =>
    map (fun col =>
           mkDenoisingTask (input_offset_of W maxW o (fst col))
                           (input_offset_of H maxH o (fst row))
                           (fst col) (fst row) (snd col) (snd row))
        (tiles_of true W tw o))
    (tiles_of true H th o).

(** The task of a row and a column of tiles. *)
Definition task_of (W H maxW maxH o : Z) (row col : Z * Z) : DenoisingTask :=
  mkDenoisingTask (input_offset_of W maxW o (fst col)) (input_offset_of H maxH o (fst row))
                  (fst col) (fst row) (snd col) (snd row).

(** An image, a tile size as [prepare] is given it and the overlap the SDK
    asks for, that the loops handle without overflow, the tiles being so
    few that [numTasks] counts them. *)
Definition tiling_ok (W H tw th o : Z) : Prop :=
  axis_ok W (stored_tile W tw) o /\ axis_ok H (stored_tile H th) o /\
  W * H < u32_modulus.

(** The output rectangle of a task is not empty and lies in the image. *)
Definition output_in_image (W H : Z) (t : DenoisingTask) : Prop :=
  0 <= outputOffsetX t /\ 0 < outputWidth t /\ outputOffsetX t + outputWidth t <= W /\
  0 <= outputOffsetY t /\ 0 < outputHeight t /\ outputOffsetY t + outputHeight t <= H.

(** On one axis: the input window [[input, input + maxInput)] lies in
    [[0, extent)], holds the output segment and reaches [overlap] beyond it
    on each side, or to the border. *)
Definition window_ok (extent maxInput overlap input output size : Z) : Prop :=
  0 <= input /\ input + maxInput <= extent /\
  input <= output /\ output + size <= input + maxInput /\
  (input = 0 \/ input <= output - overlap) /\
  (input + maxInput = extent \/ output + size + overlap <= input + maxInput).

(** A denoiser whose model is set. *)
Definition denoiser_with_model : Denoiser.t := Denoiser.set_modelSet true Denoiser.fresh.

(** An SDK that asks for an overlap of 64 pixels. *)
Definition sizes_overlap_64 : Z -> Z -> option OptixDenoiserSizes :=
  fun _ _ => Some (mkDenoiserSizes 1000 3000 2000 64).

(* ===================================================================== *)
(** * The hit-group table, record by record *)
(* ===================================================================== *)

(** What [setupHitGroupSBT] writes, stated without its loops and without
    the pointer it moves: the records of the table in the order of the
    layout, each at the byte offset its number in the table gives. *)

(** The material a slot binds for a material set: its entry for the set,
    and its entry for material set 0 where it has none for the set. *)
Definition bound_material (slot : list (option nat)) (matSetIdx : Z) : option nat :=
  match slot !! Z.to_nat matSetIdx with
  | Some (Some mat) => Some mat
  | _ => match slot !! 0%nat with
         | Some (Some mat) => Some mat
         | _ => None
         end
  end.

(** The records a geometry instance has in a block of [numRayTypes] ray
    types: for each of its material slots, one for each ray type.  A record
    is named by the geometry instance, the slot and the ray type. *)
Definition GeometryInstance_records (w : World) (gi : nat) (numRayTypes : Z)
    : list (nat * Z * Z) :=
  match geomInsts w !! gi with
  | None => []
  | Some self =>
      flat_map (fun matIdx => map (fun rayType => (gi, matIdx, rayType)) (indices numRayTypes))
               (indices (Z.of_nat (length (GeometryInstance.materials self))))
  end.

(** The records of the block of a pair (GAS, material set): those of the
    children of the GAS, one child after the other. *)
Definition block_records (w : World) (p : nat * Z) : list (nat * Z * Z) :=
  match gass w !! fst p with
  | None => []
  | Some gas =>
      match GAS.numRayTypesPerMaterialSet gas !! Z.to_nat (snd p) with
      | None => []
      | Some numRayTypes =>
          flat_map (fun child => GeometryInstance_records w (GAS.geomInst child) numRayTypes)
                   (GAS.children gas)
      end
  end.

(** The records of the table. *)
Definition table_records (w : World) (sc : Scene.t) : list (nat * Z * Z) :=
  flat_map (block_records w) (layout_pairs w sc).

Section FillSpec.
Context `{OptixSDK}.

(** What is written for the record [k] of the block of [p], the record
    beginning at the byte [record]: the header of the hit group the bound
    material has for the pipeline and the ray type, then the user data
    of the material, of the geometry instance and of the GAS, each at
    its aligned offset behind what precedes it. *)
Definition record_writes (w : World) (pipeline : nat) (p : nat * Z) (k : nat * Z * Z)
    (record : Z) : list Event :=
  let '(gi, matIdx, rayType) := k in
  match gass w !! fst p, geomInsts w !! gi with
  | Some gas, Some self =>
      match GeometryInstance.materials self !! Z.to_nat matIdx with
      | None => []
      | Some slot =>
          match bound_material slot (snd p) with
          | None => []
          | Some m =>
              match materials w !! m with
              | None => []
              | Some mat =>
                  match Material.programs mat !! (pipeline, rayType) with
                  | None => []
                  | Some hitGroup =>
                      let '(sa1, o1) :=
                        SizeAlign.add header_SizeAlign (Material.userDataSizeAlign mat) in
                      let '(sa2, o2) :=
                        SizeAlign.add sa1 (GeometryInstance.userDataSizeAlign self) in
                      let '(_, o3) := SizeAlign.add sa2 (GAS.userDataSizeAlign gas) in
                      [ EvPackHeader hitGroup record;
                        EvMemcpy (record + o1)
                          (take (Z.to_nat (SizeAlign.size (Material.userDataSizeAlign mat)))
                                (Material.userData mat));
                        EvMemcpy (record + o2)
                          (take (Z.to_nat (SizeAlign.size
                                             (GeometryInstance.userDataSizeAlign self)))
                                (GeometryInstance.userData self));
                        EvMemcpy (record + o3)
                          (take (Z.to_nat (SizeAlign.size (GAS.userDataSizeAlign gas)))
                                (GAS.userData gas)) ]
                  end
              end
          end
      end
  | _, _ => []
  end.

(** The writes of the block of [p], which begins at record number
    [offset] of a table of records of [stride] bytes: the record [i] of
    the block is record [offset + i] of the table. *)
Definition block_writes (w : World) (pipeline : nat) (stride : Z) (p : nat * Z)
    (offset : Z) : list Event :=
  concat (imap (fun i k => record_writes w pipeline p k ((offset + Z.of_nat i) * stride))
               (block_records w p)).

(** The log of the loops of [setupHitGroupSBT] when every block begins
    at the offset the layout has for its pair. *)
Definition table_log (w : World) (sc : Scene.t) (pipeline : nat) : list Event :=
  flat_map (fun p =>
              let offset := default 0 (Scene.sbtOffsets sc !! p) in
              EvFillSBTRecords (fst p) (snd p) (offset * Scene.singleRecordSize sc)
              :: block_writes w pipeline (Scene.singleRecordSize sc) p offset)
           (layout_pairs w sc).

End FillSpec.

(** The table is smaller than 2^32 bytes, and has fewer than 2^32
    records: the sizes and counts the fill pass computes in [uint32_t] are
    exact. *)
Definition table_fits (w : World) (sc : Scene.t) : Prop :=
  Z.of_nat (length (table_records w sc)) * Z.max (Scene.singleRecordSize sc) 1
  < u32_modulus.

(** What the fill pass relies on in the objects below scene [s]: the GAS of
    the scene and their geometry instances are of this scene (so that
    [scene->getSingleRecordSize()] is the same number for all of them), a
    number of ray types is not negative, and a geometry instance has one
    geometry flag for each material slot. *)
Definition fill_inputs_ok (w : World) (s : nat) (sc : Scene.t) : Prop :=
  forall g gas,
    g ∈ Scene.geomASs sc -> gass w !! g = Some gas ->
    GAS.scene gas = s /\
    Forall (fun n => 0 <= n) (GAS.numRayTypesPerMaterialSet gas) /\
    forall child gi,
      child ∈ GAS.children gas -> geomInsts w !! GAS.geomInst child = Some gi ->
      GeometryInstance.scene gi = s /\ GeometryInstance_wf gi.

(** A loop that moves a position: the events of its steps, each at the
    position the steps before it have left. *)
Fixpoint laid {A} (ev : A -> Z -> list Event) (adv : A -> Z) (c : Z) (l : list A)
    : list Event :=
  match l with
  | [] => []
  | x :: rest => ev x c ++ laid ev adv (c + adv x) rest
  end.

(** The positions of the headers packed in a log, in order. *)
Definition header_positions (log : list Event) : list Z :=
  omap (fun e => match e with EvPackHeader _ record => Some record | _ => None end) log.


(* ===================================================================== *)
(** * Facts on machine integers *)
(* ===================================================================== *)

Lemma u32_range x : 0 <= u32 x < u32_modulus.
Proof. unfold u32, u32_modulus. apply Z.mod_pos_bound. lia. Qed.

Lemma u32_small x : 0 <= x < u32_modulus -> u32 x = x.
Proof. intros Hx. unfold u32. apply Z.mod_small. exact Hx. Qed.

Lemma u32_idemp x : u32 (u32 x) = u32 x.
Proof. apply u32_small, u32_range. Qed.

Lemma u32_add_mod_l a b : u32 (u32 a + b) = u32 (a + b).
Proof. unfold u32. rewrite Zplus_mod_idemp_l. reflexivity. Qed.

Lemma u32_add_mod_r a b : u32 (a + u32 b) = u32 (a + b).
Proof. unfold u32. rewrite Zplus_mod_idemp_r. reflexivity. Qed.

Lemma u32_mul_mod_l a b : u32 (u32 a * b) = u32 (a * b).
Proof. unfold u32. rewrite Zmult_mod_idemp_l. reflexivity. Qed.

Lemma u32_mul_mod_r a b : u32 (a * u32 b) = u32 (a * b).
Proof. unfold u32. rewrite Zmult_mod_idemp_r. reflexivity. Qed.

Lemma u32_as_land x : u32 x = Z.land x (Z.ones 32).
Proof. unfold u32, u32_modulus. rewrite Z.land_ones by lia. reflexivity. Qed.

Lemma pow2_u32_range a : pow2_u32 a -> 1 <= a < u32_modulus.
Proof.
  intros (k & Hk & ->). unfold u32_modulus. split.
  - assert (0 < 2 ^ k) by (apply Z.pow_pos_nonneg; lia). lia.
  - apply Z.pow_lt_mono_r; lia.
Qed.

(** Clearing the bits of [a - 1] rounds down to a multiple of [a]. *)
Lemma land_not_mask x k :
  0 <= k < 32 -> 0 <= x < u32_modulus ->
  Z.land x (u32_not (u32_sub (2 ^ k) 1)) = 2 ^ k * (x / 2 ^ k).
Proof.
  intros Hk Hx.
  assert (Hp : 1 <= 2 ^ k < u32_modulus) by (apply pow2_u32_range; exists k; auto).
  unfold u32_sub, u32_not. rewrite (u32_small (2 ^ k - 1)) by lia.
  rewrite u32_as_land.
  rewrite Z.land_assoc, (Z.land_comm x), <- Z.land_assoc.
  rewrite <- (u32_as_land x), (u32_small x) by exact Hx.
  rewrite Z.land_comm.
  rewrite <- Z.ldiff_land.
  replace (2 ^ k - 1) with (Z.ones k) by (rewrite Z.ones_equiv; lia).
  rewrite Z.ldiff_ones_r by lia.
  rewrite Z.shiftr_div_pow2, Z.shiftl_mul_pow2 by lia. lia.
Qed.

Lemma land_not_mask_divide x a :
  pow2_u32 a -> (a | Z.land (u32 x) (u32_not (u32_sub a 1))).
Proof.
  intros (k & Hk & ->). rewrite land_not_mask by (auto using u32_range).
  apply Z.divide_factor_l.
Qed.

(* ===================================================================== *)
(** * SizeAlign *)
(* ===================================================================== *)

Lemma drawn_pow2 a : a ∈ [4; 8; 16] -> pow2_u32 a.
Proof.
  rewrite !elem_of_cons, elem_of_nil.
  intros [-> | [-> | [-> | []]]]; [exists 2 | exists 3 | exists 4]; split; (lia || reflexivity).
Qed.

Lemma pow2_u32_max a b : pow2_u32 a -> pow2_u32 b -> pow2_u32 (Z.max a b).
Proof. intros Ha Hb. destruct (Z.max_spec a b) as [[_ ->] | [_ ->]]; assumption. Qed.

Lemma pow2_u32_divide a b : pow2_u32 a -> pow2_u32 b -> a <= b -> (a | b).
Proof.
  intros (i & Hi & ->) (j & Hj & ->) Hle.
  assert (i <= j) by (apply (Z.pow_le_mono_r_iff 2); lia).
  exists (2 ^ (j - i)). rewrite <- Z.pow_add_r by lia. f_equal. lia.
Qed.

Lemma SizeAlign_add_offset_aligned self sa :
  pow2_u32 (SizeAlign.alignment sa) ->
  (SizeAlign.alignment sa | snd (SizeAlign.add self sa)).
Proof. intros Hp. cbn. unfold u32_add. apply land_not_mask_divide, Hp. Qed.

Lemma SizeAlign_add_alignment self sa :
  SizeAlign.alignment (fst (SizeAlign.add self sa))
  = Z.max (SizeAlign.alignment self) (SizeAlign.alignment sa).
Proof. reflexivity. Qed.

Lemma SizeAlign_alignUp_aligned self :
  pow2_u32 (SizeAlign.alignment self) ->
  (SizeAlign.alignment self | SizeAlign.size (SizeAlign.alignUp self)).
Proof. intros Hp. cbn. unfold u32_add. apply land_not_mask_divide, Hp. Qed.

Lemma add_all_cons self sa rest :
  SizeAlign.add_all self (sa :: rest)
  = (fst (SizeAlign.add_all (fst (SizeAlign.add self sa)) rest),
     snd (SizeAlign.add self sa) :: snd (SizeAlign.add_all (fst (SizeAlign.add self sa)) rest)).
Proof.
  cbn [SizeAlign.add_all]. destruct (SizeAlign.add self sa) as [s1 off].
  cbn [fst snd]. destruct (SizeAlign.add_all s1 rest) as [s2 offs]. reflexivity.
Qed.

Lemma add_all_offsets_aligned items : forall self,
  Forall (fun sa => pow2_u32 (SizeAlign.alignment sa)) items ->
  Forall2 (fun sa off => (SizeAlign.alignment sa | off))
          items (snd (SizeAlign.add_all self items)).
Proof.
  induction items as [| sa rest IH]; intros self Hall.
  - constructor.
  - rewrite add_all_cons. cbn [snd]. inversion Hall; subst. constructor.
    + apply SizeAlign_add_offset_aligned. assumption.
    + apply IH. assumption.
Qed.

Lemma add_all_alignment_pow2 items : forall self,
  pow2_u32 (SizeAlign.alignment self) ->
  Forall (fun sa => pow2_u32 (SizeAlign.alignment sa)) items ->
  pow2_u32 (SizeAlign.alignment (fst (SizeAlign.add_all self items))) /\
  SizeAlign.alignment self <= SizeAlign.alignment (fst (SizeAlign.add_all self items)) /\
  Forall (fun sa => SizeAlign.alignment sa
                    <= SizeAlign.alignment (fst (SizeAlign.add_all self items))) items.
Proof.
  induction items as [| sa rest IH]; intros self Hs Hall.
  - cbn. split; [assumption | split; [lia | constructor]].
  - inversion Hall as [| ? ? Hsa Hrest]; subst.
    rewrite add_all_cons. cbn [fst].
    destruct (IH (fst (SizeAlign.add self sa))) as (Hp & Hle & Hfa).
    { rewrite SizeAlign_add_alignment. apply pow2_u32_max; assumption. }
    { assumption. }
    rewrite SizeAlign_add_alignment in Hle.
    split; [assumption | split; [lia |]].
    constructor; [lia | assumption].
Qed.

Lemma max_alignment_pow2 items :
  Forall (fun sa => pow2_u32 (SizeAlign.alignment sa)) items ->
  pow2_u32 (max_alignment items).
Proof.
  unfold max_alignment. induction 1 as [| sa rest Hsa _ IH]; cbn.
  - exists 0. split; [lia | reflexivity].
  - apply pow2_u32_max; assumption.
Qed.

Lemma max_alignment_le items b :
  1 <= b -> Forall (fun sa => SizeAlign.alignment sa <= b) items ->
  max_alignment items <= b.
Proof.
  unfold max_alignment. intros Hb. induction 1 as [| sa rest Hsa _ IH]; cbn; lia.
Qed.

(** ** C8 *)

(** C8, as the code has it.  Items whose alignments are drawn from 4, 8 and
    16 are appended with [add], in any order, to an accumulator whose own
    alignment is a power of two (a fresh [SizeAlign] has 1).  Every offset
    [add] returns is a multiple of the alignment of the item it was returned
    for.  The accumulated size becomes a multiple of the largest alignment
    among the items once [alignUp] has been applied to the accumulator; [add]
    alone does not pad after the last item. *)
Theorem SizeAlign_add_offsets_aligned_alignUp_size_aligned
    (self : SizeAlign.t) (items : list SizeAlign.t) :
  pow2_u32 (SizeAlign.alignment self) ->
  Forall (fun sa => SizeAlign.alignment sa ∈ [4; 8; 16]) items ->
  Forall2 (fun sa off => (SizeAlign.alignment sa | off))
          items (snd (SizeAlign.add_all self items)) /\
  (max_alignment items
   | SizeAlign.size (SizeAlign.alignUp (fst (SizeAlign.add_all self items)))).
Proof.
  intros Hself Hdrawn.
  assert (Hpow : Forall (fun sa => pow2_u32 (SizeAlign.alignment sa)) items).
  { eapply Forall_impl; [exact Hdrawn |]. intros sa. apply drawn_pow2. }
  split.
  - apply add_all_offsets_aligned, Hpow.
  - destruct (add_all_alignment_pow2 items self Hself Hpow) as (Hp & Hle & Hfa).
    eapply Z.divide_trans; [| apply SizeAlign_alignUp_aligned, Hp].
    apply pow2_u32_divide; [apply max_alignment_pow2, Hpow | exact Hp |].
    apply max_alignment_le; [| exact Hfa].
    pose proof (pow2_u32_range _ Hself). lia.
Qed.

(** The statement above at three items appended to a fresh accumulator. *)
Lemma SizeAlign_add_offsets_aligned_witness :
  let items := [SizeAlign.mk 4 4; SizeAlign.mk 20 16; SizeAlign.mk 8 8] in
  SizeAlign.add_all SizeAlign.default items = (SizeAlign.mk 48 16, [0; 16; 40]) /\
  Forall2 (fun sa off => (SizeAlign.alignment sa | off))
          items (snd (SizeAlign.add_all SizeAlign.default items)) /\
  (max_alignment items
   | SizeAlign.size (SizeAlign.alignUp (fst (SizeAlign.add_all SizeAlign.default items)))).
Proof.
  split; [reflexivity |].
  apply (SizeAlign_add_offsets_aligned_alignUp_size_aligned SizeAlign.default).
  - exists 0. split; [lia | reflexivity].
  - repeat constructor.
Defined.

(** C8 fails as stated: after an item of size 16 and alignment 16 and an item
    of size 4 and alignment 4 the accumulated size is 20, which is not a
    multiple of 16. *)
Lemma SizeAlign_final_size_not_aligned :
  let items := [SizeAlign.mk 16 16; SizeAlign.mk 4 4] in
  Forall (fun sa => SizeAlign.alignment sa ∈ [4; 8; 16]) items /\
  SizeAlign.add_all SizeAlign.default items = (SizeAlign.mk 20 16, [0; 16]) /\
  max_alignment items = 16 /\
  ~ (max_alignment items | SizeAlign.size (fst (SizeAlign.add_all SizeAlign.default items))).
Proof.
  split; [repeat constructor |].
  split; [reflexivity |]. split; [reflexivity |].
  intros Hd.
  change (16 | 20) in Hd.
  destruct Hd as [q Hq]. lia.
Qed.


(* ===================================================================== *)
(** * Record counts and handles *)
(* ===================================================================== *)

Lemma vec_at_lookup {A} (v : list A) (i : Z) (x : A) what :
  0 <= i -> v !! Z.to_nat i = Some x -> vec_at v i what = Ok x.
Proof.
  intros Hi Hx. unfold vec_at.
  assert (Z.to_nat i < length v)%nat by (eapply lookup_lt_Some; eauto).
  replace (0 <=? i) with true by (symmetry; apply Z.leb_le; lia).
  replace (i <? Z.of_nat (length v)) with true by (symmetry; apply Z.ltb_lt; lia).
  cbn. rewrite Hx. reflexivity.
Qed.

Lemma vec_at_ok_inv {A} (v : list A) (i : Z) (x : A) what :
  vec_at v i what = Ok x ->
  0 <= i < Z.of_nat (length v) /\ v !! Z.to_nat i = Some x.
Proof.
  unfold vec_at. destruct (0 <=? i) eqn:H0; cbn; [| discriminate].
  destruct (i <? Z.of_nat (length v)) eqn:H1; cbn; [| discriminate].
  destruct (v !! Z.to_nat i) eqn:E; [| discriminate].
  intros [= ->]. split; [lia | reflexivity].
Qed.

Lemma deref_lookup {A} (arena : gmap nat A) p x what :
  arena !! p = Some x -> deref arena p what = Ok x.
Proof. intros E. unfold deref. rewrite E. reflexivity. Qed.

Lemma deref_ok_inv {A} (arena : gmap nat A) p x what :
  deref arena p what = Ok x -> arena !! p = Some x.
Proof. unfold deref. destruct (arena !! p); [intros [= ->]; reflexivity | discriminate]. Qed.

Lemma rbind_ok_inv {A B} (r : result A) (k : A -> result B) b :
  rbind r k = Ok b -> exists a, r = Ok a /\ k a = Ok b.
Proof. destruct r; cbn; [eauto | discriminate]. Qed.

(** The loop of [calcNumSBTRecords] over resolved children. *)
Lemma calcNumSBTRecords_loop w (children : list GAS.Child) (gis : list GeometryInstance.t) :
  Forall2 (fun child gi => geomInsts w !! GAS.geomInst child = Some gi /\
                           GeometryInstance_wf gi) children gis ->
  forall acc, 0 <= acc < u32_modulus ->
  rfold (fun numSBTRecords child =>
           let? gi := deref (geomInsts w) (GAS.geomInst child) "geometry instance" in
           Ok (u32_add numSBTRecords (GeometryInstance_getNumSBTRecords gi)))
        children acc
  = Ok (u32 (acc + sumZ (map (fun gi => Z.of_nat (length (GeometryInstance.materials gi))) gis))).
Proof.
  induction 1 as [| child gi children gis [Hgi Hwf] _ IH]; intros acc Hacc.
  - cbn. rewrite Z.add_0_r, u32_small by exact Hacc. reflexivity.
  - cbn [rfold]. rewrite (deref_lookup _ _ _ _ Hgi). cbn [rbind].
    rewrite IH by apply u32_range.
    f_equal. cbn [map sumZ foldr].
    unfold u32_add, GeometryInstance_getNumSBTRecords, size32.
    rewrite Hwf, u32_add_mod_l. unfold sumZ.
    set (n := Z.of_nat (length (GeometryInstance.materials gi))).
    set (rest := foldr Z.add 0 _).
    replace (acc + u32 n + rest) with (u32 n + (acc + rest)) by lia.
    rewrite u32_add_mod_l. f_equal. lia.
Qed.

Lemma example_calls_succeed : outcome example_calls empty_world = Ok tt.
Proof. vm_compute. reflexivity. Qed.

(** ** C6 *)

(** C6.  For a GAS whose children are geometry instances with R_i material
    slots each, [calcNumSBTRecords(matSetIdx)] is the sum of the R_i times the
    ray-type count of material set [matSetIdx], computed in [uint32_t], and it
    is that product itself whenever the product fits 32 bits.  The scene with
    one GAS of two material sets (one and two ray types) and one geometry
    instance of three materials yields 3 and 6. *)
Theorem GAS_calcNumSBTRecords_sum_times_numRayTypes :
  (forall (w : World) (g : nat) (gas : GAS.t) (gis : list GeometryInstance.t)
          (matSetIdx numRayTypes : Z),
     gass w !! g = Some gas ->
     Forall2 (fun child gi => geomInsts w !! GAS.geomInst child = Some gi /\
                              GeometryInstance_wf gi) (GAS.children gas) gis ->
     0 <= matSetIdx ->
     GAS.numRayTypesPerMaterialSet gas !! Z.to_nat matSetIdx = Some numRayTypes ->
     let sumR := sumZ (map (fun gi => Z.of_nat (length (GeometryInstance.materials gi))) gis) in
     GAS_calcNumSBTRecords w g matSetIdx = Ok (u32 (sumR * numRayTypes)) /\
     (0 <= sumR * numRayTypes < u32_modulus ->
      GAS_calcNumSBTRecords w g matSetIdx = Ok (sumR * numRayTypes))) /\
  GAS_calcNumSBTRecords example_world 0 0 = Ok 3 /\
  GAS_calcNumSBTRecords example_world 0 1 = Ok 6.
Proof.
  split; [| split; vm_compute; reflexivity].
  intros w g gas gis matSetIdx numRayTypes Hg Hch Hm Hrt sumR.
  assert (E : GAS_calcNumSBTRecords w g matSetIdx = Ok (u32 (sumR * numRayTypes))).
  { unfold GAS_calcNumSBTRecords. rewrite (deref_lookup _ _ _ _ Hg). cbn [rbind].
    rewrite (calcNumSBTRecords_loop w _ _ Hch 0) by (unfold u32_modulus; lia).
    cbn [rbind]. rewrite (vec_at_lookup _ _ _ _ Hm Hrt). cbn [rbind].
    unfold u32_mul. rewrite u32_mul_mod_l. reflexivity. }
  split; [exact E |]. intros Hfit. rewrite E, u32_small by exact Hfit. reflexivity.
Qed.

(** The general statement at the example scene, whose geometry instance is
    the one created by [example_calls]. *)
Lemma GAS_calcNumSBTRecords_witness :
  exists gas gi,
    gass example_world !! 0%nat = Some gas /\
    geomInsts example_world !! 0%nat = Some gi /\
    length (GeometryInstance.materials gi) = 3%nat /\
    GAS.numRayTypesPerMaterialSet gas = [1; 2] /\
    GAS_calcNumSBTRecords example_world 0 1 = Ok (u32 (3 * 2)).
Proof.
  destruct (gass example_world !! 0%nat) as [gas |] eqn:Eg; [| vm_compute in Eg; discriminate].
  destruct (geomInsts example_world !! 0%nat) as [gi |] eqn:Ei; [| vm_compute in Ei; discriminate].
  exists gas, gi.
  assert (Hc : GAS.children gas = [GAS.mkChild 0 0]).
  { vm_compute in Eg. injection Eg as <-. reflexivity. }
  assert (Hr : GAS.numRayTypesPerMaterialSet gas = [1; 2]).
  { vm_compute in Eg. injection Eg as <-. reflexivity. }
  assert (Hm : length (GeometryInstance.materials gi) = 3%nat).
  { vm_compute in Ei. injection Ei as <-. reflexivity. }
  assert (Hf : GeometryInstance_wf gi).
  { unfold GeometryInstance_wf. vm_compute in Ei. injection Ei as <-. reflexivity. }
  split; [reflexivity |]. split; [reflexivity |].
  split; [exact Hm |]. split; [exact Hr |].
  assert (Hch : Forall2 (fun child gi => geomInsts example_world !! GAS.geomInst child = Some gi
                                         /\ GeometryInstance_wf gi) (GAS.children gas) [gi]).
  { rewrite Hc. repeat constructor; assumption. }
  assert (Hrt : GAS.numRayTypesPerMaterialSet gas !! Z.to_nat 1 = Some 2).
  { rewrite Hr. reflexivity. }
  destruct (proj1 GAS_calcNumSBTRecords_sum_times_numRayTypes
              example_world 0%nat gas [gi] 1 2 Eg Hch ltac:(lia) Hrt) as [H1 _].
  cbn [map sumZ foldr] in H1. rewrite Hm in H1. exact H1.
Defined.

(** ** C10 *)

(** C10.  For a GAS and for an IAS alike, [getHandle] throws the validation
    error unless the structure is available or compacted; it returns the
    compacted handle whenever [compactedAvailable] is set, whether or not the
    uncompacted structure is still available, and the uncompacted handle only
    when [compactedAvailable] is not set. *)
Theorem getHandle_prefers_compacted :
  (forall m : GAS.t,
     (GAS.available m || GAS.compactedAvailable m = false ->
      GAS_getHandle m = Err (RuntimeError "Traversable handle is not ready.")) /\
     (GAS.compactedAvailable m = true ->
      GAS_getHandle m = Ok (GAS.compactedHandle m)) /\
     (GAS.compactedAvailable m = false -> GAS.available m = true ->
      GAS_getHandle m = Ok (GAS.handle m))) /\
  (forall m : IAS.t,
     (IAS.available m || IAS.compactedAvailable m = false ->
      IAS_getHandle m = Err (RuntimeError "Traversable handle is not ready.")) /\
     (IAS.compactedAvailable m = true ->
      IAS_getHandle m = Ok (IAS.compactedHandle m)) /\
     (IAS.compactedAvailable m = false -> IAS.available m = true ->
      IAS_getHandle m = Ok (IAS.handle m))).
Proof.
  split; intros m; unfold GAS_getHandle, GAS_isReady, IAS_getHandle, IAS_isReady;
    (destruct (GAS.available m), (GAS.compactedAvailable m)
     || destruct (IAS.available m), (IAS.compactedAvailable m));
    cbn; repeat split; intros; congruence.
Qed.

(** C10 at the compacted GAS of the example, whose uncompacted structure is
    still available: the handle is the compacted one. *)
Lemma getHandle_prefers_compacted_witness :
  exists m : GAS.t,
    gass compacted_world !! 0%nat = Some m /\
    GAS.available m = true /\ GAS.compactedAvailable m = true /\
    GAS.handle m = 1001 /\ GAS.compactedHandle m = 1002 /\
    GAS_getHandle m = Ok 1002.
Proof.
  destruct (gass compacted_world !! 0%nat) as [m |] eqn:Em;
    [| vm_compute in Em; discriminate].
  assert (Hc : GAS.compactedAvailable m = true)
    by (vm_compute in Em; injection Em as <-; reflexivity).
  assert (Hh : GAS.compactedHandle m = 1002)
    by (vm_compute in Em; injection Em as <-; reflexivity).
  exists m. split; [reflexivity |].
  split; [vm_compute in Em; injection Em as <-; reflexivity |].
  split; [exact Hc |].
  split; [vm_compute in Em; injection Em as <-; reflexivity |].
  split; [exact Hh |].
  rewrite <- Hh. exact (proj1 (proj2 (proj1 getHandle_prefers_compacted m)) Hc).
Defined.


(* ===================================================================== *)
(** * The layout pass *)
(* ===================================================================== *)

Lemma put_scene_lookup s sc w : scenes (put_scene s sc w) !! s = Some sc.
Proof. cbn. apply lookup_insert_eq. Qed.

Lemma put_scene_put s sc1 sc2 w :
  put_scene s sc2 (put_scene s sc1 w) = put_scene s sc2 w.
Proof. unfold put_scene, set_scenes. cbn. rewrite insert_insert_eq. reflexivity. Qed.

Lemma put_scene_id s sc w : scenes w !! s = Some sc -> put_scene s sc w = w.
Proof.
  intros E. destruct w. unfold put_scene, set_scenes. cbn in *.
  rewrite insert_id by exact E. reflexivity.
Qed.

Lemma getScene_put s sc w : getScene s (put_scene s sc w) = (put_scene s sc w, Ok sc).
Proof. unfold getScene, deref. rewrite put_scene_lookup. reflexivity. Qed.

Lemma updScene_put s f sc w :
  updScene s f (put_scene s sc w) = (put_scene s (f sc) w, Ok tt).
Proof.
  unfold updScene, bind. rewrite getScene_put. unfold modify.
  fold (put_scene s (f sc) (put_scene s sc w)). rewrite put_scene_put. reflexivity.
Qed.

Lemma bind_ok {A B} (m : M A) (k : A -> M B) w w1 a :
  m w = (w1, Ok a) -> bind m k w = k a w1.
Proof. intros E. unfold bind. rewrite E. reflexivity. Qed.

Lemma bind_err {A B} (m : M A) (k : A -> M B) w w1 e :
  m w = (w1, Err e) -> bind m k w = (w1, Err e).
Proof. intros E. unfold bind. rewrite E. reflexivity. Qed.

Lemma bind_ok_inv {A B} (m : M A) (k : A -> M B) w w' b :
  bind m k w = (w', Ok b) -> exists w1 a, m w = (w1, Ok a) /\ k a w1 = (w', Ok b).
Proof.
  unfold bind. destruct (m w) as [w1 [a | e]]; [eauto | discriminate].
Qed.

Lemma run_get {B} (k : World -> M B) w : bind get k w = k w w.
Proof. reflexivity. Qed.

Lemma run_lift {A B} (r : result A) (k : A -> M B) w :
  bind (lift r) k w = match r with Ok a => k a w | Err e => (w, Err e) end.
Proof. unfold bind, lift. destruct r; reflexivity. Qed.

Lemma run_ret {A B} (a : A) (k : A -> M B) w : bind (ret a) k w = k a w.
Proof. reflexivity. Qed.

Lemma run_getGAS {B} g (k : GAS.t -> M B) w :
  bind (getGAS g) k w
  = match deref (gass w) g "geometry acceleration structure" with
    | Ok x => k x w
    | Err e => (w, Err e)
    end.
Proof. unfold bind, getGAS. destruct (deref _ _ _); reflexivity. Qed.

Lemma run_getScene {B} s (k : Scene.t -> M B) w :
  bind (getScene s) k w
  = match deref (scenes w) s "scene" with
    | Ok x => k x w
    | Err e => (w, Err e)
    end.
Proof. unfold bind, getScene. destruct (deref _ _ _); reflexivity. Qed.

Lemma agrees_err_refl {A B} s sc w e (post : B -> Scene.t) (val : B -> A) :
  agrees (put_scene s sc w, Err e) s w (Err e) post val.
Proof. cbn. eauto. Qed.

Lemma foldM_cons {A S} (body : S -> A -> M S) x l s :
  foldM body (x :: l) s = bind (body s x) (fun s1 => foldM body l s1).
Proof. reflexivity. Qed.

Section LayoutProofs.
Context `{OptixSDK}.

Lemma calcMax_loop_put s sc w g l a0 :
  rfold (fun maxRecordSizeAlign matSetIdx =>
           let? sa := GAS_calcMaxRecordSizeAlign (put_scene s sc w) g matSetIdx in
           Ok (SizeAlign.max maxRecordSizeAlign sa)) l a0
  = rfold (fun maxRecordSizeAlign matSetIdx =>
             let? sa := GAS_calcMaxRecordSizeAlign w g matSetIdx in
             Ok (SizeAlign.max maxRecordSizeAlign sa)) l a0.
Proof. reflexivity. Qed.

Lemma layout_stride_step_agrees s g sc w :
  agrees (layout_stride_step s g (put_scene s sc w)) s w
         (gas_stride_pure w g)
         (fun x => Scene.set_singleRecordSize (Z.max (Scene.singleRecordSize sc) x) sc)
         (fun _ => tt).
Proof.
  unfold gas_stride_pure, layout_stride_step.
  rewrite run_get, run_getGAS.
  change (gass (put_scene s sc w)) with (gass w).
  destruct (deref (gass w) g _) as [gas | e]; cbn [rbind]; [| apply agrees_err_refl].
  rewrite run_lift, calcMax_loop_put.
  destruct (rfold _ _ _) as [sa | e]; cbn [rbind]; [| apply agrees_err_refl].
  unfold agrees. rewrite updScene_put. reflexivity.
Qed.

Lemma stride_loop_agrees s w l : forall sc,
  agrees (for_each l (layout_stride_step s) (put_scene s sc w)) s w
         (stride_pure w l (Scene.singleRecordSize sc))
         (fun r => Scene.set_singleRecordSize r sc)
         (fun _ => tt).
Proof.
  induction l as [| g l IH]; intros sc.
  - cbn. destruct sc; reflexivity.
  - cbn [for_each]. unfold stride_pure. cbn [rfold].
    pose proof (layout_stride_step_agrees s g sc w) as Hstep.
    destruct (gas_stride_pure w g) as [x | e]; cbn [rbind agrees] in *.
    + erewrite bind_ok by exact Hstep.
      specialize (IH (Scene.set_singleRecordSize (Z.max (Scene.singleRecordSize sc) x) sc)).
      cbn [Scene.singleRecordSize Scene.set_singleRecordSize] in IH.
      fold (stride_pure w l (Z.max (Scene.singleRecordSize sc) x)).
      destruct (stride_pure w l _) as [r | e]; cbn [agrees] in *; exact IH.
    + destruct Hstep as [sc' Hstep]. erewrite bind_err by exact Hstep. eauto.
Qed.

Lemma calcNum_put s sc w g m :
  GAS_calcNumSBTRecords (put_scene s sc w) g m = GAS_calcNumSBTRecords w g m.
Proof. reflexivity. Qed.

Lemma offsets_inner_agrees s w g ms : forall off sc,
  agrees (foldM (fun sbtOffset matSetIdx =>
                   let* w := get in
                   let* gasNumSBTRecords := lift (GAS_calcNumSBTRecords w g matSetIdx) in
                   updScene s (fun sc =>
                     Scene.set_sbtOffsets
                       (<[(g, matSetIdx) := sbtOffset]> (Scene.sbtOffsets sc)) sc) ;;;
                   ret (u32_add sbtOffset gasNumSBTRecords))
                ms off (put_scene s sc w)) s w
         (rfold (fun st m => offsets_step w st (g, m)) ms (off, Scene.sbtOffsets sc))
         (fun st => Scene.set_sbtOffsets (snd st) sc)
         fst.
Proof.
  induction ms as [| m ms IH]; intros off sc.
  - cbn. destruct sc; reflexivity.
  - rewrite foldM_cons. cbn [rfold]. unfold offsets_step at 1. cbn [fst snd].
    unfold bind at 1. rewrite run_get, run_lift, calcNum_put.
    destruct (GAS_calcNumSBTRecords w g m) as [n | e]; cbn [rbind];
      [| apply agrees_err_refl].
    unfold bind at 1. rewrite updScene_put. cbn [ret].
    specialize (IH (u32_add off n)
                   (Scene.set_sbtOffsets (<[(g, m) := off]> (Scene.sbtOffsets sc)) sc)).
    cbn [Scene.sbtOffsets Scene.set_sbtOffsets] in IH.
    destruct (rfold _ ms _) as [st | e]; cbn [agrees] in *; exact IH.
Qed.

Lemma layout_offset_step_agrees s w g off sc :
  agrees (layout_offset_step s off g (put_scene s sc w)) s w
         (offsets_gas_pure w (off, Scene.sbtOffsets sc) g)
         (fun st => Scene.set_sbtOffsets (snd st) sc)
         fst.
Proof.
  unfold layout_offset_step, offsets_gas_pure.
  rewrite run_getGAS. change (gass (put_scene s sc w)) with (gass w).
  destruct (deref (gass w) g _) as [gas | e]; cbn [rbind]; [| apply agrees_err_refl].
  apply offsets_inner_agrees.
Qed.

Lemma offsets_loop_agrees s w l : forall off sc,
  agrees (foldM (layout_offset_step s) l off (put_scene s sc w)) s w
         (offsets_pure w l (off, Scene.sbtOffsets sc))
         (fun st => Scene.set_sbtOffsets (snd st) sc)
         fst.
Proof.
  induction l as [| g l IH]; intros off sc.
  - cbn. destruct sc; reflexivity.
  - rewrite foldM_cons. unfold offsets_pure. cbn [rfold].
    pose proof (layout_offset_step_agrees s w g off sc) as Hstep.
    destruct (offsets_gas_pure w _ g) as [[off1 map1] | e]; cbn [rbind agrees fst snd] in *.
    + erewrite bind_ok by exact Hstep.
      specialize (IH off1 (Scene.set_sbtOffsets map1 sc)).
      cbn [Scene.sbtOffsets Scene.set_sbtOffsets] in IH.
      fold (offsets_pure w l (off1, map1)).
      destruct (offsets_pure w l _) as [st | e]; cbn [agrees] in *; exact IH.
    + destruct Hstep as [sc' Hstep]. erewrite bind_err by exact Hstep. eauto.
Qed.

Lemma generate_dirty_put s w sc :
  Scene.sbtLayoutIsUpToDate sc = false ->
  generate_outcome s w sc
    (Scene_generateShaderBindingTableLayout s (put_scene s sc w)).
Proof.
  intros Hdirty. unfold generate_outcome.
  unfold Scene_generateShaderBindingTableLayout.
  rewrite run_getScene, (deref_lookup _ _ _ _ (put_scene_lookup s sc w)), Hdirty.
  erewrite bind_ok by apply updScene_put.
  set (sc1 := Scene.set_singleRecordSize (u32 OPTIX_SBT_RECORD_HEADER_SIZE)
                (Scene.set_sbtOffsets ∅ sc)).
  pose proof (stride_loop_agrees s w (Scene.geomASs sc) sc1) as H1.
  change (Scene.singleRecordSize sc1) with (u32 OPTIX_SBT_RECORD_HEADER_SIZE) in H1.
  destruct (stride_pure w _ _) as [r | e]; cbn [agrees] in H1.
  2:{ destruct H1 as [sc' H1]. erewrite bind_err by exact H1. eauto. }
  erewrite bind_ok by exact H1.
  pose proof (offsets_loop_agrees s w (Scene.geomASs sc) 0
                (Scene.set_singleRecordSize r sc1)) as H2.
  change (Scene.sbtOffsets (Scene.set_singleRecordSize r sc1))
    with (∅ : gmap (nat * Z) Z) in H2.
  destruct (offsets_pure w _ _) as [st | e]; cbn [agrees] in H2.
  2:{ destruct H2 as [sc' H2]. erewrite bind_err by exact H2. eauto. }
  erewrite bind_ok by exact H2.
  erewrite bind_ok by apply updScene_put.
  rewrite run_getScene, (deref_lookup _ _ _ _ (put_scene_lookup _ _ _)).
  reflexivity.
Qed.

Lemma generate_dirty s w sc :
  scenes w !! s = Some sc ->
  Scene.sbtLayoutIsUpToDate sc = false ->
  generate_outcome s w sc (Scene_generateShaderBindingTableLayout s w).
Proof.
  intros Hsc Hdirty. pose proof (generate_dirty_put s w sc Hdirty) as Hp.
  rewrite (put_scene_id s sc w Hsc) in Hp. exact Hp.
Qed.

Lemma generate_clean s w sc :
  scenes w !! s = Some sc ->
  Scene.sbtLayoutIsUpToDate sc = true ->
  Scene_generateShaderBindingTableLayout s w = (w, Ok (Scene_memorySize sc)).
Proof.
  intros Hsc Hclean. unfold Scene_generateShaderBindingTableLayout.
  rewrite run_getScene, (deref_lookup _ _ _ _ Hsc), Hclean. reflexivity.
Qed.

End LayoutProofs.


(* ===================================================================== *)
(** * The pure loops against the declarative layout *)
(* ===================================================================== *)

Lemma foldr_max_init a x l :
  foldr Z.max (Z.max a x) l = Z.max x (foldr Z.max a l).
Proof. induction l as [| y l IH]; cbn; [lia | rewrite IH; lia]. Qed.

Lemma foldr_max_ge_init a l : a <= foldr Z.max a l.
Proof. induction l as [| y l IH]; cbn; lia. Qed.

Lemma foldr_max_ge_elem a l x : x ∈ l -> x <= foldr Z.max a l.
Proof.
  induction l as [| y l IH]; [intros Hx; inversion Hx |].
  rewrite elem_of_cons. intros [-> | Hx]; cbn; [lia | specialize (IH Hx); lia].
Qed.

Lemma foldr_max_attained a l : foldr Z.max a l = a \/ foldr Z.max a l ∈ l.
Proof.
  induction l as [| y l IH]; cbn; [left; reflexivity |].
  destruct (Z.max_spec y (foldr Z.max a l)) as [[_ ->] | [_ ->]].
  - destruct IH as [-> | Hin]; [left; reflexivity | right; right; exact Hin].
  - right. left.
Qed.

Lemma rfold_app {A S} (body : S -> A -> result S) l1 l2 s :
  rfold body (l1 ++ l2) s = rbind (rfold body l1 s) (rfold body l2).
Proof.
  revert s. induction l1 as [| x l1 IH]; intros s; cbn; [reflexivity |].
  destruct (body s x); cbn; [apply IH | reflexivity].
Qed.

Lemma rfold_map {A B S} (body : S -> B -> result S) (h : A -> B) l s :
  rfold body (map h l) s = rfold (fun s x => body s (h x)) l s.
Proof.
  revert s. induction l as [| x l IH]; intros s; cbn; [reflexivity |].
  destruct (body s (h x)); cbn; [apply IH | reflexivity].
Qed.

Lemma is_ok_true {A} (r : result A) : is_ok r = true -> exists a, r = Ok a.
Proof. destruct r; [eauto | discriminate]. Qed.

Lemma numMatSets_of_lookup w g gas :
  gass w !! g = Some gas -> numMatSets_of w g = GAS_getNumMaterialSets gas.
Proof. intros E. unfold numMatSets_of. rewrite E. reflexivity. Qed.

Lemma elem_of_layout_pairs w sc g m :
  (g, m) ∈ layout_pairs w sc <->
  g ∈ Scene.geomASs sc /\ m ∈ indices (numMatSets_of w g).
Proof.
  unfold layout_pairs. rewrite list_elem_of_In, in_flat_map. split.
  - intros (g' & Hg & Hin). apply in_map_iff in Hin as (m' & [= -> ->] & Hm).
    split; apply list_elem_of_In; assumption.
  - intros [Hg Hm]. exists g. split; [apply list_elem_of_In, Hg |].
    apply in_map_iff. exists m. split; [reflexivity | apply list_elem_of_In, Hm].
Qed.

Lemma layout_pairs_NoDup w sc : NoDup (Scene.geomASs sc) -> NoDup (layout_pairs w sc).
Proof.
  unfold layout_pairs. induction 1 as [| g l Hg Hl IH]; cbn; [constructor |].
  apply NoDup_app. split; [| split].
  - apply NoDup_fmap_2; [intros a b [= ->]; reflexivity | apply NoDup_seqZ].
  - intros p Hp Hq. apply list_elem_of_In, in_map_iff in Hp as (m & <- & _).
    apply list_elem_of_In, in_flat_map in Hq as (g' & Hg' & Hin).
    apply in_map_iff in Hin as (m' & [= -> _] & _).
    apply Hg, list_elem_of_In, Hg'.
  - exact IH.
Qed.

Section LayoutSpecProofs.
Context `{OptixSDK}.

(** *** The stride *)

Lemma calcMax_loop_spec w g ms : forall acc sa,
  rfold (fun maxRecordSizeAlign matSetIdx =>
           let? sa := GAS_calcMaxRecordSizeAlign w g matSetIdx in
           Ok (SizeAlign.max maxRecordSizeAlign sa)) ms acc = Ok sa ->
  (forall m, m ∈ ms -> is_ok (GAS_calcMaxRecordSizeAlign w g m) = true) /\
  sa = SizeAlign.mk
         (foldr Z.max (SizeAlign.size acc)
                (map SizeAlign.size (map (fun m => record_sizeAlign w (g, m)) ms)))
         (foldr Z.max (SizeAlign.alignment acc)
                (map SizeAlign.alignment (map (fun m => record_sizeAlign w (g, m)) ms))).
Proof.
  induction ms as [| m ms IH]; intros acc sa.
  - cbn. intros [= <-]. split; [intros m Hm; inversion Hm | destruct acc; reflexivity].
  - cbn [rfold]. destruct (GAS_calcMaxRecordSizeAlign w g m) as [x | e] eqn:Ex;
      cbn [rbind]; [| discriminate].
    intros Hrest. apply IH in Hrest as [Hok ->]. split.
    + intros m' Hm'. apply elem_of_cons in Hm' as [-> | Hm'];
        [rewrite Ex; reflexivity | apply Hok, Hm'].
    + assert (Er : record_sizeAlign w (g, m) = x).
      { unfold record_sizeAlign. cbn [fst snd]. rewrite Ex. reflexivity. }
      cbn [map foldr SizeAlign.max SizeAlign.size SizeAlign.alignment].
      rewrite Er, !foldr_max_init. reflexivity.
Qed.

Lemma calcMax_loop_total w g ms : forall acc,
  (forall m, m ∈ ms -> is_ok (GAS_calcMaxRecordSizeAlign w g m) = true) ->
  exists sa,
    rfold (fun maxRecordSizeAlign matSetIdx =>
             let? sa := GAS_calcMaxRecordSizeAlign w g matSetIdx in
             Ok (SizeAlign.max maxRecordSizeAlign sa)) ms acc = Ok sa.
Proof.
  induction ms as [| m ms IH]; intros acc Hok; cbn [rfold]; [eauto |].
  destruct (is_ok_true _ (Hok m ltac:(left))) as [x ->]. cbn [rbind].
  apply IH. intros m' Hm'. apply Hok. right. exact Hm'.
Qed.

Lemma gas_stride_pure_spec w g x :
  gas_stride_pure w g = Ok x ->
  is_Some (gass w !! g) /\
  (forall m, m ∈ indices (numMatSets_of w g) ->
     is_ok (GAS_calcMaxRecordSizeAlign w g m) = true) /\
  x = gas_record_size w g.
Proof.
  unfold gas_stride_pure. intros Hx.
  apply rbind_ok_inv in Hx as (gas & Hgas & Hx). apply deref_ok_inv in Hgas.
  apply rbind_ok_inv in Hx as (sa & Hsa & [= <-]).
  apply calcMax_loop_spec in Hsa as [Hok ->].
  rewrite (numMatSets_of_lookup _ _ _ Hgas). unfold gas_record_size.
  rewrite (numMatSets_of_lookup _ _ _ Hgas). split; [eauto | split; [exact Hok |]].
  reflexivity.
Qed.

Lemma gas_stride_pure_total w g :
  is_Some (gass w !! g) ->
  (forall m, m ∈ indices (numMatSets_of w g) ->
     is_ok (GAS_calcMaxRecordSizeAlign w g m) = true) ->
  exists x, gas_stride_pure w g = Ok x.
Proof.
  intros [gas Hgas] Hok. unfold gas_stride_pure.
  rewrite (deref_lookup _ _ _ _ Hgas). cbn [rbind].
  rewrite (numMatSets_of_lookup _ _ _ Hgas) in Hok.
  destruct (calcMax_loop_total w g _ SizeAlign.default Hok) as [sa ->]. cbn. eauto.
Qed.

Lemma stride_pure_spec w l : forall r0 r,
  stride_pure w l r0 = Ok r ->
  (forall g, g ∈ l ->
     is_Some (gass w !! g) /\
     forall m, m ∈ indices (numMatSets_of w g) ->
       is_ok (GAS_calcMaxRecordSizeAlign w g m) = true) /\
  r = foldr Z.max r0 (map (gas_record_size w) l).
Proof.
  unfold stride_pure. induction l as [| g l IH]; intros r0 r.
  - cbn. intros [= <-]. split; [intros g Hg; inversion Hg | reflexivity].
  - cbn [rfold]. destruct (gas_stride_pure w g) as [x | e] eqn:Ex; cbn [rbind];
      [| discriminate].
    intros Hrest. apply IH in Hrest as [Hok ->].
    apply gas_stride_pure_spec in Ex as (Hg & Hm & ->). split.
    + intros g' Hg'. apply elem_of_cons in Hg' as [-> | Hg']; [split; assumption |].
      apply Hok, Hg'.
    + cbn [map foldr]. apply foldr_max_init.
Qed.

Lemma stride_pure_total w l : forall r0,
  (forall g, g ∈ l ->
     is_Some (gass w !! g) /\
     forall m, m ∈ indices (numMatSets_of w g) ->
       is_ok (GAS_calcMaxRecordSizeAlign w g m) = true) ->
  exists r, stride_pure w l r0 = Ok r.
Proof.
  unfold stride_pure. induction l as [| g l IH]; intros r0 Hok; cbn [rfold]; [eauto |].
  destruct (Hok g ltac:(left)) as [Hg Hm].
  destruct (gas_stride_pure_total w g Hg Hm) as [x ->]. cbn [rbind].
  apply IH. intros g' Hg'. apply Hok. right. exact Hg'.
Qed.

(** *** The offsets *)

Lemma offsets_pure_flat w l : forall st,
  (forall g, g ∈ l -> is_Some (gass w !! g)) ->
  offsets_pure w l st
  = rfold (offsets_step w)
          (flat_map (fun g => map (fun m => (g, m)) (indices (numMatSets_of w g))) l) st.
Proof.
  unfold offsets_pure. induction l as [| g l IH]; intros st Hg; [reflexivity |].
  cbn [rfold flat_map]. rewrite rfold_app.
  destruct (Hg g ltac:(left)) as [gas Hgas].
  unfold offsets_gas_pure at 1. rewrite (deref_lookup _ _ _ _ Hgas). cbn [rbind].
  rewrite rfold_map, (numMatSets_of_lookup _ _ _ Hgas).
  destruct (rfold _ (indices _) st) as [st1 | e]; cbn [rbind]; [| reflexivity].
  apply IH. intros g' Hg'. apply Hg. right. exact Hg'.
Qed.

Lemma offsets_pure_gas w l : forall st st',
  offsets_pure w l st = Ok st' -> forall g, g ∈ l -> is_Some (gass w !! g).
Proof.
  unfold offsets_pure. induction l as [| g l IH]; intros st st' Hrun g' Hg';
    [inversion Hg' |].
  cbn [rfold] in Hrun. apply rbind_ok_inv in Hrun as (st1 & H1 & Hrest).
  apply elem_of_cons in Hg' as [-> | Hg']; [| eapply IH; eauto].
  unfold offsets_gas_pure in H1. apply rbind_ok_inv in H1 as (gas & Hgas & _).
  apply deref_ok_inv in Hgas. eauto.
Qed.

Lemma record_count_ok w p n :
  GAS_calcNumSBTRecords w (fst p) (snd p) = Ok n -> record_count w p = n.
Proof. intros E. unfold record_count. rewrite E. reflexivity. Qed.

(** The second loop over the flat sequence of pairs: the cursor ends at
    the sum of the counts, every pair is mapped to the sum of the counts
    before it (the last binding wins), and no other key is touched. *)
Lemma offsets_flat_spec w ps : forall off0 map0 off' map',
  0 <= off0 < u32_modulus ->
  rfold (offsets_step w) ps (off0, map0) = Ok (off', map') ->
  (forall p, p ∈ ps -> is_ok (GAS_calcNumSBTRecords w (fst p) (snd p)) = true) /\
  off' = u32 (off0 + records_of w ps) /\
  (forall before p after, ps = before ++ p :: after -> p ∉ after ->
     map' !! p = Some (u32 (off0 + records_of w before))) /\
  (forall p, p ∉ ps -> map' !! p = map0 !! p).
Proof.
  induction ps as [| p0 ps IH]; intros off0 map0 off' map' Hoff.
  - cbn. intros [= <- <-]. unfold records_of. cbn.
    rewrite Z.add_0_r, u32_small by exact Hoff.
    repeat split; try reflexivity.
    + intros p Hp; inversion Hp.
    + intros [| ? ?] ? ? [=].
  - cbn [rfold]. unfold offsets_step at 1. cbn [fst snd].
    destruct (GAS_calcNumSBTRecords w p0.1 p0.2) as [n | e] eqn:En; cbn [rbind];
      [| discriminate].
    intros Hrest. apply IH in Hrest as (Hok & -> & Hsplit & Hother);
      [| apply u32_range].
    pose proof (record_count_ok w p0 n En) as Hn.
    assert (Hsum : forall l, u32 (u32_add off0 n + records_of w l)
                             = u32 (off0 + records_of w (p0 :: l))).
    { intros l. unfold u32_add, records_of. cbn [map sumZ foldr].
      rewrite u32_add_mod_l, Hn. f_equal. unfold sumZ. lia. }
    split; [| split; [| split]].
    + intros p Hp. apply elem_of_cons in Hp as [-> | Hp];
        [rewrite En; reflexivity | apply Hok, Hp].
    + apply Hsum.
    + intros [| b before] p after Heq Hnot.
      * cbn in Heq. injection Heq as <- <-.
        rewrite Hother by exact Hnot. rewrite lookup_insert_eq.
        unfold records_of. cbn. rewrite Z.add_0_r, u32_small by exact Hoff.
        reflexivity.
      * cbn in Heq. injection Heq as <- ->.
        rewrite (Hsplit before p after eq_refl Hnot). f_equal. apply Hsum.
    + intros p Hp. apply not_elem_of_cons in Hp as [Hne Hp].
      rewrite Hother by exact Hp. apply lookup_insert_ne. congruence.
Qed.

Lemma offsets_flat_total w ps : forall st,
  (forall p, p ∈ ps -> is_ok (GAS_calcNumSBTRecords w (fst p) (snd p)) = true) ->
  exists st', rfold (offsets_step w) ps st = Ok st'.
Proof.
  induction ps as [| p0 ps IH]; intros st Hok; cbn [rfold]; [eauto |].
  unfold offsets_step at 1.
  destruct (is_ok_true _ (Hok p0 ltac:(left))) as [n ->]. cbn [rbind].
  apply IH. intros p Hp. apply Hok. right. exact Hp.
Qed.

End LayoutSpecProofs.


(* ===================================================================== *)
(** * The layout pass: C1 and C7 *)
(* ===================================================================== *)

Section LayoutTheorems.
Context `{OptixSDK}.

Lemma layout_inputs_okb_true w sc :
  layout_inputs_okb w sc = true -> layout_inputs_ok w sc.
Proof.
  unfold layout_inputs_okb, layout_inputs_ok.
  rewrite andb_true_iff, !forallb_forall. intros [Hg Hp]. split.
  - intros g Hin. apply list_elem_of_In in Hin. apply Hg in Hin.
    apply bool_decide_eq_true in Hin. exact Hin.
  - intros p Hin. apply list_elem_of_In in Hin. apply Hp in Hin.
    apply andb_true_iff in Hin. exact Hin.
Qed.

Lemma layout_inputs_ok_stride w sc :
  layout_inputs_ok w sc ->
  forall g, g ∈ Scene.geomASs sc ->
    is_Some (gass w !! g) /\
    forall m, m ∈ indices (numMatSets_of w g) ->
      is_ok (GAS_calcMaxRecordSizeAlign w g m) = true.
Proof.
  intros [Hg Hp] g Hin. split; [apply Hg, Hin |].
  intros m Hm. apply (Hp (g, m)), elem_of_layout_pairs. split; assumption.
Qed.

(** ** C1 *)

(** C1.  On a scene whose cached layout is dirty, and whose size and count
    computations all return, [generateShaderBindingTableLayout] returns and
    leaves (a) a single record stride that is the maximum, over the GAS of
    the scene, of the maximum per-record [SizeAlign] of the GAS over its
    material sets aligned up to its own alignment, and not less than the
    record header size; (b) for every (GAS, material set) pair, in the
    order of the nested loops, the offset that is the sum of
    [calcNumSBTRecords] over the pairs before it; (c) a record count that is
    the sum over all pairs; and it returns stride * max(count, 1).  Sums and
    products are those of [uint32_t]. *)
Theorem generateShaderBindingTableLayout_dirty_computes_layout
    (s : nat) (w : World) (sc : Scene.t) :
  scenes w !! s = Some sc ->
  Scene.sbtLayoutIsUpToDate sc = false ->
  NoDup (Scene.geomASs sc) ->
  layout_inputs_ok w sc ->
  exists sc' memorySize,
    Scene_generateShaderBindingTableLayout s w = (put_scene s sc' w, Ok memorySize) /\
    (Scene.singleRecordSize sc' = layout_stride w sc /\
     u32 OPTIX_SBT_RECORD_HEADER_SIZE <= Scene.singleRecordSize sc' /\
     (forall g, g ∈ Scene.geomASs sc -> gas_record_size w g <= Scene.singleRecordSize sc') /\
     (Scene.singleRecordSize sc' = u32 OPTIX_SBT_RECORD_HEADER_SIZE \/
      exists g, g ∈ Scene.geomASs sc /\ Scene.singleRecordSize sc' = gas_record_size w g)) /\
    ((forall before g m after,
        layout_pairs w sc = before ++ (g, m) :: after ->
        Scene.sbtOffsets sc' !! (g, m) = Some (u32 (records_of w before))) /\
     (forall p, p ∉ layout_pairs w sc -> Scene.sbtOffsets sc' !! p = None)) /\
    Scene.numSBTRecords sc' = u32 (records_of w (layout_pairs w sc)) /\
    Scene.sbtLayoutIsUpToDate sc' = true /\
    memorySize = u32 (Scene.singleRecordSize sc' * Z.max (Scene.numSBTRecords sc') 1).
Proof.
  intros Hsc Hdirty Hnodup Hok.
  pose proof (generate_dirty s w sc Hsc Hdirty) as Hgen. unfold generate_outcome in Hgen.
  destruct (stride_pure_total w (Scene.geomASs sc) (u32 OPTIX_SBT_RECORD_HEADER_SIZE)
              (layout_inputs_ok_stride w sc Hok)) as [r Hr].
  rewrite Hr in Hgen. apply stride_pure_spec in Hr as [_ Hr].
  assert (Hflat := offsets_pure_flat w (Scene.geomASs sc) (0, ∅) (proj1 Hok)).
  fold (layout_pairs w sc) in Hflat.
  destruct (offsets_flat_total w (layout_pairs w sc) (0, ∅)
              (fun p Hp => proj2 (proj2 Hok p Hp))) as [[off' map'] Hst].
  rewrite Hflat, Hst in Hgen.
  apply offsets_flat_spec in Hst as (_ & Hoff & Hsplit & Hother);
    [| unfold u32_modulus; lia].
  exists (laid_out sc r (off', map')), (Scene_memorySize (laid_out sc r (off', map'))).
  split; [exact Hgen |]. cbn [laid_out Scene.singleRecordSize Scene.sbtOffsets
                            Scene.numSBTRecords Scene.sbtLayoutIsUpToDate fst snd].
  split; [| split; [| split; [| split]]].
  - unfold layout_stride. rewrite <- Hr. split; [reflexivity |].
    split; [rewrite Hr; apply foldr_max_ge_init |].
    split.
    + intros g Hg. rewrite Hr. apply foldr_max_ge_elem.
      apply list_elem_of_fmap. exists g. split; [reflexivity | exact Hg].
    + rewrite Hr.
      destruct (foldr_max_attained (u32 OPTIX_SBT_RECORD_HEADER_SIZE)
                  (map (gas_record_size w) (Scene.geomASs sc))) as [-> | Hin];
        [left; reflexivity | right].
      apply list_elem_of_fmap in Hin as (g & Hg & Hin). exists g. split; assumption.
  - split.
    + intros before g m after Hpairs.
      rewrite (Hsplit before (g, m) after Hpairs); [rewrite Z.add_0_l; reflexivity |].
      pose proof (layout_pairs_NoDup w sc Hnodup) as Hnd. rewrite Hpairs in Hnd.
      apply NoDup_app in Hnd as (_ & _ & Hnd). apply NoDup_cons in Hnd as [Hnd _].
      exact Hnd.
    + intros p Hp. rewrite (Hother p Hp). apply lookup_empty.
  - rewrite Hoff, Z.add_0_l. reflexivity.
  - reflexivity.
  - reflexivity.
Qed.

(** A layout pass that returns leaves the layout flagged up to date and
    the memory size it returned in the cache. *)
Lemma generate_leaves_clean (s : nat) (w w1 : World) (memorySize : Z) :
  Scene_generateShaderBindingTableLayout s w = (w1, Ok memorySize) ->
  exists sc1, scenes w1 !! s = Some sc1 /\
              Scene.sbtLayoutIsUpToDate sc1 = true /\
              memorySize = Scene_memorySize sc1.
Proof.
  intros Hrun.
  destruct (scenes w !! s) as [sc |] eqn:Hsc.
  2:{ unfold Scene_generateShaderBindingTableLayout in Hrun.
      rewrite run_getScene in Hrun. unfold deref in Hrun. rewrite Hsc in Hrun.
      discriminate. }
  destruct (Scene.sbtLayoutIsUpToDate sc) eqn:Hflag.
  - rewrite (generate_clean s w sc Hsc Hflag) in Hrun. injection Hrun as <- <-.
    eauto.
  - pose proof (generate_dirty s w sc Hsc Hflag) as Hgen. unfold generate_outcome in Hgen.
    destruct (stride_pure w _ _) as [r | e].
    2:{ destruct Hgen as [sc' Hgen]. congruence. }
    destruct (offsets_pure w _ _) as [st | e].
    2:{ destruct Hgen as [sc' Hgen]. congruence. }
    rewrite Hgen in Hrun. injection Hrun as <- <-.
    exists (laid_out sc r st). split; [apply put_scene_lookup |].
    split; reflexivity.
Qed.

End LayoutTheorems.


(* ===================================================================== *)
(** * The fill pass *)
(* ===================================================================== *)

Lemma wbind_ok_inv {A B} (m : W A) (k : A -> W B) log b :
  wbind m k = (log, Ok b) ->
  exists l1 a l2, m = (l1, Ok a) /\ k a = (l2, Ok b) /\ log = l1 ++ l2.
Proof.
  unfold wbind. destruct m as [l1 [a | e]]; [| discriminate].
  destruct (k a) as [l2 r] eqn:Ek. intros [= <- ->]. eauto 6.
Qed.

Lemma wbind_wlift_ok {A B} (a : A) (k : A -> W B) : wbind (wlift (Ok a)) k = k a.
Proof. unfold wbind, wlift. destruct (k a); reflexivity. Qed.

Lemma wbind_wret {A B} (a : A) (k : A -> W B) : wbind (wret a) k = k a.
Proof. unfold wbind, wret. destruct (k a); reflexivity. Qed.

Lemma wbind_ext {A B} (m : W A) (k k' : A -> W B) :
  (forall a, k a = k' a) -> wbind m k = wbind m k'.
Proof. intros E. unfold wbind. destruct m as [l [a | e]]; [rewrite E |]; reflexivity. Qed.

Lemma wbind_assoc {A B C} (m : W A) (k : A -> W B) (k2 : B -> W C) :
  wbind (wbind m k) k2 = wbind m (fun a => wbind (k a) k2).
Proof.
  unfold wbind. destruct m as [l1 [a | e]]; [| reflexivity].
  destruct (k a) as [l2 [b | e]]; [| reflexivity].
  destruct (k2 b) as [l3 r]. rewrite app_assoc. reflexivity.
Qed.

Lemma wfold_cons {A S} (body : S -> A -> W S) x l s :
  wfold body (x :: l) s = wbind (body s x) (fun s1 => wfold body l s1).
Proof. reflexivity. Qed.

Lemma wfold_app {A S} (body : S -> A -> W S) l1 l2 : forall s,
  wfold body (l1 ++ l2) s = wbind (wfold body l1 s) (wfold body l2).
Proof.
  induction l1 as [| x l1 IH]; intros s.
  - cbn [app]. change (wfold body [] s) with (wret (A := S) s).
    rewrite wbind_wret. reflexivity.
  - cbn [app]. rewrite !wfold_cons, wbind_assoc. apply wbind_ext. intros a. apply IH.
Qed.

Lemma wfold_map {A B S} (body : S -> B -> W S) (h : A -> B) l : forall s,
  wfold body (map h l) s = wfold (fun s x => body s (h x)) l s.
Proof.
  induction l as [| x l IH]; intros s; [reflexivity |].
  cbn [map]. rewrite !wfold_cons. apply wbind_ext. intros a. apply IH.
Qed.

Lemma fill_calls_app l1 l2 : fill_calls (l1 ++ l2) = fill_calls l1 ++ fill_calls l2.
Proof. unfold fill_calls. apply omap_app. Qed.

Lemma quiet_wret {A} (a : A) : quiet (wret a).
Proof. reflexivity. Qed.

Lemma quiet_wlift {A} (r : result A) : quiet (wlift r).
Proof. reflexivity. Qed.

Lemma quiet_wbind {A B} (m : W A) (k : A -> W B) :
  quiet m -> (forall a, quiet (k a)) -> quiet (wbind m k).
Proof.
  unfold quiet, wbind. destruct m as [l1 [a | e]]; cbn [fst]; intros Hm Hk; [| exact Hm].
  specialize (Hk a). destruct (k a) as [l2 r]. cbn [fst] in *.
  rewrite fill_calls_app, Hm, Hk. reflexivity.
Qed.

Lemma quiet_wfold {A S} (body : S -> A -> W S) l :
  (forall s x, quiet (body s x)) -> forall s, quiet (wfold body l s).
Proof.
  intros Hb. induction l as [| x l IH]; intros s; [reflexivity |].
  rewrite wfold_cons. apply quiet_wbind; [apply Hb | exact IH].
Qed.

Lemma quiet_emit_packHeader pg r : quiet (emit (EvPackHeader pg r)).
Proof. reflexivity. Qed.

Lemma quiet_memcpy_from d v n : quiet (memcpy_from d v n).
Proof. unfold memcpy_from. destruct (n <=? _); reflexivity. Qed.

Section FillProofs.
Context `{OptixSDK}.
Variable be : FillBackend.

Lemma quiet_setRecordData w m pipeline rayType record :
  quiet (Material_setRecordData be w m pipeline rayType record).
Proof.
  unfold Material_setRecordData. apply quiet_wbind; [apply quiet_wlift |].
  intros self. destruct (Material.programs self !! _); [| apply quiet_wlift].
  apply quiet_wbind.
  - unfold ProgramGroup_packHeader. apply quiet_wbind;
      [apply quiet_emit_packHeader | intros; apply quiet_wlift].
  - intros _. destruct (SizeAlign.add _ _). apply quiet_wbind;
      [apply quiet_memcpy_from | intros; apply quiet_wret].
Qed.

Lemma quiet_GeometryInstance_fill w gi pipeline m ud udsa nrt records :
  quiet (GeometryInstance_fillSBTRecords be w gi pipeline m ud udsa nrt records).
Proof.
  unfold GeometryInstance_fillSBTRecords. apply quiet_wbind; [apply quiet_wlift |].
  intros self. apply quiet_wbind; [| intros; apply quiet_wret].
  apply quiet_wfold. intros rec matIdx.
  apply quiet_wbind; [apply quiet_wlift |]. intros slot.
  apply quiet_wbind; [apply quiet_wlift |]. intros mat.
  apply quiet_wfold. intros rec' rIdx.
  apply quiet_wbind; [apply quiet_setRecordData |]. intros cur.
  destruct (SizeAlign.add _ _) as [cur1 off1].
  apply quiet_wbind; [apply quiet_memcpy_from |]. intros _.
  destruct (SizeAlign.add _ _) as [cur2 off2].
  apply quiet_wbind; [apply quiet_memcpy_from |]. intros _.
  apply quiet_wbind; [apply quiet_wlift | intros; apply quiet_wret].
Qed.

Lemma quiet_GAS_fill w g pipeline m records :
  quiet (GAS_fillSBTRecords be w g pipeline m records).
Proof.
  unfold GAS_fillSBTRecords. apply quiet_wbind; [apply quiet_wlift |].
  intros self. apply quiet_wbind; [apply quiet_wlift |]. intros _.
  apply quiet_wbind; [apply quiet_wlift |]. intros nrt.
  apply quiet_wbind; [| intros; apply quiet_wret].
  apply quiet_wfold. intros [rec sum] child.
  apply quiet_wbind; [apply quiet_GeometryInstance_fill |]. intros n.
  apply quiet_wbind; [apply quiet_wlift | intros; apply quiet_wret].
Qed.

(** What [fillSBTRecords] of a geometry instance returns. *)
Lemma GeometryInstance_fill_count w gi pipeline m ud udsa nrt records log n :
  GeometryInstance_fillSBTRecords be w gi pipeline m ud udsa nrt records = (log, Ok n) ->
  exists self, geomInsts w !! gi = Some self /\
               n = u32_mul (size32 (GeometryInstance.materials self)) nrt.
Proof.
  unfold GeometryInstance_fillSBTRecords. intros Hrun.
  apply wbind_ok_inv in Hrun as (l1 & self & l2 & Hself & Hrun & _).
  injection Hself as _ Hself. apply deref_ok_inv in Hself.
  apply wbind_ok_inv in Hrun as (l3 & x & l4 & _ & Hret & _).
  injection Hret as _ <-. eauto.
Qed.

(** The loops of [fillSBTRecords] and of [calcNumSBTRecords] of a GAS run
    over the same children: the counts they accumulate stay related. *)
Lemma GAS_fill_loop_count w pipeline m ud udsa nrt sc_of children :
  (forall child gi, child ∈ children ->
     geomInsts w !! GAS.geomInst child = Some gi -> GeometryInstance_wf gi) ->
  forall rec b log rec' b' a a',
  wfold (fun '(records, sumRecords) child =>
           wbind (GeometryInstance_fillSBTRecords be w (GAS.geomInst child) pipeline m
                    ud udsa nrt records) (fun numRecords =>
           wbind (wlift (Scene_getSingleRecordSize w sc_of)) (fun stride =>
           wret (records + u32_mul numRecords stride, u32_add sumRecords numRecords))))
        children (rec, b) = (log, Ok (rec', b')) ->
  rfold (fun numSBTRecords child =>
           let? gi := deref (geomInsts w) (GAS.geomInst child) "geometry instance" in
           Ok (u32_add numSBTRecords (GeometryInstance_getNumSBTRecords gi)))
        children a = Ok a' ->
  b = u32 (a * nrt) -> b' = u32 (a' * nrt).
Proof.
  induction children as [| child children IH]; intros Hwf rec b log rec' b' a a'.
  - cbn. intros [= _ _ <-] [= <-]. auto.
  - rewrite wfold_cons. cbn [rfold]. intros Hfill Hcalc Hb.
    apply wbind_ok_inv in Hfill as (l1 & [rec1 b1] & l2 & Hstep & Hrest & _).
    apply wbind_ok_inv in Hstep as (l3 & n & l4 & Hgi & Hstep & _).
    apply wbind_ok_inv in Hstep as (l5 & stride & l6 & _ & Hret & _).
    injection Hret as _ <- <-.
    apply GeometryInstance_fill_count in Hgi as (self & Hself & ->).
    rewrite (deref_lookup _ _ _ _ Hself) in Hcalc. cbn [rbind] in Hcalc.
    eapply IH; [| exact Hrest | exact Hcalc |].
    + intros c gi Hc. apply Hwf. right. exact Hc.
    + pose proof (Hwf child self ltac:(left) Hself) as Hlen.
      unfold u32_add, u32_mul, GeometryInstance_getNumSBTRecords, size32.
      rewrite Hlen, Hb.
      set (sz := Z.of_nat (length (GeometryInstance.materials self))).
      rewrite u32_add_mod_l, u32_add_mod_r, u32_mul_mod_l.
      f_equal. ring.
Qed.

(** [fillSBTRecords] of a GAS returns what [calcNumSBTRecords] counts. *)
Lemma GAS_fill_count w g gas pipeline m records log n c :
  gass w !! g = Some gas ->
  (forall child gi, child ∈ GAS.children gas ->
     geomInsts w !! GAS.geomInst child = Some gi -> GeometryInstance_wf gi) ->
  GAS_fillSBTRecords be w g pipeline m records = (log, Ok n) ->
  GAS_calcNumSBTRecords w g m = Ok c ->
  n = c.
Proof.
  intros Hgas Hwf Hfill Hcalc.
  unfold GAS_fillSBTRecords in Hfill. unfold GAS_calcNumSBTRecords in Hcalc.
  rewrite (deref_lookup _ _ _ _ Hgas) in Hfill, Hcalc.
  rewrite wbind_wlift_ok in Hfill. cbn [rbind] in Hcalc.
  apply wbind_ok_inv in Hfill as (l1 & [] & l2 & _ & Hfill & _).
  apply wbind_ok_inv in Hfill as (l3 & nrt & l4 & Hnrt & Hfill & _).
  injection Hnrt as _ Hnrt.
  apply wbind_ok_inv in Hfill as (l5 & [rec' b'] & l6 & Hloop & Hret & _).
  injection Hret as _ <-. cbn [snd].
  apply rbind_ok_inv in Hcalc as (a' & Hcount & Hcalc).
  rewrite Hnrt in Hcalc. cbn [rbind] in Hcalc. injection Hcalc as <-.
  unfold u32_mul.
  eapply (GAS_fill_loop_count w pipeline m _ _ nrt _ _ Hwf); [exact Hloop | exact Hcount |].
  cbn. reflexivity.
Qed.

(** The two nested loops of [setupHitGroupSBT] are one loop over the
    pairs. *)
Lemma setup_loop_flat w pipeline stride l : forall c,
  (forall g, g ∈ l -> is_Some (gass w !! g)) ->
  wfold (fun records g =>
           wbind (wlift (deref (gass w) g "geometry acceleration structure")) (fun gas =>
           wfold (fun records matSetIdx =>
                    wbind (emit (EvFillSBTRecords g matSetIdx records)) (fun _ =>
                    wbind (GAS_fillSBTRecords be w g pipeline matSetIdx records)
                          (fun numRecords =>
                    wret (records + u32_mul numRecords stride))))
                 (indices (GAS_getNumMaterialSets gas)) records))
        l c
  = wfold (fill_step be w pipeline stride)
          (flat_map (fun g => map (fun m => (g, m)) (indices (numMatSets_of w g))) l) c.
Proof.
  induction l as [| g l IH]; intros c Hg; [reflexivity |].
  cbn [flat_map]. rewrite wfold_cons, wfold_app.
  destruct (Hg g ltac:(left)) as [gas Hgas].
  rewrite (deref_lookup _ _ _ _ Hgas), wbind_wlift_ok.
  rewrite wfold_map, (numMatSets_of_lookup _ _ _ Hgas).
  apply wbind_ext. intros c1. apply IH. intros g' Hg'. apply Hg. right. exact Hg'.
Qed.

Lemma fill_step_run w pipeline stride c p :
  fill_step be w pipeline stride c p
  = match GAS_fillSBTRecords be w (fst p) pipeline (snd p) c with
    | (lg, Ok n) => (EvFillSBTRecords (fst p) (snd p) c :: lg, Ok (c + u32_mul n stride))
    | (lg, Err e) => (EvFillSBTRecords (fst p) (snd p) c :: lg, Err e)
    end.
Proof.
  unfold fill_step, wbind, emit, wret.
  destruct (GAS_fillSBTRecords _ _ _ _ _ _) as [lg [n | e]]; cbn;
    rewrite ?app_nil_r; reflexivity.
Qed.

(** The calls of the flat loop are the expected ones, up to the point
    where a call throws. *)
Lemma fill_loop_calls w pipeline stride ps : forall c,
  (forall p, p ∈ ps ->
     exists gas, gass w !! fst p = Some gas /\
       is_ok (GAS_calcNumSBTRecords w (fst p) (snd p)) = true /\
       forall child gi, child ∈ GAS.children gas ->
         geomInsts w !! GAS.geomInst child = Some gi -> GeometryInstance_wf gi) ->
  fill_calls (fst (wfold (fill_step be w pipeline stride) ps c))
    `prefix_of` expected_calls w stride c ps /\
  (is_ok (snd (wfold (fill_step be w pipeline stride) ps c)) = true ->
   fill_calls (fst (wfold (fill_step be w pipeline stride) ps c))
   = expected_calls w stride c ps).
Proof.
  induction ps as [| p ps IH]; intros c Hps.
  - cbn. split; [apply prefix_nil | reflexivity].
  - rewrite wfold_cons, fill_step_run. cbn [expected_calls].
    destruct (Hps p ltac:(left)) as (gas & Hgas & Hcalc & Hwf).
    apply is_ok_true in Hcalc as [cnt Hcalc].
    pose proof (quiet_GAS_fill w (fst p) pipeline (snd p) c) as Hquiet.
    unfold quiet in Hquiet.
    destruct (GAS_fillSBTRecords be w (fst p) pipeline (snd p) c) as [lg [n | e]] eqn:Hfill;
      cbn [fst] in Hquiet.
    + assert (n = cnt) as -> by (eapply GAS_fill_count; eauto).
      rewrite (record_count_ok w p cnt Hcalc).
      specialize (IH (c + u32_mul cnt stride)
                     (fun q Hq => Hps q (list_elem_of_further _ _ _ Hq))).
      unfold wbind. destruct (wfold _ ps _) as [lrest r]. cbn [fst snd] in *.
      change (fill_calls ((EvFillSBTRecords p.1 p.2 c :: lg) ++ lrest))
        with ((p.1, p.2, c) :: fill_calls (lg ++ lrest)).
      rewrite fill_calls_app, Hquiet. cbn [app].
      destruct IH as [IHp IHe]. split.
      * apply prefix_cons, IHp.
      * intros Hr. rewrite (IHe Hr). reflexivity.
    + unfold wbind. cbn [fst snd].
      change (fill_calls (EvFillSBTRecords p.1 p.2 c :: lg))
        with ((p.1, p.2, c) :: fill_calls lg).
      rewrite Hquiet. split; [| discriminate].
      apply prefix_cons, prefix_nil.
Qed.

(** Where an expected call sits: after the blocks of the pairs before
    it. *)
Lemma expected_calls_position w stride ps : forall c g m records,
  (g, m, records) ∈ expected_calls w stride c ps ->
  exists before after,
    ps = before ++ (g, m) :: after /\
    records = c + sumZ (map (fun p => u32_mul (record_count w p) stride) before).
Proof.
  induction ps as [| p ps IH]; intros c g m records Hin; [inversion Hin |].
  cbn [expected_calls] in Hin. apply elem_of_cons in Hin as [Heq | Hin].
  - injection Heq as -> -> ->. exists [], ps. split; [destruct p; reflexivity |].
    cbn. lia.
  - apply IH in Hin as (before & after & -> & ->).
    exists (p :: before), after. split; [reflexivity |]. cbn [map sumZ foldr].
    unfold sumZ. lia.
Qed.

Lemma expected_calls_pairs w stride ps : forall c,
  map (fun call => (fst (fst call), snd (fst call))) (expected_calls w stride c ps) = ps.
Proof.
  induction ps as [| [g m] ps IH]; intros c; [reflexivity |].
  cbn [expected_calls map fst snd]. rewrite IH. reflexivity.
Qed.

End FillProofs.

Lemma record_count_range `{OptixSDK} w p : 0 <= record_count w p < u32_modulus.
Proof.
  unfold record_count, GAS_calcNumSBTRecords.
  destruct (deref (gass w) p.1 _); cbn; [| unfold u32_modulus; lia].
  destruct (rfold _ _ _); cbn; [| unfold u32_modulus; lia].
  destruct (vec_at _ _ _); cbn; [apply u32_range | unfold u32_modulus; lia].
Qed.

Lemma records_of_nonneg `{OptixSDK} w ps : 0 <= records_of w ps.
Proof.
  unfold records_of, sumZ. induction ps as [| p ps IH]; cbn; [lia |].
  pose proof (record_count_range w p). lia.
Qed.

Lemma records_of_app `{OptixSDK} w l1 l2 :
  records_of w (l1 ++ l2) = records_of w l1 + records_of w l2.
Proof.
  unfold records_of, sumZ. induction l1 as [| p l1 IH]; cbn; [reflexivity |].
  rewrite map_app in *. cbn in *. lia.
Qed.

(** The byte position after the blocks of [before], in [uint32_t]. *)
Lemma block_position_mod `{OptixSDK} w stride before :
  u32 (sumZ (map (fun p => u32_mul (record_count w p) stride) before))
  = u32 (u32 (records_of w before) * stride).
Proof.
  rewrite u32_mul_mod_l. unfold records_of, sumZ.
  induction before as [| p before IH]; cbn [map foldr]; [reflexivity |].
  unfold u32_mul at 1. rewrite u32_add_mod_l, <- u32_add_mod_r, IH, u32_add_mod_r.
  f_equal. ring.
Qed.

(** The same without reduction, when the blocks fit 32 bits. *)
Lemma block_position_exact `{OptixSDK} w stride before :
  0 <= stride ->
  records_of w before * stride < u32_modulus ->
  sumZ (map (fun p => u32_mul (record_count w p) stride) before)
  = u32 (records_of w before) * stride.
Proof.
  intros Hs Hfit.
  destruct (Z.eq_dec stride 0) as [-> | Hne].
  { rewrite Z.mul_0_r. unfold sumZ. induction before as [| p before IH]; cbn; [reflexivity |].
    unfold u32_mul at 1. rewrite Z.mul_0_r. cbn. apply IH. rewrite Z.mul_0_r.
    unfold u32_modulus. lia. }
  pose proof (records_of_nonneg w before) as Hnn.
  rewrite u32_small by nia.
  revert Hfit Hnn. unfold records_of, sumZ.
  induction before as [| p before IH]; cbn [map foldr]; intros Hfit Hnn; [lia |].
  pose proof (record_count_range w p) as Hp.
  pose proof (records_of_nonneg w before) as Hb. unfold records_of, sumZ in Hb.
  unfold u32_mul at 1. rewrite u32_small by nia.
  rewrite IH by nia. ring.
Qed.

(* ===================================================================== *)
(** * The log of the fill pass *)
(* ===================================================================== *)

Lemma sumZ_app l1 l2 : sumZ (l1 ++ l2) = sumZ l1 + sumZ l2.
Proof. unfold sumZ. induction l1 as [| x l1 IH]; cbn; [reflexivity | rewrite IH; lia]. Qed.

Lemma sumZ_const {A} (l : list A) (s : Z) :
  sumZ (map (fun _ => s) l) = Z.of_nat (length l) * s.
Proof. unfold sumZ. induction l as [| x l IH]; cbn [map foldr length]; [lia | rewrite IH; lia]. Qed.

Lemma laid_app {A} (ev : A -> Z -> list Event) adv c l1 l2 :
  laid ev adv c (l1 ++ l2)
  = laid ev adv c l1 ++ laid ev adv (c + sumZ (map adv l1)) l2.
Proof.
  revert c. induction l1 as [| x l1 IH]; intros c; cbn [app laid map].
  - unfold sumZ. cbn. rewrite Z.add_0_r. reflexivity.
  - rewrite IH, <- app_assoc. unfold sumZ. cbn [foldr].
    rewrite Z.add_assoc. reflexivity.
Qed.

Lemma laid_ext {A} (ev ev' : A -> Z -> list Event) adv adv' l :
  (forall x c, x ∈ l -> ev x c = ev' x c) -> (forall x, x ∈ l -> adv x = adv' x) ->
  forall c, laid ev adv c l = laid ev' adv' c l.
Proof.
  induction l as [| x l IH]; intros Hev Hadv c; [reflexivity |].
  cbn [laid]. rewrite (Hev x c), (Hadv x) by left.
  rewrite IH; [reflexivity | |]; intros; [apply Hev | apply Hadv]; right; assumption.
Qed.

Lemma laid_silent {A} (ev : A -> Z -> list Event) adv l :
  (forall x c, x ∈ l -> ev x c = []) -> forall c, laid ev adv c l = [].
Proof.
  induction l as [| x l IH]; intros Hev c; [reflexivity |].
  cbn [laid]. rewrite (Hev x c) by left. apply IH. intros; apply Hev; right; assumption.
Qed.

Lemma laid_map {A B} (g : A -> B) (ev : B -> Z -> list Event) adv l : forall c,
  laid ev adv c (map g l) = laid (fun x => ev (g x)) (fun x => adv (g x)) c l.
Proof. induction l as [| x l IH]; intros c; cbn [map laid]; [| rewrite IH]; reflexivity. Qed.

(** A loop over the parts of a list is a loop over the list. *)
Lemma laid_flat_map {A B} (f : A -> list B) (ev : B -> Z -> list Event) stride l : forall c,
  laid ev (fun _ => stride) c (flat_map f l)
  = laid (fun x c' => laid ev (fun _ => stride) c' (f x))
         (fun x => Z.of_nat (length (f x)) * stride) c l.
Proof.
  induction l as [| x l IH]; intros c; [reflexivity |].
  cbn [flat_map laid]. rewrite laid_app, sumZ_const, IH. reflexivity.
Qed.

(** The step [i] of a loop of constant advance is at [c + i * stride]. *)
Lemma laid_imap {A} (ev : A -> Z -> list Event) stride l : forall c,
  laid ev (fun _ => stride) c l
  = concat (imap (fun i x => ev x (c + Z.of_nat i * stride)) l).
Proof.
  induction l as [| x l IH]; intros c; [reflexivity |].
  cbn [laid imap concat]. rewrite Z.mul_0_l, Z.add_0_r. f_equal.
  rewrite IH. f_equal. apply imap_ext. intros i y _. cbn. f_equal. lia.
Qed.

(** The log of a loop whose steps move a position. *)
Lemma wfold_laid {A S} (pos : S -> Z) (body : S -> A -> W S)
    (ev : A -> Z -> list Event) (adv : A -> Z) (l : list A) :
  (forall s x log s', x ∈ l -> body s x = (log, Ok s') ->
     log = ev x (pos s) /\ pos s' = pos s + adv x) ->
  forall s log s', wfold body l s = (log, Ok s') ->
    log = laid ev adv (pos s) l /\ pos s' = pos s + sumZ (map adv l).
Proof.
  induction l as [| x l IH]; intros Hbody s log s' Hrun.
  - cbn in Hrun. injection Hrun as <- <-. cbn. unfold sumZ. cbn. split; [reflexivity | lia].
  - rewrite wfold_cons in Hrun.
    apply wbind_ok_inv in Hrun as (l1 & s1 & l2 & Hstep & Hrest & ->).
    apply Hbody in Hstep as [-> Hpos]; [| left].
    apply IH in Hrest as [-> Hpos'].
    2:{ intros s0 y lg s0' Hy. apply Hbody. right. exact Hy. }
    cbn [laid map]. rewrite Hpos. split; [reflexivity |].
    rewrite Hpos', Hpos. unfold sumZ. cbn [foldr]. lia.
Qed.

(** A counter a loop adds to, in [uint32_t]. *)
Lemma wfold_count {A S} (val : S -> Z) (body : S -> A -> W S) (inc : A -> Z) (l : list A) :
  (forall s x log s', x ∈ l -> body s x = (log, Ok s') ->
     val s' = u32_add (val s) (inc x)) ->
  forall s log s', wfold body l s = (log, Ok s') ->
    u32 (val s) = val s -> val s' = u32 (val s + sumZ (map inc l)).
Proof.
  induction l as [| x l IH]; intros Hbody s log s' Hrun Hs.
  - cbn in Hrun. injection Hrun as <- <-. unfold sumZ. cbn. rewrite Z.add_0_r, Hs.
    reflexivity.
  - rewrite wfold_cons in Hrun.
    apply wbind_ok_inv in Hrun as (l1 & s1 & l2 & Hstep & Hrest & ->).
    apply Hbody in Hstep; [| left].
    apply IH in Hrest.
    + rewrite Hrest, Hstep. unfold u32_add, sumZ. cbn [map foldr].
      rewrite u32_add_mod_l. f_equal. lia.
    + intros s0 y lg s0' Hy. apply Hbody. right. exact Hy.
    + rewrite Hstep. unfold u32_add. apply u32_idemp.
Qed.

Lemma wfold_ok_steps {A S} (body : S -> A -> W S) (l : list A) :
  forall s log s', wfold body l s = (log, Ok s') ->
    forall x, x ∈ l -> exists s0 lg s1, body s0 x = (lg, Ok s1).
Proof.
  induction l as [| y l IH]; intros s log s' Hrun x Hx; [inversion Hx |].
  rewrite wfold_cons in Hrun.
  apply wbind_ok_inv in Hrun as (l1 & s1 & l2 & Hstep & Hrest & ->).
  apply elem_of_cons in Hx as [-> | Hx]; [eauto | exact (IH _ _ _ Hrest x Hx)].
Qed.

(** A loop whose steps are at positions known beforehand. *)
Lemma laid_positions {A} (ev : A -> Z -> list Event) adv (pos : A -> Z) (l : list A) :
  forall c,
    (forall before x after, l = before ++ x :: after ->
       c + sumZ (map adv before) = pos x) ->
    laid ev adv c l = flat_map (fun x => ev x (pos x)) l.
Proof.
  induction l as [| x l IH]; intros c Hpos; [reflexivity |].
  cbn [laid flat_map]. rewrite <- (Hpos [] x l eq_refl). unfold sumZ at 1. cbn [map foldr].
  rewrite Z.add_0_r. f_equal. apply IH. intros before y after ->.
  rewrite <- (Hpos (x :: before) y after eq_refl). unfold sumZ. cbn [map foldr]. lia.
Qed.

Lemma sumZ_map_mul {A} (f : A -> Z) (k : Z) (l : list A) :
  sumZ (map (fun x => f x * k) l) = sumZ (map f l) * k.
Proof. unfold sumZ. induction l as [| x l IH]; cbn [map foldr]; [lia | rewrite IH; lia]. Qed.

Lemma sumZ_map_ext {A} (f g : A -> Z) (l : list A) :
  (forall x, x ∈ l -> f x = g x) -> sumZ (map f l) = sumZ (map g l).
Proof.
  unfold sumZ. induction l as [| x l IH]; intros Hfg; [reflexivity |].
  cbn [map foldr]. rewrite (Hfg x) by left. rewrite IH; [reflexivity |].
  intros; apply Hfg; right; assumption.
Qed.

Lemma length_flat_map_elem {A B} (f : A -> list B) l x :
  x ∈ l -> (length (f x) <= length (flat_map f l))%nat.
Proof.
  induction l as [| y l IH]; intros Hx; [inversion Hx |].
  cbn [flat_map]. rewrite length_app.
  apply elem_of_cons in Hx as [-> | Hx]; [lia | specialize (IH Hx); lia].
Qed.

Lemma length_indices n : length (indices n) = Z.to_nat n.
Proof. apply length_seqZ. Qed.

Lemma elem_of_indices i n : i ∈ indices n -> 0 <= i < n.
Proof. unfold indices. rewrite elem_of_seqZ. lia. Qed.

Lemma memcpy_from_ok_inv d v n log u :
  memcpy_from d v n = (log, Ok u) -> log = [EvMemcpy d (take (Z.to_nat n) v)].
Proof.
  unfold memcpy_from. destruct (n <=? _); [| discriminate].
  intros [= <- _]. reflexivity.
Qed.

(** What the code's choice of the material of a slot returns. *)
Lemma slotMaterial_bound `{OptixSDK} slot m fmt x :
  0 <= m -> GeometryInstance_slotMaterial slot m fmt = Ok x -> bound_material slot m = Some x.
Proof.
  intros Hm. unfold GeometryInstance_slotMaterial, bound_material. intros Hrun.
  apply rbind_ok_inv in Hrun as (mat0 & H0 & Hrun).
  apply vec_at_ok_inv in H0 as [_ H0]. change (Z.to_nat 0) with 0%nat in H0.
  apply rbind_ok_inv in Hrun as ([] & Hchk & Hrun).
  destruct mat0 as [m0 |]; [| discriminate Hchk]. rewrite H0.
  apply rbind_ok_inv in Hrun as (mat & Hmat & Hrun).
  apply vec_at_ok_inv in Hmat as [Hr Hmat].
  destruct (Z.ltb_spec m (Z.of_nat (length slot))) as [Hlt | Hge].
  - rewrite Hmat. destruct mat; injection Hrun as <-; reflexivity.
  - rewrite lookup_ge_None_2 by lia. change (Z.to_nat 0) with 0%nat in Hmat.
    rewrite H0 in Hmat. injection Hmat as <-. injection Hrun as <-. reflexivity.
Qed.

Section FillLog.
Context `{OptixSDK}.
Variable be : FillBackend.

Lemma Material_setRecordData_ok_inv w m pipeline rayType record log cur :
  Material_setRecordData be w m pipeline rayType record = (log, Ok cur) ->
  exists mat hitGroup,
    materials w !! m = Some mat /\
    Material.programs mat !! (pipeline, rayType) = Some hitGroup /\
    cur = fst (SizeAlign.add header_SizeAlign (Material.userDataSizeAlign mat)) /\
    log = [ EvPackHeader hitGroup record;
            EvMemcpy (record + snd (SizeAlign.add header_SizeAlign
                                      (Material.userDataSizeAlign mat)))
              (take (Z.to_nat (SizeAlign.size (Material.userDataSizeAlign mat)))
                    (Material.userData mat)) ].
Proof.
  unfold Material_setRecordData. intros Hrun.
  apply wbind_ok_inv in Hrun as (l1 & mat & l2 & Hmat & Hrun & ->).
  injection Hmat as <- Hmat. apply deref_ok_inv in Hmat.
  destruct (Material.programs mat !! (pipeline, rayType)) as [hg |] eqn:Ehg;
    [| discriminate Hrun].
  apply wbind_ok_inv in Hrun as (l3 & [] & l4 & Hpack & Hrun & ->).
  unfold ProgramGroup_packHeader in Hpack.
  apply wbind_ok_inv in Hpack as (l5 & [] & l6 & Hemit & Hchk & ->).
  injection Hemit as <-. unfold wlift in Hchk. injection Hchk as <- _.
  exists mat, hg. split; [exact Hmat |]. split; [exact Ehg |].
  destruct (SizeAlign.add header_SizeAlign (Material.userDataSizeAlign mat))
    as [sa1 o1] eqn:Eadd.
  apply wbind_ok_inv in Hrun as (l7 & [] & l8 & Hcpy & Hret & ->).
  apply memcpy_from_ok_inv in Hcpy as ->. injection Hret as <- <-.
  split; reflexivity.
Qed.

(** The body of the loop over the ray types writes one record. *)
Lemma record_step_log w pipeline g gas gi self matIdx slot m mat rayType records stride
    log c' :
  gass w !! g = Some gas -> geomInsts w !! gi = Some self ->
  GeometryInstance.materials self !! Z.to_nat matIdx = Some slot ->
  bound_material slot m = Some mat ->
  Scene_getSingleRecordSize w (GeometryInstance.scene self) = Ok stride ->
  wbind (Material_setRecordData be w mat pipeline rayType records) (fun curSizeAlign =>
    let '(curSizeAlign, offset) :=
      SizeAlign.add curSizeAlign (GeometryInstance.userDataSizeAlign self) in
    wbind (memcpy_from (records + offset) (GeometryInstance.userData self)
             (SizeAlign.size (GeometryInstance.userDataSizeAlign self))) (fun _ =>
    let '(curSizeAlign, offset) :=
      SizeAlign.add curSizeAlign (GAS.userDataSizeAlign gas) in
    wbind (memcpy_from (records + offset) (GAS.userData gas)
             (SizeAlign.size (GAS.userDataSizeAlign gas))) (fun _ =>
    wbind (wlift (Scene_getSingleRecordSize w (GeometryInstance.scene self)))
          (fun stride => wret (records + stride)))))
  = (log, Ok c') ->
  log = record_writes w pipeline (g, m) (gi, matIdx, rayType) records /\
  c' = records + stride.
Proof.
  intros Hgas Hself Hslot Hbound Hstride Hrun.
  apply wbind_ok_inv in Hrun as (l1 & cur & l2 & Hmat & Hrun & ->).
  apply Material_setRecordData_ok_inv in Hmat as (x & hg & Hx & Hhg & -> & ->).
  unfold record_writes. cbn [fst snd]. rewrite Hgas, Hself, Hslot, Hbound, Hx, Hhg.
  destruct (SizeAlign.add header_SizeAlign (Material.userDataSizeAlign x)) as [sa1 o1].
  cbn [fst snd] in *.
  destruct (SizeAlign.add sa1 (GeometryInstance.userDataSizeAlign self)) as [sa2 o2].
  apply wbind_ok_inv in Hrun as (l3 & [] & l4 & Hc1 & Hrun & ->).
  apply memcpy_from_ok_inv in Hc1 as ->.
  destruct (SizeAlign.add sa2 (GAS.userDataSizeAlign gas)) as [sa3 o3].
  apply wbind_ok_inv in Hrun as (l5 & [] & l6 & Hc2 & Hrun & ->).
  apply memcpy_from_ok_inv in Hc2 as ->.
  rewrite Hstride, wbind_wlift_ok in Hrun. injection Hrun as <- <-.
  split; reflexivity.
Qed.

Lemma length_GeometryInstance_records w gi self nrt :
  geomInsts w !! gi = Some self ->
  length (GeometryInstance_records w gi nrt)
  = (length (GeometryInstance.materials self) * Z.to_nat nrt)%nat.
Proof.
  intros Hself. unfold GeometryInstance_records. rewrite Hself.
  assert (Hl : forall l : list Z,
    length (flat_map (fun matIdx => map (fun rayType => (gi, matIdx, rayType))
                                        (indices nrt)) l)
    = (length l * Z.to_nat nrt)%nat).
  { induction l as [| x l IH]; [reflexivity |].
    cbn [flat_map length]. rewrite length_app, length_map, length_indices, IH. lia. }
  rewrite Hl, length_indices, Nat2Z.id. reflexivity.
Qed.

(** [fillSBTRecords] of a geometry instance writes its records one after
    the other and returns their number. *)
Lemma GeometryInstance_fill_log w pipeline g gas gi self m nrt records stride log n :
  gass w !! g = Some gas -> geomInsts w !! gi = Some self -> 0 <= m -> 0 <= nrt ->
  Scene_getSingleRecordSize w (GeometryInstance.scene self) = Ok stride ->
  Z.of_nat (length (GeometryInstance_records w gi nrt)) < u32_modulus ->
  GeometryInstance_fillSBTRecords be w gi pipeline m (GAS.userData gas)
    (GAS.userDataSizeAlign gas) nrt records = (log, Ok n) ->
  log = laid (record_writes w pipeline (g, m)) (fun _ => stride) records
             (GeometryInstance_records w gi nrt) /\
  n = Z.of_nat (length (GeometryInstance_records w gi nrt)).
Proof.
  intros Hgas Hself Hm Hnrt Hstride Hfit Hrun.
  pose proof (length_GeometryInstance_records w gi self nrt Hself) as Hlen.
  unfold GeometryInstance_fillSBTRecords in Hrun.
  rewrite (deref_lookup _ _ _ _ Hself), wbind_wlift_ok in Hrun.
  apply wbind_ok_inv in Hrun as (l1 & c' & l2 & Hloop & Hret & ->).
  injection Hret as <- <-. rewrite app_nil_r.
  set (rec := record_writes w pipeline (g, m)) in *.
  set (ev3 := fun (matIdx : Z) (c : Z) =>
                laid (fun r c' => rec (gi, matIdx, r) c') (fun _ => stride) c (indices nrt)).
  set (adv3 := fun _ : Z => Z.of_nat (length (indices nrt)) * stride).
  apply (wfold_laid (fun c : Z => c) _ ev3 adv3) in Hloop as [-> _].
  2:{ intros c matIdx lg c1 Hin Hstep.
      apply elem_of_indices in Hin.
      apply wbind_ok_inv in Hstep as (l3 & slot & l4 & Hslot & Hstep & ->).
      injection Hslot as <- Hslot. apply vec_at_ok_inv in Hslot as [_ Hslot].
      apply wbind_ok_inv in Hstep as (l5 & mat & l6 & Hmat & Hstep & ->).
      injection Hmat as <- Hmat. apply slotMaterial_bound in Hmat; [| exact Hm].
      cbn [app].
      apply (wfold_laid (fun c : Z => c) _ (fun r c' => rec (gi, matIdx, r) c')
                        (fun _ => stride)) in Hstep as [-> ->].
      - unfold ev3, adv3. rewrite sumZ_const. split; reflexivity.
      - intros c2 r lg2 c3 _ Hrec.
        eapply record_step_log in Hrec; eauto. }
  set (mats := GeometryInstance.materials self) in *.
  assert (Hn : u32_mul (size32 mats) nrt
               = Z.of_nat (length (GeometryInstance_records w gi nrt))
               /\ (nrt = 0 \/ size32 mats = Z.of_nat (length mats))).
  { rewrite Hlen. rewrite Hlen in Hfit. unfold u32_mul, size32.
    destruct (Z.eq_dec nrt 0) as [-> | Hne].
    - rewrite Z.mul_0_r, Nat.mul_0_r. split; [reflexivity | left; reflexivity].
    - assert (Hl : Z.of_nat (length mats) < u32_modulus) by nia.
      rewrite (u32_small (Z.of_nat (length mats))) by lia.
      split; [| right; reflexivity].
      rewrite u32_small by nia. nia. }
  destruct Hn as [Hcount Hsame]. split; [| exact Hcount].
  unfold GeometryInstance_records. rewrite Hself. fold mats.
  rewrite laid_flat_map.
  destruct Hsame as [-> | ->].
  - rewrite !laid_silent; [reflexivity | |]; intros; reflexivity.
  - apply laid_ext.
    + intros matIdx c _. unfold ev3. rewrite laid_map. reflexivity.
    + intros matIdx _. unfold adv3. rewrite length_map. reflexivity.
Qed.

Lemma length_flat_map_sum {A B} (f : A -> list B) (l : list A) :
  Z.of_nat (length (flat_map f l)) = sumZ (map (fun x => Z.of_nat (length (f x))) l).
Proof.
  unfold sumZ. induction l as [| x l IH]; [reflexivity |].
  cbn [flat_map map foldr]. rewrite length_app, Nat2Z.inj_add, IH. reflexivity.
Qed.

(** [fillSBTRecords] of a GAS writes the records of its block one after
    the other and returns their number. *)
Lemma GAS_fill_log w pipeline g gas m nrt stride records log n :
  gass w !! g = Some gas -> 0 <= m ->
  GAS.numRayTypesPerMaterialSet gas !! Z.to_nat m = Some nrt -> 0 <= nrt ->
  Scene_getSingleRecordSize w (GAS.scene gas) = Ok stride -> 0 <= stride ->
  (forall child gi, child ∈ GAS.children gas ->
     geomInsts w !! GAS.geomInst child = Some gi ->
     Scene_getSingleRecordSize w (GeometryInstance.scene gi) = Ok stride) ->
  Z.of_nat (length (block_records w (g, m))) * Z.max stride 1 < u32_modulus ->
  GAS_fillSBTRecords be w g pipeline m records = (log, Ok n) ->
  log = laid (record_writes w pipeline (g, m)) (fun _ => stride) records
             (block_records w (g, m)) /\
  n = Z.of_nat (length (block_records w (g, m))).
Proof.
  intros Hgas Hm Hnrt Hnrt0 Hstride Hstride0 Hgi Hfit Hrun.
  unfold block_records in *. cbn [fst snd] in *. rewrite Hgas, Hnrt in *.
  unfold GAS_fillSBTRecords in Hrun.
  rewrite (deref_lookup _ _ _ _ Hgas), wbind_wlift_ok in Hrun.
  apply wbind_ok_inv in Hrun as (l1 & [] & l2 & Hchk & Hrun & ->).
  injection Hchk as <- _.
  apply wbind_ok_inv in Hrun as (l3 & nrt' & l4 & Hv & Hrun & ->).
  injection Hv as <- Hv. apply vec_at_ok_inv in Hv as [_ Hv].
  rewrite Hnrt in Hv. injection Hv as <-.
  apply wbind_ok_inv in Hrun as (l5 & [rec' sum'] & l6 & Hloop & Hret & ->).
  injection Hret as <- <-. cbn [app snd]. rewrite app_nil_r.
  set (recs := fun child : GAS.Child => GeometryInstance_records w (GAS.geomInst child) nrt)
    in *.
  assert (Hsub : forall child, child ∈ GAS.children gas ->
            Z.of_nat (length (recs child)) * Z.max stride 1 < u32_modulus).
  { intros child Hc.
    pose proof (length_flat_map_elem recs _ _ Hc). nia. }
  match type of Hloop with wfold ?b _ _ = _ => set (body := b) in * end.
  assert (Hstep : forall s child lg s',
    child ∈ GAS.children gas -> body s child = (lg, Ok s') ->
    lg = laid (record_writes w pipeline (g, m)) (fun _ => stride) (fst s) (recs child) /\
    fst s' = fst s + Z.of_nat (length (recs child)) * stride /\
    snd s' = u32_add (snd s) (Z.of_nat (length (recs child)))).
  { intros [c sum] child lg [c1 sum1] Hc Hrun. unfold body in Hrun.
    apply wbind_ok_inv in Hrun as (l7 & k & l8 & Hfill & Hrun & ->).
    rewrite Hstride, wbind_wlift_ok in Hrun. injection Hrun as <- <- <-.
    rewrite app_nil_r. cbn [fst snd].
    pose proof (GeometryInstance_fill_count be _ _ _ _ _ _ _ _ _ _ Hfill)
      as (self & Hself & _).
    eapply GeometryInstance_fill_log in Hfill as [-> ->]; eauto.
    2:{ specialize (Hsub child Hc). unfold recs in Hsub. nia. }
    fold (recs child). specialize (Hsub child Hc).
    split; [reflexivity |]. split; [| reflexivity].
    unfold u32_mul. rewrite u32_small; [reflexivity |]. nia. }
  pose proof Hloop as Hloop'.
  apply (wfold_laid fst body
           (fun child c => laid (record_writes w pipeline (g, m)) (fun _ => stride) c
                                (recs child))
           (fun child => Z.of_nat (length (recs child)) * stride))
    in Hloop as [-> _].
  2:{ intros s child lg s' Hc Hr. destruct (Hstep s child lg s' Hc Hr) as (? & ? & _).
      split; assumption. }
  apply (wfold_count snd body (fun child => Z.of_nat (length (recs child)))) in Hloop'.
  2:{ intros s child lg s' Hc Hr. destruct (Hstep s child lg s' Hc Hr) as (_ & _ & ?).
      assumption. }
  2:{ reflexivity. }
  cbn [fst snd] in *. split.
  - rewrite laid_flat_map. reflexivity.
  - rewrite Hloop', Z.add_0_l, <- length_flat_map_sum. apply u32_small. nia.
Qed.

Lemma Scene_getSingleRecordSize_lookup w s sc :
  scenes w !! s = Some sc -> Scene_getSingleRecordSize w s = Ok (Scene.singleRecordSize sc).
Proof. intros E. unfold Scene_getSingleRecordSize. rewrite (deref_lookup _ _ _ _ E). reflexivity. Qed.

(** The body of the loops of [setupHitGroupSBT] writes the block of a
    pair, whose records are as many as the layout pass counts. *)
Lemma fill_step_log w s sc pipeline p c log c' :
  let stride := Scene.singleRecordSize sc in
  scenes w !! s = Some sc -> fill_inputs_ok w s sc -> 0 <= stride ->
  p ∈ layout_pairs w sc ->
  Z.of_nat (length (block_records w p)) * Z.max stride 1 < u32_modulus ->
  fill_step be w pipeline stride c p = (log, Ok c') ->
  log = EvFillSBTRecords (fst p) (snd p) c
        :: laid (record_writes w pipeline p) (fun _ => stride) c (block_records w p) /\
  c' = c + Z.of_nat (length (block_records w p)) * stride /\
  (forall n, GAS_calcNumSBTRecords w (fst p) (snd p) = Ok n ->
             n = Z.of_nat (length (block_records w p))).
Proof.
  intros stride Hsc Hin Hstride Hp Hfit Hrun. destruct p as [g m].
  apply elem_of_layout_pairs in Hp as [Hg Hm]. apply elem_of_indices in Hm.
  rewrite fill_step_run in Hrun. cbn [fst snd] in *.
  destruct (GAS_fillSBTRecords be w g pipeline m c) as [lg [n | e]] eqn:Hfill;
    [| discriminate Hrun].
  injection Hrun as <- <-.
  assert (Hgas : exists gas nrt, gass w !! g = Some gas /\
                   GAS.numRayTypesPerMaterialSet gas !! Z.to_nat m = Some nrt).
  { pose proof Hfill as Hf. unfold GAS_fillSBTRecords in Hf.
    apply wbind_ok_inv in Hf as (l1 & gas & l2 & Hgas & Hf & _).
    injection Hgas as _ Hgas. apply deref_ok_inv in Hgas.
    apply wbind_ok_inv in Hf as (l3 & [] & l4 & _ & Hf & _).
    apply wbind_ok_inv in Hf as (l5 & nrt & l6 & Hv & _ & _).
    injection Hv as _ Hv. apply vec_at_ok_inv in Hv as [_ Hv]. eauto. }
  destruct Hgas as (gas & nrt & Hgas & Hnrt).
  destruct (Hin g gas Hg Hgas) as (Hscene & Hnn & Hchildren).
  assert (Hnrt0 : 0 <= nrt).
  { rewrite Forall_forall in Hnn. apply Hnn. eapply list_elem_of_lookup_2, Hnrt. }
  assert (Hs1 : Scene_getSingleRecordSize w (GAS.scene gas) = Ok stride).
  { rewrite Hscene. apply Scene_getSingleRecordSize_lookup, Hsc. }
  assert (Hs2 : forall child gi, child ∈ GAS.children gas ->
            geomInsts w !! GAS.geomInst child = Some gi ->
            Scene_getSingleRecordSize w (GeometryInstance.scene gi) = Ok stride).
  { intros child gi Hc Hgi. destruct (Hchildren child gi Hc Hgi) as [-> _].
    apply Scene_getSingleRecordSize_lookup, Hsc. }
  destruct (GAS_fill_log w pipeline g gas m nrt stride c lg n Hgas ltac:(lia) Hnrt Hnrt0
              Hs1 Hstride Hs2 Hfit Hfill) as [-> ->].
  split; [reflexivity |]. split.
  - unfold u32_mul. rewrite u32_small; [reflexivity |]. nia.
  - intros k Hk. symmetry.
    eapply (GAS_fill_count be w g gas pipeline m c); eauto.
    intros child gi Hc Hgi. apply (Hchildren child gi Hc Hgi).
Qed.

(** The loops of [setupHitGroupSBT] over the pairs. *)
Lemma fill_loop_log w s sc pipeline ps c log c' :
  let stride := Scene.singleRecordSize sc in
  scenes w !! s = Some sc -> fill_inputs_ok w s sc -> 0 <= stride ->
  (forall p, p ∈ ps -> p ∈ layout_pairs w sc) ->
  Z.of_nat (length (flat_map (block_records w) ps)) * Z.max stride 1 < u32_modulus ->
  wfold (fill_step be w pipeline stride) ps c = (log, Ok c') ->
  log = laid (fun p c => EvFillSBTRecords (fst p) (snd p) c
                         :: laid (record_writes w pipeline p) (fun _ => stride) c
                                 (block_records w p))
             (fun p => Z.of_nat (length (block_records w p)) * stride) c ps /\
  (forall p n, p ∈ ps -> GAS_calcNumSBTRecords w (fst p) (snd p) = Ok n ->
               n = Z.of_nat (length (block_records w p))).
Proof.
  intros stride Hsc Hin Hstride Hps Hfit Hrun.
  assert (Hsub : forall p, p ∈ ps ->
            Z.of_nat (length (block_records w p)) * Z.max stride 1 < u32_modulus).
  { intros p Hp. pose proof (length_flat_map_elem (block_records w) _ _ Hp). nia. }
  split.
  - refine (proj1 (wfold_laid (fun c : Z => c) (fill_step be w pipeline stride) _ _ ps _
                              c log c' Hrun)).
    intros c0 p lg c1 Hp Hstep.
    destruct (fill_step_log w s sc pipeline p c0 lg c1 Hsc Hin Hstride (Hps p Hp)
                (Hsub p Hp) Hstep) as (Hlg & Hc1 & _).
    split; assumption.
  - intros p n Hp Hcalc.
    destruct (wfold_ok_steps _ _ _ _ _ Hrun p Hp) as (c0 & lg & c1 & Hstep).
    destruct (fill_step_log w s sc pipeline p c0 lg c1 Hsc Hin Hstride (Hps p Hp)
                (Hsub p Hp) Hstep) as (_ & _ & Hn).
    apply Hn, Hcalc.
Qed.

End FillLog.


(* ===================================================================== *)
(** * The fill pass against the layout: C2 *)
(* ===================================================================== *)

Lemma prefix_map {A B} (f : A -> B) (l1 l2 : list A) :
  l1 `prefix_of` l2 -> map f l1 `prefix_of` map f l2.
Proof. intros [k ->]. rewrite map_app. eexists. reflexivity. Qed.

Lemma prefix_elem_of {A} (l1 l2 : list A) x : l1 `prefix_of` l2 -> x ∈ l1 -> x ∈ l2.
Proof. intros [k ->] Hx. apply elem_of_app. left. exact Hx. Qed.

Section FillTheorem.
Context `{OptixSDK}.
Variable be : FillBackend.

(** The layout pass that returns on a dirty scene leaves its layout up to
    date. *)
Lemma generate_establishes_layoutUpToDate s w sc w' memorySize :
  scenes w !! s = Some sc ->
  Scene.sbtLayoutIsUpToDate sc = false ->
  Scene_generateShaderBindingTableLayout s w = (w', Ok memorySize) ->
  layoutUpToDate w' s.
Proof.
  intros Hsc Hflag Hrun.
  pose proof (generate_dirty s w sc Hsc Hflag) as Hgen. unfold generate_outcome in Hgen.
  destruct (stride_pure w _ _) as [r | e] eqn:Hr.
  2:{ destruct Hgen as [sc' Hgen]. congruence. }
  destruct (offsets_pure w _ _) as [st | e] eqn:Hst.
  2:{ destruct Hgen as [sc' Hgen]. congruence. }
  rewrite Hgen in Hrun. injection Hrun as <- <-.
  exists (laid_out sc r st), (Scene_memorySize (laid_out sc r st)).
  split; [apply put_scene_lookup | split; [reflexivity |]].
  set (sc0 := Scene.set_sbtLayoutIsUpToDate false (laid_out sc r st)).
  fold (put_scene s sc0 (put_scene s (laid_out sc r st) w)).
  rewrite put_scene_put.
  pose proof (generate_dirty_put s w sc0 eq_refl) as Hagain.
  unfold generate_outcome in Hagain.
  change (Scene.geomASs sc0) with (Scene.geomASs sc) in Hagain.
  rewrite Hr, Hst in Hagain. exact Hagain.
Qed.

(** What an up-to-date layout caches, read off the layout pass. *)
Lemma layoutUpToDate_cached w s sc :
  scenes w !! s = Some sc ->
  layoutUpToDate w s ->
  NoDup (Scene.geomASs sc) ->
  0 <= Scene.singleRecordSize sc /\
  (forall g, g ∈ Scene.geomASs sc -> is_Some (gass w !! g)) /\
  (forall p, p ∈ layout_pairs w sc ->
     is_ok (GAS_calcNumSBTRecords w (fst p) (snd p)) = true) /\
  (forall before p after,
     layout_pairs w sc = before ++ p :: after ->
     Scene.sbtOffsets sc !! p = Some (u32 (records_of w before))) /\
  Scene.numSBTRecords sc = u32 (records_of w (layout_pairs w sc)).
Proof.
  intros Hsc (sc_ & mem & Hsc_ & Hflag & Hrun) Hnodup.
  rewrite Hsc in Hsc_. injection Hsc_ as <-.
  set (sc0 := Scene.set_sbtLayoutIsUpToDate false sc) in *.
  pose proof (generate_dirty_put s w sc0 eq_refl) as Hgen.
  unfold generate_outcome in Hgen. fold (put_scene s sc0 w) in Hrun.
  rewrite Hrun in Hgen. change (Scene.geomASs sc0) with (Scene.geomASs sc) in Hgen.
  destruct (stride_pure w _ _) as [r | e] eqn:Hr.
  2:{ destruct Hgen as [sc' Hgen]. discriminate. }
  destruct (offsets_pure w _ _) as [[off' map'] | e] eqn:Hst.
  2:{ destruct Hgen as [sc' Hgen]. discriminate. }
  injection Hgen as Hw _.
  assert (Hcached : sc = laid_out sc0 r (off', map')).
  { pose proof (put_scene_lookup s (laid_out sc0 r (off', map')) w) as Hl.
    rewrite <- Hw, Hsc in Hl. injection Hl as Hl. exact Hl. }
  pose proof (offsets_pure_gas w _ _ _ Hst) as Hgas.
  rewrite (offsets_pure_flat w _ _ Hgas) in Hst. fold (layout_pairs w sc) in Hst.
  apply offsets_flat_spec in Hst as (Hok & Hoff' & Hsplit & _); [| unfold u32_modulus; lia].
  apply stride_pure_spec in Hr as [_ Hr].
  split; [| split; [exact Hgas | split; [exact Hok | split]]].
  - rewrite Hcached. cbn [laid_out Scene.singleRecordSize]. rewrite Hr.
    pose proof (foldr_max_ge_init (u32 OPTIX_SBT_RECORD_HEADER_SIZE)
                  (map (gas_record_size w) (Scene.geomASs sc))).
    pose proof (u32_range OPTIX_SBT_RECORD_HEADER_SIZE). lia.
  - intros before p after Hpairs.
    rewrite Hcached at 1. cbn [laid_out Scene.sbtOffsets snd].
    rewrite (Hsplit before p after Hpairs); [rewrite Z.add_0_l; reflexivity |].
    pose proof (layout_pairs_NoDup w sc Hnodup) as Hnd. rewrite Hpairs in Hnd.
    apply NoDup_app in Hnd as (_ & _ & Hnd). apply NoDup_cons in Hnd as [Hnd _].
    exact Hnd.
  - rewrite Hcached at 1. cbn [laid_out Scene.numSBTRecords fst].
    rewrite Hoff', Z.add_0_l. reflexivity.
Qed.

(** The log of [setupHitGroupSBT] when it returns: the records of the
    table, each at the offset the layout gives it, then the copy to the
    device; and the records are as many as the layout has counted. *)
Lemma setup_log w s sc pipeline sbt :
  scenes w !! s = Some sc ->
  layoutUpToDate w s ->
  NoDup (Scene.geomASs sc) ->
  fill_inputs_ok w s sc ->
  table_fits w sc ->
  snd (Scene_setupHitGroupSBT be w s pipeline sbt) = Ok tt ->
  fst (Scene_setupHitGroupSBT be w s pipeline sbt)
  = table_log w sc pipeline ++ [EvMemcpyHtoD (getCUdeviceptr sbt) (sizeInBytes sbt)] /\
  Z.of_nat (length (table_records w sc)) = Scene.numSBTRecords sc.
Proof.
  intros Hsc Hup Hnodup Hin Hfit Hret.
  destruct (layoutUpToDate_cached w s sc Hsc Hup Hnodup)
    as (Hstride & Hgas & Hok & Hoffsets & Hnum).
  unfold table_fits, table_records in Hfit.
  set (stride := Scene.singleRecordSize sc) in *.
  set (len := fun p => Z.of_nat (length (block_records w p))).
  assert (Hloop : exists lloop c,
    wfold (fill_step be w pipeline stride) (layout_pairs w sc) 0 = (lloop, Ok c) /\
    fst (Scene_setupHitGroupSBT be w s pipeline sbt)
    = lloop ++ [EvMemcpyHtoD (getCUdeviceptr sbt) (sizeInBytes sbt)]).
  { revert Hret. unfold Scene_setupHitGroupSBT.
    rewrite (deref_lookup _ _ _ _ Hsc), wbind_wlift_ok.
    destruct (_ <=? sizeInBytes sbt); cbn [throwRuntimeError]; [| discriminate].
    rewrite wbind_wlift_ok.
    rewrite (setup_loop_flat be w pipeline stride _ 0 Hgas).
    fold (layout_pairs w sc).
    destruct (wfold _ (layout_pairs w sc) 0) as [lloop [c | e]]; unfold wbind; cbn;
      [| discriminate].
    destruct (memcpyHtoD_ok be); cbn; [| discriminate].
    intros _. exists lloop, c. rewrite ?app_nil_r. split; reflexivity. }
  destruct Hloop as (lloop & c & Hloop & ->).
  destruct (fill_loop_log be w s sc pipeline (layout_pairs w sc) 0 lloop c Hsc Hin Hstride
              (fun p Hp => Hp) Hfit Hloop) as [-> Hcount].
  assert (Hrec : forall ps, (forall p, p ∈ ps -> p ∈ layout_pairs w sc) ->
            records_of w ps = sumZ (map len ps)).
  { intros ps Hps. unfold records_of. apply sumZ_map_ext. intros p Hp.
    destruct (is_ok_true _ (Hok p (Hps p Hp))) as [n Hn].
    rewrite (record_count_ok w p n Hn). apply (Hcount p n (Hps p Hp) Hn). }
  assert (Hlen : forall ps, sumZ (map len ps) = Z.of_nat (length (flat_map (block_records w) ps))).
  { intros ps. symmetry. apply length_flat_map_sum. }
  split.
  - f_equal. unfold table_log. fold stride.
    rewrite (laid_positions _ _
               (fun p => default 0 (Scene.sbtOffsets sc !! p) * stride)).
    + apply flat_map_ext. intros p. f_equal. unfold block_writes.
      rewrite laid_imap. f_equal. apply imap_ext. intros i k _. cbn. f_equal. ring.
    + intros before p after Hsplit.
      rewrite (Hoffsets before p after Hsplit). cbn [default].
      rewrite sumZ_map_mul, Z.add_0_l. fold len. f_equal.
      rewrite Hrec.
      2:{ intros q Hq. rewrite Hsplit. apply elem_of_app. left. exact Hq. }
      symmetry. apply u32_small. rewrite Hlen.
      rewrite Hsplit, flat_map_app, length_app, Nat2Z.inj_add in Hfit.
      assert (Hmx : 1 <= Z.max stride 1) by lia.
      split; [lia |]. eapply Z.le_lt_trans; [| exact Hfit].
      generalize dependent (Z.max stride 1). intros M _ HM.
      pose proof (Nat2Z.is_nonneg (length (flat_map (block_records w) before))).
      pose proof (Nat2Z.is_nonneg (length (flat_map (block_records w) (p :: after)))).
      nia.
  - rewrite Hnum, (Hrec _ (fun p Hp => Hp)), Hlen.
    assert (Hmx : 1 <= Z.max stride 1) by lia.
    symmetry. apply u32_small. split; [lia |].
    eapply Z.le_lt_trans; [| exact Hfit].
    generalize dependent (Z.max stride 1). intros M _ HM.
    pose proof (Nat2Z.is_nonneg (length (flat_map (block_records w) (layout_pairs w sc)))).
    unfold table_records. nia.
Qed.

(** The calls [setupHitGroupSBT] makes are those of its loops. *)
Lemma setup_calls w s sc pipeline sbt :
  scenes w !! s = Some sc ->
  (forall g, g ∈ Scene.geomASs sc -> is_Some (gass w !! g)) ->
  let run := Scene_setupHitGroupSBT be w s pipeline sbt in
  let loop := wfold (fill_step be w pipeline (Scene.singleRecordSize sc))
                    (layout_pairs w sc) 0 in
  fill_calls (fst run) `prefix_of` fill_calls (fst loop) /\
  (snd run = Ok tt -> fill_calls (fst run) = fill_calls (fst loop) /\
                      is_ok (snd loop) = true).
Proof.
  intros Hsc Hgas run loop. subst run loop. unfold Scene_setupHitGroupSBT.
  rewrite (deref_lookup _ _ _ _ Hsc), wbind_wlift_ok.
  destruct (_ <=? sizeInBytes sbt); cbn [throwRuntimeError].
  2:{ cbn. split; [apply prefix_nil | discriminate]. }
  rewrite wbind_wlift_ok.
  rewrite (setup_loop_flat be w pipeline (Scene.singleRecordSize sc) _ 0 Hgas).
  fold (layout_pairs w sc).
  destruct (wfold _ (layout_pairs w sc) 0) as [lloop [c | e]]; unfold wbind; cbn.
  - destruct (memcpyHtoD_ok be); cbn; rewrite fill_calls_app; cbn;
      rewrite app_nil_r; split; auto; discriminate.
  - split; [reflexivity | discriminate].
Qed.

(** ** C2 *)


End FillTheorem.


(* ===================================================================== *)
(** * The layout and the fill pass on the example scene *)
(* ===================================================================== *)

Lemma example_scene_lookup : scenes example_world !! 0%nat = Some example_scene.
Proof. vm_compute. reflexivity. Qed.

Lemma example_scene_laid_out_lookup :
  scenes example_laid_out !! 0%nat = Some example_scene_laid_out.
Proof. vm_compute. reflexivity. Qed.

Lemma example_inputs_ok : @layout_inputs_ok optix7 example_world example_scene.
Proof. apply layout_inputs_okb_true. vm_compute. reflexivity. Qed.

Lemma example_geomASs_NoDup : NoDup (Scene.geomASs example_scene).
Proof. change (NoDup [0%nat]). apply NoDup_singleton. Qed.

(** C1 at the example scene: stride 48, offsets 0 and 3, nine records, 432
    bytes. *)
Lemma generateShaderBindingTableLayout_dirty_witness :
  exists sc' memorySize,
    scenes example_world !! 0%nat = Some example_scene /\
    Scene.sbtLayoutIsUpToDate example_scene = false /\
    @Scene_generateShaderBindingTableLayout optix7 0%nat example_world
    = (put_scene 0%nat sc' example_world, Ok memorySize) /\
    Scene.singleRecordSize sc' = @layout_stride optix7 example_world example_scene /\
    @layout_stride optix7 example_world example_scene = 48 /\
    Scene.sbtOffsets sc' !! (0%nat, 0) = Some 0 /\
    Scene.sbtOffsets sc' !! (0%nat, 1) = Some 3 /\
    Scene.numSBTRecords sc' = 9 /\
    memorySize = 432.
Proof.
  destruct (@generateShaderBindingTableLayout_dirty_computes_layout optix7
              0%nat example_world example_scene example_scene_lookup eq_refl
              example_geomASs_NoDup example_inputs_ok)
    as (sc' & memorySize & Hrun & (Hstride & _) & (Hoff & _) & Hnum & _ & Hmem).
  exists sc', memorySize.
  split; [exact example_scene_lookup |]. split; [reflexivity |].
  split; [exact Hrun |]. split; [exact Hstride |]. split; [vm_compute; reflexivity |].
  split; [exact (Hoff [] 0%nat 0 [(0%nat, 1)] eq_refl) |].
  split; [exact (Hoff [(0%nat, 0)] 0%nat 1 [] eq_refl) |].
  split; [exact Hnum |].
  rewrite Hmem, Hnum, Hstride. vm_compute. reflexivity.
Defined.

Lemma example_generate_run :
  @Scene_generateShaderBindingTableLayout optix7 0%nat example_world
  = (example_laid_out, Ok 432).
Proof. vm_compute. reflexivity. Qed.

Lemma example_laid_out_upToDate : @layoutUpToDate optix7 example_laid_out 0%nat.
Proof.
  exists example_scene_laid_out, 432.
  split; [exact example_scene_laid_out_lookup |]. split; [reflexivity |].
  vm_compute. reflexivity.
Qed.

Lemma example_children_wf : children_wf example_laid_out example_scene_laid_out.
Proof.
  intros g gas child gi Hg Hgas Hc Hgi.
  change (Scene.geomASs example_scene_laid_out) with [0%nat] in Hg.
  apply list_elem_of_singleton in Hg as ->.
  assert (Hch : GAS.children gas = [GAS.mkChild 0 0]).
  { vm_compute in Hgas. injection Hgas as <-. reflexivity. }
  rewrite Hch in Hc. apply list_elem_of_singleton in Hc as ->.
  cbn [GAS.geomInst] in Hgi. vm_compute in Hgi. injection Hgi as <-.
  reflexivity.
Qed.

Lemma example_fill_inputs_ok :
  fill_inputs_ok example_laid_out 0%nat example_scene_laid_out.
Proof.
  intros g gas Hg Hgas.
  change (Scene.geomASs example_scene_laid_out) with [0%nat] in Hg.
  apply list_elem_of_singleton in Hg as ->.
  vm_compute in Hgas. injection Hgas as <-.
  split; [reflexivity |]. split; [repeat constructor; lia |].
  intros child gi Hc Hgi. apply list_elem_of_singleton in Hc as ->.
  vm_compute in Hgi. injection Hgi as <-. split; reflexivity.
Qed.



(** The flag [sbtLayoutIsUpToDate] alone does not make the cached layout up
    to date.  After [setNumMaterials] on a geometry instance the flag is
    still set while the layout pass would now count 12 records where 9 are
    cached, and the fill pass starts the second block at byte 192, not at
    [sbtOffsets[(gas, 1)] * singleRecordSize = 144]. *)
Lemma flag_set_on_stale_layout :
  let run := @Scene_setupHitGroupSBT optix7 willing_backend regrown_world 0%nat 0%nat
               (valid_buffer 65536 9 48) in
  outcome regrown_calls example_laid_out = Ok tt /\
  (Scene.sbtLayoutIsUpToDate <$> scenes regrown_world !! 0%nat) = Some true /\
  ~ @layoutUpToDate optix7 regrown_world 0%nat /\
  (Scene.sbtOffsets <$> scenes regrown_world !! 0%nat)
  = (Scene.sbtOffsets <$> scenes example_laid_out !! 0%nat) /\
  snd run = Ok tt /\
  fill_calls (fst run) = [(0%nat, 0, 0); (0%nat, 1, 192)].
Proof.
  intros run.
  split; [vm_compute; reflexivity |]. split; [vm_compute; reflexivity |].
  split; [| split; [vm_compute; reflexivity |
            split; [vm_compute; reflexivity | vm_compute; reflexivity]]].
  intros (sc & memorySize & Hsc & _ & Hrun).
  assert (Esc : scenes regrown_world !! 0%nat = Some example_scene_laid_out)
    by (vm_compute; reflexivity).
  rewrite Esc in Hsc. injection Hsc as <-.
  apply (f_equal (fun r => Scene.numSBTRecords <$> scenes (fst r) !! 0%nat)) in Hrun.
  vm_compute in Hrun. discriminate Hrun.
Qed.


(* ===================================================================== *)
(** * Running calls step by step *)
(* ===================================================================== *)

Lemma run_updGAS g f x w :
  gass w !! g = Some x -> updGAS g f w = (set_gass (insert g (f x)) w, Ok tt).
Proof.
  intros E. unfold updGAS. rewrite run_getGAS, (deref_lookup _ _ _ _ E). reflexivity.
Qed.

Lemma run_getIAS {B} i (k : IAS.t -> M B) w :
  bind (getIAS i) k w
  = match deref (iass w) i "instance acceleration structure" with
    | Ok x => k x w
    | Err e => (w, Err e)
    end.
Proof. unfold bind, getIAS. destruct (deref _ _ _); reflexivity. Qed.

Lemma run_updIAS i f x w :
  iass w !! i = Some x -> updIAS i f w = (set_iass (insert i (f x)) w, Ok tt).
Proof.
  intros E. unfold updIAS. rewrite run_getIAS, (deref_lookup _ _ _ _ E). reflexivity.
Qed.

Lemma run_updScene s f sc w :
  scenes w !! s = Some sc -> updScene s f w = (set_scenes (insert s (f sc)) w, Ok tt).
Proof.
  intros E. unfold updScene. rewrite run_getScene, (deref_lookup _ _ _ _ E). reflexivity.
Qed.

Lemma set_iass_set_iass f1 f2 w :
  set_iass f2 (set_iass f1 w) = set_iass (fun m => f2 (f1 m)) w.
Proof. reflexivity. Qed.

Lemma IAS_Priv_markDirty_run i x w :
  iass w !! i = Some x ->
  IAS_Priv_markDirty i w = (set_iass (insert i (dirty_ias x)) w, Ok tt).
Proof.
  intros E. unfold IAS_Priv_markDirty.
  erewrite bind_ok by (apply run_updIAS; exact E).
  erewrite bind_ok by (apply run_updIAS; cbn; apply lookup_insert_eq).
  erewrite bind_ok by (apply run_updIAS; cbn; apply lookup_insert_eq).
  erewrite run_updIAS by (cbn; apply lookup_insert_eq).
  unfold set_iass. cbn. rewrite !insert_insert_eq. reflexivity.
Qed.

Lemma mark_dirty_all_cons i l m :
  mark_dirty_all (i :: l) m
  = mark_dirty_all l (match m !! i with Some x => <[i := dirty_ias x]> m | None => m end).
Proof. reflexivity. Qed.

Lemma dirty_ias_flags x :
  IAS.readyToBuild (dirty_ias x) = false /\ IAS.available (dirty_ias x) = false /\
  IAS.readyToCompact (dirty_ias x) = false /\ IAS.compactedAvailable (dirty_ias x) = false.
Proof. repeat split. Qed.

Lemma mark_dirty_all_keeps_dirty l : forall m i x,
  m !! i = Some x -> is_dirty_ias x ->
  exists x', mark_dirty_all l m !! i = Some x' /\ is_dirty_ias x'.
Proof.
  induction l as [| j l IH]; intros m i x Hx Hd; [eauto |].
  rewrite mark_dirty_all_cons. destruct (m !! j) as [y |] eqn:Ey; [| eauto].
  destruct (decide (j = i)) as [-> | Hne].
  - eapply IH; [apply lookup_insert_eq | apply dirty_ias_flags].
  - eapply IH; [rewrite lookup_insert_ne by exact Hne; exact Hx | exact Hd].
Qed.

Lemma mark_dirty_all_elem l : forall m i,
  i ∈ l -> is_Some (m !! i) ->
  exists x', mark_dirty_all l m !! i = Some x' /\ is_dirty_ias x'.
Proof.
  induction l as [| j l IH]; intros m i Hin [x Hx]; [inversion Hin |].
  rewrite mark_dirty_all_cons.
  destruct (decide (j = i)) as [-> | Hne].
  - rewrite Hx. eapply mark_dirty_all_keeps_dirty;
      [apply lookup_insert_eq | apply dirty_ias_flags].
  - apply elem_of_cons in Hin as [-> | Hin]; [congruence |].
    apply IH; [exact Hin |].
    destruct (m !! j); [rewrite lookup_insert_ne by exact Hne |]; eauto.
Qed.

Lemma mark_dirty_all_is_Some l : forall m i,
  is_Some (m !! i) -> is_Some (mark_dirty_all l m !! i).
Proof.
  induction l as [| j l IH]; intros m i Hi; [exact Hi |].
  rewrite mark_dirty_all_cons. apply IH.
  destruct (m !! j) eqn:Ej; [| exact Hi].
  destruct (decide (j = i)) as [-> | Hne];
    [rewrite lookup_insert_eq; eauto | rewrite lookup_insert_ne by exact Hne; exact Hi].
Qed.

(** The loop of [markSBTLayoutDirty] over IAS that all exist. *)
Lemma markDirty_loop_run l : forall w,
  (forall i, i ∈ l -> is_Some (iass w !! i)) ->
  for_each l IAS_Priv_markDirty w
  = (set_iass (fun m => mark_dirty_all l m) w, Ok tt).
Proof.
  induction l as [| i l IH]; intros w Hall.
  - cbn. destruct w; reflexivity.
  - cbn [for_each]. destruct (Hall i ltac:(left)) as [x Hx].
    erewrite bind_ok by (apply IAS_Priv_markDirty_run; exact Hx).
    rewrite IH.
    + unfold set_iass. cbn. rewrite Hx. reflexivity.
    + intros j Hj. cbn.
      destruct (decide (i = j)) as [-> | Hne];
        [rewrite lookup_insert_eq; eauto |
         rewrite lookup_insert_ne by exact Hne; apply Hall; right; exact Hj].
Qed.

Lemma Scene_markSBTLayoutDirty_run s sc w :
  scenes w !! s = Some sc ->
  (forall i, i ∈ Scene.instASs sc -> is_Some (iass w !! i)) ->
  Scene_markSBTLayoutDirty s w
  = (set_iass (fun m => mark_dirty_all (Scene.instASs sc) m)
       (set_scenes (insert s (Scene.set_sbtLayoutIsUpToDate false sc)) w), Ok tt).
Proof.
  intros Hsc Hall. unfold Scene_markSBTLayoutDirty.
  erewrite bind_ok by (apply run_updScene; exact Hsc).
  rewrite run_getScene. cbn [scenes set_scenes].
  rewrite (deref_lookup _ _ _ _ (lookup_insert_eq _ _ _)).
  cbn [Scene.instASs Scene.set_sbtLayoutIsUpToDate].
  apply markDirty_loop_run. exact Hall.
Qed.

(* ===================================================================== *)
(** * setNumRayTypes: C5 *)
(* ===================================================================== *)

(** ** C5 *)

(** C5, as the code has it.  [setNumRayTypes] with a material set index in
    range stores the ray-type count and nothing else in the GAS (its flags
    [readyToBuild], [available], [readyToCompact] and [compactedAvailable]
    stay as they are), clears [sbtLayoutIsUpToDate] of the owning scene, and
    marks every IAS of that scene dirty. *)
Theorem GAS_setNumRayTypes_dirties_layout_and_IAS_only
    (w : World) (g : nat) (gas : GAS.t) (sc : Scene.t) (matSetIdx numRayTypes : Z) :
  gass w !! g = Some gas ->
  scenes w !! GAS.scene gas = Some sc ->
  (forall i, i ∈ Scene.instASs sc -> is_Some (iass w !! i)) ->
  0 <= matSetIdx < Z.of_nat (length (GAS.numRayTypesPerMaterialSet gas)) ->
  exists w',
    GAS_setNumRayTypes g matSetIdx numRayTypes w = (w', Ok tt) /\
    gass w' !! g
    = Some (GAS.set_numRayTypesPerMaterialSet
              (<[Z.to_nat matSetIdx := numRayTypes]> (GAS.numRayTypesPerMaterialSet gas)) gas) /\
    scenes w' !! GAS.scene gas = Some (Scene.set_sbtLayoutIsUpToDate false sc) /\
    (forall i, i ∈ Scene.instASs sc ->
       exists ias', iass w' !! i = Some ias' /\ is_dirty_ias ias').
Proof.
  intros Hgas Hsc Hias Hidx. unfold GAS_setNumRayTypes.
  rewrite run_getGAS, (deref_lookup _ _ _ _ Hgas).
  unfold throwM. rewrite run_lift.
  replace (matSetIdx <? _) with true by (symmetry; apply Z.ltb_lt; lia).
  cbn [throwRuntimeError].
  erewrite bind_ok by (apply run_updGAS; exact Hgas).
  rewrite (Scene_markSBTLayoutDirty_run _ sc) by assumption.
  eexists. split; [reflexivity |]. cbn.
  split; [apply lookup_insert_eq |]. split; [apply lookup_insert_eq |].
  intros i Hi. apply mark_dirty_all_elem; [exact Hi | apply Hias, Hi].
Qed.

Lemma built_world_calls_succeed : outcome lifecycle_calls empty_world = Ok tt.
Proof. vm_compute. reflexivity. Qed.

(** The statement above at the built scene, whose IAS was available. *)
Lemma GAS_setNumRayTypes_witness :
  exists gas sc ias w' ias',
    gass built_world !! 0%nat = Some gas /\
    scenes built_world !! 0%nat = Some sc /\
    iass built_world !! 0%nat = Some ias /\ IAS.available ias = true /\
    @GAS_setNumRayTypes 0%nat 0 2 built_world = (w', Ok tt) /\
    iass w' !! 0%nat = Some ias' /\ is_dirty_ias ias'.
Proof.
  destruct (gass built_world !! 0%nat) as [gas |] eqn:Eg; [| vm_compute in Eg; discriminate].
  destruct (scenes built_world !! 0%nat) as [sc |] eqn:Es; [| vm_compute in Es; discriminate].
  destruct (iass built_world !! 0%nat) as [ias |] eqn:Ei; [| vm_compute in Ei; discriminate].
  assert (Hscene : GAS.scene gas = 0%nat).
  { vm_compute in Eg. injection Eg as <-. reflexivity. }
  assert (Hlen : GAS.numRayTypesPerMaterialSet gas = [0]).
  { vm_compute in Eg. injection Eg as <-. reflexivity. }
  assert (Hinst : Scene.instASs sc = [0%nat]).
  { vm_compute in Es. injection Es as <-. reflexivity. }
  assert (Hav : IAS.available ias = true).
  { vm_compute in Ei. injection Ei as <-. reflexivity. }
  destruct (GAS_setNumRayTypes_dirties_layout_and_IAS_only built_world 0%nat gas sc 0 2 Eg)
    as (w' & Hrun & _ & _ & Hdirty).
  - rewrite Hscene. exact Es.
  - intros i Hi. rewrite Hinst in Hi. apply list_elem_of_singleton in Hi as ->.
    rewrite Ei. eauto.
  - rewrite Hlen. cbn. lia.
  - destruct (Hdirty 0%nat) as (ias' & Hias' & Hd).
    { rewrite Hinst. left. }
    exists gas, sc, ias, w', ias'. repeat split; try assumption; apply Hd.
Defined.

(** C5 fails as stated: in the built scene the GAS is available, the call
    returns, and the GAS is available still. *)
Lemma GAS_setNumRayTypes_keeps_GAS_available :
  (GAS.available <$> gass built_world !! 0%nat) = Some true /\
  outcome (@GAS_setNumRayTypes 0%nat 0 2) built_world = Ok tt /\
  (GAS.available <$> gass (exec (@GAS_setNumRayTypes 0%nat 0 2) built_world) !! 0%nat)
  = Some true /\
  (Scene.sbtLayoutIsUpToDate <$> scenes (exec (@GAS_setNumRayTypes 0%nat 0 2) built_world)
                                 !! 0%nat) = Some false.
Proof. vm_compute. repeat split. Qed.


(* ===================================================================== *)
(** * setStaticTransform: C9 *)
(* ===================================================================== *)

Lemma static_world_transform :
  transforms static_world !! 0%nat
  = Some (Transform.mk 0 None ChildInvalid
            (DataStatic 0 (@initial_key) (@initial_key)) 112 Static
            (mkMotionOptions 2 f0 f0 0) 0 false).
Proof. vm_compute. reflexivity. Qed.

(** The reciprocal of a zero determinant is an infinity, which the test
    [invDet != 0.0f] lets through. *)
Lemma reciprocal_of_zero_passes (det : float) (s : bool) :
  det = S754_zero s -> fneb (fdiv f1 det) f0 = true.
Proof. intros ->. destruct s; reflexivity. Qed.

(** Only an infinite determinant makes the test fail among the values that
    are not NaN: the all-zero matrix is not rejected. *)
Lemma det3_zeros : @det3 zeros12 = S754_zero false.
Proof. vm_compute. reflexivity. Qed.

(** ** C9 *)

(** C9 on the code.  For the all-zero matrix, whose determinant is zero,
    [setStaticTransform] on a transform configured as static does not throw:
    it returns and overwrites the stored transform with the zero matrix and
    the stored inverse with NaN entries.  For the identity matrix it returns
    and stores the identity together with an inverse whose entries compare
    equal to those of the identity (the translation column is stored as
    negative zeros). *)
Theorem Transform_setStaticTransform_accepts_singular_matrix :
  outcome (@Transform_setStaticTransform 0%nat zeros12) static_world = Ok tt /\
  (Transform.data <$> transforms (exec (@Transform_setStaticTransform 0%nat zeros12)
                                       static_world) !! 0%nat)
  = Some (DataStatic 0 zeros12
            [S754_nan; S754_nan; S754_nan; S754_zero true;
             S754_nan; S754_nan; S754_nan; S754_zero true;
             S754_nan; S754_nan; S754_nan; S754_zero true]) /\
  outcome (@Transform_setStaticTransform 0%nat (@identity12)) static_world = Ok tt /\
  (Transform.data <$> transforms (exec (@Transform_setStaticTransform 0%nat (@identity12))
                                       static_world) !! 0%nat)
  = Some (DataStatic 0 (@identity12)
            [f1; f0; f0; S754_zero true;
             f0; f1; f0; S754_zero true;
             f0; f0; f1; S754_zero true]).
Proof. vm_compute. repeat split. Qed.


(* ===================================================================== *)
(** * Validate, then mutate: C3 *)
(* ===================================================================== *)

Lemma reads_only_ret {A} (a : A) : reads_only (ret a).
Proof. intros w. reflexivity. Qed.

Lemma reads_only_get : reads_only get.
Proof. intros w. reflexivity. Qed.

Lemma reads_only_lift {A} (r : result A) : reads_only (lift r).
Proof. intros w. reflexivity. Qed.

Lemma reads_only_throwM b fmt : reads_only (throwM b fmt).
Proof. intros w. reflexivity. Qed.

Lemma reads_only_backend_check {A} (a : option A) call : reads_only (backend_check a call).
Proof. intros w. reflexivity. Qed.

Lemma reads_only_getGAS g : reads_only (getGAS g).
Proof. intros w. reflexivity. Qed.

Lemma reads_only_getIAS i : reads_only (getIAS i).
Proof. intros w. reflexivity. Qed.

Lemma reads_only_getScene s : reads_only (getScene s).
Proof. intros w. reflexivity. Qed.

Lemma reads_only_getGeomInst gi : reads_only (getGeomInst gi).
Proof. intros w. reflexivity. Qed.

Lemma reads_only_getTransform t : reads_only (getTransform t).
Proof. intros w. reflexivity. Qed.

Lemma reads_only_getInstance i : reads_only (getInstance i).
Proof. intros w. reflexivity. Qed.

Lemma reads_only_getMaterial m : reads_only (getMaterial m).
Proof. intros w. reflexivity. Qed.

Lemma uve_bind_reads {A B} (m : M A) (k : A -> M B) :
  reads_only m -> (forall a, unchanged_on_validation_error (k a)) ->
  unchanged_on_validation_error (bind m k).
Proof.
  intros Hm Hk w w' msg. unfold bind. specialize (Hm w).
  destruct (m w) as [w1 [a | e]]; cbn in Hm; subst w1.
  - apply Hk.
  - intros [= <- _]. reflexivity.
Qed.

Lemma uve_of_nve {A} (m : M A) : never_validation_error m -> unchanged_on_validation_error m.
Proof. intros Hm w w' msg E. exfalso. apply (Hm w msg). rewrite E. reflexivity. Qed.

Lemma uve_reads {A} (m : M A) : reads_only m -> unchanged_on_validation_error m.
Proof. intros Hm w w' msg E. specialize (Hm w). rewrite E in Hm. exact Hm. Qed.

Lemma nve_ret {A} (a : A) : never_validation_error (ret a).
Proof. intros w msg. discriminate. Qed.

Lemma nve_modify f : never_validation_error (modify f).
Proof. intros w msg. discriminate. Qed.

Lemma nve_deref {A} (arena : World -> gmap nat A) p what :
  never_validation_error (fun w => (w, deref (arena w) p what)).
Proof. intros w msg. cbn. unfold deref. destruct (arena w !! p); discriminate. Qed.

Lemma nve_backend_check {A} (a : option A) call : never_validation_error (backend_check a call).
Proof. intros w msg. destruct a; discriminate. Qed.

Lemma nve_bind {A B} (m : M A) (k : A -> M B) :
  never_validation_error m -> (forall a, never_validation_error (k a)) ->
  never_validation_error (bind m k).
Proof.
  intros Hm Hk w msg. unfold bind. specialize (Hm w msg).
  destruct (m w) as [w1 [a | e]]; [apply Hk |].
  cbn in *. intros [= ->]. apply Hm. reflexivity.
Qed.

Lemma nve_for_each {A} (l : list A) (body : A -> M unit) :
  (forall x, never_validation_error (body x)) -> never_validation_error (for_each l body).
Proof.
  intros Hb. induction l as [| x l IH]; [apply nve_ret |].
  cbn [for_each]. apply nve_bind; [apply Hb | intros _; exact IH].
Qed.

Lemma nve_getGAS g : never_validation_error (getGAS g).
Proof. apply (nve_deref gass). Qed.
Lemma nve_getIAS i : never_validation_error (getIAS i).
Proof. apply (nve_deref iass). Qed.
Lemma nve_getScene s : never_validation_error (getScene s).
Proof. apply (nve_deref scenes). Qed.
Lemma nve_getGeomInst gi : never_validation_error (getGeomInst gi).
Proof. apply (nve_deref geomInsts). Qed.
Lemma nve_getTransform t : never_validation_error (getTransform t).
Proof. apply (nve_deref transforms). Qed.
Lemma nve_getInstance i : never_validation_error (getInstance i).
Proof. apply (nve_deref instances). Qed.
Lemma nve_getMaterial m : never_validation_error (getMaterial m).
Proof. apply (nve_deref materials). Qed.

Lemma nve_updGAS g f : never_validation_error (updGAS g f).
Proof. apply nve_bind; [apply nve_getGAS | intros; apply nve_modify]. Qed.
Lemma nve_updIAS i f : never_validation_error (updIAS i f).
Proof. apply nve_bind; [apply nve_getIAS | intros; apply nve_modify]. Qed.
Lemma nve_updScene s f : never_validation_error (updScene s f).
Proof. apply nve_bind; [apply nve_getScene | intros; apply nve_modify]. Qed.
Lemma nve_updGeomInst gi f : never_validation_error (updGeomInst gi f).
Proof. apply nve_bind; [apply nve_getGeomInst | intros; apply nve_modify]. Qed.
Lemma nve_updTransform t f : never_validation_error (updTransform t f).
Proof. apply nve_bind; [apply nve_getTransform | intros; apply nve_modify]. Qed.
Lemma nve_updInstance i f : never_validation_error (updInstance i f).
Proof. apply nve_bind; [apply nve_getInstance | intros; apply nve_modify]. Qed.
Lemma nve_updMaterial m f : never_validation_error (updMaterial m f).
Proof. apply nve_bind; [apply nve_getMaterial | intros; apply nve_modify]. Qed.

Lemma nve_IAS_Priv_markDirty i : never_validation_error (IAS_Priv_markDirty i).
Proof. unfold IAS_Priv_markDirty. repeat (apply nve_bind; [apply nve_updIAS | intros _]).
       apply nve_updIAS. Qed.

Lemma nve_Scene_markSBTLayoutDirty s : never_validation_error (Scene_markSBTLayoutDirty s).
Proof.
  unfold Scene_markSBTLayoutDirty. apply nve_bind; [apply nve_updScene | intros _].
  apply nve_bind; [apply nve_getScene | intros sc].
  apply nve_for_each. apply nve_IAS_Priv_markDirty.
Qed.

Lemma nve_GAS_Priv_markDirty g : never_validation_error (GAS_Priv_markDirty g).
Proof.
  unfold GAS_Priv_markDirty. repeat (apply nve_bind; [apply nve_updGAS | intros _]).
  apply nve_bind; [apply nve_getGAS | intros x]. apply nve_Scene_markSBTLayoutDirty.
Qed.

Lemma nve_Transform_Priv_markDirty t : never_validation_error (Transform_Priv_markDirty t).
Proof. apply nve_updTransform. Qed.

Create HintDb shape discriminated.
#[export] Hint Resolve reads_only_ret reads_only_get reads_only_lift reads_only_throwM
  reads_only_backend_check reads_only_getGAS reads_only_getIAS reads_only_getScene
  reads_only_getGeomInst reads_only_getTransform reads_only_getInstance
  reads_only_getMaterial : shape.
#[export] Hint Resolve nve_ret nve_modify nve_backend_check nve_getGAS nve_getIAS
  nve_getScene nve_getGeomInst nve_getTransform nve_getInstance nve_getMaterial
  nve_updGAS nve_updIAS nve_updScene nve_updGeomInst nve_updTransform nve_updInstance
  nve_updMaterial nve_IAS_Priv_markDirty nve_Scene_markSBTLayoutDirty
  nve_GAS_Priv_markDirty nve_Transform_Priv_markDirty : shape.

Lemma nve_lift_undefined {A} what : never_validation_error (lift (A := A) (Err (Undefined what))).
Proof. intros w msg. discriminate. Qed.

Lemma nve_lift_ok {A} (a : A) : never_validation_error (lift (Ok a)).
Proof. intros w msg. discriminate. Qed.

Lemma uve_void {A} (m : M A) :
  unchanged_on_validation_error m -> unchanged_on_validation_error (void m).
Proof.
  intros Hm w w' msg. unfold void, bind. destruct (m w) as [w1 [a | e]] eqn:E.
  - discriminate.
  - intros [= <- ->]. exact (Hm _ _ _ E).
Qed.

#[export] Hint Resolve nve_lift_undefined nve_lift_ok : shape.

(** Proves [never_validation_error] for a sequence of writes. *)
Ltac nve :=
  first
    [ solve [auto with shape]
    | apply nve_bind; [nve | intros ?; nve]
    | apply nve_for_each; intros ?; nve
    | match goal with
      | |- never_validation_error (lift (if ?b then _ else _)) => destruct b; nve
      | |- never_validation_error (if ?b then _ else _) => destruct b; nve
      | |- never_validation_error (match ?x with _ => _ end) => destruct x; nve
      end ].

(** Proves [reads_only] for a check. *)
Ltac ro :=
  first
    [ solve [auto with shape]
    | match goal with
      | |- reads_only (if ?b then _ else _) => destruct b; ro
      | |- reads_only (match ?x with _ => _ end) => destruct x; ro
      end ].

(** Proves [unchanged_on_validation_error] for checks followed by writes. *)
Ltac uve :=
  first
    [ solve [apply uve_reads; ro]
    | apply uve_bind_reads; [solve [ro] | intros ?; uve ]
    | apply uve_void; uve
    | match goal with
      | |- unchanged_on_validation_error (if ?b then _ else _) => destruct b; uve
      | |- unchanged_on_validation_error (match ?x with _ => _ end) => destruct x; uve
      end
    | solve [apply uve_of_nve; nve] ].

Create HintDb ops discriminated.
#[export] Hint Unfold Context_createScene Context_createMaterial Material_setHitGroup
  Material_setUserData Scene_createGeometryInstance GeometryInstance_setNumMotionSteps
  GeometryInstance_setVertexFormat GeometryInstance_setVertexBuffer
  GeometryInstance_setTriangleBuffer GeometryInstance_setCustomPrimitiveAABBBuffer
  GeometryInstance_setPrimitiveIndexOffset GeometryInstance_setNumMaterials
  GeometryInstance_setGeometryFlags GeometryInstance_setMaterial
  GeometryInstance_setUserData Scene_createGeometryAccelerationStructure GAS_destroy
  GAS_setConfiguration GAS_setMotionOptions GAS_addChild GAS_removeChild GAS_markDirty
  GAS_setNumMaterialSets GAS_setNumRayTypes GAS_prepareForCompact GAS_compact
  GAS_removeUncompacted GAS_setUserData Scene_createTransform Transform_setConfiguration
  Transform_setMotionOptions Transform_setStaticTransform Transform_setChild
  Transform_markDirty Transform_rebuild Scene_createInstance Instance_setChild
  Instance_setTransform Instance_setID Instance_setVisibilityMask Instance_setFlags
  Instance_setMaterialSetIndex Scene_createInstanceAccelerationStructure IAS_destroy
  IAS_setConfiguration IAS_setMotionOptions IAS_addChild IAS_removeChild IAS_markDirty
  IAS_prepareForCompact IAS_compact IAS_removeUncompacted
  Scene_addGAS Scene_removeGAS Scene_addTransform Scene_removeTransform Scene_addIAS
  Scene_removeIAS : ops.

Lemma throwM_false fmt w : throwM false fmt w = (w, Err (RuntimeError fmt)).
Proof. reflexivity. Qed.

Lemma throwM_true fmt w : throwM true fmt w = (w, Ok tt).
Proof. reflexivity. Qed.

Lemma bind_throwM {A} b fmt (k : unit -> M A) w :
  bind (throwM b fmt) k w = if b then k tt w else (w, Err (RuntimeError fmt)).
Proof. destruct b; reflexivity. Qed.

Lemma void_err {A} (m : M A) w e : m w = (w, Err e) -> void m w = (w, Err e).
Proof. intros E. unfold void, bind. rewrite E. reflexivity. Qed.

(** Steps through the checks an operation makes on entry, one of which
    fails by [Hc]. *)
Ltac failing_check Hc :=
  repeat (rewrite bind_throwM;
          match goal with
          | |- context [if ?b then _ else _] =>
              destruct b eqn:?; [| eexists; reflexivity]
          end);
  exfalso; cbn in Hc; congruence.

Section Atomicity.
Context `{OptixSDK}.

Lemma validating_calls_uve c :
  validates_before_writing c = true -> unchanged_on_validation_error (run c).
Proof.
  intros Hc. destruct c; try discriminate Hc; cbn [run]; autounfold with ops.
  all: uve.
Qed.

Lemma validating_ops_uve o :
  Op_validates_before_writing o = true -> unchanged_on_validation_error (run_op o).
Proof.
  destruct o as [c | m | s | gi | i | t | t keyIdx matrix
                 | t keyIdx scale orientation translation]; cbn [run_op].
  - apply validating_calls_uve.
  - intros _. unfold Material_destroy. uve.
  - intros _. unfold Scene_destroy. uve.
  - intros _. unfold GeometryInstance_destroy. uve.
  - intros _. unfold Instance_destroy. uve.
  - intros _. unfold Transform_destroy. autounfold with ops. uve.
  - intros _. unfold Transform_setMatrixMotionKey. uve.
  - intros _. unfold Transform_setSRTMotionKey. uve.
Qed.

Lemma entry_checks_throw c w :
  passes_entry_checks w c = false ->
  exists msg, run c w = (w, Err (RuntimeError msg)).
Proof.
  destruct c; cbn [passes_entry_checks]; try discriminate; cbn [run].
  - (* GeometryAccelerationStructure::rebuild *)
    destruct (gass w !! g) as [m |] eqn:Eg; [| discriminate]. intros Hc.
    enough (exists msg, GAS_rebuild g accelBuffer scratchBuffer built recorded w
                        = (w, Err (RuntimeError msg))) as [msg E]
      by (exists msg; apply void_err, E).
    unfold GAS_rebuild. rewrite run_getGAS, (deref_lookup _ _ _ _ Eg).
    failing_check Hc.
  - (* GeometryAccelerationStructure::update *)
    destruct (gass w !! g) as [m |] eqn:Eg; [| discriminate]. intros Hc.
    unfold GAS_update. rewrite run_getGAS, (deref_lookup _ _ _ _ Eg).
    failing_check Hc.
  - (* InstanceAccelerationStructure::prepareForBuild *)
    destruct (iass w !! a) as [m |] eqn:Ea; [| discriminate].
    destruct (scenes w !! IAS.scene m) as [sc |] eqn:Es; [| discriminate]. intros Hc.
    enough (exists msg, IAS_prepareForBuild a usage w = (w, Err (RuntimeError msg)))
      as [msg E] by (exists msg; apply void_err, E).
    unfold IAS_prepareForBuild. rewrite run_getIAS, (deref_lookup _ _ _ _ Ea).
    rewrite run_getScene, (deref_lookup _ _ _ _ Es).
    failing_check Hc.
  - (* InstanceAccelerationStructure::rebuild *)
    destruct (iass w !! a) as [m |] eqn:Ea; [| discriminate]. intros Hc.
    enough (exists msg, IAS_rebuild a instanceBuffer accelBuffer scratchBuffer copied
                          built recorded w = (w, Err (RuntimeError msg))) as [msg E]
      by (exists msg; apply void_err, E).
    unfold IAS_rebuild. rewrite run_getIAS, (deref_lookup _ _ _ _ Ea).
    failing_check Hc.
  - (* InstanceAccelerationStructure::update *)
    destruct (iass w !! a) as [m |] eqn:Ea; [| discriminate]. intros Hc.
    unfold IAS_update. rewrite run_getIAS, (deref_lookup _ _ _ _ Ea).
    failing_check Hc.
Qed.

End Atomicity.

(** C3, as the code has it.  Of the public operations that write ([Op]:
    those of Material, Scene, GeometryInstance, GeometryAccelerationStructure,
    Transform, Instance and InstanceAccelerationStructure, the destructors
    and the setters of the motion keys among them), a call of one that
    validates before it writes ([Op_validates_before_writing]: all but the
    layout generation and [prepareForBuild], [rebuild] and [update] of a GAS
    and of an IAS) that throws a validation error leaves the world as it
    found it; and a call of one of the others that fails one of its checks on
    entry ([passes_entry_checks]) throws a validation error and leaves the
    world as it found it. *)
Theorem validation_error_leaves_world_unchanged `{OptixSDK} :
  (forall o w w' msg,
      Op_validates_before_writing o = true ->
      run_op o w = (w', Err (RuntimeError msg)) ->
      w' = w) /\
  (forall c w,
      passes_entry_checks w c = false ->
      exists msg, run_op (Op_call c) w = (w, Err (RuntimeError msg))).
Proof.
  split.
  - intros o w w' msg Ho E. exact (validating_ops_uve o Ho w w' msg E).
  - exact entry_checks_throw.
Qed.

(** [compact] on a GAS that is built but was not prepared for compaction,
    [setMatrixMotionKey] on a static transform, and [rebuild] on a GAS that
    was not prepared for its build. *)
Lemma validation_error_leaves_world_unchanged_witness :
  let compact := Op_call (Call_GAS_compact 0%nat (valid_buffer 4096 1024 1) (Some 5) true) in
  let setKey := Op_Transform_setMatrixMotionKey 0%nat 0 identity12 in
  let rebuild := Call_GAS_rebuild 0%nat (valid_buffer 4096 1024 1) (valid_buffer 8192 256 1)
                                  (fun _ _ => Some 1001) true in
  (Op_validates_before_writing compact = true /\
   snd (@run_op optix7 compact built_world)
   = Err (RuntimeError "You need to call prepareForCompact() before compaction."%string) /\
   fst (@run_op optix7 compact built_world) = built_world) /\
  (Op_validates_before_writing setKey = true /\
   snd (@run_op optix7 setKey transform_world)
   = Err (RuntimeError
            "This transform has been configured as matrix motion transform."%string) /\
   fst (@run_op optix7 setKey transform_world) = transform_world) /\
  (@passes_entry_checks optix7 example_world rebuild = false /\
   exists msg, @run_op optix7 (Op_call rebuild) example_world
               = (example_world, Err (RuntimeError msg))).
Proof.
  intros compact setKey rebuild.
  assert (E : snd (@run_op optix7 compact built_world)
              = Err (RuntimeError "You need to call prepareForCompact() before compaction."%string))
    by (vm_compute; reflexivity).
  assert (K : snd (@run_op optix7 setKey transform_world)
              = Err (RuntimeError
                       "This transform has been configured as matrix motion transform."%string))
    by (vm_compute; reflexivity).
  split; [split; [reflexivity | split; [exact E |]] |
          split; [split; [reflexivity | split; [exact K |]] | split; [reflexivity |]]].
  - apply (proj1 (@validation_error_leaves_world_unchanged optix7) compact built_world _
                 "You need to call prepareForCompact() before compaction."%string eq_refl).
    rewrite <- E. apply surjective_pairing.
  - apply (proj1 (@validation_error_leaves_world_unchanged optix7) setKey transform_world _
                 "This transform has been configured as matrix motion transform."%string
                 eq_refl).
    rewrite <- K. apply surjective_pairing.
  - apply (proj2 (@validation_error_leaves_world_unchanged optix7) rebuild example_world).
    reflexivity.
Defined.

(** C3 as stated fails for [prepareForBuild] of a GAS whose child has
    another number of motion steps: the call throws the validation error
    after it has rewritten the build input of that child.  The write shows
    in the next [rebuild], which hands the backend 600 vertices where it
    would have handed it 300. *)
Lemma GAS_prepareForBuild_throws_after_writing :
  let c := Call_GAS_prepareForBuild 0%nat (fun _ _ => Some example_sizes) in
  let rebuild := @GAS_rebuild optix7 0%nat (valid_buffer 4096 1024 1)
                              (valid_buffer 8192 256 1) numVertices_seen true in
  snd (@run optix7 c restaged_world)
  = Err (RuntimeError
           "This GAS has %u motion steps but the GeometryInstance %s has the number %u."%string) /\
  fst (@run optix7 c restaged_world) <> restaged_world /\
  outcome rebuild restaged_world = Ok 300 /\
  outcome rebuild (fst (@run optix7 c restaged_world)) = Ok 600 /\
  ~ (forall c : Call, unchanged_on_validation_error (@run optix7 c)) /\
  ~ (forall o : Op, unchanged_on_validation_error (@run_op optix7 o)).
Proof.
  intros c rebuild.
  assert (E : snd (@run optix7 c restaged_world)
              = Err (RuntimeError
                  "This GAS has %u motion steps but the GeometryInstance %s has the number %u."%string))
    by (vm_compute; reflexivity).
  assert (N : fst (@run optix7 c restaged_world) <> restaged_world).
  { intros W. apply (f_equal (fun w => GAS.buildInputs <$> gass w !! 0%nat)) in W.
    vm_compute in W. discriminate W. }
  split; [exact E | split; [exact N |]].
  split; [vm_compute; reflexivity | split; [vm_compute; reflexivity |]].
  split.
  - intros U. apply N. eapply (U c). rewrite <- E. apply surjective_pairing.
  - intros U. apply N. eapply (U (Op_call c)). cbn [run_op]. rewrite <- E.
    apply surjective_pairing.
Qed.

(* ===================================================================== *)
(** * The order of the life-cycle calls: C4 *)
(* ===================================================================== *)

Lemma preserves_reads {A} P (m : M A) : reads_only m -> preserves P m.
Proof. intros Hm w Hw. rewrite Hm. exact Hw. Qed.

Lemma preserves_bind {A B} P (m : M A) (k : A -> M B) :
  preserves P m -> (forall a, preserves P (k a)) -> preserves P (bind m k).
Proof.
  intros Hm Hk w Hw. unfold bind. specialize (Hm w Hw).
  destruct (m w) as [w1 [a | e]]; cbn in Hm |- *; [apply Hk |]; exact Hm.
Qed.

Lemma preserves_for_each {A} P (l : list A) (body : A -> M unit) :
  (forall x, preserves P (body x)) -> preserves P (for_each l body).
Proof.
  intros Hb. induction l as [| x l IH]; [intros w Hw; exact Hw |].
  cbn [for_each]. apply preserves_bind; [apply Hb | intros _; exact IH].
Qed.

Lemma preserves_foldM {A S} P (body : S -> A -> M S) (l : list A) (s : S) :
  (forall s x, preserves P (body s x)) -> preserves P (foldM body l s).
Proof.
  intros Hb. revert s. induction l as [| x l IH]; intros s; [intros w Hw; exact Hw |].
  cbn [foldM]. apply preserves_bind; [apply Hb | intros s1; apply IH].
Qed.

Lemma preserves_void {A} P (m : M A) : preserves P m -> preserves P (void m).
Proof. intros Hm. apply preserves_bind; [exact Hm | intros a w Hw; exact Hw]. Qed.

Lemma preserves_modify P f : (forall w, P w -> P (f w)) -> preserves P (modify f).
Proof. intros Hf w Hw. apply Hf, Hw. Qed.

Lemma preserves_updGAS PG PI g f :
  (forall x, PG g x -> PG g (f x)) -> preserves (Wsat PG PI) (updGAS g f).
Proof.
  intros Hf w [Hg Hi]. unfold updGAS, bind, getGAS, modify.
  destruct (deref (gass w) g _) as [x | e] eqn:E; cbn; [| split; assumption].
  apply deref_ok_inv in E. split; [| exact Hi]. intros g' x'. cbn.
  destruct (decide (g' = g)) as [-> | Hne].
  - rewrite lookup_insert_eq. intros [= <-]. apply Hf, (Hg _ _ E).
  - rewrite lookup_insert_ne by congruence. apply Hg.
Qed.

Lemma preserves_updIAS PG PI a f :
  (forall x, PI a x -> PI a (f x)) -> preserves (Wsat PG PI) (updIAS a f).
Proof.
  intros Hf w [Hg Hi]. unfold updIAS, bind, getIAS, modify.
  destruct (deref (iass w) a _) as [x | e] eqn:E; cbn; [| split; assumption].
  apply deref_ok_inv in E. split; [exact Hg |]. intros a' x'. cbn.
  destruct (decide (a' = a)) as [-> | Hne].
  - rewrite lookup_insert_eq. intros [= <-]. apply Hf, (Hi _ _ E).
  - rewrite lookup_insert_ne by congruence. apply Hi.
Qed.

Lemma preserves_updScene PG PI s f : preserves (Wsat PG PI) (updScene s f).
Proof.
  intros w Hw. unfold updScene, bind, getScene, modify.
  destruct (deref (scenes w) s _); exact Hw.
Qed.

Lemma preserves_updGeomInst PG PI gi f : preserves (Wsat PG PI) (updGeomInst gi f).
Proof.
  intros w Hw. unfold updGeomInst, bind, getGeomInst, modify.
  destruct (deref (geomInsts w) gi _); exact Hw.
Qed.

Lemma preserves_updTransform PG PI t f : preserves (Wsat PG PI) (updTransform t f).
Proof.
  intros w Hw. unfold updTransform, bind, getTransform, modify.
  destruct (deref (transforms w) t _); exact Hw.
Qed.

Lemma preserves_updInstance PG PI i f : preserves (Wsat PG PI) (updInstance i f).
Proof.
  intros w Hw. unfold updInstance, bind, getInstance, modify.
  destruct (deref (instances w) i _); exact Hw.
Qed.

Lemma preserves_updMaterial PG PI m f : preserves (Wsat PG PI) (updMaterial m f).
Proof.
  intros w Hw. unfold updMaterial, bind, getMaterial, modify.
  destruct (deref (materials w) m _); exact Hw.
Qed.

Lemma preserves_set_scenes PG PI f : preserves (Wsat PG PI) (modify (set_scenes f)).
Proof. intros w Hw. exact Hw. Qed.
Lemma preserves_set_materials PG PI f : preserves (Wsat PG PI) (modify (set_materials f)).
Proof. intros w Hw. exact Hw. Qed.
Lemma preserves_set_geomInsts PG PI f : preserves (Wsat PG PI) (modify (set_geomInsts f)).
Proof. intros w Hw. exact Hw. Qed.
Lemma preserves_set_transforms PG PI f : preserves (Wsat PG PI) (modify (set_transforms f)).
Proof. intros w Hw. exact Hw. Qed.
Lemma preserves_set_instances PG PI f : preserves (Wsat PG PI) (modify (set_instances f)).
Proof. intros w Hw. exact Hw. Qed.

Lemma preserves_delete_gas PG PI g : preserves (Wsat PG PI) (modify (set_gass (delete g))).
Proof.
  intros w [Hg Hi]. split; [| exact Hi]. intros g' x. cbn.
  intros E. apply lookup_delete_Some in E as [_ E]. apply (Hg _ _ E).
Qed.

Lemma preserves_delete_ias PG PI a : preserves (Wsat PG PI) (modify (set_iass (delete a))).
Proof.
  intros w [Hg Hi]. split; [exact Hg |]. intros a' x. cbn.
  intros E. apply lookup_delete_Some in E as [_ E]. apply (Hi _ _ E).
Qed.

Create HintDb pres discriminated.
#[export] Hint Resolve preserves_updScene preserves_updGeomInst preserves_updTransform
  preserves_updInstance preserves_updMaterial preserves_set_scenes
  preserves_set_materials preserves_set_geomInsts preserves_set_transforms
  preserves_set_instances preserves_delete_gas preserves_delete_ias : pres.

#[export] Hint Unfold GeometryInstance_fillBuildInput GeometryInstance_updateBuildInput
  aabb_motion_steps vertex_motion_steps loadBuildInput storeBuildInput
  Instance_fillInstance Instance_updateInstance Instance_resolveChild updOptixInstance
  loadInstance layout_stride_step layout_offset_step for_each_indexed
  Scene_generateShaderBindingTableLayout GAS_Priv_markDirty IAS_Priv_markDirty
  Scene_markSBTLayoutDirty Transform_Priv_markDirty GAS_update IAS_update : ops.

(** A setter that keeps what holds of a GAS or of an IAS. *)
Ltac setter_ok :=
  cbv beta; unfold GAS_ok, IAS_ok, GAS_configured, IAS_configured, flags_agree,
              compactionEnabled, updateEnabled;
  let x := fresh "x" in
  intros x; unfold only; rewrite ?bool_decide_eq_true_2 by reflexivity;
  destruct x; cbn;
  repeat match goal with o : OptixAccelBuildOptions |- _ => destruct o end;
  cbn;
  repeat match goal with
         | |- context [orb ?b _] => is_var b; destruct b; cbn
         | |- context [orb _ ?b] => is_var b; destruct b; cbn
         end;
  intuition congruence.

(** Proves [preserves (Inv ...)] for a call whose writes keep the
    invariant one by one. *)
Ltac pres :=
  first
    [ solve [apply preserves_reads; ro]
    | solve [auto with pres]
    | apply preserves_bind; [pres | intros ?; pres]
    | apply preserves_void; pres
    | apply preserves_for_each; intros ?; pres
    | apply preserves_foldM; intros ? ?; pres
    | apply preserves_updGAS; solve [setter_ok]
    | apply preserves_updIAS; solve [setter_ok]
    | match goal with
      | |- preserves _ (if ?b then _ else _) => destruct b; pres
      | |- preserves _ (match ?x with _ => _ end) => destruct x; pres
      end ].

Lemma hoare_bind {A B} P (m : M A) (k : A -> M B) R Q E :
  hoare P m R E -> (forall a, hoare (R a) (k a) Q E) -> hoare P (bind m k) Q E.
Proof.
  intros Hm Hk w Hw. unfold bind. specialize (Hm w Hw).
  destruct (m w) as [w1 [a | e]]; [apply Hk, Hm | exact Hm].
Qed.

Lemma hoare_conseq {A} (P P' : World -> Prop) (m : M A) (Q Q' : A -> World -> Prop)
    (E E' : World -> Prop) :
  (forall w, P' w -> P w) -> hoare P m Q E ->
  (forall a w, Q a w -> Q' a w) -> (forall w, E w -> E' w) ->
  hoare P' m Q' E'.
Proof.
  intros HP Hm HQ HE w Hw. specialize (Hm w (HP w Hw)).
  destruct (m w) as [w1 [a | e]]; [apply HQ | apply HE]; exact Hm.
Qed.

Lemma hoare_preserves {A} P (m : M A) : preserves P m -> hoare P m (fun _ => P) P.
Proof.
  intros Hm w Hw. specialize (Hm w Hw). destruct (m w) as [w1 [a | e]]; exact Hm.
Qed.

(** A step that keeps the assertion, then the rest. *)
Lemma hoare_step {A B} P (m : M A) (k : A -> M B) Q E :
  preserves P m -> (forall w, P w -> E w) -> (forall a, hoare P (k a) Q E) ->
  hoare P (bind m k) Q E.
Proof.
  intros Hm HE Hk. eapply hoare_bind; [| exact Hk].
  eapply hoare_conseq; [| apply hoare_preserves, Hm | |]; auto.
Qed.

Lemma hoare_ret {A} (P : World -> Prop) (a : A) (Q : A -> World -> Prop) E :
  (forall w, P w -> Q a w) -> hoare P (ret a) Q E.
Proof. intros HQ w Hw. apply HQ, Hw. Qed.

(** What a call learns when it reads its GAS, its IAS, or checks a
    condition. *)
Lemma hoare_getGAS {B} P g (k : GAS.t -> M B) Q (E : World -> Prop) :
  (forall w, P w -> E w) ->
  (forall m, hoare (fun w => P w /\ gass w !! g = Some m) (k m) Q E) ->
  hoare P (bind (getGAS g) k) Q E.
Proof.
  intros HE Hk w Hw. rewrite run_getGAS.
  destruct (deref (gass w) g _) as [m | e] eqn:Em; [| apply HE, Hw].
  apply deref_ok_inv in Em. apply (Hk m w). split; assumption.
Qed.

Lemma hoare_getIAS {B} P a (k : IAS.t -> M B) Q (E : World -> Prop) :
  (forall w, P w -> E w) ->
  (forall m, hoare (fun w => P w /\ iass w !! a = Some m) (k m) Q E) ->
  hoare P (bind (getIAS a) k) Q E.
Proof.
  intros HE Hk w Hw. rewrite run_getIAS.
  destruct (deref (iass w) a _) as [m | e] eqn:Em; [| apply HE, Hw].
  apply deref_ok_inv in Em. apply (Hk m w). split; assumption.
Qed.

Lemma hoare_get {B} (P : World -> Prop) (k : World -> M B) Q (E : World -> Prop) :
  (forall w, P w -> E w) ->
  (forall w0, hoare (fun w => P w /\ w = w0) (k w0) Q E) ->
  hoare P (bind get k) Q E.
Proof. intros HE Hk w Hw. rewrite run_get. apply (Hk w w). split; auto. Qed.

Lemma hoare_throwM {B} (P : World -> Prop) b fmt (k : unit -> M B) Q (E : World -> Prop) :
  (forall w, P w -> E w) ->
  (b = true -> hoare P (k tt) Q E) ->
  hoare P (bind (throwM b fmt) k) Q E.
Proof.
  intros HE Hk w Hw. rewrite bind_throwM. destruct b; [apply Hk; auto | apply HE, Hw].
Qed.

Lemma hoare_void {A} P (m : M A) (Q : World -> Prop) E :
  hoare P m (fun _ => Q) E -> hoare P (void m) (fun _ => Q) E.
Proof.
  intros Hm. eapply hoare_bind; [exact Hm |]. intros a. apply hoare_ret. auto.
Qed.

(** A write to a GAS or to an IAS that changes what is known of it. *)
Lemma hoare_updGAS (PG PG' : nat -> GAS.t -> Prop) PI g f (E : World -> Prop) :
  (forall w, Wsat PG PI w -> E w) ->
  (forall x, PG g x -> PG' g (f x)) ->
  (forall g' x, g' <> g -> PG g' x -> PG' g' x) ->
  hoare (Wsat PG PI) (updGAS g f) (fun _ => Wsat PG' PI) E.
Proof.
  intros HE Hf Ho w Hw. unfold updGAS. rewrite run_getGAS.
  destruct (deref (gass w) g _) as [x | e] eqn:Ex; [| apply HE, Hw].
  apply deref_ok_inv in Ex. destruct Hw as [Hg Hi]. split; [| exact Hi].
  intros g' x'. cbn. destruct (decide (g' = g)) as [-> | Hne].
  - rewrite lookup_insert_eq. intros [= <-]. apply Hf, (Hg _ _ Ex).
  - rewrite lookup_insert_ne by congruence. intros E'. apply Ho; [exact Hne |].
    apply (Hg _ _ E').
Qed.

Lemma hoare_updIAS PG (PI PI' : nat -> IAS.t -> Prop) a f (E : World -> Prop) :
  (forall w, Wsat PG PI w -> E w) ->
  (forall x, PI a x -> PI' a (f x)) ->
  (forall a' x, a' <> a -> PI a' x -> PI' a' x) ->
  hoare (Wsat PG PI) (updIAS a f) (fun _ => Wsat PG PI') E.
Proof.
  intros HE Hf Ho w Hw. unfold updIAS. rewrite run_getIAS.
  destruct (deref (iass w) a _) as [x | e] eqn:Ex; [| apply HE, Hw].
  apply deref_ok_inv in Ex. destruct Hw as [Hg Hi]. split; [exact Hg |].
  intros a' x'. cbn. destruct (decide (a' = a)) as [-> | Hne].
  - rewrite lookup_insert_eq. intros [= <-]. apply Hf, (Hi _ _ Ex).
  - rewrite lookup_insert_ne by congruence. intros E'. apply Ho; [exact Hne |].
    apply (Hi _ _ E').
Qed.

Lemma Wsat_insert_gas PG PI g x w :
  Wsat PG PI w -> PG g x -> Wsat PG PI (set_gass (insert g x) w).
Proof.
  intros [Hg Hi] Hx. split; [| exact Hi]. intros g' x'. cbn.
  destruct (decide (g' = g)) as [-> | Hne].
  - rewrite lookup_insert_eq. intros [= <-]. exact Hx.
  - rewrite lookup_insert_ne by congruence. apply Hg.
Qed.

Lemma Wsat_insert_ias PG PI a x w :
  Wsat PG PI w -> PI a x -> Wsat PG PI (set_iass (insert a x) w).
Proof.
  intros [Hg Hi] Hx. split; [exact Hg |]. intros a' x'. cbn.
  destruct (decide (a' = a)) as [-> | Hne].
  - rewrite lookup_insert_eq. intros [= <-]. exact Hx.
  - rewrite lookup_insert_ne by congruence. apply Hi.
Qed.

Lemma set_gass_insert_insert g x y w :
  set_gass (insert g y) (set_gass (insert g x) w) = set_gass (insert g y) w.
Proof. destruct w. unfold set_gass. cbn. rewrite insert_insert_eq. reflexivity. Qed.

Lemma set_iass_insert_insert a x y w :
  set_iass (insert a y) (set_iass (insert a x) w) = set_iass (insert a y) w.
Proof. destruct w. unfold set_iass. cbn. rewrite insert_insert_eq. reflexivity. Qed.

Lemma bind_updGAS {B} g f x (k : unit -> M B) w :
  gass w !! g = Some x -> bind (updGAS g f) k w = k tt (set_gass (insert g (f x)) w).
Proof. intros E. unfold bind. rewrite (run_updGAS _ _ _ _ E). reflexivity. Qed.

Lemma bind_updIAS {B} a f x (k : unit -> M B) w :
  iass w !! a = Some x -> bind (updIAS a f) k w = k tt (set_iass (insert a (f x)) w).
Proof. intros E. unfold bind. rewrite (run_updIAS _ _ _ _ E). reflexivity. Qed.

Lemma lookup_set_gass_insert g x w : gass (set_gass (insert g x) w) !! g = Some x.
Proof. cbn. apply lookup_insert_eq. Qed.

Lemma lookup_set_iass_insert a x w : iass (set_iass (insert a x) w) !! a = Some x.
Proof. cbn. apply lookup_insert_eq. Qed.

Section LifecycleProofs.
Context `{OptixSDK}.

Lemma GAS_ok_mono (p p' : bool) x : (p = true -> p' = true) -> GAS_ok p x -> GAS_ok p' x.
Proof. intros Hp [Hc Hr]. split; auto. Qed.

Lemma IAS_ok_mono (p p' : bool) x : (p = true -> p' = true) -> IAS_ok p x -> IAS_ok p' x.
Proof. intros Hp [Hc Hr]. split; auto. Qed.

Lemma Inv_mono (pg pg' sg sg' pa pa' sa sa' : nat -> bool) w :
  (forall o, pg o = true -> pg' o = true) -> (forall o, sg' o = true -> sg o = true) ->
  (forall o, pa o = true -> pa' o = true) -> (forall o, sa' o = true -> sa o = true) ->
  Inv pg sg pa sa w -> Inv pg' sg' pa' sa' w.
Proof.
  intros Hpg Hsg Hpa Hsa [Hg Hi]. split.
  - intros g x E. destruct (Hg g x E) as [Hok Hs].
    split; [apply (GAS_ok_mono (pg g)); auto | auto].
  - intros a x E. destruct (Hi a x E) as [Hok Hs].
    split; [apply (IAS_ok_mono (pa a)); auto | auto].
Qed.

Lemma Inv_forget pg sg pa sa w : Inv pg sg pa sa w -> Inv pg nobody pa nobody w.
Proof. apply Inv_mono; auto; discriminate. Qed.

(** One step that keeps the assertion. *)
Ltac hstep :=
  apply hoare_step;
  [ unfold Inv; autounfold with ops; pres
  | first [ solve [auto] | intros ?; apply Inv_mono; solve [auto] ]
  | intros ? ].

Section Flags.
Hypothesis Hind : build_flags_independent.

Lemma tradeoff_flags_land t :
  Z.land (tradeoff_flags t) OPTIX_BUILD_FLAG_ALLOW_UPDATE = 0 /\
  Z.land (tradeoff_flags t) OPTIX_BUILD_FLAG_ALLOW_COMPACTION = 0.
Proof.
  destruct Hind as (_ & _ & _ & Ho).
  apply Forall_cons in Ho as [(_ & Ht1 & Ht2) Ho].
  apply Forall_cons in Ho as [(_ & Hb1 & Hb2) Ho].
  destruct t; cbn [tradeoff_flags]; rewrite ?Z.lor_0_l; auto.
Qed.

Lemma flags_agree_buildFlags t (u c r : bool) o :
  flags_agree
    (set_bo_buildFlags
       (Z.lor (tradeoff_flags t)
          (Z.lor (Z.lor (if u then OPTIX_BUILD_FLAG_ALLOW_UPDATE else 0)
                        (if c then OPTIX_BUILD_FLAG_ALLOW_COMPACTION else 0))
                 (if r then OPTIX_BUILD_FLAG_ALLOW_RANDOM_VERTEX_ACCESS else 0))) o)
    u c.
Proof.
  destruct (tradeoff_flags_land t) as [Ht1 Ht2].
  destruct Hind as (Hu & Hc & Huc & Ho).
  apply Forall_cons in Ho as [_ Ho]. apply Forall_cons in Ho as [_ Ho].
  apply Forall_cons in Ho as [(_ & Hr1 & Hr2) _].
  assert (Hcu : Z.land OPTIX_BUILD_FLAG_ALLOW_COMPACTION OPTIX_BUILD_FLAG_ALLOW_UPDATE = 0)
    by (rewrite Z.land_comm; exact Huc).
  unfold flags_agree, updateEnabled, compactionEnabled. destruct o. cbn.
  rewrite !Z.land_lor_distr_l, Ht1, Ht2.
  destruct u, c, r;
    rewrite ?Z.land_diag, ?Z.land_0_l, ?Huc, ?Hcu, ?Hr1, ?Hr2, ?Z.lor_0_l, ?Z.lor_0_r;
    split;
    first [ reflexivity
          | apply negb_true_iff, Z.eqb_neq; lia ].
Qed.

Lemma GAS_buildFlags_configured x :
  GAS_configured
    (GAS.set_buildOptions (set_bo_buildFlags (GAS_buildFlags x) (GAS.buildOptions x)) x).
Proof.
  unfold GAS_configured, GAS_buildFlags. destruct x; cbn.
  apply flags_agree_buildFlags.
Qed.

Lemma IAS_buildFlags_configured x :
  IAS_configured
    (IAS.set_buildOptions (set_bo_buildFlags (IAS_buildFlags x) (IAS.buildOptions x)) x).
Proof.
  unfold IAS_configured, IAS_buildFlags. destruct x; cbn.
  pose proof (flags_agree_buildFlags tradeoff allowUpdate allowCompaction false
                buildOptions) as Hf.
  cbn in Hf. rewrite Z.lor_0_r in Hf. exact Hf.
Qed.

End Flags.

Lemma plain_call_preserves pg sg pa sa c :
  plain_call c = true -> preserves (Inv pg sg pa sa) (run c).
Proof.
  intros Hc. destruct c; try discriminate Hc; cbn [run]; unfold Inv;
    autounfold with ops.
  all: pres.
Qed.

Section GASCalls.
Hypothesis Hind : build_flags_independent.
Variables pg pa : nat -> bool.
Variable g : nat.

Lemma Inv_learn_gas sg sa w m :
  Inv pg sg pa sa w -> gass w !! g = Some m ->
  GAS.readyToBuild m || GAS.available m || GAS.compactedAvailable m = true ->
  Inv pg (only g) pa sa w.
Proof.
  intros [Hg Hi] Em Hb. split; [| exact Hi]. intros g2 x E2.
  destruct (Hg _ _ E2) as [Hok _]. split; [exact Hok |].
  unfold only. intros Hd. apply bool_decide_eq_true_1 in Hd. subst g2.
  rewrite Em in E2. injection E2 as <-. apply Hok, Hb.
Qed.

Lemma GAS_prepareForBuild_hoare usage :
  hoare (Inv pg nobody pa nobody) (GAS_prepareForBuild g usage)
        (fun _ => Inv pg nobody pa nobody) (Inv pg nobody pa nobody).
Proof.
  unfold GAS_prepareForBuild.
  hstep. hstep. hstep. hstep.
  eapply hoare_bind.
  { unfold Inv.
    apply hoare_updGAS
      with (PG' := fun g' x => GAS_ok (pg g') x /\ (only g g' = true -> GAS_configured x)).
    - auto.
    - intros x [Hok _]. pose proof (GAS_buildFlags_configured Hind x) as Hc.
      split; [| intros _; exact Hc].
      destruct Hok as [_ Hr]. split; [intros _; exact Hc |].
      destruct x; exact Hr.
    - intros g' x Hne [Hok _]. split; [exact Hok |].
      unfold only. intros Hd. apply bool_decide_eq_true_1 in Hd. contradiction. }
  intros ?. cbv beta. fold (Inv pg (only g) pa nobody).
  eapply hoare_conseq with (E := Inv pg (only g) pa nobody)
                           (Q := fun _ => Inv pg (only g) pa nobody);
    [intros w Hw; exact Hw | | intros _; apply Inv_forget | apply Inv_forget].
  hstep. hstep. hstep. hstep. apply hoare_ret. auto.
Qed.

Lemma GAS_rebuild_hoare pg' accelBuffer scratchBuffer built recorded :
  (forall o, o <> g -> pg' o = pg o) -> (pg' g = true -> pg g = true) ->
  hoare (Inv pg nobody pa nobody)
        (GAS_rebuild g accelBuffer scratchBuffer built recorded)
        (fun _ => Inv pg' nobody pa nobody) (Inv pg nobody pa nobody).
Proof.
  intros Ho Hg'. unfold GAS_rebuild.
  apply hoare_getGAS; [auto |]. intros m.
  apply hoare_throwM; [intros w [Hw _]; exact Hw |]. intros Hready.
  apply hoare_throwM; [intros w [Hw _]; exact Hw |]. intros _.
  apply hoare_throwM; [intros w [Hw _]; exact Hw |]. intros _.
  assert (Hle : forall o, pg' o = true -> pg o = true).
  { intros o. destruct (decide (o = g)) as [-> | Hne]; [exact Hg' |].
    rewrite (Ho _ Hne). auto. }
  eapply hoare_conseq with (P := Inv pg (only g) pa nobody)
                           (E := Inv pg (only g) pa nobody)
                           (Q := fun _ => Inv pg' (only g) pa nobody);
    [ | | intros _; apply Inv_forget | apply Inv_forget].
  { intros w [Hw Em]. apply (Inv_learn_gas _ _ _ _ Hw Em). rewrite Hready. reflexivity. }
  hstep. hstep. hstep. hstep. hstep. hstep. hstep. hstep.
  eapply hoare_bind.
  { unfold Inv.
    apply hoare_updGAS
      with (PG' := fun g' x => GAS_ok (pg' g') x /\ (only g g' = true -> GAS_configured x)).
    - auto.
    - setter_ok.
    - intros g' x Hne. rewrite (Ho _ Hne). auto. }
  intros ?. cbv beta. fold (Inv pg' (only g) pa nobody).
  hstep. hstep. apply hoare_ret. auto.
Qed.

Lemma GAS_prepareForCompact_hoare pg' synchronized readback :
  (forall o, o <> g -> pg' o = pg o) -> pg' g = true ->
  hoare (Inv pg nobody pa nobody) (GAS_prepareForCompact g synchronized readback)
        (fun _ => Inv pg' nobody pa nobody) (Inv pg nobody pa nobody).
Proof.
  intros Ho Hg'. unfold GAS_prepareForCompact.
  assert (Hle : forall o, pg o = true -> pg' o = true).
  { intros o. destruct (decide (o = g)) as [-> | Hne]; [auto |].
    rewrite (Ho _ Hne). auto. }
  hstep. hstep. hstep.
  destruct (GAS.compactedAvailable a).
  { apply hoare_ret. intros w. apply Inv_mono; auto. }
  hstep. hstep. hstep.
  eapply hoare_bind.
  { unfold Inv.
    apply hoare_updGAS
      with (PG' := fun g' x => GAS_ok (pg' g') x /\ (nobody g' = true -> GAS_configured x)).
    - auto.
    - setter_ok.
    - intros g' x Hne. rewrite (Ho _ Hne). auto. }
  intros ?. cbv beta. apply hoare_ret. auto.
Qed.

Lemma GAS_compact_hoare compactedAccelBuffer compacted recorded :
  hoare (Inv pg nobody pa nobody) (GAS_compact g compactedAccelBuffer compacted recorded)
        (fun _ => Inv pg nobody pa nobody) (Inv pg nobody pa nobody).
Proof.
  unfold GAS_compact.
  apply hoare_getGAS; [auto |]. intros m.
  apply hoare_throwM; [intros w [Hw _]; exact Hw |]. intros _.
  apply hoare_throwM; [intros w [Hw _]; exact Hw |]. intros _.
  apply hoare_throwM; [intros w [Hw _]; exact Hw |]. intros Havailable.
  apply hoare_throwM; [intros w [Hw _]; exact Hw |]. intros _.
  eapply hoare_conseq with (P := Inv pg (only g) pa nobody)
                           (E := Inv pg (only g) pa nobody)
                           (Q := fun _ => Inv pg (only g) pa nobody);
    [ | | intros _; apply Inv_forget | apply Inv_forget].
  { intros w [Hw Em]. apply (Inv_learn_gas _ _ _ _ Hw Em). rewrite Havailable.
    destruct (GAS.readyToBuild m); reflexivity. }
  hstep. hstep. hstep. hstep. hstep. apply hoare_ret. auto.
Qed.

Lemma GAS_setConfiguration_hoare tradeoff allowUpdate allowCompaction
    allowRandomVertexAccess :
  hoare (Inv pg nobody pa nobody)
        (GAS_setConfiguration g tradeoff allowUpdate allowCompaction
                              allowRandomVertexAccess)
        (fun _ => Inv pg nobody pa nobody) (Inv pg nobody pa nobody).
Proof.
  apply hoare_preserves. intros w Hw. unfold GAS_setConfiguration.
  rewrite run_getGAS. destruct (deref (gass w) g _) as [m | e] eqn:Em; [| exact Hw].
  apply deref_ok_inv in Em. rewrite bind_throwM.
  destruct (negb (GAS.forCustomPrimitives m && allowRandomVertexAccess)); [| exact Hw].
  rewrite (bind_updGAS _ _ _ _ _ Em).
  rewrite (bind_updGAS _ _ _ _ _ (lookup_set_gass_insert _ _ _)), set_gass_insert_insert.
  rewrite (bind_updGAS _ _ _ _ _ (lookup_set_gass_insert _ _ _)), set_gass_insert_insert.
  rewrite (bind_updGAS _ _ _ _ _ (lookup_set_gass_insert _ _ _)), set_gass_insert_insert.
  destruct Hw as [Hg Hi]. destruct (Hg _ _ Em) as [[Hc Hr] _].
  match goal with |- context [if ?b then _ else _] => destruct b eqn:Hchanged end.
  - unfold GAS_Priv_markDirty.
    rewrite (bind_updGAS _ _ _ _ _ (lookup_set_gass_insert _ _ _)), set_gass_insert_insert.
    rewrite (bind_updGAS _ _ _ _ _ (lookup_set_gass_insert _ _ _)), set_gass_insert_insert.
    rewrite (bind_updGAS _ _ _ _ _ (lookup_set_gass_insert _ _ _)), set_gass_insert_insert.
    rewrite (bind_updGAS _ _ _ _ _ (lookup_set_gass_insert _ _ _)), set_gass_insert_insert.
    match goal with
    | |- Inv _ _ _ _ (fst (?m ?w1)) =>
        assert (Hp : preserves (Inv pg nobody pa nobody) m)
          by (unfold Inv; autounfold with ops; pres);
        apply (Hp w1)
    end.
    apply Wsat_insert_gas; [split; assumption |].
    split; [| discriminate]. destruct m; split; cbn; [discriminate | discriminate].
  - cbn [ret fst]. apply Wsat_insert_gas; [split; assumption |].
    split; [| discriminate].
    apply orb_false_elim in Hchanged as [Hchanged _].
    apply orb_false_elim in Hchanged as [Hchanged Hcc].
    apply orb_false_elim in Hchanged as [_ Hcu].
    apply negb_false_iff, eqb_prop in Hcc, Hcu.
    destruct m; cbn in *. subst allowUpdate allowCompaction. split; assumption.
Qed.

Lemma createGAS_hoare pg' s forCustomPrimitives pos ind :
  (forall o, o <> g -> pg' o = pg o) -> (pg' g = true -> pg g = true) ->
  hoare (Inv pg nobody pa nobody)
        (Scene_createGeometryAccelerationStructure s forCustomPrimitives g pos ind)
        (fun _ => Inv pg' nobody pa nobody) (Inv pg nobody pa nobody).
Proof.
  intros Ho Hg'. unfold Scene_createGeometryAccelerationStructure.
  assert (Hle : forall o, pg' o = true -> pg o = true).
  { intros o. destruct (decide (o = g)) as [-> | Hne]; [exact Hg' |].
    rewrite (Ho _ Hne). auto. }
  apply hoare_get; [auto |]. intros w0.
  destruct (gass w0 !! g) as [x |] eqn:Eg.
  { intros w [Hw _]. exact Hw. }
  eapply hoare_bind with (R := fun _ => Inv pg' nobody pa nobody).
  { intros w [[Hg Hi] ->]. cbn [modify]. split; [| exact Hi].
    intros g' x'. cbn. destruct (decide (g' = g)) as [-> | Hne].
    - rewrite lookup_insert_eq. intros [= <-].
      split; [split; cbn; discriminate | discriminate].
    - rewrite lookup_insert_ne by congruence. rewrite (Ho _ Hne). apply Hg. }
  intros ?. hstep. apply hoare_ret. auto.
Qed.

End GASCalls.

Section IASCalls.
Hypothesis Hind : build_flags_independent.
Variables pg pa : nat -> bool.
Variable a : nat.

Lemma Inv_learn_ias sg sa w m :
  Inv pg sg pa sa w -> iass w !! a = Some m ->
  IAS.readyToBuild m || IAS.available m || IAS.compactedAvailable m = true ->
  Inv pg sg pa (only a) w.
Proof.
  intros [Hg Hi] Em Hb. split; [exact Hg |]. intros a2 x E2.
  destruct (Hi _ _ E2) as [Hok _]. split; [exact Hok |].
  unfold only. intros Hd. apply bool_decide_eq_true_1 in Hd. subst a2.
  rewrite Em in E2. injection E2 as <-. apply Hok, Hb.
Qed.

Lemma IAS_prepareForBuild_hoare usage :
  hoare (Inv pg nobody pa nobody) (IAS_prepareForBuild a usage)
        (fun _ => Inv pg nobody pa nobody) (Inv pg nobody pa nobody).
Proof.
  unfold IAS_prepareForBuild.
  do 7 hstep.
  eapply hoare_bind.
  { unfold Inv.
    apply hoare_updIAS
      with (PI' := fun a' x => IAS_ok (pa a') x /\ (only a a' = true -> IAS_configured x)).
    - auto.
    - intros x [Hok _]. pose proof (IAS_buildFlags_configured Hind x) as Hc.
      split; [| intros _; exact Hc].
      destruct Hok as [_ Hr]. split; [intros _; exact Hc |].
      destruct x; exact Hr.
    - intros a' x Hne [Hok _]. split; [exact Hok |].
      unfold only. intros Hd. apply bool_decide_eq_true_1 in Hd. contradiction. }
  intros ?. cbv beta. fold (Inv pg nobody pa (only a)).
  eapply hoare_conseq with (E := Inv pg nobody pa (only a))
                           (Q := fun _ => Inv pg nobody pa (only a));
    [intros w Hw; exact Hw | | intros _; apply Inv_forget | apply Inv_forget].
  do 5 hstep. apply hoare_ret. auto.
Qed.

Lemma IAS_rebuild_hoare pa' instanceBuffer accelBuffer scratchBuffer copied built
    recorded :
  (forall o, o <> a -> pa' o = pa o) -> (pa' a = true -> pa a = true) ->
  hoare (Inv pg nobody pa nobody)
        (IAS_rebuild a instanceBuffer accelBuffer scratchBuffer copied built recorded)
        (fun _ => Inv pg nobody pa' nobody) (Inv pg nobody pa nobody).
Proof.
  intros Ho Ha'. unfold IAS_rebuild.
  apply hoare_getIAS; [auto |]. intros m.
  apply hoare_throwM; [intros w [Hw _]; exact Hw |]. intros Hready.
  apply hoare_throwM; [intros w [Hw _]; exact Hw |]. intros _.
  apply hoare_throwM; [intros w [Hw _]; exact Hw |]. intros _.
  apply hoare_throwM; [intros w [Hw _]; exact Hw |]. intros _.
  assert (Hle : forall o, pa' o = true -> pa o = true).
  { intros o. destruct (decide (o = a)) as [-> | Hne]; [exact Ha' |].
    rewrite (Ho _ Hne). auto. }
  eapply hoare_conseq with (P := Inv pg nobody pa (only a))
                           (E := Inv pg nobody pa (only a))
                           (Q := fun _ => Inv pg nobody pa' (only a));
    [ | | intros _; apply Inv_forget | apply Inv_forget].
  { intros w [Hw Em]. apply (Inv_learn_ias _ _ _ _ Hw Em). rewrite Hready. reflexivity. }
  do 13 hstep.
  eapply hoare_bind.
  { unfold Inv.
    apply hoare_updIAS
      with (PI' := fun a' x => IAS_ok (pa' a') x /\ (only a a' = true -> IAS_configured x)).
    - auto.
    - setter_ok.
    - intros a' x Hne. rewrite (Ho _ Hne). auto. }
  intros ?. cbv beta. fold (Inv pg nobody pa' (only a)).
  hstep. hstep. apply hoare_ret. auto.
Qed.

Lemma IAS_prepareForCompact_hoare pa' synchronized readback :
  (forall o, o <> a -> pa' o = pa o) -> pa' a = true ->
  hoare (Inv pg nobody pa nobody) (IAS_prepareForCompact a synchronized readback)
        (fun _ => Inv pg nobody pa' nobody) (Inv pg nobody pa nobody).
Proof.
  intros Ho Ha'. unfold IAS_prepareForCompact.
  assert (Hle : forall o, pa o = true -> pa' o = true).
  { intros o. destruct (decide (o = a)) as [-> | Hne]; [auto |].
    rewrite (Ho _ Hne). auto. }
  hstep. hstep. hstep.
  match goal with |- context [if ?b then _ else _] => destruct b end.
  { apply hoare_ret. intros w. apply Inv_mono; auto. }
  hstep. hstep. hstep.
  eapply hoare_bind.
  { unfold Inv.
    apply hoare_updIAS
      with (PI' := fun a' x => IAS_ok (pa' a') x /\ (nobody a' = true -> IAS_configured x)).
    - auto.
    - setter_ok.
    - intros a' x Hne. rewrite (Ho _ Hne). auto. }
  intros ?. cbv beta. apply hoare_ret. auto.
Qed.

Lemma IAS_compact_hoare compactedAccelBuffer compacted recorded :
  hoare (Inv pg nobody pa nobody) (IAS_compact a compactedAccelBuffer compacted recorded)
        (fun _ => Inv pg nobody pa nobody) (Inv pg nobody pa nobody).
Proof.
  unfold IAS_compact.
  apply hoare_getIAS; [auto |]. intros m.
  apply hoare_throwM; [intros w [Hw _]; exact Hw |]. intros _.
  apply hoare_throwM; [intros w [Hw _]; exact Hw |]. intros _.
  apply hoare_throwM; [intros w [Hw _]; exact Hw |]. intros Havailable.
  apply hoare_throwM; [intros w [Hw _]; exact Hw |]. intros _.
  eapply hoare_conseq with (P := Inv pg nobody pa (only a))
                           (E := Inv pg nobody pa (only a))
                           (Q := fun _ => Inv pg nobody pa (only a));
    [ | | intros _; apply Inv_forget | apply Inv_forget].
  { intros w [Hw Em]. apply (Inv_learn_ias _ _ _ _ Hw Em). rewrite Havailable.
    destruct (IAS.readyToBuild m); reflexivity. }
  do 5 hstep. apply hoare_ret. auto.
Qed.

Lemma IAS_setConfiguration_hoare tradeoff allowUpdate allowCompaction :
  hoare (Inv pg nobody pa nobody)
        (IAS_setConfiguration a tradeoff allowUpdate allowCompaction)
        (fun _ => Inv pg nobody pa nobody) (Inv pg nobody pa nobody).
Proof.
  apply hoare_preserves. intros w Hw. unfold IAS_setConfiguration.
  rewrite run_getIAS. destruct (deref (iass w) a _) as [m | e] eqn:Em; [| exact Hw].
  apply deref_ok_inv in Em.
  rewrite (bind_updIAS _ _ _ _ _ Em).
  rewrite (bind_updIAS _ _ _ _ _ (lookup_set_iass_insert _ _ _)), set_iass_insert_insert.
  rewrite (bind_updIAS _ _ _ _ _ (lookup_set_iass_insert _ _ _)), set_iass_insert_insert.
  destruct Hw as [Hg Hi]. destruct (Hi _ _ Em) as [[Hc Hr] _].
  match goal with |- context [if ?b then _ else _] => destruct b eqn:Hchanged end.
  - rewrite (IAS_Priv_markDirty_run _ _ _ (lookup_set_iass_insert _ _ _)).
    rewrite set_iass_insert_insert. cbn [fst].
    apply Wsat_insert_ias; [split; assumption |].
    split; [| discriminate]. destruct m; split; cbn; [discriminate | discriminate].
  - cbn [ret fst]. apply Wsat_insert_ias; [split; assumption |].
    split; [| discriminate].
    apply orb_false_elim in Hchanged as [Hchanged Hcc].
    apply orb_false_elim in Hchanged as [_ Hcu].
    apply negb_false_iff, eqb_prop in Hcc, Hcu.
    destruct m; cbn in *. subst allowUpdate allowCompaction. split; assumption.
Qed.

Lemma createIAS_hoare pa' s pos ind buildInput :
  (forall o, o <> a -> pa' o = pa o) -> (pa' a = true -> pa a = true) ->
  hoare (Inv pg nobody pa nobody)
        (Scene_createInstanceAccelerationStructure s a pos ind buildInput)
        (fun _ => Inv pg nobody pa' nobody) (Inv pg nobody pa nobody).
Proof.
  intros Ho Ha'. unfold Scene_createInstanceAccelerationStructure.
  assert (Hle : forall o, pa' o = true -> pa o = true).
  { intros o. destruct (decide (o = a)) as [-> | Hne]; [exact Ha' |].
    rewrite (Ho _ Hne). auto. }
  apply hoare_get; [auto |]. intros w0.
  destruct (iass w0 !! a) as [x |] eqn:Ea.
  { intros w [Hw _]. exact Hw. }
  eapply hoare_bind with (R := fun _ => Inv pg nobody pa' nobody).
  { intros w [[Hg Hi] ->]. cbn [modify]. split; [exact Hg |].
    intros a' x'. cbn. destruct (decide (a' = a)) as [-> | Hne].
    - rewrite lookup_insert_eq. intros [= <-].
      split; [split; cbn; discriminate | discriminate].
    - rewrite lookup_insert_ne by congruence. rewrite (Ho _ Hne). apply Hi. }
  intros ?. hstep. apply hoare_ret. auto.
Qed.

End IASCalls.

(** The conditions on [tracked] before and after a call. *)
Ltac tracked_solve :=
  intros; unfold tracked in *; cbn [andb] in *; repeat case_bool_decide; subst;
  congruence.

Lemma plain_call_prepared c :
  plain_call c = true ->
  forall g a pg pa ok,
    GAS_prepared_step g pg c ok = pg /\ IAS_prepared_step a pa c ok = pa.
Proof. intros Hc g a pg pa ok. destruct c; try discriminate Hc; split; reflexivity. Qed.

Lemma failed_call_prepared c g a pg pa :
  GAS_prepared_step g pg c false = pg /\ IAS_prepared_step a pa c false = pa.
Proof. destruct c; split; reflexivity. Qed.

Lemma call_step (Hind : build_flags_independent) g a pg pa c :
  hoare (Inv (tracked g pg) nobody (tracked a pa) nobody) (run c)
        (fun _ => Inv (tracked g (GAS_prepared_step g pg c true)) nobody
                      (tracked a (IAS_prepared_step a pa c true)) nobody)
        (Inv (tracked g pg) nobody (tracked a pa) nobody).
Proof.
  destruct (plain_call c) eqn:Hc.
  { destruct (plain_call_prepared c Hc g a pg pa true) as [-> ->].
    apply hoare_preserves, plain_call_preserves, Hc. }
  destruct c; try discriminate Hc; cbn [run GAS_prepared_step IAS_prepared_step].
  - apply hoare_void, createGAS_hoare; tracked_solve.
  - apply GAS_setConfiguration_hoare.
  - apply hoare_void, GAS_prepareForBuild_hoare, Hind.
  - apply hoare_void, GAS_rebuild_hoare; tracked_solve.
  - apply hoare_void, GAS_prepareForCompact_hoare; tracked_solve.
  - apply hoare_void, GAS_compact_hoare.
  - apply hoare_void, createIAS_hoare; tracked_solve.
  - apply IAS_setConfiguration_hoare.
  - apply hoare_void, IAS_prepareForBuild_hoare, Hind.
  - apply hoare_void, IAS_rebuild_hoare; tracked_solve.
  - apply hoare_void, IAS_prepareForCompact_hoare; tracked_solve.
  - apply hoare_void, IAS_compact_hoare.
Qed.

Lemma history_step_invariant (Hind : build_flags_independent) g a h c :
  lifecycle_invariant g a h -> lifecycle_invariant g a (history_step g a h c).
Proof.
  destruct h as [[w pg] pa]. unfold lifecycle_invariant, history_step. intros Hw.
  pose proof (call_step Hind g a pg pa c w Hw) as Hs.
  destruct (run c w) as [w' [u | e]]; cbn [fst snd is_ok].
  - exact Hs.
  - destruct (failed_call_prepared c g a pg pa) as [-> ->]. exact Hs.
Qed.

Lemma history_invariant (Hind : build_flags_independent) g a calls :
  lifecycle_invariant g a (history g a calls empty_world).
Proof.
  unfold history.
  assert (H0 : lifecycle_invariant g a (empty_world, false, false)).
  { split; intros o x E; cbn in E; rewrite lookup_empty in E; discriminate. }
  revert H0. generalize (empty_world, false, false). 
  induction calls as [| c calls IH]; intros h Hh; [exact Hh |].
  cbn [foldl]. apply IH, history_step_invariant; assumption.
Qed.

End LifecycleProofs.

Section LifecycleChecks.
Context `{OptixSDK}.

Lemma tracked_same o p : tracked o p o = p.
Proof. unfold tracked. rewrite bool_decide_eq_true_2; reflexivity. Qed.

Lemma GAS_compact_unprepared g x w buf compacted recorded :
  gass w !! g = Some x -> GAS_ok false x ->
  exists msg, GAS_compact g buf compacted recorded w = (w, Err (RuntimeError msg)).
Proof.
  intros Ex [_ Hr]. unfold GAS_compact.
  rewrite run_getGAS, (deref_lookup _ _ _ _ Ex), bind_throwM.
  destruct (compactionEnabled (GAS.buildOptions x)); [| eexists; reflexivity].
  rewrite bind_throwM. destruct (GAS.readyToCompact x); [| eexists; reflexivity].
  discriminate (Hr eq_refl).
Qed.

Lemma GAS_prepareForCompact_unconfigured g x w p synchronized readback :
  gass w !! g = Some x -> GAS_ok p x -> GAS.allowCompaction x = false ->
  exists msg,
    GAS_prepareForCompact g synchronized readback w = (w, Err (RuntimeError msg)).
Proof.
  intros Ex [Hc _] Hno. unfold GAS_prepareForCompact.
  rewrite run_getGAS, (deref_lookup _ _ _ _ Ex), bind_throwM.
  destruct (compactionEnabled (GAS.buildOptions x)) eqn:Hce; [| eexists; reflexivity].
  rewrite bind_throwM. destruct (GAS.available x) eqn:Hav; [| eexists; reflexivity].
  exfalso. destruct Hc as [_ Hcc].
  - rewrite ?Hav. destruct (GAS.readyToBuild x); reflexivity.
  - congruence.
Qed.

Lemma GAS_update_unconfigured g x w p scratchBuffer built :
  gass w !! g = Some x -> GAS_ok p x -> GAS.allowUpdate x = false ->
  exists msg, GAS_update g scratchBuffer built w = (w, Err (RuntimeError msg)).
Proof.
  intros Ex [Hc _] Hno. unfold GAS_update.
  rewrite run_getGAS, (deref_lookup _ _ _ _ Ex), bind_throwM.
  destruct (updateEnabled (GAS.buildOptions x)) eqn:Hue; [| eexists; reflexivity].
  rewrite bind_throwM.
  destruct (GAS.available x || GAS.compactedAvailable x) eqn:Hav; [| eexists; reflexivity].
  exfalso. destruct Hc as [Hcu _].
  - rewrite <- orb_assoc, ?Hav. apply orb_true_r.
  - congruence.
Qed.

Lemma IAS_compact_unprepared a x w buf compacted recorded :
  iass w !! a = Some x -> IAS_ok false x ->
  exists msg, IAS_compact a buf compacted recorded w = (w, Err (RuntimeError msg)).
Proof.
  intros Ex [_ Hr]. unfold IAS_compact.
  rewrite run_getIAS, (deref_lookup _ _ _ _ Ex), bind_throwM.
  destruct (compactionEnabled (IAS.buildOptions x)); [| eexists; reflexivity].
  rewrite bind_throwM. destruct (IAS.readyToCompact x); [| eexists; reflexivity].
  discriminate (Hr eq_refl).
Qed.

Lemma IAS_prepareForCompact_unconfigured a x w p synchronized readback :
  iass w !! a = Some x -> IAS_ok p x -> IAS.allowCompaction x = false ->
  exists msg,
    IAS_prepareForCompact a synchronized readback w = (w, Err (RuntimeError msg)).
Proof.
  intros Ex [Hc _] Hno. unfold IAS_prepareForCompact.
  rewrite run_getIAS, (deref_lookup _ _ _ _ Ex), bind_throwM.
  destruct (compactionEnabled (IAS.buildOptions x)) eqn:Hce; [| eexists; reflexivity].
  rewrite bind_throwM. destruct (IAS.available x) eqn:Hav; [| eexists; reflexivity].
  exfalso. destruct Hc as [_ Hcc].
  - rewrite ?Hav. destruct (IAS.readyToBuild x); reflexivity.
  - congruence.
Qed.

Lemma IAS_update_unconfigured a x w p scratchBuffer copied built :
  iass w !! a = Some x -> IAS_ok p x -> IAS.allowUpdate x = false ->
  exists msg, IAS_update a scratchBuffer copied built w = (w, Err (RuntimeError msg)).
Proof.
  intros Ex [Hc _] Hno. unfold IAS_update.
  rewrite run_getIAS, (deref_lookup _ _ _ _ Ex), bind_throwM.
  destruct (updateEnabled (IAS.buildOptions x)) eqn:Hue; [| eexists; reflexivity].
  rewrite bind_throwM.
  destruct (IAS.available x || IAS.compactedAvailable x) eqn:Hav; [| eexists; reflexivity].
  exfalso. destruct Hc as [Hcu _].
  - rewrite <- orb_assoc, ?Hav. apply orb_true_r.
  - congruence.
Qed.

End LifecycleChecks.

(** C4.  After any sequence of calls from the empty world, for a GAS [g]
    and an IAS [a] of the world: [compact] throws a validation error when
    [prepareForCompact] has not succeeded on the object since its last
    successful [rebuild]; [prepareForCompact] throws a validation error when
    the object is configured with [allowCompaction = false]; [update] throws
    a validation error when it is configured with [allowUpdate = false].
    Each of these calls leaves the world as it found it.  The build flags of
    the SDK are taken to be distinct bits. *)
Theorem lifecycle_calls_out_of_order_fail_validation `{OptixSDK} :
  build_flags_independent ->
  forall (calls : list Call) (g a : nat) (w : World) (pg pa : bool),
    history g a calls empty_world = (w, pg, pa) ->
    (forall x, gass w !! g = Some x ->
       (pg = false ->
        forall buf compacted recorded,
          exists msg, GAS_compact g buf compacted recorded w
                      = (w, Err (RuntimeError msg))) /\
       (GAS.allowCompaction x = false ->
        forall synchronized readback,
          exists msg, GAS_prepareForCompact g synchronized readback w
                      = (w, Err (RuntimeError msg))) /\
       (GAS.allowUpdate x = false ->
        forall scratchBuffer built,
          exists msg, GAS_update g scratchBuffer built w
                      = (w, Err (RuntimeError msg)))) /\
    (forall x, iass w !! a = Some x ->
       (pa = false ->
        forall buf compacted recorded,
          exists msg, IAS_compact a buf compacted recorded w
                      = (w, Err (RuntimeError msg))) /\
       (IAS.allowCompaction x = false ->
        forall synchronized readback,
          exists msg, IAS_prepareForCompact a synchronized readback w
                      = (w, Err (RuntimeError msg))) /\
       (IAS.allowUpdate x = false ->
        forall scratchBuffer copied built,
          exists msg, IAS_update a scratchBuffer copied built w
                      = (w, Err (RuntimeError msg)))).
Proof.
  intros Hind calls g a w pg pa Eh.
  pose proof (history_invariant Hind g a calls) as Hinv. rewrite Eh in Hinv.
  destruct Hinv as [Hg Hi]. split.
  - intros x Ex. destruct (Hg _ _ Ex) as [Hok _]. rewrite tracked_same in Hok.
    split; [| split].
    + intros -> buf compacted recorded. eapply GAS_compact_unprepared; eassumption.
    + intros Hno synchronized readback.
      eapply GAS_prepareForCompact_unconfigured; eassumption.
    + intros Hno scratchBuffer built. eapply GAS_update_unconfigured; eassumption.
  - intros x Ex. destruct (Hi _ _ Ex) as [Hok _]. rewrite tracked_same in Hok.
    split; [| split].
    + intros -> buf compacted recorded. eapply IAS_compact_unprepared; eassumption.
    + intros Hno synchronized readback.
      eapply IAS_prepareForCompact_unconfigured; eassumption.
    + intros Hno scratchBuffer copied built. eapply IAS_update_unconfigured; eassumption.
Qed.

Lemma optix7_build_flags_independent : @build_flags_independent optix7.
Proof.
  unfold build_flags_independent. cbn.
  repeat split; try lia; repeat constructor; cbn; lia.
Qed.

(** The script ends in [built_world]: the GAS is built and not prepared for
    compaction, so [compact] throws; the IAS has the default configuration,
    so [prepareForCompact] and [update] throw. *)
Lemma lifecycle_calls_out_of_order_witness :
  let h := @history optix7 0%nat 0%nat lifecycle_script empty_world in
  let w := fst (fst h) in
  w = built_world /\
  (exists msg, @GAS_compact optix7 0%nat (valid_buffer 4096 1024 1) (Some 5) true w
               = (w, Err (RuntimeError msg))) /\
  (exists msg, @IAS_prepareForCompact optix7 0%nat true (Some 512) w
               = (w, Err (RuntimeError msg))) /\
  (exists msg, @IAS_update optix7 0%nat (valid_buffer 16384 1024 1) true
                           (fun _ _ _ => Some 2002) w
               = (w, Err (RuntimeError msg))).
Proof.
  intros h w.
  assert (Eh : h = (w, false, false)) by (vm_compute; reflexivity).
  assert (Eg : exists x, gass w !! 0%nat = Some x)
    by (eexists; vm_compute; reflexivity).
  assert (Ea : exists x, iass w !! 0%nat = Some x /\ IAS.allowCompaction x = false
                         /\ IAS.allowUpdate x = false)
    by (eexists; vm_compute; repeat split; reflexivity).
  destruct Eg as [x Ex]. destruct Ea as (y & Ey & Hnc & Hnu).
  destruct (@lifecycle_calls_out_of_order_fail_validation optix7
              optix7_build_flags_independent lifecycle_script 0%nat 0%nat w false false Eh)
    as [HG HI].
  destruct (HG x Ex) as (Hcompact & _ & _).
  destruct (HI y Ey) as (_ & Hprepare & Hupdate).
  split; [vm_compute; reflexivity |].
  split; [apply Hcompact; reflexivity |].
  split; [apply Hprepare, Hnc | apply Hupdate, Hnu].
Defined.

(* ===================================================================== *)
(** * The cached layout under edits: C7 *)
(* ===================================================================== *)

Lemma preserves_Ssat_updScene PS s f :
  (forall x, PS s x -> PS s (f x)) -> preserves (Ssat PS) (updScene s f).
Proof.
  intros Hf w Hw. unfold updScene, bind, getScene, modify.
  destruct (deref (scenes w) s _) as [x | e] eqn:E; cbn; [| exact Hw].
  apply deref_ok_inv in E. intros s' sc'. cbn.
  destruct (decide (s' = s)) as [-> | Hne].
  - rewrite lookup_insert_eq. intros [= <-]. apply Hf, (Hw _ _ E).
  - rewrite lookup_insert_ne by congruence. apply Hw.
Qed.

Lemma preserves_Ssat_updGAS PS g f : preserves (Ssat PS) (updGAS g f).
Proof.
  intros w Hw. unfold updGAS, bind, getGAS, modify.
  destruct (deref (gass w) g _); exact Hw.
Qed.

Lemma preserves_Ssat_updIAS PS a f : preserves (Ssat PS) (updIAS a f).
Proof.
  intros w Hw. unfold updIAS, bind, getIAS, modify.
  destruct (deref (iass w) a _); exact Hw.
Qed.

Lemma preserves_Ssat_updGeomInst PS gi f : preserves (Ssat PS) (updGeomInst gi f).
Proof.
  intros w Hw. unfold updGeomInst, bind, getGeomInst, modify.
  destruct (deref (geomInsts w) gi _); exact Hw.
Qed.

Lemma preserves_Ssat_updTransform PS t f : preserves (Ssat PS) (updTransform t f).
Proof.
  intros w Hw. unfold updTransform, bind, getTransform, modify.
  destruct (deref (transforms w) t _); exact Hw.
Qed.

Lemma preserves_Ssat_updInstance PS i f : preserves (Ssat PS) (updInstance i f).
Proof.
  intros w Hw. unfold updInstance, bind, getInstance, modify.
  destruct (deref (instances w) i _); exact Hw.
Qed.

Lemma preserves_Ssat_updMaterial PS m f : preserves (Ssat PS) (updMaterial m f).
Proof.
  intros w Hw. unfold updMaterial, bind, getMaterial, modify.
  destruct (deref (materials w) m _); exact Hw.
Qed.

Lemma preserves_Ssat_set_materials PS f : preserves (Ssat PS) (modify (set_materials f)).
Proof. intros w Hw. exact Hw. Qed.
Lemma preserves_Ssat_set_geomInsts PS f : preserves (Ssat PS) (modify (set_geomInsts f)).
Proof. intros w Hw. exact Hw. Qed.
Lemma preserves_Ssat_set_gass PS f : preserves (Ssat PS) (modify (set_gass f)).
Proof. intros w Hw. exact Hw. Qed.
Lemma preserves_Ssat_set_iass PS f : preserves (Ssat PS) (modify (set_iass f)).
Proof. intros w Hw. exact Hw. Qed.
Lemma preserves_Ssat_set_transforms PS f : preserves (Ssat PS) (modify (set_transforms f)).
Proof. intros w Hw. exact Hw. Qed.
Lemma preserves_Ssat_set_instances PS f : preserves (Ssat PS) (modify (set_instances f)).
Proof. intros w Hw. exact Hw. Qed.

Lemma preserves_Ssat_insert_scene (PS : nat -> Scene.t -> Prop) s sc :
  PS s sc -> preserves (Ssat PS) (modify (set_scenes (insert s sc))).
Proof.
  intros Hsc w Hw s' sc'. cbn. destruct (decide (s' = s)) as [-> | Hne].
  - rewrite lookup_insert_eq. intros [= <-]. exact Hsc.
  - rewrite lookup_insert_ne by congruence. apply Hw.
Qed.

Create HintDb pres_scene discriminated.
#[export] Hint Resolve preserves_Ssat_updGAS preserves_Ssat_updIAS
  preserves_Ssat_updGeomInst preserves_Ssat_updTransform preserves_Ssat_updInstance
  preserves_Ssat_updMaterial preserves_Ssat_set_materials preserves_Ssat_set_geomInsts
  preserves_Ssat_set_gass preserves_Ssat_set_iass preserves_Ssat_set_transforms
  preserves_Ssat_set_instances : pres_scene.

(** A write to a scene that keeps what it caches while flagged up to date. *)
Ltac scene_setter_ok :=
  cbv beta; unfold layout_cache;
  let x := fresh "x" in
  intros x; destruct x; cbn; intuition congruence.

(** Proves [preserves (Ssat ...)] for a call whose writes to scenes keep the
    property one by one. *)
Ltac pres_scene :=
  first
    [ solve [apply preserves_reads; ro]
    | solve [auto with pres_scene]
    | apply preserves_bind; [pres_scene | intros ?; pres_scene]
    | apply preserves_void; pres_scene
    | apply preserves_for_each; intros ?; pres_scene
    | apply preserves_foldM; intros ? ?; pres_scene
    | apply preserves_Ssat_updScene; solve [scene_setter_ok]
    | apply preserves_Ssat_insert_scene; solve [cbn; intuition congruence]
    | progress cbv zeta; pres_scene
    | match goal with
      | |- preserves _ (if ?b then _ else _) => destruct b; pres_scene
      | |- preserves _ (match ?x with _ => _ end) => destruct x; pres_scene
      end ].

Section Idempotence.
Context `{OptixSDK}.

Lemma call_keeps_cache s cache c :
  c <> Call_generateShaderBindingTableLayout s ->
  preserves (caches s cache) (run c).
Proof.
  intros Hc. unfold caches.
  destruct c; cbn [run];
    unfold GAS_prepareForBuild, GAS_rebuild, IAS_prepareForBuild, IAS_rebuild;
    autounfold with ops.
  all: pres_scene.
Qed.

Lemma run_all_keeps_cache s cache edits : forall w,
  Forall (fun c => c <> Call_generateShaderBindingTableLayout s) edits ->
  caches s cache w -> caches s cache (run_all edits w).
Proof.
  induction edits as [| c edits IH]; intros w Hedits Hw; [exact Hw |].
  apply Forall_cons in Hedits as [Hc Hedits].
  change (run_all (c :: edits) w) with (run_all edits (fst (run c w))).
  apply IH; [exact Hedits |]. apply call_keeps_cache; assumption.
Qed.

(** ** C7 *)

(** C7.  When a call of [generateShaderBindingTableLayout] has returned
    and the calls made after it have not marked the layout dirty (the
    scene is still flagged up to date), a second call returns the same
    memory size and leaves the world as it is: nothing is recomputed, and
    the offset map, the stride and the record count are those the first
    call left. *)
Theorem generateShaderBindingTableLayout_idempotent
    (s : nat) (w w1 : World) (memorySize : Z) (edits : list Call) :
  Scene_generateShaderBindingTableLayout s w = (w1, Ok memorySize) ->
  Forall (fun c => c <> Call_generateShaderBindingTableLayout s) edits ->
  let w2 := run_all edits w1 in
  (exists sc2, scenes w2 !! s = Some sc2 /\ Scene.sbtLayoutIsUpToDate sc2 = true) ->
  Scene_generateShaderBindingTableLayout s w2 = (w2, Ok memorySize) /\
  exists sc1 sc2,
    scenes w1 !! s = Some sc1 /\ scenes w2 !! s = Some sc2 /\
    layout_cache sc2 = layout_cache sc1.
Proof.
  intros Hrun Hedits w2 (sc2 & Hsc2 & Hflag2).
  destruct (generate_leaves_clean s w w1 memorySize Hrun) as (sc1 & Hsc1 & _ & ->).
  assert (Hcache : caches s (layout_cache sc1) w1).
  { intros s' sc Hsc -> _. rewrite Hsc1 in Hsc. injection Hsc as <-. reflexivity. }
  apply (run_all_keeps_cache s _ edits w1 Hedits) in Hcache.
  specialize (Hcache s sc2 Hsc2 eq_refl Hflag2).
  split; [| exists sc1, sc2; auto].
  rewrite (generate_clean s w2 sc2 Hsc2 Hflag2). f_equal. f_equal.
  unfold layout_cache in Hcache. injection Hcache as _ Hstride Hcount.
  unfold Scene_memorySize. rewrite Hstride, Hcount. reflexivity.
Qed.

End Idempotence.

(** C7 at the example scene, with two edits that do not mark the layout
    dirty between the calls. *)
Lemma generateShaderBindingTableLayout_idempotent_witness :
  let edits := [Call_createMaterial 1%nat;
                Call_GeometryInstance_setPrimitiveIndexOffset 0%nat 7] in
  let w2 := @run_all optix7 edits example_laid_out in
  @Scene_generateShaderBindingTableLayout optix7 0%nat example_world
  = (example_laid_out, Ok 432) /\
  w2 <> example_laid_out /\
  @Scene_generateShaderBindingTableLayout optix7 0%nat w2 = (w2, Ok 432).
Proof.
  intros edits w2.
  split; [exact example_generate_run |].
  split.
  { intros E. apply (f_equal (fun w => size (materials w))) in E.
    vm_compute in E. discriminate E. }
  apply (@generateShaderBindingTableLayout_idempotent optix7
           0%nat example_world example_laid_out 432 edits example_generate_run).
  - repeat constructor; discriminate.
  - eexists. split; vm_compute; reflexivity.
Defined.

(* ===================================================================== *)
(** * SizeAlign: where [add] and [alignUp] put things *)
(* ===================================================================== *)

(** The rounding [add] and [alignUp] share, when it does not wrap. *)
Lemma round_up_mask s a :
  pow2_u32 a -> 0 <= s -> s + a <= u32_modulus ->
  Z.land (u32_add s (u32_sub a 1)) (u32_not (u32_sub a 1)) = a * ((s + a - 1) / a).
Proof.
  intros Hp Hs Hfit. pose proof (pow2_u32_range a Hp) as Ha.
  destruct Hp as (k & Hk & ->).
  unfold u32_add. unfold u32_sub at 1. rewrite u32_add_mod_r.
  rewrite (u32_small (s + (2 ^ k - 1))) by lia.
  rewrite land_not_mask by lia. f_equal. f_equal. lia.
Qed.

Lemma round_up_bounds s a :
  0 < a -> s <= a * ((s + a - 1) / a) < s + a.
Proof.
  intros Ha. pose proof (Z.div_mod (s + a - 1) a ltac:(lia)) as Hd.
  pose proof (Z.mod_pos_bound (s + a - 1) a Ha). lia.
Qed.

Lemma round_up_least s a m :
  0 < a -> (a | m) -> s <= m -> a * ((s + a - 1) / a) <= m.
Proof.
  intros Ha [q ->] Hm.
  assert ((s + a - 1) / a < q + 1); [| nia].
  apply Z.div_lt_upper_bound; [lia |]. nia.
Qed.

Lemma pow2_u32_divide_modulus a : pow2_u32 a -> (a | u32_modulus).
Proof.
  intros (k & Hk & ->). unfold u32_modulus.
  exists (2 ^ (32 - k)). rewrite <- Z.pow_add_r by lia. f_equal. lia.
Qed.

(** X1.  [add] with an item whose alignment is a power of two, when
    nothing wraps around 2^32: the offset it returns is the least multiple
    of the item's alignment that is not below the size accumulated so far,
    so the item begins at or after the end of what is there and less than one
    alignment after it; the new size is that offset plus the item's size, and
    the new alignment the larger of the two. *)
Theorem SizeAlign_add_appends_without_overlap (self sa : SizeAlign.t) :
  pow2_u32 (SizeAlign.alignment sa) ->
  0 <= SizeAlign.size self -> 0 <= SizeAlign.size sa ->
  SizeAlign.size self + SizeAlign.alignment sa + SizeAlign.size sa <= u32_modulus ->
  let self' := fst (SizeAlign.add self sa) in
  let offset := snd (SizeAlign.add self sa) in
  SizeAlign.size self <= offset < SizeAlign.size self + SizeAlign.alignment sa /\
  (SizeAlign.alignment sa | offset) /\
  (forall m, (SizeAlign.alignment sa | m) -> SizeAlign.size self <= m -> offset <= m) /\
  SizeAlign.size self' = offset + SizeAlign.size sa /\
  SizeAlign.alignment self'
  = Z.max (SizeAlign.alignment self) (SizeAlign.alignment sa).
Proof.
  intros Hp Hs Hsa Hfit self' offset. subst self' offset.
  pose proof (pow2_u32_range _ Hp) as Ha.
  destruct self as [s al], sa as [n a]. cbn in *.
  rewrite (round_up_mask s a Hp Hs) by lia.
  pose proof (round_up_bounds s a ltac:(lia)) as Hb.
  split; [exact Hb |]. split; [apply Z.divide_factor_l |].
  split; [intros m Hm Hle; apply round_up_least; (lia || assumption) |].
  split; [| reflexivity].
  unfold u32_add. apply u32_small. lia.
Qed.

Lemma SizeAlign_add_appends_without_overlap_witness :
  let self := SizeAlign.mk 36 16 in
  let sa := SizeAlign.mk 12 8 in
  SizeAlign.add self sa = (SizeAlign.mk 52 16, 40) /\
  36 <= snd (SizeAlign.add self sa) < 36 + 8.
Proof.
  intros self sa. split; [reflexivity |].
  apply (SizeAlign_add_appends_without_overlap self sa).
  - exists 3. split; [lia | reflexivity].
  - cbn. lia.
  - cbn. lia.
  - cbn. unfold u32_modulus. lia.
Defined.

Lemma alignUp_round_up s a :
  pow2_u32 a -> 0 <= s -> s + a <= u32_modulus ->
  SizeAlign.alignUp (SizeAlign.mk s a) = SizeAlign.mk (a * ((s + a - 1) / a)) a.
Proof.
  intros Hp Hs Hfit. unfold SizeAlign.alignUp.
  cbn [SizeAlign.size SizeAlign.alignment].
  rewrite (round_up_mask s a Hp Hs Hfit). reflexivity.
Qed.

(** X2.  [alignUp] on an accumulator whose alignment is a power of two,
    when nothing wraps: the size becomes the least multiple of the alignment
    that is not below it (it grows by less than the alignment), the alignment
    stays, and a second [alignUp] changes nothing. *)
Theorem SizeAlign_alignUp_rounds_up_once (self : SizeAlign.t) :
  pow2_u32 (SizeAlign.alignment self) ->
  0 <= SizeAlign.size self ->
  SizeAlign.size self + SizeAlign.alignment self <= u32_modulus ->
  let self' := SizeAlign.alignUp self in
  SizeAlign.size self <= SizeAlign.size self'
    < SizeAlign.size self + SizeAlign.alignment self /\
  (SizeAlign.alignment self | SizeAlign.size self') /\
  (forall m, (SizeAlign.alignment self | m) -> SizeAlign.size self <= m ->
             SizeAlign.size self' <= m) /\
  SizeAlign.alignment self' = SizeAlign.alignment self /\
  SizeAlign.alignUp self' = self'.
Proof.
  intros Hp Hs Hfit self'. subst self'.
  pose proof (pow2_u32_range _ Hp) as Ha.
  destruct self as [s a]. cbn [SizeAlign.size SizeAlign.alignment] in *.
  rewrite (alignUp_round_up s a Hp Hs Hfit).
  cbn [SizeAlign.size SizeAlign.alignment].
  pose proof (round_up_bounds s a ltac:(lia)) as Hb.
  split; [exact Hb |]. split; [apply Z.divide_factor_l |].
  split; [intros m Hm Hle; apply round_up_least; (lia || assumption) |].
  split; [reflexivity |].
  set (r := a * ((s + a - 1) / a)) in *.
  assert (Hr : r + a <= u32_modulus).
  { destruct (Z.eq_dec r s) as [-> | Hne]; [lia |].
    assert (Hd : (a | u32_modulus)).
    { apply pow2_u32_divide_modulus, Hp. }
    assert (Hle : r <= u32_modulus - a); [| lia].
    destruct Hd as [q Hq]. unfold r in *.
    assert ((s + a - 1) / a < q); [| nia].
    apply Z.div_lt_upper_bound; lia. }
  rewrite (alignUp_round_up r a Hp) by lia. f_equal.
  unfold r at 1.
  replace (a * ((s + a - 1) / a) + a - 1) with ((a - 1) + ((s + a - 1) / a) * a) by lia.
  rewrite Z.div_add by lia. rewrite Z.div_small by lia. unfold r. lia.
Qed.

Lemma SizeAlign_alignUp_rounds_up_once_witness :
  let self := SizeAlign.mk 52 16 in
  SizeAlign.alignUp self = SizeAlign.mk 64 16 /\
  SizeAlign.alignUp (SizeAlign.alignUp self) = SizeAlign.alignUp self.
Proof.
  intros self. split; [reflexivity |].
  apply (SizeAlign_alignUp_rounds_up_once self).
  - exists 4. split; [lia | reflexivity].
  - cbn. lia.
  - cbn. unfold u32_modulus. lia.
Defined.

(* ===================================================================== *)
(** * What a call that returned has done *)
(* ===================================================================== *)

Lemma getGAS_ok_inv g w w' x :
  getGAS g w = (w', Ok x) -> w' = w /\ gass w !! g = Some x.
Proof.
  unfold getGAS. intros [= <- E]. split; [reflexivity | apply (deref_ok_inv _ _ _ _ E)].
Qed.

Lemma getIAS_ok_inv a w w' x :
  getIAS a w = (w', Ok x) -> w' = w /\ iass w !! a = Some x.
Proof.
  unfold getIAS. intros [= <- E]. split; [reflexivity | apply (deref_ok_inv _ _ _ _ E)].
Qed.

Lemma getScene_ok_inv s w w' x :
  getScene s w = (w', Ok x) -> w' = w /\ scenes w !! s = Some x.
Proof.
  unfold getScene. intros [= <- E]. split; [reflexivity | apply (deref_ok_inv _ _ _ _ E)].
Qed.

Lemma getGeomInst_ok_inv gi w w' x :
  getGeomInst gi w = (w', Ok x) -> w' = w /\ geomInsts w !! gi = Some x.
Proof.
  unfold getGeomInst. intros [= <- E].
  split; [reflexivity | apply (deref_ok_inv _ _ _ _ E)].
Qed.

Lemma throwM_ok_inv b fmt w w' u :
  throwM b fmt w = (w', Ok u) -> w' = w /\ b = true.
Proof. unfold throwM, lift. destruct b; cbn; intros [= <-]; auto. Qed.

Lemma backend_check_ok_inv {A} (o : option A) call w w' a :
  backend_check o call w = (w', Ok a) -> w' = w /\ o = Some a.
Proof. unfold backend_check, lift. destruct o; intros [= <- E]; subst; auto. Qed.

Lemma lift_ok_inv {A} (r : result A) w w' a :
  lift r w = (w', Ok a) -> w' = w /\ r = Ok a.
Proof. unfold lift. intros [= <- ->]. auto. Qed.

Lemma get_ok_inv w w' w0 : get w = (w', Ok w0) -> w' = w /\ w0 = w.
Proof. unfold get. intros [= <- <-]. auto. Qed.

Lemma ret_ok_inv {A} (a b : A) w w' : ret a w = (w', Ok b) -> w' = w /\ b = a.
Proof. unfold ret. intros [= <- <-]. auto. Qed.

Lemma updGAS_ok_inv g f w w' u :
  updGAS g f w = (w', Ok u) ->
  exists x, gass w !! g = Some x /\ w' = set_gass (insert g (f x)) w.
Proof.
  unfold updGAS. rewrite run_getGAS.
  destruct (deref (gass w) g _) as [x | e] eqn:E; [| discriminate].
  apply deref_ok_inv in E. unfold modify. intros [= <-]. eauto.
Qed.

Lemma updIAS_ok_inv a f w w' u :
  updIAS a f w = (w', Ok u) ->
  exists x, iass w !! a = Some x /\ w' = set_iass (insert a (f x)) w.
Proof.
  unfold updIAS. rewrite run_getIAS.
  destruct (deref (iass w) a _) as [x | e] eqn:E; [| discriminate].
  apply deref_ok_inv in E. unfold modify. intros [= <-]. eauto.
Qed.

Lemma updScene_ok_inv s f w w' u :
  updScene s f w = (w', Ok u) ->
  exists x, scenes w !! s = Some x /\ w' = set_scenes (insert s (f x)) w.
Proof.
  unfold updScene. rewrite run_getScene.
  destruct (deref (scenes w) s _) as [x | e] eqn:E; [| discriminate].
  apply deref_ok_inv in E. unfold modify. intros [= <-]. eauto.
Qed.

Lemma getTransform_ok_inv t w w' x :
  getTransform t w = (w', Ok x) -> w' = w /\ transforms w !! t = Some x.
Proof.
  unfold getTransform. intros [= <- E].
  split; [reflexivity | apply (deref_ok_inv _ _ _ _ E)].
Qed.

Lemma updTransform_ok_inv t f w w' u :
  updTransform t f w = (w', Ok u) ->
  exists x, transforms w !! t = Some x /\ w' = set_transforms (insert t (f x)) w.
Proof.
  unfold updTransform, bind, getTransform, modify.
  destruct (deref (transforms w) t _) as [x | e] eqn:E; [| discriminate].
  apply deref_ok_inv in E. intros [= <-]. eauto.
Qed.

Lemma run_updTransform t f x w :
  transforms w !! t = Some x -> updTransform t f w = (set_transforms (insert t (f x)) w, Ok tt).
Proof.
  intros E. unfold updTransform, bind, getTransform, modify.
  rewrite (deref_lookup _ _ _ _ E). reflexivity.
Qed.

Lemma run_getTransform {B} t (k : _ -> M B) x w :
  transforms w !! t = Some x -> bind (getTransform t) k w = k x w.
Proof. intros E. unfold bind, getTransform. rewrite (deref_lookup _ _ _ _ E). reflexivity. Qed.

Lemma lookup_set_transforms_insert t x w :
  transforms (set_transforms (insert t x) w) !! t = Some x.
Proof. cbn. apply lookup_insert_eq. Qed.

Lemma getInstance_ok_inv i w w' x :
  getInstance i w = (w', Ok x) -> w' = w /\ instances w !! i = Some x.
Proof.
  unfold getInstance. intros [= <- E].
  split; [reflexivity | apply (deref_ok_inv _ _ _ _ E)].
Qed.

Lemma updInstance_ok_inv i f w w' u :
  updInstance i f w = (w', Ok u) ->
  exists x, instances w !! i = Some x /\ w' = set_instances (insert i (f x)) w.
Proof.
  unfold updInstance, bind, getInstance, modify.
  destruct (deref (instances w) i _) as [x | e] eqn:E; [| discriminate].
  apply deref_ok_inv in E. intros [= <-]. eauto.
Qed.

Lemma run_updInstance i f x w :
  instances w !! i = Some x -> updInstance i f w = (set_instances (insert i (f x)) w, Ok tt).
Proof.
  intros E. unfold updInstance, bind, getInstance, modify.
  rewrite (deref_lookup _ _ _ _ E). reflexivity.
Qed.

Lemma run_getInstance {B} i (k : _ -> M B) x w :
  instances w !! i = Some x -> bind (getInstance i) k w = k x w.
Proof. intros E. unfold bind, getInstance. rewrite (deref_lookup _ _ _ _ E). reflexivity. Qed.

Lemma lookup_set_instances_insert i x w :
  instances (set_instances (insert i x) w) !! i = Some x.
Proof. cbn. apply lookup_insert_eq. Qed.

Lemma getMaterial_ok_inv m w w' x :
  getMaterial m w = (w', Ok x) -> w' = w /\ materials w !! m = Some x.
Proof.
  unfold getMaterial. intros [= <- E].
  split; [reflexivity | apply (deref_ok_inv _ _ _ _ E)].
Qed.

Lemma updMaterial_ok_inv m f w w' u :
  updMaterial m f w = (w', Ok u) ->
  exists x, materials w !! m = Some x /\ w' = set_materials (insert m (f x)) w.
Proof.
  unfold updMaterial, bind, getMaterial, modify.
  destruct (deref (materials w) m _) as [x | e] eqn:E; [| discriminate].
  apply deref_ok_inv in E. intros [= <-]. eauto.
Qed.

Lemma run_updMaterial m f x w :
  materials w !! m = Some x -> updMaterial m f w = (set_materials (insert m (f x)) w, Ok tt).
Proof.
  intros E. unfold updMaterial, bind, getMaterial, modify.
  rewrite (deref_lookup _ _ _ _ E). reflexivity.
Qed.

Lemma run_getMaterial {B} m (k : _ -> M B) x w :
  materials w !! m = Some x -> bind (getMaterial m) k w = k x w.
Proof. intros E. unfold bind, getMaterial. rewrite (deref_lookup _ _ _ _ E). reflexivity. Qed.

Lemma lookup_set_materials_insert m x w :
  materials (set_materials (insert m x) w) !! m = Some x.
Proof. cbn. apply lookup_insert_eq. Qed.

Lemma updGeomInst_ok_inv gi f w w' u :
  updGeomInst gi f w = (w', Ok u) ->
  exists x, geomInsts w !! gi = Some x /\ w' = set_geomInsts (insert gi (f x)) w.
Proof.
  unfold updGeomInst, bind, getGeomInst, modify.
  destruct (deref (geomInsts w) gi _) as [x | e] eqn:E; [| discriminate].
  apply deref_ok_inv in E. intros [= <-]. eauto.
Qed.

Lemma run_updGeomInst gi f x w :
  geomInsts w !! gi = Some x -> updGeomInst gi f w = (set_geomInsts (insert gi (f x)) w, Ok tt).
Proof.
  intros E. unfold updGeomInst, bind, getGeomInst, modify.
  rewrite (deref_lookup _ _ _ _ E). reflexivity.
Qed.

Lemma run_getGeomInst {B} gi (k : _ -> M B) x w :
  geomInsts w !! gi = Some x -> bind (getGeomInst gi) k w = k x w.
Proof. intros E. unfold bind, getGeomInst. rewrite (deref_lookup _ _ _ _ E). reflexivity. Qed.

Lemma lookup_set_geomInsts_insert gi x w :
  geomInsts (set_geomInsts (insert gi x) w) !! gi = Some x.
Proof. cbn. apply lookup_insert_eq. Qed.

(** Takes a run that returned apart, call by call. *)
Ltac run_inv H :=
  lazymatch type of H with
  | bind _ _ _ = (_, Ok _) =>
      let w1 := fresh "w" in
      let a := fresh "a" in
      let H1 := fresh "Hstep" in
      apply bind_ok_inv in H as (w1 & a & H1 & H);
      run_inv H1; cbv beta in H; run_inv H
  | getGAS _ _ = (_, Ok _) => apply getGAS_ok_inv in H as [-> H]
  | getIAS _ _ = (_, Ok _) => apply getIAS_ok_inv in H as [-> H]
  | getScene _ _ = (_, Ok _) => apply getScene_ok_inv in H as [-> H]
  | getGeomInst _ _ = (_, Ok _) => apply getGeomInst_ok_inv in H as [-> H]
  | throwM _ _ _ = (_, Ok _) => apply throwM_ok_inv in H as [-> H]
  | backend_check _ _ _ = (_, Ok _) => apply backend_check_ok_inv in H as [-> H]
  | ret _ _ = (_, Ok _) => apply ret_ok_inv in H as [-> H]
  | lift _ _ = (_, Ok _) => apply lift_ok_inv in H as [-> H]
  | get _ = (_, Ok _) => apply get_ok_inv in H as [-> ->]
  | updGAS _ _ _ = (_, Ok _) =>
      let x := fresh "x" in
      let E := fresh "E" in
      apply updGAS_ok_inv in H as (x & E & H)
  | updIAS _ _ _ = (_, Ok _) =>
      let x := fresh "x" in
      let E := fresh "E" in
      apply updIAS_ok_inv in H as (x & E & H)
  | getTransform _ _ = (_, Ok _) => apply getTransform_ok_inv in H as [-> H]
  | updTransform _ _ _ = (_, Ok _) =>
      let x := fresh "x" in
      let E := fresh "E" in
      apply updTransform_ok_inv in H as (x & E & H)
  | getInstance _ _ = (_, Ok _) => apply getInstance_ok_inv in H as [-> H]
  | updInstance _ _ _ = (_, Ok _) =>
      let x := fresh "x" in
      let E := fresh "E" in
      apply updInstance_ok_inv in H as (x & E & H)
  | getMaterial _ _ = (_, Ok _) => apply getMaterial_ok_inv in H as [-> H]
  | updMaterial _ _ _ = (_, Ok _) =>
      let x := fresh "x" in
      let E := fresh "E" in
      apply updMaterial_ok_inv in H as (x & E & H)
  | updGeomInst _ _ _ = (_, Ok _) =>
      let x := fresh "x" in
      let E := fresh "E" in
      apply updGeomInst_ok_inv in H as (x & E & H)
  | updScene _ _ _ = (_, Ok _) =>
      let x := fresh "x" in
      let E := fresh "E" in
      apply updScene_ok_inv in H as (x & E & H)
  | _ => idtac
  end.

(** Brings the worlds of a run taken apart back to the one it started
    from. *)
Ltac run_subst :=
  repeat match goal with
         | H : ?w' = set_gass _ _ |- _ => is_var w'; subst w'
         | H : ?w' = set_iass _ _ |- _ => is_var w'; subst w'
         | H : ?w' = set_scenes _ _ |- _ => is_var w'; subst w'
         | H : gass (set_gass (insert ?g _) _) !! ?g = Some ?x |- _ =>
             rewrite lookup_set_gass_insert in H; injection H as H;
             first [subst x | symmetry in H; subst x | idtac]
         | H : iass (set_iass (insert ?a _) _) !! ?a = Some ?x |- _ =>
             rewrite lookup_set_iass_insert in H; injection H as H;
             first [subst x | symmetry in H; subst x | idtac]
         | H : (if ?b then Some tt else None) = Some _ |- _ =>
             destruct b; [clear H | discriminate H]
         | H : ?w' = set_transforms _ _ |- _ => is_var w'; subst w'
         | H : transforms (set_transforms (insert ?p _) _) !! ?p = Some ?x |- _ =>
             rewrite lookup_set_transforms_insert in H; injection H as H;
             first [subst x | symmetry in H; subst x | idtac]
         | H : ?w' = set_instances _ _ |- _ => is_var w'; subst w'
         | H : instances (set_instances (insert ?p _) _) !! ?p = Some ?x |- _ =>
             rewrite lookup_set_instances_insert in H; injection H as H;
             first [subst x | symmetry in H; subst x | idtac]
         | H : ?w' = set_materials _ _ |- _ => is_var w'; subst w'
         | H : materials (set_materials (insert ?p _) _) !! ?p = Some ?x |- _ =>
             rewrite lookup_set_materials_insert in H; injection H as H;
             first [subst x | symmetry in H; subst x | idtac]
         | H : ?w' = set_geomInsts _ _ |- _ => is_var w'; subst w'
         | H : geomInsts (set_geomInsts (insert ?p _) _) !! ?p = Some ?x |- _ =>
             rewrite lookup_set_geomInsts_insert in H; injection H as H;
             first [subst x | symmetry in H; subst x | idtac]
         | u : unit |- _ => destruct u
         end.

(** ** Marking dirty *)

Lemma IAS_Priv_markDirty_ok_inv i w w' u :
  IAS_Priv_markDirty i w = (w', Ok u) ->
  exists x, iass w !! i = Some x /\ w' = set_iass (insert i (dirty_ias x)) w.
Proof.
  intros Hrun. destruct (iass w !! i) as [x |] eqn:E.
  - rewrite (IAS_Priv_markDirty_run i x w E) in Hrun. injection Hrun as <- _. eauto.
  - unfold IAS_Priv_markDirty in Hrun. run_inv Hrun. congruence.
Qed.

Lemma markDirty_loop_ok_inv l : forall w w' u,
  for_each l IAS_Priv_markDirty w = (w', Ok u) ->
  forall i, i ∈ l -> is_Some (iass w !! i).
Proof.
  induction l as [| j l IH]; intros w w' u Hrun i Hi; [inversion Hi |].
  cbn [for_each] in Hrun. apply bind_ok_inv in Hrun as (w1 & [] & Hj & Hrun).
  apply IAS_Priv_markDirty_ok_inv in Hj as (x & Ex & ->).
  apply elem_of_cons in Hi as [-> | Hi]; [eauto |].
  specialize (IH _ _ _ Hrun i Hi). cbn in IH.
  destruct (decide (j = i)) as [<- | Hne]; [eauto |].
  rewrite lookup_insert_ne in IH by exact Hne. exact IH.
Qed.

Lemma Scene_markSBTLayoutDirty_ok_inv s w w' u :
  Scene_markSBTLayoutDirty s w = (w', Ok u) ->
  exists sc, scenes w !! s = Some sc /\
             (forall i, i ∈ Scene.instASs sc -> is_Some (iass w !! i)).
Proof.
  intros Hrun. unfold Scene_markSBTLayoutDirty in Hrun.
  apply bind_ok_inv in Hrun as (w1 & [] & Hupd & Hrun).
  apply updScene_ok_inv in Hupd as (sc & Esc & ->).
  apply bind_ok_inv in Hrun as (w2 & sc' & Hget & Hrun).
  apply getScene_ok_inv in Hget as [-> Hget]. cbn in Hget.
  rewrite lookup_insert_eq in Hget. injection Hget as <-.
  exists sc. split; [exact Esc |]. intros i Hi.
  apply (markDirty_loop_ok_inv _ _ _ _ Hrun i Hi).
Qed.

Lemma GAS_Priv_markDirty_run g x sc w :
  gass w !! g = Some x ->
  scenes w !! GAS.scene x = Some sc ->
  (forall i, i ∈ Scene.instASs sc -> is_Some (iass w !! i)) ->
  GAS_Priv_markDirty g w = (GAS_marked_dirty g x sc w, Ok tt).
Proof.
  intros Ex Esc Hall. unfold GAS_Priv_markDirty.
  erewrite bind_ok by (apply run_updGAS; exact Ex).
  erewrite bind_ok by (apply run_updGAS, lookup_set_gass_insert).
  erewrite bind_ok by (apply run_updGAS, lookup_set_gass_insert).
  erewrite bind_ok by (apply run_updGAS, lookup_set_gass_insert).
  rewrite run_getGAS, (deref_lookup _ _ _ _ (lookup_set_gass_insert _ _ _)).
  rewrite (Scene_markSBTLayoutDirty_run _ sc) by (destruct x; assumption).
  unfold GAS_marked_dirty, set_gass. cbn. rewrite !insert_insert_eq.
  destruct x; reflexivity.
Qed.

Lemma GAS_Priv_markDirty_ok_inv g w w' u :
  GAS_Priv_markDirty g w = (w', Ok u) ->
  exists x sc,
    gass w !! g = Some x /\ scenes w !! GAS.scene x = Some sc /\
    (forall i, i ∈ Scene.instASs sc -> is_Some (iass w !! i)) /\
    w' = GAS_marked_dirty g x sc w.
Proof.
  intros Hrun. pose proof Hrun as Hrun'. unfold GAS_Priv_markDirty in Hrun.
  run_inv Hrun. run_subst.
  apply Scene_markSBTLayoutDirty_ok_inv in Hrun as (sc & Esc & Hall).
  cbn in Esc, Hall. exists x, sc.
  assert (Esc' : scenes w !! GAS.scene x = Some sc) by (destruct x; exact Esc).
  split; [exact E |]. split; [exact Esc' |]. split; [exact Hall |].
  rewrite (GAS_Priv_markDirty_run g x sc w E Esc' Hall) in Hrun'. congruence.
Qed.

Lemma erase_first_app_last (c : GAS.Child) l :
  c ∉ l -> erase_first c (l ++ [c]) = l.
Proof.
  induction l as [| d l IH]; intros Hc; cbn.
  - rewrite bool_decide_eq_true_2; reflexivity.
  - rewrite bool_decide_eq_false_2.
    + f_equal. apply IH. intros Hin. apply Hc. right. exact Hin.
    + intros ->. apply Hc. left.
Qed.

(** Decides the outcome of a run on a concrete world. *)
Ltac outcome_of E := apply (f_equal snd) in E; vm_compute in E.


(* ===================================================================== *)
(** * The build life cycle of a geometry acceleration structure *)
(* ===================================================================== *)

(** Proves [preserves] for a call, [tac] proving that each write to a GAS or
    to an IAS keeps the property. *)
Ltac pres_by tac :=
  cbv beta;
  first
    [ solve [apply preserves_reads; ro]
    | solve [auto with pres]
    | apply preserves_bind; [pres_by tac | intros ?; pres_by tac]
    | apply preserves_void; pres_by tac
    | apply preserves_for_each; intros ?; pres_by tac
    | apply preserves_foldM; intros ? ?; pres_by tac
    | apply preserves_updGAS; solve [tac]
    | apply preserves_updIAS; solve [tac]
    | match goal with
      | |- preserves _ (if ?b then _ else _) => destruct b; pres_by tac
      | |- preserves _ (match ?x with _ => _ end) => destruct x; pres_by tac
      end ].

Ltac kept_setter :=
  idtac;
  let x := fresh "x" in
  let Hx := fresh "Hx" in
  let E := fresh "E" in
  intros x Hx E; specialize (Hx E); revert Hx;
  unfold GAS_but_buildInputs, IAS_but_instances;
  match goal with |- _ = ?m /\ _ -> _ => destruct m end; destruct x; cbn;
  intros [[=] Hlen]; subst; split; [reflexivity |];
  rewrite ?length_insert; exact Hlen.

Lemma GAS_kept_start g m w : gass w !! g = Some m -> GAS_kept g m w.
Proof.
  intros E. split; [| auto]. intros g' x Hx ->. rewrite E in Hx. injection Hx as <-.
  unfold GAS_but_buildInputs. destruct m; split; reflexivity.
Qed.

Lemma GAS_kept_lookup g m w x :
  GAS_kept g m w -> gass w !! g = Some x -> GAS_but_buildInputs m x.
Proof. intros [Hg _] E. apply (Hg g x E eq_refl). Qed.

Section GASLifecycleExtras.
Context `{OptixSDK}.

Lemma updateBuildInput_loop_keeps g m (l : list GAS.Child) :
  preserves (GAS_kept g m)
    (for_each_indexed l (fun childIdx child =>
       GeometryInstance_updateBuildInput (GAS.geomInst child) g childIdx
                                         (GAS.preTransform child))).
Proof. unfold GAS_kept. autounfold with ops. pres_by kept_setter.
Qed.

(** X3.  When [rebuild] of a GAS returns, it returns the handle the
    backend wrote for the build options (with the operation BUILD) and the
    build inputs the GAS now stores; the GAS was prepared for the build
    and the two buffers were large enough; and from then on [getHandle]
    gives that handle: the GAS is available, holds the given buffer, and
    nothing of an earlier compaction is left. *)
Theorem GAS_rebuild_returns_current_handle
    (g : nat) (accelBuffer scratchBuffer : BufferView) (built : GASBackend Z)
    (recorded : bool) (w w' : World) (h : Z) :
  GAS_rebuild g accelBuffer scratchBuffer built recorded w = (w', Ok h) ->
  exists m x,
    gass w !! g = Some m /\ gass w' !! g = Some x /\
    GAS.readyToBuild m = true /\
    outputSizeInBytes (GAS.memoryRequirement m) <= sizeInBytes accelBuffer /\
    tempSizeInBytes (GAS.memoryRequirement m) <= sizeInBytes scratchBuffer /\
    built (GAS.buildOptions x) (GAS.buildInputs x) = Some h /\
    bo_operation (GAS.buildOptions x) = OPERATION_BUILD /\
    GAS_getHandle x = Ok h /\
    GAS.accelBuffer x = accelBuffer /\
    GAS.children x = GAS.children m /\
    length (GAS.buildInputs x) = length (GAS.buildInputs m) /\
    GAS.readyToBuild x = true /\ GAS.available x = true /\
    GAS.readyToCompact x = false /\ GAS.compactedAvailable x = false /\
    GAS.compactedHandle x = 0.
Proof.
  intros Hrun. unfold GAS_rebuild in Hrun.
  run_inv Hrun. subst h.
  pose proof (updateBuildInput_loop_keeps g a (GAS.children a) w
                (GAS_kept_start g a w Hstep)) as Hkept.
  rewrite Hstep3 in Hkept. cbn [fst] in Hkept.
  pose proof (GAS_kept_lookup _ _ _ _ Hkept E) as Hx.
  run_subst.
  eexists a, _. split; [exact Hstep |].
  split; [apply lookup_set_gass_insert |].
  apply Z.leb_le in Hstep1, Hstep2.
  unfold GAS_but_buildInputs in Hx. unfold GAS_getHandle, GAS_isReady.
  destruct Hx as [Hx Hlen].
  destruct a, x; cbn in *. injection Hx as; subst.
  repeat split; assumption.
Qed.

(** X4.  When [compact] of a GAS returns, the GAS was available and ready
    to compact, the buffer was large enough, and the handle returned is
    the one the backend gave; [getHandle] gives that handle from then on,
    while the uncompacted structure is still there.  [removeUncompacted]
    then returns, drops the uncompacted handle and leaves [getHandle] at
    the compacted one. *)
Theorem GAS_compact_then_removeUncompacted
    (g : nat) (compactedAccelBuffer : BufferView) (compacted : option Z)
    (recorded : bool) (w w1 : World) (h : Z) :
  GAS_compact g compactedAccelBuffer compacted recorded w = (w1, Ok h) ->
  exists m x1 w2 x2,
    gass w !! g = Some m /\
    GAS.available m = true /\ GAS.readyToCompact m = true /\
    GAS.compactedSize m <= sizeInBytes compactedAccelBuffer /\
    compacted = Some h /\
    gass w1 !! g = Some x1 /\
    GAS_getHandle x1 = Ok h /\ GAS.handle x1 = GAS.handle m /\
    GAS.available x1 = true /\
    GAS_removeUncompacted g true w1 = (w2, Ok tt) /\
    gass w2 !! g = Some x2 /\
    GAS_getHandle x2 = Ok h /\ GAS.handle x2 = 0 /\ GAS.available x2 = false /\
    GAS.compactedAccelBuffer x2 = compactedAccelBuffer.
Proof.
  intros Hrun. unfold GAS_compact in Hrun.
  run_inv Hrun. subst h. run_subst. rewrite Hstep in E. injection E as <-.
  apply Z.leb_le in Hstep3.
  eexists a, _, _, _. split; [exact Hstep |].
  do 4 (split; [assumption |]).
  split; [apply lookup_set_gass_insert |].
  split; [| split; [| split]].
  4: { split.
       - unfold GAS_removeUncompacted.
         rewrite run_getGAS, (deref_lookup _ _ _ _ (lookup_set_gass_insert _ _ _)).
         replace (negb _ || negb _) with false
           by (destruct a; cbn in *; rewrite Hstep0; reflexivity).
         unfold backend_check. rewrite run_lift.
         erewrite bind_ok by (apply run_updGAS, lookup_set_gass_insert).
         erewrite run_updGAS by apply lookup_set_gass_insert. reflexivity.
       - split; [apply lookup_set_gass_insert |].
         unfold GAS_getHandle, GAS_isReady. destruct a; cbn in *. auto. }
  all: unfold GAS_getHandle, GAS_isReady; destruct a; cbn in *; subst; auto.
Qed.

(** X5.  When [addChild] of a GAS returns, the pair of geometry instance
    and pre-transform is the last child of the GAS, which is no longer
    ready; [removeChild] of that pair then returns and the GAS has the
    children, in the order, it had before the two calls. *)
Theorem GAS_addChild_then_removeChild
    (g gi : nat) (preTransform : Z) (w w1 : World) :
  GAS_addChild g (Some gi) preTransform w = (w1, Ok tt) ->
  exists m x1 w2 x2,
    gass w !! g = Some m /\ gass w1 !! g = Some x1 /\
    (GAS.mkChild gi preTransform ∉ GAS.children m) /\
    GAS.children x1 = GAS.children m ++ [GAS.mkChild gi preTransform] /\
    GAS_isReady x1 = false /\
    GAS_removeChild g (Some gi) preTransform w1 = (w2, Ok tt) /\
    gass w2 !! g = Some x2 /\ GAS.children x2 = GAS.children m.
Proof.
  intros Hrun. unfold GAS_addChild in Hrun.
  run_inv Hrun. run_subst. rewrite Hstep in E. injection E as <-.
  apply bool_decide_eq_true_1 in Hstep3.
  apply GAS_Priv_markDirty_ok_inv in Hrun as (x & sc & Ex & Esc & Hall & ->).
  rewrite lookup_set_gass_insert in Ex. injection Ex as <-.
  cbn in Esc, Hall.
  eexists a, _, _, _. split; [exact Hstep |].
  split; [cbn; apply lookup_insert_eq |].
  split; [exact Hstep3 |]. split; [reflexivity |].
  split; [reflexivity |].
  unfold GAS_removeChild.
  rewrite run_getGAS. unfold GAS_marked_dirty at 1. cbn [gass set_iass set_scenes set_gass].
  rewrite (deref_lookup _ _ _ _ (lookup_insert_eq _ _ _)).
  unfold bind at 1. unfold getGeomInst at 1.
  unfold GAS_marked_dirty at 1. cbn [geomInsts set_iass set_scenes set_gass].
  rewrite (deref_lookup _ _ _ _ Hstep0).
  rewrite bind_throwM. cbn [GAS.scene dirty_gas GAS.set_compactedAvailable
    GAS.set_readyToCompact GAS.set_available GAS.set_readyToBuild GAS.set_children
    GAS.children].
  rewrite Hstep1.
  rewrite bind_throwM.
  rewrite bool_decide_eq_true_2
    by (apply elem_of_app; right; apply list_elem_of_singleton; reflexivity).
  erewrite bind_ok
    by (apply run_updGAS; unfold GAS_marked_dirty; cbn; apply lookup_insert_eq).
  erewrite (GAS_Priv_markDirty_run g _ (Scene.set_sbtLayoutIsUpToDate false sc));
    [| apply lookup_set_gass_insert
     | unfold GAS_marked_dirty; cbn; apply lookup_insert_eq
     | intros i Hi; unfold GAS_marked_dirty; cbn;
       apply mark_dirty_all_is_Some, Hall; exact Hi ].
  split; [reflexivity |]. split; [cbn; apply lookup_insert_eq |].
  cbn. apply erase_first_app_last. exact Hstep3.
Qed.

End GASLifecycleExtras.

Lemma GAS_rebuild_returns_current_handle_witness :
  exists w' x,
    @GAS_rebuild optix7 0%nat (valid_buffer 4096 1024 1) (valid_buffer 8192 256 1)
                 numVertices_seen true staged_world = (w', Ok 300) /\
    gass w' !! 0%nat = Some x /\ @GAS_getHandle x = Ok 300.
Proof.
  destruct (@GAS_rebuild optix7 0%nat (valid_buffer 4096 1024 1) (valid_buffer 8192 256 1)
                         numVertices_seen true staged_world) as [w' [h | e]] eqn:E.
  - assert (Hh : h = 300) by (pose proof E as E'; outcome_of E'; congruence).
    subst h.
    destruct (GAS_rebuild_returns_current_handle _ _ _ _ _ _ _ _ E)
      as (m & x & _ & Hx & _ & _ & _ & _ & _ & Hh & _).
    exists w', x. auto.
  - outcome_of E. discriminate.
Defined.

Lemma GAS_compact_then_removeUncompacted_witness :
  exists w1 w2 x2,
    @GAS_compact optix7 0%nat (valid_buffer 24576 512 1) (Some 1002) true
                 staged_ready_to_compact_world = (w1, Ok 1002) /\
    @GAS_removeUncompacted optix7 0%nat true w1 = (w2, Ok tt) /\
    gass w2 !! 0%nat = Some x2 /\ @GAS_getHandle x2 = Ok 1002.
Proof.
  destruct (@GAS_compact optix7 0%nat (valid_buffer 24576 512 1) (Some 1002) true
                         staged_ready_to_compact_world) as [w1 [h | e]] eqn:E.
  - assert (Hh : h = 1002) by (pose proof E as E'; outcome_of E'; congruence).
    subst h.
    destruct (GAS_compact_then_removeUncompacted _ _ _ _ _ _ _ E)
      as (m & x1 & w2 & x2 & _ & _ & _ & _ & _ & _ & _ & _ & _ & Hrm & Hx2 & Hh & _).
    exists w1, w2, x2. auto.
  - outcome_of E. discriminate.
Defined.

Lemma GAS_addChild_then_removeChild_witness :
  exists w1 w2 m x2,
    @GAS_addChild 0%nat (Some 0%nat) 4096 example_world = (w1, Ok tt) /\
    @GAS_removeChild 0%nat (Some 0%nat) 4096 w1 = (w2, Ok tt) /\
    gass example_world !! 0%nat = Some m /\ gass w2 !! 0%nat = Some x2 /\
    GAS.children x2 = GAS.children m.
Proof.
  destruct (@GAS_addChild 0%nat (Some 0%nat) 4096 example_world) as [w1 [[] | e]] eqn:E.
  - destruct (GAS_addChild_then_removeChild _ _ _ _ _ E)
      as (m & x1 & w2 & x2 & Hm & _ & _ & _ & _ & Hrm & Hx2 & Hch).
    exists w1, w2, m, x2. auto.
  - outcome_of E. discriminate.
Defined.

(* ===================================================================== *)
(** * The build of an instance acceleration structure *)
(* ===================================================================== *)

Lemma IAS_kept_start a m w : iass w !! a = Some m -> IAS_kept a m w.
Proof.
  intros E. split; [auto |]. intros a' x Hx ->. rewrite E in Hx. injection Hx as <-.
  unfold IAS_but_instances. destruct m; split; reflexivity.
Qed.

Lemma IAS_kept_lookup a m w x :
  IAS_kept a m w -> iass w !! a = Some x -> IAS_but_instances m x.
Proof. intros [_ Hi] E. apply (Hi a x E eq_refl). Qed.

Section IASLifecycleExtras.
Context `{OptixSDK}.

Lemma updateInstance_loop_keeps a m (l : list nat) :
  preserves (IAS_kept a m)
    (for_each_indexed l (fun childIdx child => Instance_updateInstance child a childIdx)).
Proof. unfold IAS_kept. autounfold with ops. pres_by kept_setter. Qed.

(** X6.  When [rebuild] of an IAS returns, the IAS was prepared for the
    build and the three buffers were large enough, the instance buffer for
    one record for each instance of the IAS; the build input points to the
    instance buffer; the handle returned is the one the backend wrote for
    the build options (with the operation BUILD), the build input and the
    instance records the IAS now stores; and from then on [getHandle] gives
    that handle. *)
Theorem IAS_rebuild_returns_current_handle
    (a : nat) (instanceBuffer accelBuffer scratchBuffer : BufferView) (copied : bool)
    (built : IASBackend Z) (recorded : bool) (w w' : World) (h : Z) :
  IAS_rebuild a instanceBuffer accelBuffer scratchBuffer copied built recorded w
  = (w', Ok h) ->
  exists m x ia,
    iass w !! a = Some m /\ iass w' !! a = Some x /\
    IAS.readyToBuild m = true /\
    outputSizeInBytes (IAS.memoryRequirement m) <= sizeInBytes accelBuffer /\
    tempSizeInBytes (IAS.memoryRequirement m) <= sizeInBytes scratchBuffer /\
    u64 (Z.of_nat (length (IAS.instances m)) * sizeof_OptixInstance)
      <= sizeInBytes instanceBuffer /\
    IAS.buildInput m = BuildInputInstances ia /\
    IAS.buildInput x
    = BuildInputInstances (set_ia_instances (getCUdeviceptr instanceBuffer) ia) /\
    built (IAS.buildOptions x) (IAS.buildInput x) (IAS.instances x) = Some h /\
    bo_operation (IAS.buildOptions x) = OPERATION_BUILD /\
    IAS_getHandle x = Ok h /\
    IAS.instanceBuffer x = instanceBuffer /\ IAS.accelBuffer x = accelBuffer /\
    IAS.children x = IAS.children m /\
    length (IAS.instances x) = length (IAS.instances m) /\
    IAS.readyToBuild x = true /\ IAS.available x = true /\
    IAS.readyToCompact x = false /\ IAS.compactedAvailable x = false /\
    IAS.compactedHandle x = 0.
Proof.
  intros Hrun. unfold IAS_rebuild in Hrun.
  run_inv Hrun. subst h.
  pose proof (updateInstance_loop_keeps a a0 (IAS.children a0) w
                (IAS_kept_start a a0 w Hstep)) as Hkept.
  rewrite Hstep4 in Hkept. cbn [fst] in Hkept.
  pose proof (IAS_kept_lookup _ _ _ _ Hkept Hstep6) as [Hx Hlen].
  rewrite Hstep6 in E. injection E as <-.
  run_subst.
  unfold set_instanceArray_instances in Hstep7.
  destruct (IAS.buildInput a7) as [| | | ia] eqn:Ebi; try discriminate.
  injection Hstep7 as <-.
  apply Z.leb_le in Hstep1, Hstep2, Hstep3.
  eexists a0, _, ia. split; [exact Hstep |].
  split; [apply lookup_set_iass_insert |].
  unfold IAS_getHandle, IAS_isReady.
  destruct a0, a7; cbn in *. injection Hx as; subst.
  repeat split; assumption.
Qed.

End IASLifecycleExtras.

Lemma IAS_rebuild_returns_current_handle_witness :
  exists w' x,
    @IAS_rebuild optix7 0%nat (valid_buffer 12288 1 80) (valid_buffer 16384 1024 1)
                 (valid_buffer 20480 256 1) true (fun _ _ _ => Some 2002) true
                 instanced_world = (w', Ok 2002) /\
    iass w' !! 0%nat = Some x /\ @IAS_getHandle x = Ok 2002.
Proof.
  destruct (@IAS_rebuild optix7 0%nat (valid_buffer 12288 1 80) (valid_buffer 16384 1024 1)
                         (valid_buffer 20480 256 1) true (fun _ _ _ => Some 2002) true
                         instanced_world) as [w' [h | e]] eqn:E.
  - assert (Hh : h = 2002) by (pose proof E as E'; outcome_of E'; congruence).
    subst h.
    destruct (IAS_rebuild_returns_current_handle _ _ _ _ _ _ _ _ _ _ E)
      as (m & x & ia & _ & Hx & _ & _ & _ & _ & _ & _ & _ & _ & Hh & _).
    exists w', x. auto.
  - outcome_of E. discriminate.
Defined.

(* ===================================================================== *)
(** * Transform: motion keys and rebuild *)
(* ===================================================================== *)

Section TransformExtras.
Context `{OptixSDK}.

Lemma u16_range x : 0 <= u16 x < 65536.
Proof. unfold u16. apply Z.mod_pos_bound. reflexivity. Qed.

Lemma u16_le x : 0 <= x -> u16 x <= x.
Proof. intros Hx. unfold u16. apply Z.mod_le; lia. Qed.

Lemma u16_small x : 0 <= x < 65536 -> u16 x = x.
Proof. intros Hx. unfold u16. apply Z.mod_small. exact Hx. Qed.

(** While [(numKeys - 2) * 12] has not wrapped, [data] has room for
    [numKeys] keys. *)
Lemma MatrixMotion_keysHeld_small n :
  2 <= n <= 357913943 -> MatrixMotion_keysHeld n = n.
Proof.
  intros Hn. unfold MatrixMotion_keysHeld, MatrixMotion_extraFloats, u32_mul, u32_sub.
  rewrite (u32_small (n - 2)) by (unfold u32_modulus; lia).
  rewrite u32_small by (unfold u32_modulus; lia).
  rewrite Z.div_mul by lia. lia.
Qed.

Lemma MatrixMotion_keys_small n :
  2 <= n <= 357913942 ->
  replicate (Z.to_nat (MatrixMotion_keysWritten n)) initial_key
  ++ replicate (Z.to_nat (MatrixMotion_keysHeld n - MatrixMotion_keysWritten n)) zero_key
  = replicate (Z.to_nat n) initial_key.
Proof.
  intros Hn. rewrite MatrixMotion_keysHeld_small by lia.
  unfold MatrixMotion_keysWritten. rewrite Z.min_l by lia.
  rewrite Z.sub_diag. cbn [Z.to_nat replicate]. apply app_nil_r.
Qed.

(** What [setConfiguration] for a matrix motion transform leaves. *)
Lemma Transform_setConfiguration_MatrixMotion t numKeys w w1 size :
  Transform_setConfiguration t MatrixMotion numKeys w = (w1, Ok size) ->
  let n := Z.max numKeys 2 in
  exists x,
    transforms w1 !! t = Some x /\
    Transform.type x = MatrixMotion /\
    mo_numKeys (Transform.options x) = u16 n /\
    MatrixMotion_keys_fit n = true /\
    Transform.data x
    = DataMatrixMotion 0 zero_MotionOptions
        (replicate (Z.to_nat (MatrixMotion_keysWritten n)) initial_key
         ++ replicate (Z.to_nat (MatrixMotion_keysHeld n - MatrixMotion_keysWritten n))
                      zero_key) /\
    Transform.available x = false.
Proof.
  intros Hrun n. unfold Transform_setConfiguration, Transform_Priv_markDirty in Hrun.
  fold n in Hrun. run_inv Hrun. run_subst.
  eexists. split; [apply lookup_set_transforms_insert |].
  repeat split.
  destruct (MatrixMotion_keys_fit n); [reflexivity | discriminate].
Qed.

(** X7.  [setConfiguration] makes a transform a matrix motion transform of
    [n = max(numKeys, 2)] keys (here not more than 357913942, so that they
    lie one after the other in [data]) and stores [n], reduced to
    [unsigned short], in [options.numKeys]; it is the stored number
    [setMatrixMotionKey] checks the index against.  With an index not above
    the stored number and below [n], [setMatrixMotionKey] replaces that key
    and no other and leaves the transform not available; with an index
    above the stored number it throws and changes nothing (for 65537 keys
    the stored number is 1: the key 2 is refused); with the index equal to
    [n], which the check lets through when [n] is below 65536, the key is
    written past the last one. *)
Theorem Transform_setMatrixMotionKey_index_check
    (t : nat) (numKeys keyIdx : Z) (matrix : list float) (w w1 : World) (size : Z) :
  Transform_setConfiguration t MatrixMotion numKeys w = (w1, Ok size) ->
  length matrix = 12%nat -> 0 <= keyIdx ->
  let n := Z.max numKeys 2 in
  let stored := u16 n in
  n <= 357913942 ->
  (keyIdx <= stored -> keyIdx < n ->
     exists w2 x,
       Transform_setMatrixMotionKey t keyIdx matrix w1 = (w2, Ok tt) /\
       transforms w2 !! t = Some x /\
       Transform.data x
       = DataMatrixMotion 0 zero_MotionOptions
           (<[Z.to_nat keyIdx := matrix]> (replicate (Z.to_nat n) initial_key)) /\
       Transform.available x = false) /\
  (keyIdx = n -> n < 65536 ->
     exists what,
       Transform_setMatrixMotionKey t keyIdx matrix w1 = (w1, Err (Undefined what))) /\
  (stored < keyIdx ->
     exists msg,
       Transform_setMatrixMotionKey t keyIdx matrix w1 = (w1, Err (RuntimeError msg))).
Proof.
  intros Hconf Hlen Hk n stored Hfit.
  apply Transform_setConfiguration_MatrixMotion in Hconf
    as (x & Ex & Hty & Hn & _ & Hdata & Hav). fold n in Hn, Hdata. fold stored in Hn.
  assert (Hn2 : 2 <= n) by (unfold n; lia).
  rewrite MatrixMotion_keys_small in Hdata by lia.
  assert (Hstart :
    Transform_setMatrixMotionKey t keyIdx matrix w1
    = if keyIdx <=? stored
      then match vec_at (replicate (Z.to_nat n) initial_key) keyIdx "dataPerKey" with
           | Ok _ =>
               bind (updTransform t (Transform.set_data
                 (DataMatrixMotion 0 zero_MotionOptions
                    (<[Z.to_nat keyIdx := matrix]> (replicate (Z.to_nat n) initial_key)))))
                 (fun _ => Transform_Priv_markDirty t) w1
           | Err e => (w1, Err e)
           end
      else (w1, Err (RuntimeError "Number of motion keys was set to %u"))).
  { unfold Transform_setMatrixMotionKey.
    rewrite (run_getTransform _ _ _ _ Ex), Hty, Hn, Hdata.
    rewrite bind_throwM, bool_decide_eq_true_2 by reflexivity.
    rewrite bind_throwM. destruct (keyIdx <=? stored); [| reflexivity].
    rewrite run_lift. unfold float_array.
    rewrite bool_decide_eq_true_2 by exact Hlen.
    rewrite run_lift. reflexivity. }
  split; [| split].
  - intros Hle Hlt. rewrite Hstart.
    replace (keyIdx <=? stored) with true by (symmetry; apply Z.leb_le; lia).
    unfold vec_at. rewrite length_replicate.
    replace ((0 <=? keyIdx) && (keyIdx <? Z.of_nat (Z.to_nat n))) with true
      by (symmetry; apply andb_true_iff; split; [apply Z.leb_le | apply Z.ltb_lt]; lia).
    rewrite lookup_replicate_2 by lia.
    erewrite bind_ok by (apply run_updTransform; exact Ex).
    unfold Transform_Priv_markDirty.
    erewrite run_updTransform by apply lookup_set_transforms_insert.
    eexists _, _. split; [reflexivity |].
    split; [apply lookup_set_transforms_insert |]. split; reflexivity.
  - intros -> Hsmall. rewrite Hstart.
    replace (n <=? stored) with true
      by (symmetry; apply Z.leb_le; unfold stored; rewrite u16_small by lia; lia).
    unfold vec_at. rewrite length_replicate.
    replace (n <? Z.of_nat (Z.to_nat n)) with false by (symmetry; apply Z.ltb_ge; lia).
    rewrite andb_false_r. eauto.
  - intros Hgt. rewrite Hstart.
    replace (keyIdx <=? stored) with false by (symmetry; apply Z.leb_gt; lia). eauto.
Qed.

(** X8.  When [rebuild] of a transform returns, the transform had a type
    and a child, the buffer was large enough, and the child was ready: the
    handle [getHandle] of the child gave is now the child handle of the
    transform's data, beside the motion options of the transform if it is a
    motion transform, while its keys and matrices are as before.  The handle
    returned is the one the backend converted the buffer to, and
    [getHandle] of the transform gives it from then on. *)
Theorem Transform_rebuild_links_ready_child
    (t : nat) (trDeviceMem : BufferView) (copied : bool) (converted : option Z)
    (w w' : World) (h : Z) :
  Transform_rebuild t trDeviceMem copied converted w = (w', Ok h) ->
  exists m x childHandle,
    transforms w !! t = Some m /\ transforms w' !! t = Some x /\
    Transform.type m <> InvalidTransform /\
    Transform.childType m <> ChildInvalid /\
    Transform.dataSize m <= sizeInBytes trDeviceMem /\
    child_getHandle w (Transform.childType m) (Transform.child m) = Ok childHandle /\
    TransformData_child (Transform.data x) = Some childHandle /\
    (Transform.type m <> Static ->
     TransformData_motionOptions (Transform.data x) = Some (Transform.options m)) /\
    TransformData_payload (Transform.data x) = TransformData_payload (Transform.data m) /\
    copied = true /\ converted = Some h /\
    Transform_getHandle x = Ok h /\
    Transform.child x = Transform.child m /\ Transform.childType x = Transform.childType m.
Proof.
  intros Hrun. unfold Transform_rebuild in Hrun.
  run_inv Hrun. subst h.
  match goal with
  | Hc : child_getHandle _ _ _ = Ok ?ch |- _ => rename ch into childHandle, Hc into Hchild
  end.
  match goal with
  | Hd : match Transform.type _ with _ => _ end _ = _ |- _ => rename Hd into Hwrite
  end.
  match goal with
  | Hd : transforms ?w1 !! t = Some ?y, Hw : match _ with _ => _ end _ = (?w1, _) |- _ =>
      rename Hd into Ex1, y into x1
  end.
  repeat match goal with
         | Hb : bool_decide _ = true |- _ => apply bool_decide_eq_true_1 in Hb
         | Hb : (_ <=? _) = true |- _ => apply Z.leb_le in Hb
         end.
  assert (Hdata :
    Transform.set_data (Transform.data a) x1 = a /\
    TransformData_child (Transform.data x1) = Some childHandle /\
    (Transform.type a <> Static ->
     TransformData_motionOptions (Transform.data x1) = Some (Transform.options a)) /\
    TransformData_payload (Transform.data x1) = TransformData_payload (Transform.data a)).
  { destruct (Transform.type a) eqn:Ety, (Transform.data a) eqn:Edata;
      try (unfold lift in Hwrite; discriminate Hwrite);
      apply updTransform_ok_inv in Hwrite as (y & Ey & ->);
      rewrite Hstep in Ey; injection Ey as <-;
      rewrite lookup_set_transforms_insert in Ex1; injection Ex1 as <-;
      destruct a; cbn in *; subst; repeat split; congruence. }
  destruct Hdata as (Hsame & Hch & Hmo & Hpay).
  run_subst.
  eexists a, _, childHandle. split; [exact Hstep |].
  split; [apply lookup_set_transforms_insert |].
  unfold Transform_getHandle, Transform_isReady.
  destruct a, x1; cbn in *. injection Hsame as; subst.
  repeat split; auto.
Qed.

End TransformExtras.

Lemma Transform_rebuild_links_ready_child_witness :
  exists w' x,
    Transform_rebuild 0%nat (valid_buffer 28672 112 1) true (Some 3003)
                       transform_world = (w', Ok 3003) /\
    transforms w' !! 0%nat = Some x /\
    TransformData_child (Transform.data x) = Some 300 /\
    Transform_getHandle x = Ok 3003.
Proof.
  destruct (Transform_rebuild 0%nat (valid_buffer 28672 112 1) true (Some 3003)
                               transform_world) as [w' [h | e]] eqn:E.
  - assert (Hh : h = 3003) by (pose proof E as E'; outcome_of E'; congruence).
    subst h.
    destruct (Transform_rebuild_links_ready_child _ _ _ _ _ _ _ E)
      as (m & x & ch & Hm & Hx & _ & _ & _ & Hch & Hdc & _ & _ & _ & _ & Hh & _).
    assert (ch = 300).
    { vm_compute in Hm. injection Hm as <-. vm_compute in Hch. congruence. }
    subst ch.
    exists w', x. auto.
  - outcome_of E. discriminate.
Defined.

Lemma Transform_setMatrixMotionKey_index_check_witness :
  (exists w1 size,
     @Transform_setConfiguration optix7 0%nat MatrixMotion 3 one_transform_world
     = (w1, Ok size) /\
     (exists w2 x,
        Transform_setMatrixMotionKey 0%nat 2 identity12 w1 = (w2, Ok tt) /\
        transforms w2 !! 0%nat = Some x /\ Transform.available x = false) /\
     (exists what,
        Transform_setMatrixMotionKey 0%nat 3 identity12 w1 = (w1, Err (Undefined what))) /\
     (exists msg,
        Transform_setMatrixMotionKey 0%nat 4 identity12 w1 = (w1, Err (RuntimeError msg)))) /\
  (exists w1 size,
     @Transform_setConfiguration optix7 0%nat MatrixMotion 65537 one_transform_world
     = (w1, Ok size) /\
     (exists w2, Transform_setMatrixMotionKey 0%nat 1 identity12 w1 = (w2, Ok tt)) /\
     (exists msg,
        Transform_setMatrixMotionKey 0%nat 2 identity12 w1 = (w1, Err (RuntimeError msg)))).
Proof.
  split.
  - destruct (@Transform_setConfiguration optix7 0%nat MatrixMotion 3 one_transform_world)
      as [w1 [size | e]] eqn:E; [| outcome_of E; discriminate].
    exists w1, size. split; [reflexivity |].
    split; [| split].
    + destruct (Transform_setMatrixMotionKey_index_check 0%nat 3 2 identity12 _ _ _ E
                  eq_refl ltac:(lia) ltac:(lia)) as [Hin _].
      destruct (Hin ltac:(vm_compute; discriminate) ltac:(lia))
        as (w2 & x & Hrun & Hx & _ & Hav). eauto.
    + destruct (Transform_setMatrixMotionKey_index_check 0%nat 3 3 identity12 _ _ _ E
                  eq_refl ltac:(lia) ltac:(lia)) as (_ & Heq & _).
      apply Heq; [reflexivity | lia].
    + destruct (Transform_setMatrixMotionKey_index_check 0%nat 3 4 identity12 _ _ _ E
                  eq_refl ltac:(lia) ltac:(lia)) as (_ & _ & Hout).
      apply Hout. vm_compute. reflexivity.
  - destruct (@Transform_setConfiguration optix7 0%nat MatrixMotion 65537 one_transform_world)
      as [w1 [size | e]] eqn:E; [| outcome_of E; discriminate].
    exists w1, size. split; [reflexivity |].
    split.
    + destruct (Transform_setMatrixMotionKey_index_check 0%nat 65537 1 identity12 _ _ _ E
                  eq_refl ltac:(lia) ltac:(lia)) as [Hin _].
      destruct (Hin ltac:(vm_compute; discriminate) ltac:(lia))
        as (w2 & x & Hrun & _). eauto.
    + destruct (Transform_setMatrixMotionKey_index_check 0%nat 65537 2 identity12 _ _ _ E
                  eq_refl ltac:(lia) ltac:(lia)) as (_ & _ & Hout).
      apply Hout. vm_compute. reflexivity.
Defined.

(* ===================================================================== *)
(** * Calls that leave a part of the world alone *)
(* ===================================================================== *)

Lemma keeps_reads {A B} (proj : World -> B) (m : M A) : reads_only m -> keeps proj m.
Proof. intros Hm w. rewrite Hm. reflexivity. Qed.

Lemma keeps_bind {A B C} (proj : World -> C) (m : M A) (k : A -> M B) :
  keeps proj m -> (forall a, keeps proj (k a)) -> keeps proj (bind m k).
Proof.
  intros Hm Hk w. unfold bind. specialize (Hm w).
  destruct (m w) as [w1 [a | e]]; cbn in Hm |- *; [rewrite Hk |]; exact Hm.
Qed.

Lemma keeps_for_each {A C} (proj : World -> C) (l : list A) (body : A -> M unit) :
  (forall x, keeps proj (body x)) -> keeps proj (for_each l body).
Proof.
  intros Hb. induction l as [| x l IH]; [intros w; reflexivity |].
  cbn [for_each]. apply keeps_bind; [apply Hb | intros _; exact IH].
Qed.

Lemma keeps_foldM {A S C} (proj : World -> C) (body : S -> A -> M S) (l : list A) (s : S) :
  (forall s x, keeps proj (body s x)) -> keeps proj (foldM body l s).
Proof.
  intros Hb. revert s. induction l as [| x l IH]; intros s; [intros w; reflexivity |].
  cbn [foldM]. apply keeps_bind; [apply Hb | intros s1; apply IH].
Qed.

Lemma keeps_void {A C} (proj : World -> C) (m : M A) : keeps proj m -> keeps proj (void m).
Proof. intros Hm. apply keeps_bind; [exact Hm | intros a w; reflexivity]. Qed.

Lemma keeps_modify {C} (proj : World -> C) f :
  (forall w, proj (f w) = proj w) -> keeps proj (modify f).
Proof. intros Hf w. apply Hf. Qed.

Lemma keeps_updGAS {C} (proj : World -> C) g f :
  (forall F w, proj (set_gass F w) = proj w) -> keeps proj (updGAS g f).
Proof.
  intros Hp w. unfold updGAS, bind, getGAS, modify.
  destruct (deref _ _ _); cbn; [apply Hp | reflexivity].
Qed.

Lemma keeps_updIAS {C} (proj : World -> C) a f :
  (forall F w, proj (set_iass F w) = proj w) -> keeps proj (updIAS a f).
Proof.
  intros Hp w. unfold updIAS, bind, getIAS, modify.
  destruct (deref _ _ _); cbn; [apply Hp | reflexivity].
Qed.

Lemma keeps_updScene {C} (proj : World -> C) s f :
  (forall F w, proj (set_scenes F w) = proj w) -> keeps proj (updScene s f).
Proof.
  intros Hp w. unfold updScene, bind, getScene, modify.
  destruct (deref _ _ _); cbn; [apply Hp | reflexivity].
Qed.

Lemma keeps_updGeomInst {C} (proj : World -> C) gi f :
  (forall F w, proj (set_geomInsts F w) = proj w) -> keeps proj (updGeomInst gi f).
Proof.
  intros Hp w. unfold updGeomInst, bind, getGeomInst, modify.
  destruct (deref _ _ _); cbn; [apply Hp | reflexivity].
Qed.

Lemma keeps_updTransform {C} (proj : World -> C) t f :
  (forall F w, proj (set_transforms F w) = proj w) -> keeps proj (updTransform t f).
Proof.
  intros Hp w. unfold updTransform, bind, getTransform, modify.
  destruct (deref _ _ _); cbn; [apply Hp | reflexivity].
Qed.

Lemma keeps_updInstance {C} (proj : World -> C) i f :
  (forall F w, proj (set_instances F w) = proj w) -> keeps proj (updInstance i f).
Proof.
  intros Hp w. unfold updInstance, bind, getInstance, modify.
  destruct (deref _ _ _); cbn; [apply Hp | reflexivity].
Qed.

Lemma keeps_updMaterial {C} (proj : World -> C) m f :
  (forall F w, proj (set_materials F w) = proj w) -> keeps proj (updMaterial m f).
Proof.
  intros Hp w. unfold updMaterial, bind, getMaterial, modify.
  destruct (deref _ _ _); cbn; [apply Hp | reflexivity].
Qed.

(** Proves [keeps] for a call none of whose writes touches the part. *)
Ltac keeps_tac :=
  cbv beta;
  first
    [ solve [apply keeps_reads; ro]
    | apply keeps_bind; [keeps_tac | intros ?; keeps_tac]
    | apply keeps_void; keeps_tac
    | apply keeps_for_each; intros ?; keeps_tac
    | apply keeps_foldM; intros ? ?; keeps_tac
    | apply keeps_updGAS; intros ? ?; reflexivity
    | apply keeps_updIAS; intros ? ?; reflexivity
    | apply keeps_updScene; intros ? ?; reflexivity
    | apply keeps_updGeomInst; intros ? ?; reflexivity
    | apply keeps_updTransform; intros ? ?; reflexivity
    | apply keeps_updInstance; intros ? ?; reflexivity
    | apply keeps_updMaterial; intros ? ?; reflexivity
    | apply keeps_modify; intros ?; reflexivity
    | match goal with
      | |- keeps _ (if ?b then _ else _) => destruct b; keeps_tac
      | |- keeps _ (match ?x with _ => _ end) => destruct x; keeps_tac
      end ].

Lemma preserves_keeps {A C} (proj : World -> C) (Q : C -> Prop) (m : M A) :
  keeps proj m -> preserves (fun w => Q (proj w)) m.
Proof. intros Hm w Hw. cbv beta. rewrite Hm. exact Hw. Qed.

Lemma preserves_and {A} (P Q : World -> Prop) (m : M A) :
  preserves P m -> preserves Q m -> preserves (fun w => P w /\ Q w) m.
Proof. intros HP HQ w [Hp Hq]. split; [apply HP | apply HQ]; assumption. Qed.

(** What every operation keeps holds of every attainable world. *)
Lemma attainable_ind `{OptixSDK} (P : World -> Prop) :
  P empty_world -> (forall o, preserves P (run_op o)) ->
  forall w, attainable w -> P w.
Proof.
  intros H0 Hstep w [ops ->]. unfold run_ops.
  generalize dependent empty_world. induction ops as [| o ops IH]; intros w0 H0; [exact H0 |].
  cbn [foldl]. apply IH, Hstep, H0.
Qed.

(* ===================================================================== *)
(** * Geometry instances and materials *)
(* ===================================================================== *)

Lemma preserves_Gsat_keeps {A} P (m : M A) : keeps geomInsts m -> preserves (Gsat P) m.
Proof. intros Hm. apply (preserves_keeps geomInsts (fun gm => forall gi x, gm !! gi = Some x -> P gi x)), Hm. Qed.

Lemma preserves_Msat_keeps {A} P (m : M A) : keeps materials m -> preserves (Msat P) m.
Proof. intros Hm. apply (preserves_keeps materials (fun gm => forall k x, gm !! k = Some x -> P k x)), Hm. Qed.

Lemma preserves_Tsat_keeps {A} P (m : M A) : keeps transforms m -> preserves (Tsat P) m.
Proof. intros Hm. apply (preserves_keeps transforms (fun gm => forall k x, gm !! k = Some x -> P k x)), Hm. Qed.

Lemma preserves_Wsat_keeps {A} PG PI (m : M A) :
  keeps gass m -> keeps iass m -> preserves (Wsat PG PI) m.
Proof.
  intros Hg Hi w [Hwg Hwi]. split; [rewrite Hg | rewrite Hi]; assumption.
Qed.

Lemma preserves_Gsat_updGeomInst P gi f :
  (forall x, P gi x -> P gi (f x)) -> preserves (Gsat P) (updGeomInst gi f).
Proof.
  intros Hf w Hw. unfold updGeomInst, bind, getGeomInst, modify.
  destruct (deref (geomInsts w) gi _) as [x | e] eqn:E; cbn; [| exact Hw].
  apply deref_ok_inv in E. intros gi' x'. cbn.
  destruct (decide (gi' = gi)) as [-> | Hne].
  - rewrite lookup_insert_eq. intros [= <-]. apply Hf, (Hw _ _ E).
  - rewrite lookup_insert_ne by congruence. apply Hw.
Qed.

Lemma preserves_Gsat_insert P gi x :
  P gi x -> preserves (Gsat P) (modify (set_geomInsts (insert gi x))).
Proof.
  intros Hx w Hw gi' x'. cbn. destruct (decide (gi' = gi)) as [-> | Hne].
  - rewrite lookup_insert_eq. intros [= <-]. exact Hx.
  - rewrite lookup_insert_ne by congruence. apply Hw.
Qed.

Lemma preserves_Gsat_delete P gi : preserves (Gsat P) (modify (set_geomInsts (delete gi))).
Proof. intros w Hw gi' x'. cbn. intros E. apply lookup_delete_Some in E as [_ E]. apply (Hw _ _ E). Qed.

Lemma preserves_Msat_updMaterial P m f :
  (forall x, P m x -> P m (f x)) -> preserves (Msat P) (updMaterial m f).
Proof.
  intros Hf w Hw. unfold updMaterial, bind, getMaterial, modify.
  destruct (deref (materials w) m _) as [x | e] eqn:E; cbn; [| exact Hw].
  apply deref_ok_inv in E. intros m' x'. cbn.
  destruct (decide (m' = m)) as [-> | Hne].
  - rewrite lookup_insert_eq. intros [= <-]. apply Hf, (Hw _ _ E).
  - rewrite lookup_insert_ne by congruence. apply Hw.
Qed.

Lemma preserves_Msat_insert P m x :
  P m x -> preserves (Msat P) (modify (set_materials (insert m x))).
Proof.
  intros Hx w Hw m' x'. cbn. destruct (decide (m' = m)) as [-> | Hne].
  - rewrite lookup_insert_eq. intros [= <-]. exact Hx.
  - rewrite lookup_insert_ne by congruence. apply Hw.
Qed.

Lemma preserves_Msat_delete P m : preserves (Msat P) (modify (set_materials (delete m))).
Proof. intros w Hw m' x'. cbn. intros E. apply lookup_delete_Some in E as [_ E]. apply (Hw _ _ E). Qed.

Lemma preserves_Tsat_updTransform P t f :
  (forall x, P t x -> P t (f x)) -> preserves (Tsat P) (updTransform t f).
Proof.
  intros Hf w Hw. unfold updTransform, bind, getTransform, modify.
  destruct (deref (transforms w) t _) as [x | e] eqn:E; cbn; [| exact Hw].
  apply deref_ok_inv in E. intros t' x'. cbn.
  destruct (decide (t' = t)) as [-> | Hne].
  - rewrite lookup_insert_eq. intros [= <-]. apply Hf, (Hw _ _ E).
  - rewrite lookup_insert_ne by congruence. apply Hw.
Qed.

Lemma preserves_Tsat_insert P t x :
  P t x -> preserves (Tsat P) (modify (set_transforms (insert t x))).
Proof.
  intros Hx w Hw t' x'. cbn. destruct (decide (t' = t)) as [-> | Hne].
  - rewrite lookup_insert_eq. intros [= <-]. exact Hx.
  - rewrite lookup_insert_ne by congruence. apply Hw.
Qed.

Lemma preserves_Tsat_delete P t : preserves (Tsat P) (modify (set_transforms (delete t))).
Proof. intros w Hw t' x'. cbn. intros E. apply lookup_delete_Some in E as [_ E]. apply (Hw _ _ E). Qed.

Lemma preserves_lift_bind {A B} P (r : result A) (k : A -> M B) :
  (forall a, r = Ok a -> preserves P (k a)) -> preserves P (bind (lift r) k).
Proof.
  intros Hk w Hw. rewrite run_lift. destruct r as [a | e]; [apply (Hk a eq_refl), Hw | exact Hw].
Qed.

Lemma preserves_throwM_bind {B} P b fmt (k : unit -> M B) :
  (b = true -> preserves P (k tt)) -> preserves P (bind (throwM b fmt) k).
Proof.
  intros Hk w Hw. rewrite bind_throwM. destruct b; [apply (Hk eq_refl), Hw | exact Hw].
Qed.

(** Walks through a call; [leaf] proves that a write keeps the property.
    What the checks on the way establish stays in the context. *)
Ltac walk leaf :=
  cbv beta;
  first
    [ solve [leaf]
    | apply preserves_throwM_bind; intros ?; walk leaf
    | apply preserves_lift_bind; intros ? ?; walk leaf
    | apply preserves_bind; [walk leaf | intros ?; walk leaf]
    | apply preserves_void; walk leaf
    | apply preserves_for_each; intros ?; walk leaf
    | apply preserves_foldM; intros ? ?; walk leaf
    | match goal with
      | |- preserves _ (if ?b then _ else _) => destruct b; walk leaf
      | |- preserves _ (match ?x with _ => _ end) => destruct x; walk leaf
      end ].

(* ===================================================================== *)
(** * Geometry instances in every attainable world *)
(* ===================================================================== *)

Lemma copy_user_data_length data size bytes :
  copy_user_data data size = Ok bytes -> size <= Z.of_nat (length bytes).
Proof.
  unfold copy_user_data. destruct (Z.of_nat (length data) <? size) eqn:E; [discriminate |].
  intros [= <-]. apply Z.ltb_ge in E. rewrite length_take. lia.
Qed.

Lemma vec_at_nonempty {A} (v : list A) i what a : vec_at v i what = Ok a -> v <> [].
Proof.
  unfold vec_at. destruct ((0 <=? i) && (i <? Z.of_nat (length v))) eqn:E; [| discriminate].
  intros _ ->. cbn in E. apply andb_true_iff in E as [E1 E2].
  apply Z.leb_le in E1. apply Z.ltb_lt in E2. lia.
Qed.

Lemma Forall_nonempty_insert {A} (l : list (list A)) i slot :
  Forall (fun s => s <> []) l -> slot <> [] -> Forall (fun s => s <> []) (<[i := slot]> l).
Proof. intros Hl Hs. apply Forall_insert; assumption. Qed.

Lemma Forall_vec_resize {A} (P : A -> Prop) (l : list A) n d :
  Forall P l -> P d -> Forall P (vec_resize l n d).
Proof.
  intros Hl Hd. unfold vec_resize. apply Forall_app. split.
  - apply Forall_take, Hl.
  - apply Forall_replicate, Hd.
Qed.

Lemma length_vec_resize {A} (l : list A) n d : length (vec_resize l n d) = n.
Proof. unfold vec_resize. rewrite length_app, length_take, length_replicate. lia. Qed.

Lemma insert_nonempty {A} (l : list A) i x what a :
  vec_at l i what = Ok a -> <[Z.to_nat i := x]> l <> [].
Proof.
  intros Hat Heq. apply vec_at_nonempty in Hat. apply (f_equal length) in Heq.
  rewrite length_insert in Heq. destruct l; [congruence | discriminate].
Qed.

Ltac gi_setter :=
  idtac;
  let x := fresh "x" in
  intros x [[? ?] ?]; destruct x; unfold GeometryInstance_ok, GeometryInstance_slots_ok,
    userData_covers in *; cbn in *;
  repeat split; rewrite ?length_insert;
  eauto using copy_user_data_length, Forall_nonempty_insert, insert_nonempty.

Ltac gi_leaf :=
  first
    [ apply preserves_Gsat_keeps; keeps_tac
    | apply preserves_Gsat_delete
    | apply preserves_Gsat_insert;
      unfold GeometryInstance_ok, GeometryInstance_slots_ok, userData_covers;
      repeat split; cbn; (lia || constructor)
    | apply preserves_Gsat_updGeomInst; gi_setter ].

Section GeometryInstanceInvariant.
Context `{OptixSDK}.

Lemma setNumMaterials_writes_keep gi n buf size :
  preserves (Gsat (fun _ => GeometryInstance_ok))
    (updGeomInst gi (fun x =>
       GeometryInstance.set_buildInputFlags
         (vec_resize (GeometryInstance.buildInputFlags x) n OPTIX_GEOMETRY_FLAG_NONE) x) ;;;
     updGeomInst gi (GeometryInstance.set_materialIndexOffsetBuffer buf) ;;;
     updGeomInst gi (GeometryInstance.set_materialIndexOffsetSize size) ;;;
     updGeomInst gi (fun x =>
       GeometryInstance.set_materials
         (vec_resize (GeometryInstance.materials x) n [None]) x)).
Proof.
  intros w Hw. destruct (geomInsts w !! gi) as [x |] eqn:E.
  - erewrite bind_ok by (apply run_updGeomInst; exact E).
    erewrite bind_ok by (apply run_updGeomInst, lookup_set_geomInsts_insert).
    erewrite bind_ok by (apply run_updGeomInst, lookup_set_geomInsts_insert).
    erewrite run_updGeomInst by apply lookup_set_geomInsts_insert.
    cbn [fst]. intros gi' x'. cbn. rewrite !insert_insert_eq.
    destruct (decide (gi' = gi)) as [-> | Hne].
    + rewrite lookup_insert_eq. intros [= <-].
      destruct (Hw _ _ E) as [[Hlen Hne] Hud]. destruct x; cbn in *.
      repeat split; cbn.
      * rewrite !length_vec_resize. reflexivity.
      * apply Forall_vec_resize; [exact Hne | discriminate].
      * exact Hud.
    + rewrite lookup_insert_ne by congruence. apply Hw.
  - unfold bind at 1. unfold updGeomInst at 1. unfold bind, getGeomInst, deref.
    rewrite E. exact Hw.
Qed.

Lemma run_op_keeps_GeometryInstance_ok o :
  preserves (Gsat (fun _ => GeometryInstance_ok)) (run_op o).
Proof.
  destruct o as [c | | | | | | |]; [destruct c |..]; cbn [run_op run];
    autounfold with ops;
    unfold Material_destroy, Scene_destroy, GeometryInstance_destroy, Instance_destroy,
      Transform_destroy, Transform_setMatrixMotionKey, Transform_setSRTMotionKey,
      GAS_prepareForBuild, GAS_rebuild, IAS_prepareForBuild, IAS_rebuild;
    autounfold with ops;
    solve [walk ltac:(first [gi_leaf | apply setNumMaterials_writes_keep])].
Qed.

End GeometryInstanceInvariant.

(* ===================================================================== *)
(** * Materials in every attainable world *)
(* ===================================================================== *)

Ltac mat_setter :=
  idtac;
  let x := fresh "x" in
  intros x ?; destruct x; unfold Material_ok, userData_covers in *; cbn in *;
  eauto using copy_user_data_length.

Ltac mat_leaf :=
  first
    [ apply preserves_Msat_keeps; keeps_tac
    | apply preserves_Msat_delete
    | apply preserves_Msat_insert; unfold Material_ok, userData_covers; cbn; lia
    | apply preserves_Msat_updMaterial; mat_setter ].

Section MaterialInvariant.
Context `{OptixSDK}.

Lemma run_op_keeps_Material_ok o :
  preserves (Msat (fun _ => Material_ok)) (run_op o).
Proof.
  destruct o as [c | | | | | | |]; [destruct c |..]; cbn [run_op run];
    autounfold with ops;
    unfold Material_destroy, Scene_destroy, GeometryInstance_destroy, Instance_destroy,
      Transform_destroy, Transform_setMatrixMotionKey, Transform_setSRTMotionKey,
      GAS_prepareForBuild, GAS_rebuild, IAS_prepareForBuild, IAS_rebuild;
    autounfold with ops;
    solve [walk mat_leaf].
Qed.

End MaterialInvariant.

(* ===================================================================== *)
(** * Acceleration structures in every attainable world *)
(* ===================================================================== *)

Lemma preserves_Wsat_insert_gas PG PI g x :
  PG g x -> preserves (Wsat PG PI) (modify (set_gass (insert g x))).
Proof. intros Hx w Hw. apply Wsat_insert_gas; assumption. Qed.

Lemma preserves_Wsat_insert_ias PG PI a x :
  PI a x -> preserves (Wsat PG PI) (modify (set_iass (insert a x))).
Proof. intros Hx w Hw. apply Wsat_insert_ias; assumption. Qed.

(** A write to a GAS that establishes more than the property, for the rest
    of the call to use. *)
Lemma preserves_updGAS_then {A} (PG PG' : nat -> GAS.t -> Prop) PI g f (rest : M A) :
  (forall x, PG g x -> PG' g (f x)) ->
  (forall g' x, g' <> g -> PG g' x -> PG' g' x) ->
  (forall g' x, PG' g' x -> PG g' x) ->
  preserves (Wsat PG' PI) rest ->
  preserves (Wsat PG PI) (bind (updGAS g f) (fun _ => rest)).
Proof.
  intros Hf Ho Hback Hrest w Hw.
  pose proof (hoare_updGAS PG PG' PI g f (Wsat PG PI) (fun _ H => H) Hf Ho w Hw) as Hupd.
  unfold bind. destruct (updGAS g f w) as [w1 [[] | e]]; cbn; [| exact Hupd].
  specialize (Hrest w1 Hupd). destruct Hrest as [Hg Hi].
  split; [| exact Hi]. intros g' x E. apply Hback, (Hg _ _ E).
Qed.

Lemma preserves_updIAS_then {A} PG (PI PI' : nat -> IAS.t -> Prop) a f (rest : M A) :
  (forall x, PI a x -> PI' a (f x)) ->
  (forall a' x, a' <> a -> PI a' x -> PI' a' x) ->
  (forall a' x, PI' a' x -> PI a' x) ->
  preserves (Wsat PG PI') rest ->
  preserves (Wsat PG PI) (bind (updIAS a f) (fun _ => rest)).
Proof.
  intros Hf Ho Hback Hrest w Hw.
  pose proof (hoare_updIAS PG PI PI' a f (Wsat PG PI) (fun _ H => H) Hf Ho w Hw) as Hupd.
  unfold bind. destruct (updIAS a f w) as [w1 [[] | e]]; cbn; [| exact Hupd].
  specialize (Hrest w1 Hupd). destruct Hrest as [Hg Hi].
  split; [exact Hg |]. intros a' x E. apply Hback, (Hi _ _ E).
Qed.

(** Two writes to one GAS in a row, the first of which cannot be seen
    alone. *)
Lemma updGAS_twice_keeps {A} PG PI g f f' (k : M A) w :
  Wsat PG PI w ->
  (forall x, gass w !! g = Some x -> PG g x -> PG g (f' (f x))) ->
  preserves (Wsat PG PI) k ->
  Wsat PG PI (fst (bind (updGAS g f) (fun _ => bind (updGAS g f') (fun _ => k)) w)).
Proof.
  intros Hw Hf Hk. destruct (gass w !! g) as [x |] eqn:E.
  - erewrite bind_ok by (apply run_updGAS; exact E).
    erewrite bind_ok by (apply run_updGAS, lookup_set_gass_insert).
    rewrite set_gass_insert_insert. apply Hk.
    apply Wsat_insert_gas; [exact Hw |]. apply Hf; [reflexivity |].
    destruct Hw as [Hg _]. apply (Hg _ _ E).
  - unfold bind at 1. unfold updGAS, bind, getGAS, deref. rewrite E. exact Hw.
Qed.

Lemma updIAS_twice_keeps {A} PG PI a f f' (k : M A) w :
  Wsat PG PI w ->
  (forall x, iass w !! a = Some x -> PI a x -> PI a (f' (f x))) ->
  preserves (Wsat PG PI) k ->
  Wsat PG PI (fst (bind (updIAS a f) (fun _ => bind (updIAS a f') (fun _ => k)) w)).
Proof.
  intros Hw Hf Hk. destruct (iass w !! a) as [x |] eqn:E.
  - erewrite bind_ok by (apply run_updIAS; exact E).
    erewrite bind_ok by (apply run_updIAS, lookup_set_iass_insert).
    rewrite set_iass_insert_insert. apply Hk.
    apply Wsat_insert_ias; [exact Hw |]. apply Hf; [reflexivity |].
    destruct Hw as [_ Hi]. apply (Hi _ _ E).
  - unfold bind at 1. unfold updIAS, bind, getIAS, deref. rewrite E. exact Hw.
Qed.

Lemma NoDup_erase_first c l : NoDup l -> NoDup (erase_first c l).
Proof.
  induction 1 as [| d l Hd Hl IH]; cbn; [constructor |].
  destruct (bool_decide (d = c)); [exact Hl |].
  constructor; [| exact IH].
  intros Hin. apply Hd. clear -Hin. induction l as [| e l IHl]; cbn in Hin; [inversion Hin |].
  destruct (bool_decide (e = c)); [right; exact Hin |].
  apply elem_of_cons in Hin as [-> | Hin]; [left | right; apply IHl, Hin].
Qed.

Lemma NoDup_erase_first_nat i l : NoDup l -> NoDup (erase_first_nat i l).
Proof.
  induction 1 as [| d l Hd Hl IH]; cbn; [constructor |].
  destruct (bool_decide (d = i)); [exact Hl |].
  constructor; [| exact IH].
  intros Hin. apply Hd. clear -Hin. induction l as [| e l IHl]; cbn in Hin; [inversion Hin |].
  destruct (bool_decide (e = i)); [right; exact Hin |].
  apply elem_of_cons in Hin as [-> | Hin]; [left | right; apply IHl, Hin].
Qed.

Lemma NoDup_snoc {A} (l : list A) x : NoDup l -> x ∉ l -> NoDup (l ++ [x]).
Proof.
  intros Hl Hx. apply NoDup_app. split; [exact Hl |]. split.
  - intros y Hy Hin. apply list_elem_of_singleton in Hin as ->. exact (Hx Hy).
  - apply NoDup_singleton.
Qed.

Ltac gas_setter :=
  idtac;
  let x := fresh "x" in
  intros x [[? ?] ?]; destruct x;
  unfold GAS_ok', GAS_children_ok, userData_covers in *; cbn -[vec_resize] in *;
  repeat split; try (intros; discriminate);
  rewrite ?length_insert, ?length_vec_resize;
  eauto using copy_user_data_length, NoDup_erase_first.

Ltac ias_setter :=
  idtac;
  let x := fresh "x" in
  intros x [? ?]; destruct x;
  unfold IAS_children_ok in *; cbn -[vec_resize] in *;
  repeat split; try (intros; discriminate);
  rewrite ?length_insert, ?length_vec_resize;
  eauto using NoDup_erase_first_nat.

Ltac as_leaf :=
  first
    [ apply preserves_Wsat_keeps; keeps_tac
    | apply preserves_delete_gas
    | apply preserves_delete_ias
    | apply preserves_Wsat_insert_gas;
      unfold GAS_ok', GAS_children_ok, userData_covers;
      repeat split; cbn; first [lia | constructor | discriminate]
    | apply preserves_Wsat_insert_ias;
      unfold IAS_children_ok; repeat split; cbn; first [constructor | discriminate]
    | apply preserves_updGAS; gas_setter
    | apply preserves_updIAS; ias_setter ].

Section ASInvariant.
Context `{OptixSDK}.

(** The checks of [addChild] and [removeChild], up to the write. *)
Ltac child_checks Hw Em :=
  rewrite run_getGAS;
  match goal with
  | |- context [deref (gass ?w) ?g ?what] =>
      destruct (deref (gass w) g what) as [m | e] eqn:Em; [| exact Hw]
  end;
  apply deref_ok_inv in Em;
  match goal with
  | |- context [match ?o with Some _ => _ | None => _ end] =>
      destruct o as [gi |]; [| exact Hw]
  end;
  unfold bind at 1; unfold getGeomInst at 1;
  match goal with
  | |- context [deref (geomInsts ?w) ?gi ?what] =>
      destruct (deref (geomInsts w) gi what) as [x | e]; [| exact Hw]
  end;
  cbv beta iota;
  repeat (rewrite bind_throwM;
          match goal with
          | |- context [if ?b then _ else _] =>
              let Hb := fresh "Hb" in destruct b eqn:Hb; [| exact Hw]
          end).

Lemma GAS_addChild_keeps g geomInst preTransform :
  preserves (Wsat (fun _ => GAS_ok') (fun _ => IAS_children_ok))
            (GAS_addChild g geomInst preTransform).
Proof.
  intros w Hw. unfold GAS_addChild. child_checks Hw Em.
  unfold GAS_Priv_markDirty.
  apply updGAS_twice_keeps; [exact Hw | | autounfold with ops; walk as_leaf].
  intros y Ey [[Hnd Hlen] Hud]. rewrite Em in Ey. injection Ey as <-.
  apply bool_decide_eq_true_1 in Hb1.
  destruct m; unfold GAS_ok', GAS_children_ok in *; cbn in *.
  repeat split; [apply NoDup_snoc; assumption | discriminate | exact Hud].
Qed.

Lemma GAS_removeChild_keeps g geomInst preTransform :
  preserves (Wsat (fun _ => GAS_ok') (fun _ => IAS_children_ok))
            (GAS_removeChild g geomInst preTransform).
Proof.
  intros w Hw. unfold GAS_removeChild. child_checks Hw Em.
  unfold GAS_Priv_markDirty.
  apply updGAS_twice_keeps; [exact Hw | | autounfold with ops; walk as_leaf].
  intros y Ey [[Hnd Hlen] Hud].
  destruct y; unfold GAS_ok', GAS_children_ok in *; cbn in *.
  repeat split; [apply NoDup_erase_first; assumption | discriminate | exact Hud].
Qed.

Ltac ias_child_checks Hw Em :=
  rewrite run_getIAS;
  match goal with
  | |- context [deref (iass ?w) ?a ?what] =>
      destruct (deref (iass w) a what) as [m | e] eqn:Em; [| exact Hw]
  end;
  apply deref_ok_inv in Em;
  match goal with
  | |- context [match ?o with Some _ => _ | None => _ end] =>
      destruct o as [i |]; [| exact Hw]
  end;
  unfold bind at 1; unfold getInstance at 1;
  match goal with
  | |- context [deref (instances ?w) ?i ?what] =>
      destruct (deref (instances w) i what) as [x | e]; [| exact Hw]
  end;
  cbv beta iota;
  repeat (rewrite bind_throwM;
          match goal with
          | |- context [if ?b then _ else _] =>
              let Hb := fresh "Hb" in destruct b eqn:Hb; [| exact Hw]
          end).

Lemma IAS_addChild_keeps a instance :
  preserves (Wsat (fun _ => GAS_ok') (fun _ => IAS_children_ok)) (IAS_addChild a instance).
Proof.
  intros w Hw. unfold IAS_addChild. ias_child_checks Hw Em.
  unfold IAS_Priv_markDirty.
  apply updIAS_twice_keeps; [exact Hw | | walk as_leaf].
  intros y Ey [Hnd Hlen]. rewrite Em in Ey. injection Ey as <-.
  apply bool_decide_eq_true_1 in Hb0.
  destruct m; unfold IAS_children_ok in *; cbn in *.
  split; [apply NoDup_snoc; assumption | discriminate].
Qed.

Lemma IAS_removeChild_keeps a instance :
  preserves (Wsat (fun _ => GAS_ok') (fun _ => IAS_children_ok)) (IAS_removeChild a instance).
Proof.
  intros w Hw. unfold IAS_removeChild. ias_child_checks Hw Em.
  unfold IAS_Priv_markDirty.
  apply updIAS_twice_keeps; [exact Hw | | walk as_leaf].
  intros y Ey [Hnd Hlen].
  destruct y; unfold IAS_children_ok in *; cbn in *.
  split; [apply NoDup_erase_first_nat; assumption | discriminate].
Qed.

(** What [prepareForBuild] knows of its GAS from the resize on. *)
Ltac gas_setter_sized :=
  idtac;
  let x := fresh "x" in
  intros x [[[? ?] ?] ?]; destruct x;
  unfold GAS_ok', GAS_children_ok, userData_covers in *; cbn -[vec_resize] in *;
  repeat split; try (intros; discriminate);
  rewrite ?length_insert, ?length_vec_resize; eauto.

Ltac ias_setter_sized :=
  idtac;
  let x := fresh "x" in
  intros x [[? ?] ?]; destruct x;
  unfold IAS_children_ok in *; cbn -[vec_resize] in *;
  repeat split; try (intros; discriminate);
  rewrite ?length_insert, ?length_vec_resize; eauto.

Lemma GAS_prepareForBuild_keeps g usage :
  preserves (Wsat (fun _ => GAS_ok') (fun _ => IAS_children_ok))
            (GAS_prepareForBuild g usage).
Proof.
  unfold GAS_prepareForBuild.
  apply (preserves_updGAS_then _
           (fun g' x => GAS_ok' x /\
                        (g' = g -> length (GAS.buildInputs x) = length (GAS.children x)))).
  - intros x [[Hnd Hlen] Hud]. destruct x; unfold GAS_ok', GAS_children_ok in *;
    cbn -[vec_resize] in *.
    rewrite length_vec_resize. repeat split; auto.
  - intros g' x Hne Hx. split; [exact Hx | congruence].
  - intros g' x [Hx _]. exact Hx.
  - autounfold with ops.
    walk ltac:(first [ apply preserves_Wsat_keeps; keeps_tac
                     | apply preserves_updGAS; gas_setter_sized
                     | apply preserves_updIAS; ias_setter ]).
Qed.

Lemma IAS_prepareForBuild_keeps a usage :
  preserves (Wsat (fun _ => GAS_ok') (fun _ => IAS_children_ok))
            (IAS_prepareForBuild a usage).
Proof.
  unfold IAS_prepareForBuild.
  apply preserves_bind; [walk as_leaf | intros m].
  apply preserves_bind; [walk as_leaf | intros sc].
  apply preserves_throwM_bind; intros _.
  apply (preserves_updIAS_then _ _
           (fun a' x => IAS_children_ok x /\
                        (a' = a -> length (IAS.instances x) = length (IAS.children x)))).
  - intros x [Hnd Hlen]. destruct x; unfold IAS_children_ok in *; cbn -[vec_resize] in *.
    rewrite length_vec_resize. repeat split; auto.
  - intros a' x Hne Hx. split; [exact Hx | congruence].
  - intros a' x [Hx _]. exact Hx.
  - autounfold with ops.
    walk ltac:(first [ apply preserves_Wsat_keeps; keeps_tac
                     | apply preserves_updGAS; gas_setter
                     | apply preserves_updIAS; ias_setter_sized ]).
Qed.

Lemma run_op_keeps_AS_ok o :
  preserves (Wsat (fun _ => GAS_ok') (fun _ => IAS_children_ok)) (run_op o).
Proof.
  destruct o as [c | | | | | | |]; [destruct c |..]; cbn [run_op run];
    try apply preserves_void;
    first [ apply GAS_addChild_keeps | apply GAS_removeChild_keeps
          | apply IAS_addChild_keeps | apply IAS_removeChild_keeps
          | apply GAS_prepareForBuild_keeps | apply IAS_prepareForBuild_keeps
          | idtac ];
    autounfold with ops;
    unfold Material_destroy, Scene_destroy, GeometryInstance_destroy, Instance_destroy,
      Transform_destroy, Transform_setMatrixMotionKey, Transform_setSRTMotionKey,
      GAS_rebuild, IAS_rebuild;
    autounfold with ops;
    solve [walk as_leaf].
Qed.

End ASInvariant.

(* ===================================================================== *)
(** * Transforms in every attainable world *)
(* ===================================================================== *)

Lemma set_transforms_insert_insert t x y w :
  set_transforms (insert t y) (set_transforms (insert t x) w) = set_transforms (insert t y) w.
Proof. unfold set_transforms. cbn. rewrite insert_insert_eq. reflexivity. Qed.

Lemma Tsat_insert P t x w : Tsat P w -> P t x -> Tsat P (set_transforms (insert t x) w).
Proof.
  intros Hw Hx t' x'. cbn. destruct (decide (t' = t)) as [-> | Hne].
  - rewrite lookup_insert_eq. intros [= <-]. exact Hx.
  - rewrite lookup_insert_ne by congruence. apply Hw.
Qed.

(** A write to a transform the call has read. *)
Lemma updTransform_keeps_at {A} P t f (k : M A) w m :
  Tsat P w -> transforms w !! t = Some m -> P t (f m) -> preserves (Tsat P) k ->
  Tsat P (fst (bind (updTransform t f) (fun _ => k) w)).
Proof.
  intros Hw Em Hf Hk. erewrite bind_ok by (apply run_updTransform; exact Em).
  apply Hk, Tsat_insert; assumption.
Qed.

Lemma invMat_length `{OptixSDK} invDet matrix : length (invMat invDet matrix) = 12%nat.
Proof. reflexivity. Qed.

Ltac tr_setter :=
  idtac;
  let x := fresh "x" in
  intros x ?; destruct x; unfold Transform_data_ok in *; cbn in *; auto.

Ltac tr_leaf :=
  first
    [ apply preserves_Tsat_keeps; keeps_tac
    | apply preserves_Tsat_delete
    | apply preserves_Tsat_insert; exact I
    | apply preserves_Tsat_updTransform; tr_setter ].

Section TransformInvariant.
Context `{OptixSDK}.

Lemma MatrixMotion_keysHeld_ge n : 2 <= MatrixMotion_keysHeld n.
Proof.
  unfold MatrixMotion_keysHeld, MatrixMotion_extraFloats, u32_mul.
  pose proof (u32_range (u32_sub n 2 * 12)) as Hr.
  assert (0 <= u32 (u32_sub n 2 * 12) / 12) by (apply Z.div_pos; lia). lia.
Qed.

Lemma MatrixMotion_keysWritten_le n :
  2 <= n -> MatrixMotion_keys_fit n = true ->
  0 <= MatrixMotion_keysWritten n <= MatrixMotion_keysHeld n.
Proof.
  unfold MatrixMotion_keys_fit, MatrixMotion_keysHeld, MatrixMotion_keysWritten.
  intros Hn Hfit. apply Z.leb_le in Hfit.
  set (e := MatrixMotion_extraFloats n) in *.
  set (k := Z.min n 357913942) in *.
  assert (Hk : 0 <= k) by (unfold k; lia). split; [exact Hk |].
  assert (Hdiv : k <= (24 + e) / 12) by (apply Z.div_le_lower_bound; lia).
  replace (24 + e) with (e + 2 * 12) in Hdiv by ring.
  rewrite Z.div_add in Hdiv by lia. lia.
Qed.

Lemma zero_key_length : length zero_key = 12%nat.
Proof. reflexivity. Qed.

Lemma preserves_bind_run {A B} (P : World -> Prop) (m : M A) (k : A -> M B) w :
  P (fst (m w)) -> (forall a, preserves P (k a)) -> P (fst (bind m k w)).
Proof.
  intros Hm Hk. unfold bind. destruct (m w) as [w1 [a | e]]; cbn [fst] in *.
  - apply Hk, Hm.
  - exact Hm.
Qed.

Lemma Transform_setConfiguration_keeps t type numKeys :
  preserves (Tsat (fun _ => Transform_data_ok)) (Transform_setConfiguration t type numKeys).
Proof.
  intros w Hw. unfold Transform_setConfiguration.
  destruct (transforms w !! t) as [x |] eqn:E.
  2: { unfold bind at 1. unfold updTransform, bind, getTransform, deref. rewrite E. exact Hw. }
  erewrite bind_ok by (apply run_updTransform; exact E).
  assert (Hrest : preserves (Tsat (fun _ => Transform_data_ok))
            (let* m := getTransform t in Transform_Priv_markDirty t ;;; ret (Transform.dataSize m))).
  { unfold Transform_Priv_markDirty. walk tr_leaf. }
  set (n := Z.max numKeys 2).
  assert (Hn : 2 <= n) by (unfold n; lia).
  apply preserves_bind_run; [| intros _; exact Hrest].
  destruct type.
  - erewrite bind_ok by (apply run_updTransform, lookup_set_transforms_insert).
    erewrite bind_ok by (apply run_updTransform, lookup_set_transforms_insert).
    erewrite bind_ok by (apply run_updTransform, lookup_set_transforms_insert).
    rewrite !set_transforms_insert_insert. rewrite run_lift.
    pose proof (MatrixMotion_keysHeld_ge n) as Hheld.
    destruct (MatrixMotion_keys_fit n) eqn:Hfit.
    + erewrite run_updTransform by apply lookup_set_transforms_insert.
      cbn [fst]. rewrite set_transforms_insert_insert.
      apply Tsat_insert; [exact Hw |].
      destruct (MatrixMotion_keysWritten_le n Hn Hfit) as [Hw0 Hwh].
      destruct x; unfold Transform_data_ok; cbn.
      eexists _, _, _, n. split; [reflexivity |].
      split; [exact Hn |]. split; [reflexivity |]. split.
      * rewrite length_app, !length_replicate. lia.
      * apply Forall_app. split; apply Forall_replicate; reflexivity.
    + cbn [fst]. apply Tsat_insert; [exact Hw |].
      destruct x; unfold Transform_data_ok; cbn.
      eexists _, _, _, n. split; [reflexivity |].
      split; [exact Hn |]. split; [reflexivity |]. split.
      * rewrite length_replicate. lia.
      * apply Forall_replicate. reflexivity.
  - erewrite bind_ok by (apply run_updTransform, lookup_set_transforms_insert).
    erewrite bind_ok by (apply run_updTransform, lookup_set_transforms_insert).
    erewrite run_updTransform by apply lookup_set_transforms_insert.
    cbn [fst]. rewrite !set_transforms_insert_insert. apply Tsat_insert; [exact Hw |].
    destruct x; unfold Transform_data_ok; cbn.
    eexists _, _, _. split; [reflexivity |]. rewrite length_replicate.
    split; [lia |]. f_equal. fold n. lia.
  - erewrite bind_ok by (apply run_updTransform, lookup_set_transforms_insert).
    erewrite run_updTransform by apply lookup_set_transforms_insert.
    cbn [fst]. rewrite !set_transforms_insert_insert. apply Tsat_insert; [exact Hw |].
    destruct x; unfold Transform_data_ok; cbn.
    eexists _, _, _. repeat split.
  - cbn [fst ret]. apply Tsat_insert; [exact Hw |].
    destruct x; exact I.
Qed.

(** Steps through the reads and checks of a call on the transform [t],
    which leave the world as it is. *)
Ltac tr_reads Hw Em :=
  match goal with
  | |- context [bind (getTransform ?t) _ ?w] =>
      destruct (transforms w !! t) as [m |] eqn:Em;
      [ rewrite (run_getTransform _ _ _ _ Em)
      | unfold bind at 1; unfold getTransform, deref; rewrite Em; exact Hw ]
  end;
  repeat first
    [ rewrite bind_throwM;
      match goal with
      | |- context [if ?b then _ else _] =>
          let Hb := fresh "Hb" in destruct b eqn:Hb; [| exact Hw]
      end
    | rewrite run_lift;
      match goal with
      | |- context [match ?r with Ok _ => _ | Err _ => _ end] =>
          let Hr := fresh "Hr" in destruct r eqn:Hr; [| exact Hw]
      end
    | rewrite run_get ].

Lemma Transform_setStaticTransform_keeps t matrix :
  preserves (Tsat (fun _ => Transform_data_ok)) (Transform_setStaticTransform t matrix).
Proof.
  intros w Hw. unfold Transform_setStaticTransform. tr_reads Hw Em.
  apply bool_decide_eq_true_1 in Hb.
  destruct (bool_decide (length matrix = 12%nat)) eqn:Hlen; [| discriminate].
  apply bool_decide_eq_true_1 in Hlen.
  destruct (Transform.data m) eqn:Ed; try exact Hw.
  apply (updTransform_keeps_at _ _ _ _ _ m); [exact Hw | exact Em | | ].
  - destruct m; unfold Transform_data_ok; cbn in *. subst.
    eexists _, _, _. split; [reflexivity |]. split; [exact Hlen | reflexivity].
  - unfold Transform_Priv_markDirty. walk tr_leaf.
Qed.

Lemma Transform_rebuild_keeps t trDeviceMem copied converted :
  preserves (Tsat (fun _ => Transform_data_ok))
            (Transform_rebuild t trDeviceMem copied converted).
Proof.
  intros w Hw. unfold Transform_rebuild. tr_reads Hw Em.
  pose proof (Hw _ _ Em) as Hm. cbv beta in Hm.
  assert (Hrest : forall h : Z, preserves (Tsat (fun _ => Transform_data_ok))
            (backend_check (if copied then Some tt else None) "cuMemcpyHtoDAsync" ;;;
             let* h := backend_check converted "optixConvertPointerToTraversableHandle" in
             updTransform t (Transform.set_handle h) ;;;
             updTransform t (Transform.set_available true) ;;;
             ret h)).
  { intros _. walk tr_leaf. }
  unfold Transform_data_ok in Hm.
  destruct (Transform.type m) eqn:Ety, (Transform.data m) eqn:Ed; try exact Hw;
    (apply (updTransform_keeps_at _ _ _ _ _ m); [exact Hw | exact Em | | apply (Hrest 0)]);
    destruct m; unfold Transform_data_ok; cbn in *; subst;
    first [ destruct Hm as (c & o & k & n & Hd & Hrest'); injection Hd as; subst;
            eexists _, _, _, n; split; [reflexivity | exact Hrest']
          | destruct Hm as (c & o & k & Hd & Hrest'); injection Hd as; subst;
            eexists _, _, _; split; [reflexivity | exact Hrest'] ].
Qed.

Lemma Transform_setMatrixMotionKey_keeps t keyIdx matrix :
  preserves (Tsat (fun _ => Transform_data_ok))
            (Transform_setMatrixMotionKey t keyIdx matrix).
Proof.
  intros w Hw. unfold Transform_setMatrixMotionKey. tr_reads Hw Em.
  pose proof (Hw _ _ Em) as Hm. cbv beta in Hm.
  apply bool_decide_eq_true_1 in Hb.
  unfold float_array in Hr.
  destruct (bool_decide (length matrix = 12%nat)) eqn:Hlen; [| discriminate].
  apply bool_decide_eq_true_1 in Hlen.
  unfold Transform_data_ok in Hm. rewrite Hb in Hm.
  destruct Hm as (c & o & keys & n & Hd & Hn & Hnk & Hlk & Hall). rewrite Hd.
  rewrite run_lift. destruct (vec_at keys keyIdx _); [| exact Hw].
  apply (updTransform_keeps_at _ _ _ _ _ m); [exact Hw | exact Em | | ].
  - destruct m; unfold Transform_data_ok; cbn in *. subst.
    eexists _, _, _, n. split; [reflexivity |]. rewrite length_insert.
    repeat split; [exact Hn | exact Hnk | exact Hlk |]. apply Forall_insert; assumption.
  - unfold Transform_Priv_markDirty. walk tr_leaf.
Qed.

Lemma Transform_setSRTMotionKey_keeps t keyIdx scale orientation translation :
  preserves (Tsat (fun _ => Transform_data_ok))
            (Transform_setSRTMotionKey t keyIdx scale orientation translation).
Proof.
  intros w Hw. unfold Transform_setSRTMotionKey. tr_reads Hw Em.
  pose proof (Hw _ _ Em) as Hm. cbv beta in Hm.
  apply bool_decide_eq_true_1 in Hb.
  unfold Transform_data_ok in Hm. rewrite Hb in Hm.
  destruct Hm as (c & o & keys & Hd & Hn & Hlk). rewrite Hd.
  repeat (rewrite run_lift;
          match goal with
          | |- context [match ?r with Ok _ => _ | Err _ => _ end] =>
              destruct r; [| exact Hw]
          end).
  apply (updTransform_keeps_at _ _ _ _ _ m); [exact Hw | exact Em | | ].
  - destruct m; unfold Transform_data_ok; cbn in *. subst.
    eexists _, _, _. split; [reflexivity |]. rewrite length_insert.
    split; [exact Hn | exact Hlk].
  - unfold Transform_Priv_markDirty. walk tr_leaf.
Qed.

Lemma run_op_keeps_Transform_ok o :
  preserves (Tsat (fun _ => Transform_data_ok)) (run_op o).
Proof.
  destruct o as [c | | | | | | |]; [destruct c |..]; cbn [run_op run];
    try apply preserves_void;
    first [ apply Transform_setConfiguration_keeps
          | apply Transform_setStaticTransform_keeps
          | apply Transform_rebuild_keeps
          | apply Transform_setMatrixMotionKey_keeps
          | apply Transform_setSRTMotionKey_keeps | idtac ];
    autounfold with ops;
    unfold Material_destroy, Scene_destroy, GeometryInstance_destroy, Instance_destroy,
      Transform_destroy, Transform_setMatrixMotionKey, Transform_setSRTMotionKey,
      GAS_prepareForBuild, GAS_rebuild, IAS_prepareForBuild, IAS_rebuild;
    autounfold with ops;
    solve [walk tr_leaf].
Qed.

End TransformInvariant.

(* ===================================================================== *)
(** * The registries of the scenes in every attainable world *)
(* ===================================================================== *)

Section Registry.
Context {X : Type} (scene_of : X -> nat).

Lemma registry_ok_nil (arena : gmap nat X) s : registry_ok arena scene_of s [].
Proof. split; [constructor | intros p Hp; inversion Hp]. Qed.

Lemma registry_ok_insert (arena : gmap nat X) p y s l :
  (forall x, arena !! p = Some x -> scene_of y = scene_of x) ->
  registry_ok arena scene_of s l -> registry_ok (<[p := y]> arena) scene_of s l.
Proof.
  intros Hy [Hnd Hl]. split; [exact Hnd |]. intros q Hq.
  destruct (Hl q Hq) as (x & Ex & Hs).
  destruct (decide (q = p)) as [-> | Hne].
  - exists y. rewrite lookup_insert_eq. split; [reflexivity |]. rewrite (Hy x Ex). exact Hs.
  - exists x. rewrite lookup_insert_ne by congruence. split; assumption.
Qed.

Lemma registry_ok_add (arena : gmap nat X) p x s l pos :
  arena !! p = Some x -> scene_of x = s ->
  registry_ok arena scene_of s l -> registry_ok arena scene_of s (unordered_insert pos p l).
Proof.
  intros Ex Hs [Hnd Hl]. unfold unordered_insert. case_bool_decide as Hin; [split; assumption |].
  assert (Hperm : take pos l ++ p :: drop pos l ≡ₚ p :: l).
  { rewrite <- Permutation_middle. rewrite take_drop. reflexivity. }
  split.
  - rewrite Hperm. constructor; assumption.
  - intros q Hq. rewrite Hperm in Hq. apply elem_of_cons in Hq as [-> | Hq]; [eauto |].
    apply Hl, Hq.
Qed.

Lemma registry_ok_erase (arena : gmap nat X) p s l :
  registry_ok arena scene_of s l -> registry_ok arena scene_of s (unordered_erase p l).
Proof.
  intros [Hnd Hl]. unfold unordered_erase. split; [apply NoDup_filter, Hnd |].
  intros q Hq. apply list_elem_of_filter in Hq as [_ Hq]. apply Hl, Hq.
Qed.

Lemma unordered_erase_not_elem p l : p ∉ unordered_erase p l.
Proof. unfold unordered_erase. intros Hin. apply list_elem_of_filter in Hin as [Hne _]. congruence. Qed.

Lemma registry_ok_delete (arena : gmap nat X) p s l :
  p ∉ l -> registry_ok arena scene_of s l -> registry_ok (delete p arena) scene_of s l.
Proof.
  intros Hp [Hnd Hl]. split; [exact Hnd |]. intros q Hq.
  destruct (Hl q Hq) as (x & Ex & Hs). exists x. split; [| exact Hs].
  rewrite lookup_delete_ne; [exact Ex |]. intros ->. exact (Hp Hq).
Qed.

(** A pointer in the registry of another scene than its own. *)
Lemma registry_ok_other_scene (arena : gmap nat X) p x s l :
  arena !! p = Some x -> scene_of x <> s -> registry_ok arena scene_of s l -> p ∉ l.
Proof.
  intros Ex Hs [_ Hl] Hin. destruct (Hl p Hin) as (y & Ey & Hy). congruence.
Qed.

End Registry.

Lemma preserves_registries_keeps {A} (m : M A) :
  keeps scenes m -> keeps gass m -> keeps transforms m -> keeps iass m ->
  preserves registries_ok m.
Proof.
  intros Hs Hg Ht Hi w Hw. unfold registries_ok. rewrite Hs, Hg, Ht, Hi. exact Hw.
Qed.

Lemma preserves_registries_updGAS g f :
  (forall x, GAS.scene (f x) = GAS.scene x) -> preserves registries_ok (updGAS g f).
Proof.
  intros Hf w Hw. unfold updGAS, bind, getGAS, modify.
  destruct (deref (gass w) g _) as [x | e] eqn:E; cbn; [| exact Hw].
  apply deref_ok_inv in E. intros s sc Hsc. cbn in Hsc.
  destruct (Hw s sc Hsc) as (Hg & Ht & Hi). cbn.
  split; [| split; assumption].
  apply registry_ok_insert; [| exact Hg].
  intros y Ey. rewrite E in Ey. injection Ey as <-. apply Hf.
Qed.

Lemma preserves_registries_updIAS a f :
  (forall x, IAS.scene (f x) = IAS.scene x) -> preserves registries_ok (updIAS a f).
Proof.
  intros Hf w Hw. unfold updIAS, bind, getIAS, modify.
  destruct (deref (iass w) a _) as [x | e] eqn:E; cbn; [| exact Hw].
  apply deref_ok_inv in E. intros s sc Hsc. cbn in Hsc.
  destruct (Hw s sc Hsc) as (Hg & Ht & Hi). cbn.
  split; [assumption | split; [assumption |]].
  apply registry_ok_insert; [| exact Hi].
  intros y Ey. rewrite E in Ey. injection Ey as <-. apply Hf.
Qed.

Lemma preserves_registries_updTransform t f :
  (forall x, Transform.scene (f x) = Transform.scene x) ->
  preserves registries_ok (updTransform t f).
Proof.
  intros Hf w Hw. unfold updTransform, bind, getTransform, modify.
  destruct (deref (transforms w) t _) as [x | e] eqn:E; cbn; [| exact Hw].
  apply deref_ok_inv in E. intros s sc Hsc. cbn in Hsc.
  destruct (Hw s sc Hsc) as (Hg & Ht & Hi). cbn.
  split; [assumption | split; [| assumption]].
  apply registry_ok_insert; [| exact Ht].
  intros y Ey. rewrite E in Ey. injection Ey as <-. apply Hf.
Qed.

Lemma registries_ok_put_scene s sc w :
  registries_ok w ->
  registry_ok (gass w) GAS.scene s (Scene.geomASs sc) ->
  registry_ok (transforms w) Transform.scene s (Scene.transforms sc) ->
  registry_ok (iass w) IAS.scene s (Scene.instASs sc) ->
  registries_ok (set_scenes (insert s sc) w).
Proof.
  intros Hw Hg Ht Hi s' sc'. cbn. destruct (decide (s' = s)) as [-> | Hne].
  - rewrite lookup_insert_eq. intros [= <-]. auto.
  - rewrite lookup_insert_ne by congruence. apply Hw.
Qed.

Lemma preserves_registries_updScene s f :
  (forall sc, Scene.geomASs (f sc) = Scene.geomASs sc /\
              Scene.transforms (f sc) = Scene.transforms sc /\
              Scene.instASs (f sc) = Scene.instASs sc) ->
  preserves registries_ok (updScene s f).
Proof.
  intros Hf w Hw. unfold updScene, bind, getScene, modify.
  destruct (deref (scenes w) s _) as [sc | e] eqn:E; cbn; [| exact Hw].
  apply deref_ok_inv in E. destruct (Hw s sc E) as (Hg & Ht & Hi).
  destruct (Hf sc) as (Eg & Et & Ei).
  apply registries_ok_put_scene; [exact Hw | rewrite Eg | rewrite Et | rewrite Ei]; assumption.
Qed.

Lemma preserves_registries_new_scene s sc :
  Scene.geomASs sc = [] -> Scene.transforms sc = [] -> Scene.instASs sc = [] ->
  preserves registries_ok (modify (set_scenes (insert s sc))).
Proof.
  intros Eg Et Ei w Hw. apply registries_ok_put_scene; [exact Hw | rewrite Eg | rewrite Et | rewrite Ei];
    apply registry_ok_nil.
Qed.

Lemma preserves_registries_delete_scene s :
  preserves registries_ok (modify (set_scenes (delete s))).
Proof.
  intros w Hw s' sc'. cbn. intros E. apply lookup_delete_Some in E as [_ E]. apply (Hw _ _ E).
Qed.

Ltac reg_leaf :=
  first
    [ apply preserves_registries_keeps; keeps_tac
    | apply preserves_registries_delete_scene
    | apply preserves_registries_new_scene; reflexivity
    | apply preserves_registries_updGAS; intros []; reflexivity
    | apply preserves_registries_updIAS; intros []; reflexivity
    | apply preserves_registries_updTransform; intros []; reflexivity
    | apply preserves_registries_updScene; intros []; repeat split ].

Section RegistryInvariant.
Context `{OptixSDK}.

Lemma createGAS_keeps_registries s forCustomPrimitives g pos ind :
  preserves registries_ok
    (Scene_createGeometryAccelerationStructure s forCustomPrimitives g pos ind).
Proof.
  intros w Hw. unfold Scene_createGeometryAccelerationStructure. rewrite run_get.
  destruct (gass w !! g) as [x |] eqn:E; [exact Hw |].
  rewrite bind_ok with (w1 := set_gass (insert g _) w) (a := tt) by reflexivity.
  match goal with
  | |- context [set_gass (insert g ?x0) w] => set (w1 := set_gass (insert g x0) w)
  end.
  assert (Hw1 : registries_ok w1).
  { intros s' sc' Hsc'. destruct (Hw s' sc' Hsc') as (Hg & Ht & Hi).
    split; [| split; assumption]. apply registry_ok_insert; [| exact Hg].
    intros y Ey. congruence. }
  unfold Scene_addGAS. destruct (scenes w1 !! s) as [sc |] eqn:Esc.
  - erewrite bind_ok by (apply run_updScene; exact Esc). cbv beta. unfold ret. cbn [fst].
    destruct (Hw1 s sc Esc) as (Hg & Ht & Hi).
    apply registries_ok_put_scene; try assumption. cbn.
    eapply registry_ok_add; [apply lookup_insert_eq | reflexivity | exact Hg].
  - unfold bind at 1. unfold updScene, bind, getScene, deref. rewrite Esc. exact Hw1.
Qed.

Lemma createIAS_keeps_registries s a pos ind buildInput :
  preserves registries_ok
    (Scene_createInstanceAccelerationStructure s a pos ind buildInput).
Proof.
  intros w Hw. unfold Scene_createInstanceAccelerationStructure. rewrite run_get.
  destruct (iass w !! a) as [x |] eqn:E; [exact Hw |].
  rewrite bind_ok with (w1 := set_iass (insert a _) w) (a := tt) by reflexivity.
  match goal with
  | |- context [set_iass (insert a ?x0) w] => set (w1 := set_iass (insert a x0) w)
  end.
  assert (Hw1 : registries_ok w1).
  { intros s' sc' Hsc'. destruct (Hw s' sc' Hsc') as (Hg & Ht & Hi).
    split; [assumption | split; [assumption |]]. apply registry_ok_insert; [| exact Hi].
    intros y Ey. congruence. }
  unfold Scene_addIAS. destruct (scenes w1 !! s) as [sc |] eqn:Esc.
  - erewrite bind_ok by (apply run_updScene; exact Esc). cbv beta. unfold ret. cbn [fst].
    destruct (Hw1 s sc Esc) as (Hg & Ht & Hi).
    apply registries_ok_put_scene; try assumption. cbn.
    eapply registry_ok_add; [apply lookup_insert_eq | reflexivity | exact Hi].
  - unfold bind at 1. unfold updScene, bind, getScene, deref. rewrite Esc. exact Hw1.
Qed.

Lemma createTransform_keeps_registries s t pos :
  preserves registries_ok (Scene_createTransform s t pos).
Proof.
  intros w Hw. unfold Scene_createTransform. rewrite run_get.
  destruct (transforms w !! t) as [x |] eqn:E; [exact Hw |].
  rewrite bind_ok with (w1 := set_transforms (insert t _) w) (a := tt) by reflexivity.
  match goal with
  | |- context [set_transforms (insert t ?x0) w] =>
      set (w1 := set_transforms (insert t x0) w)
  end.
  assert (Hw1 : registries_ok w1).
  { intros s' sc' Hsc'. destruct (Hw s' sc' Hsc') as (Hg & Ht & Hi).
    split; [assumption | split; [| assumption]]. apply registry_ok_insert; [| exact Ht].
    intros y Ey. congruence. }
  unfold Scene_addTransform. destruct (scenes w1 !! s) as [sc |] eqn:Esc.
  - erewrite bind_ok by (apply run_updScene; exact Esc). cbv beta. unfold ret. cbn [fst].
    destruct (Hw1 s sc Esc) as (Hg & Ht & Hi).
    apply registries_ok_put_scene; try assumption. cbn.
    eapply registry_ok_add; [apply lookup_insert_eq | reflexivity | exact Ht].
  - unfold bind at 1. unfold updScene, bind, getScene, deref. rewrite Esc. exact Hw1.
Qed.

Lemma GAS_destroy_keeps_registries g : preserves registries_ok (GAS_destroy g).
Proof.
  intros w Hw. unfold GAS_destroy. rewrite run_getGAS.
  destruct (deref (gass w) g _) as [self | e] eqn:E; [| exact Hw].
  apply deref_ok_inv in E. unfold Scene_removeGAS.
  destruct (scenes w !! GAS.scene self) as [sc |] eqn:Esc.
  2: { unfold bind at 1. unfold updScene, bind, getScene, deref. rewrite Esc. exact Hw. }
  erewrite bind_ok by (apply run_updScene; exact Esc).
  intros s' sc'. cbn. destruct (decide (s' = GAS.scene self)) as [-> | Hne].
  - rewrite lookup_insert_eq. intros [= <-]. destruct (Hw _ _ Esc) as (Hg & Ht & Hi).
    split; [| split; assumption]. cbn.
    apply registry_ok_delete; [apply unordered_erase_not_elem | apply registry_ok_erase, Hg].
  - rewrite lookup_insert_ne by congruence. intros Hsc'.
    destruct (Hw _ _ Hsc') as (Hg & Ht & Hi). split; [| split; assumption].
    apply registry_ok_delete; [| exact Hg].
    eapply (registry_ok_other_scene GAS.scene); [exact E | | eassumption]. congruence.
Qed.

Lemma IAS_destroy_keeps_registries a : preserves registries_ok (IAS_destroy a).
Proof.
  intros w Hw. unfold IAS_destroy. rewrite run_getIAS.
  destruct (deref (iass w) a _) as [self | e] eqn:E; [| exact Hw].
  apply deref_ok_inv in E. unfold Scene_removeIAS.
  destruct (scenes w !! IAS.scene self) as [sc |] eqn:Esc.
  2: { unfold bind at 1. unfold updScene, bind, getScene, deref. rewrite Esc. exact Hw. }
  erewrite bind_ok by (apply run_updScene; exact Esc).
  intros s' sc'. cbn. destruct (decide (s' = IAS.scene self)) as [-> | Hne].
  - rewrite lookup_insert_eq. intros [= <-]. destruct (Hw _ _ Esc) as (Hg & Ht & Hi).
    split; [assumption | split; [assumption |]]. cbn.
    apply registry_ok_delete; [apply unordered_erase_not_elem | apply registry_ok_erase, Hi].
  - rewrite lookup_insert_ne by congruence. intros Hsc'.
    destruct (Hw _ _ Hsc') as (Hg & Ht & Hi). split; [assumption | split; [assumption |]].
    apply registry_ok_delete; [| exact Hi].
    eapply (registry_ok_other_scene IAS.scene); [exact E | | eassumption]. congruence.
Qed.

Lemma Transform_destroy_keeps_registries t : preserves registries_ok (Transform_destroy t).
Proof.
  intros w Hw. unfold Transform_destroy.
  destruct (transforms w !! t) as [self |] eqn:E.
  2: { unfold bind at 1. unfold getTransform, deref. rewrite E. exact Hw. }
  rewrite (run_getTransform _ _ _ _ E). unfold Scene_removeTransform.
  destruct (scenes w !! Transform.scene self) as [sc |] eqn:Esc.
  2: { unfold bind at 1. unfold updScene, bind, getScene, deref. rewrite Esc. exact Hw. }
  erewrite bind_ok by (apply run_updScene; exact Esc).
  intros s' sc'. cbn. destruct (decide (s' = Transform.scene self)) as [-> | Hne].
  - rewrite lookup_insert_eq. intros [= <-]. destruct (Hw _ _ Esc) as (Hg & Ht & Hi).
    split; [assumption | split; [| assumption]]. cbn.
    apply registry_ok_delete; [apply unordered_erase_not_elem | apply registry_ok_erase, Ht].
  - rewrite lookup_insert_ne by congruence. intros Hsc'.
    destruct (Hw _ _ Hsc') as (Hg & Ht & Hi). split; [assumption | split; [| assumption]].
    apply registry_ok_delete; [| exact Ht].
    eapply (registry_ok_other_scene Transform.scene); [exact E | | eassumption]. congruence.
Qed.

Lemma run_op_keeps_registries o : preserves registries_ok (run_op o).
Proof.
  destruct o as [c | | | | | | |]; [destruct c |..]; cbn [run_op run];
    try apply preserves_void;
    first [ apply createGAS_keeps_registries | apply createIAS_keeps_registries
          | apply createTransform_keeps_registries | apply GAS_destroy_keeps_registries
          | apply IAS_destroy_keeps_registries | apply Transform_destroy_keeps_registries
          | idtac ];
    autounfold with ops;
    unfold Material_destroy, Scene_destroy, GeometryInstance_destroy, Instance_destroy,
      Transform_setMatrixMotionKey, Transform_setSRTMotionKey,
      GAS_prepareForBuild, GAS_rebuild, IAS_prepareForBuild, IAS_rebuild;
    autounfold with ops;
    solve [walk reg_leaf].
Qed.

End RegistryInvariant.

(* ===================================================================== *)
(** * What holds in every attainable world *)
(* ===================================================================== *)

Lemma session_world_attainable : @attainable optix7 session_world.
Proof. exists session_ops. reflexivity. Qed.

Lemma session_ops_all_return :
  @outcomes optix7 session_ops empty_world = replicate (length session_ops) true.
Proof. vm_compute. reflexivity. Qed.

Section AttainableTheorems.
Context `{OptixSDK}.

Lemma empty_world_Gsat P : Gsat P empty_world.
Proof. intros gi x E. cbn in E. rewrite lookup_empty in E. discriminate. Qed.

Lemma empty_world_Msat P : Msat P empty_world.
Proof. intros m x E. cbn in E. rewrite lookup_empty in E. discriminate. Qed.

Lemma empty_world_Tsat P : Tsat P empty_world.
Proof. intros t x E. cbn in E. rewrite lookup_empty in E. discriminate. Qed.

Lemma empty_world_Wsat PG PI : Wsat PG PI empty_world.
Proof. split; intros k x E; cbn in E; rewrite lookup_empty in E; discriminate. Qed.

Lemma empty_world_registries_ok : registries_ok empty_world.
Proof. intros s sc E. cbn in E. rewrite lookup_empty in E. discriminate. Qed.

(** X9.  In every attainable world, every geometry instance has one
    geometry flag for each of its material slots, so that the number of
    SBT records it reports is the number of slots the fill pass walks, and
    every slot has an entry for material set 0, the one
    [calcMaxRecordSizeAlign] and [fillSBTRecords] read first. *)
Theorem attainable_GeometryInstance_slots (w : World) (gi : nat) (x : GeometryInstance.t) :
  attainable w -> geomInsts w !! gi = Some x ->
  length (GeometryInstance.buildInputFlags x) = length (GeometryInstance.materials x) /\
  GeometryInstance_getNumSBTRecords x = size32 (GeometryInstance.materials x) /\
  Forall (fun slot => slot <> []) (GeometryInstance.materials x).
Proof.
  intros Hw E.
  pose proof (attainable_ind _ (empty_world_Gsat _) run_op_keeps_GeometryInstance_ok w Hw
                gi x E) as [[Hlen Hne] _].
  split; [exact Hlen |]. split; [| exact Hne].
  unfold GeometryInstance_getNumSBTRecords, size32. rewrite Hlen. reflexivity.
Qed.

(** X10.  In every attainable world, the user data a material, a geometry
    instance or a GAS stores is as long as the size of its [SizeAlign], the
    number of bytes the fill pass copies from it into each record. *)
Theorem attainable_userData_covers_size (w : World) :
  attainable w ->
  (forall m x, materials w !! m = Some x ->
     SizeAlign.size (Material.userDataSizeAlign x) <= Z.of_nat (length (Material.userData x))) /\
  (forall gi x, geomInsts w !! gi = Some x ->
     SizeAlign.size (GeometryInstance.userDataSizeAlign x)
       <= Z.of_nat (length (GeometryInstance.userData x))) /\
  (forall g x, gass w !! g = Some x ->
     SizeAlign.size (GAS.userDataSizeAlign x) <= Z.of_nat (length (GAS.userData x))).
Proof.
  intros Hw. split; [| split].
  - intros m x E.
    apply (attainable_ind _ (empty_world_Msat _) run_op_keeps_Material_ok w Hw m x E).
  - intros gi x E.
    apply (attainable_ind _ (empty_world_Gsat _) run_op_keeps_GeometryInstance_ok w Hw
             gi x E).
  - intros g x E.
    destruct (attainable_ind _ (empty_world_Wsat _ _) run_op_keeps_AS_ok w Hw) as [Hg _].
    apply (Hg g x E).
Qed.

(** X11.  In every attainable world, a GAS has no pair of geometry
    instance and pre-transform twice among its children and an IAS no
    instance twice; and an acceleration structure that is prepared for a
    build has one build input, or one instance record, for each child, the
    ones [rebuild] and [update] index by the position of the child. *)
Theorem attainable_children_and_build_inputs (w : World) :
  attainable w ->
  (forall g x, gass w !! g = Some x ->
     NoDup (GAS.children x) /\
     (GAS.readyToBuild x = true ->
      length (GAS.buildInputs x) = length (GAS.children x))) /\
  (forall a x, iass w !! a = Some x ->
     NoDup (IAS.children x) /\
     (IAS.readyToBuild x = true ->
      length (IAS.instances x) = length (IAS.children x))).
Proof.
  intros Hw.
  destruct (attainable_ind _ (empty_world_Wsat _ _) run_op_keeps_AS_ok w Hw) as [Hg Hi].
  split.
  - intros g x E. apply (Hg g x E).
  - intros a x E. apply (Hi a x E).
Qed.

(** X12.  In every attainable world, the data of a transform is of the
    SDK struct of its type.  A motion transform was configured for some
    number [n] of keys, two at least, and its options tell [n] reduced to
    [unsigned short] (1 for 65537 keys).  A matrix motion transform holds
    the keys of twelve floats its allocation has room for, at least two,
    which are [n] while [(n - 2) * 12] fits a [uint32_t]; an SRT motion
    transform holds the [n] SRT keys; a static transform holds two
    matrices of twelve floats. *)
Theorem attainable_Transform_data (w : World) (t : nat) (x : Transform.t) :
  attainable w -> transforms w !! t = Some x ->
  match Transform.type x with
  | MatrixMotion =>
      exists child o keys n,
        Transform.data x = DataMatrixMotion child o keys /\
        2 <= n /\
        mo_numKeys (Transform.options x) = u16 n /\
        Z.of_nat (length keys) = MatrixMotion_keysHeld n /\
        2 <= Z.of_nat (length keys) /\
        (n <= 357913943 -> Z.of_nat (length keys) = n) /\
        Forall (fun key => length key = 12%nat) keys
  | SRTMotion =>
      exists child o keys,
        Transform.data x = DataSRTMotion child o keys /\
        2 <= Z.of_nat (length keys) /\
        mo_numKeys (Transform.options x) = u16 (Z.of_nat (length keys))
  | Static =>
      exists child tr inv,
        Transform.data x = DataStatic child tr inv /\
        length tr = 12%nat /\ length inv = 12%nat
  | InvalidTransform => True
  end.
Proof.
  intros Hw E.
  pose proof (attainable_ind _ (empty_world_Tsat _) run_op_keeps_Transform_ok w Hw t x E)
    as Hx.
  cbv beta in Hx. unfold Transform_data_ok in Hx.
  destruct (Transform.type x); try exact Hx.
  destruct Hx as (child & o & keys & n & Hd & Hn & Hnk & Hlen & Hall).
  exists child, o, keys, n. split; [exact Hd |]. split; [exact Hn |].
  split; [exact Hnk |]. split; [exact Hlen |].
  split; [rewrite Hlen; apply MatrixMotion_keysHeld_ge |].
  split; [| exact Hall].
  intros Hsmall. rewrite Hlen. apply MatrixMotion_keysHeld_small. lia.
Qed.

(** X13.  In every attainable world, the registries of a scene hold no
    pointer twice, and every GAS, transform and IAS they hold is live and of
    that scene: the loops over the registries never follow a dangling
    pointer. *)
Theorem attainable_registries (w : World) (s : nat) (sc : Scene.t) :
  attainable w -> scenes w !! s = Some sc ->
  (NoDup (Scene.geomASs sc) /\
   forall g, g ∈ Scene.geomASs sc -> exists x, gass w !! g = Some x /\ GAS.scene x = s) /\
  (NoDup (Scene.transforms sc) /\
   forall t, t ∈ Scene.transforms sc ->
     exists x, transforms w !! t = Some x /\ Transform.scene x = s) /\
  (NoDup (Scene.instASs sc) /\
   forall a, a ∈ Scene.instASs sc -> exists x, iass w !! a = Some x /\ IAS.scene x = s).
Proof.
  intros Hw E.
  apply (attainable_ind _ empty_world_registries_ok run_op_keeps_registries w Hw s sc E).
Qed.

(** X14.  In every attainable world, [markDirty] of a GAS whose scene is
    live returns: afterwards the GAS is neither prepared for a build nor
    ready, so that [getHandle] throws, the layout of the scene is flagged
    out of date, and every IAS of the scene is dirty. *)
Theorem attainable_GAS_markDirty_cascades (w : World) (g : nat) (x : GAS.t) (sc : Scene.t) :
  attainable w -> gass w !! g = Some x -> scenes w !! GAS.scene x = Some sc ->
  exists w' x' sc',
    GAS_markDirty g w = (w', Ok tt) /\
    gass w' !! g = Some x' /\
    GAS.readyToBuild x' = false /\ GAS_isReady x' = false /\
    GAS_getHandle x' = Err (RuntimeError "Traversable handle is not ready.") /\
    GAS.children x' = GAS.children x /\
    scenes w' !! GAS.scene x = Some sc' /\
    Scene.sbtLayoutIsUpToDate sc' = false /\
    (forall a, a ∈ Scene.instASs sc ->
       exists y, iass w' !! a = Some y /\ is_dirty_ias y /\ IAS_isReady y = false).
Proof.
  intros Hw Ex Esc.
  pose proof (attainable_ind _ empty_world_registries_ok run_op_keeps_registries w Hw
                _ sc Esc) as (_ & _ & _ & Hlive).
  assert (Hall : forall a, a ∈ Scene.instASs sc -> is_Some (iass w !! a)).
  { intros a Ha. destruct (Hlive a Ha) as (y & Ey & _). eauto. }
  unfold GAS_markDirty. rewrite (GAS_Priv_markDirty_run g x sc w Ex Esc Hall).
  eexists _, _, _. split; [reflexivity |].
  unfold GAS_marked_dirty. cbn [gass scenes iass set_iass set_scenes set_gass].
  split; [apply lookup_insert_eq |].
  split; [reflexivity |]. split; [reflexivity |]. split; [reflexivity |].
  split; [reflexivity |].
  split; [apply lookup_insert_eq |]. split; [reflexivity |].
  intros a Ha. destruct (mark_dirty_all_elem _ (iass w) a Ha (Hall a Ha)) as (y & Ey & Hd).
  exists y. split; [exact Ey |]. split; [exact Hd |].
  destruct Hd as (_ & Hav & _ & Hc). unfold IAS_isReady. rewrite Hav, Hc. reflexivity.
Qed.

End AttainableTheorems.

Lemma attainable_GeometryInstance_slots_witness :
  exists x,
    geomInsts session_world !! 0%nat = Some x /\
    length (GeometryInstance.materials x) = 3%nat /\
    length (GeometryInstance.buildInputFlags x) = length (GeometryInstance.materials x) /\
    Forall (fun slot => slot <> []) (GeometryInstance.materials x).
Proof.
  destruct (geomInsts session_world !! 0%nat) as [x |] eqn:E;
    [| vm_compute in E; discriminate E].
  exists x. split; [reflexivity |].
  split; [vm_compute in E; injection E as <-; reflexivity |].
  destruct (@attainable_GeometryInstance_slots optix7 session_world 0%nat x
              session_world_attainable E) as (Hlen & _ & Hne).
  split; assumption.
Defined.

Lemma attainable_userData_covers_size_witness :
  exists m gi g,
    materials session_world !! 0%nat = Some m /\
    geomInsts session_world !! 0%nat = Some gi /\
    gass session_world !! 0%nat = Some g /\
    SizeAlign.size (Material.userDataSizeAlign m) = 8 /\
    8 <= Z.of_nat (length (Material.userData m)) /\
    SizeAlign.size (GeometryInstance.userDataSizeAlign gi)
      <= Z.of_nat (length (GeometryInstance.userData gi)) /\
    SizeAlign.size (GAS.userDataSizeAlign g) <= Z.of_nat (length (GAS.userData g)).
Proof.
  destruct (materials session_world !! 0%nat) as [m |] eqn:Em;
    [| vm_compute in Em; discriminate Em].
  destruct (geomInsts session_world !! 0%nat) as [gi |] eqn:Egi;
    [| vm_compute in Egi; discriminate Egi].
  destruct (gass session_world !! 0%nat) as [g |] eqn:Eg;
    [| vm_compute in Eg; discriminate Eg].
  exists m, gi, g. do 3 (split; [reflexivity |]).
  assert (Hsize : SizeAlign.size (Material.userDataSizeAlign m) = 8).
  { pose proof Em as Em'. vm_compute in Em'. injection Em' as <-. reflexivity. }
  destruct (@attainable_userData_covers_size optix7 session_world session_world_attainable)
    as (Hm & Hgi & Hg).
  split; [exact Hsize |]. split; [rewrite <- Hsize; apply (Hm _ _ Em) |].
  split; [apply (Hgi _ _ Egi) | apply (Hg _ _ Eg)].
Defined.

Lemma attainable_children_and_build_inputs_witness :
  exists g a,
    gass session_world !! 0%nat = Some g /\ iass session_world !! 0%nat = Some a /\
    length (GAS.children g) = 2%nat /\ length (GAS.buildInputs g) = 2%nat /\
    NoDup (GAS.children g) /\
    length (IAS.instances a) = length (IAS.children a).
Proof.
  destruct (gass session_world !! 0%nat) as [g |] eqn:Eg;
    [| vm_compute in Eg; discriminate Eg].
  destruct (iass session_world !! 0%nat) as [a |] eqn:Ea;
    [| vm_compute in Ea; discriminate Ea].
  exists g, a. do 2 (split; [reflexivity |]).
  assert (Hchildren : length (GAS.children g) = 2%nat /\ GAS.readyToBuild g = true).
  { pose proof Eg as Eg'. vm_compute in Eg'. injection Eg' as <-. split; reflexivity. }
  assert (Hready : IAS.readyToBuild a = true).
  { pose proof Ea as Ea'. vm_compute in Ea'. injection Ea' as <-. reflexivity. }
  destruct (@attainable_children_and_build_inputs optix7 session_world
              session_world_attainable) as (Hg & Ha).
  destruct (Hg _ _ Eg) as (Hnd & Hlen). destruct (Ha _ _ Ea) as (_ & Hlen').
  destruct Hchildren as (Hc & Hr).
  split; [exact Hc |]. split; [rewrite (Hlen Hr); exact Hc |].
  split; [exact Hnd | exact (Hlen' Hready)].
Defined.

Lemma attainable_Transform_data_witness :
  exists x child o keys n,
    transforms session_world !! 0%nat = Some x /\
    Transform.data x = DataMatrixMotion child o keys /\
    mo_numKeys (Transform.options x) = 3 /\
    u16 n = 3 /\
    Z.of_nat (length keys) = MatrixMotion_keysHeld n /\
    2 <= Z.of_nat (length keys) /\
    Forall (fun key => length key = 12%nat) keys.
Proof.
  destruct (transforms session_world !! 0%nat) as [x |] eqn:E;
    [| vm_compute in E; discriminate E].
  assert (Hty : Transform.type x = MatrixMotion /\ mo_numKeys (Transform.options x) = 3).
  { pose proof E as E'. vm_compute in E'. injection E' as <-. split; reflexivity. }
  pose proof (@attainable_Transform_data optix7 session_world 0%nat x
                session_world_attainable E) as Hx.
  destruct Hty as (Hty & Hn). rewrite Hty in Hx.
  destruct Hx as (child & o & keys & n & Hd & _ & Hnk & Hlen & Hge & _ & Hall).
  exists x, child, o, keys, n. split; [reflexivity |]. split; [exact Hd |].
  split; [exact Hn |]. split; [rewrite <- Hnk; exact Hn |].
  split; [exact Hlen |]. split; [exact Hge | exact Hall].
Defined.

Lemma attainable_registries_witness :
  exists sc x,
    scenes session_world !! 0%nat = Some sc /\
    Scene.instASs sc = [0%nat] /\
    iass session_world !! 0%nat = Some x /\ IAS.scene x = 0%nat.
Proof.
  destruct (scenes session_world !! 0%nat) as [sc |] eqn:E;
    [| vm_compute in E; discriminate E].
  assert (Hias : Scene.instASs sc = [0%nat]).
  { pose proof E as E'. vm_compute in E'. injection E' as <-. reflexivity. }
  destruct (@attainable_registries optix7 session_world 0%nat sc
              session_world_attainable E) as (_ & _ & _ & Hlive).
  destruct (Hlive 0%nat) as (x & Ex & Hs); [rewrite Hias; left |].
  exists sc, x. auto.
Defined.

Lemma attainable_GAS_markDirty_cascades_witness :
  exists x w' y,
    iass session_world !! 0%nat = Some x /\ @IAS_isReady x = true /\
    GAS_markDirty 0%nat session_world = (w', Ok tt) /\
    iass w' !! 0%nat = Some y /\ @IAS_isReady y = false.
Proof.
  destruct (gass session_world !! 0%nat) as [g |] eqn:Eg;
    [| vm_compute in Eg; discriminate Eg].
  destruct (scenes session_world !! 0%nat) as [sc |] eqn:Esc;
    [| vm_compute in Esc; discriminate Esc].
  destruct (iass session_world !! 0%nat) as [x |] eqn:Ex;
    [| vm_compute in Ex; discriminate Ex].
  assert (Hscene : GAS.scene g = 0%nat).
  { pose proof Eg as Eg'. vm_compute in Eg'. injection Eg' as <-. reflexivity. }
  assert (Hias : Scene.instASs sc = [0%nat]).
  { pose proof Esc as E'. vm_compute in E'. injection E' as <-. reflexivity. }
  assert (Hready : IAS_isReady x = true).
  { pose proof Ex as E'. vm_compute in E'. injection E' as <-. reflexivity. }
  rewrite <- Hscene in Esc.
  destruct (@attainable_GAS_markDirty_cascades optix7 session_world 0%nat g sc
              session_world_attainable Eg Esc)
    as (w' & g' & sc' & Hrun & _ & _ & _ & _ & _ & _ & _ & Hdirty).
  destruct (Hdirty 0%nat) as (y & Ey & _ & Hy); [rewrite Hias; left |].
  exists x, w', y. auto.
Defined.
